(** * DMRG sweeps over function trains (c3, [src/lib_clinalg/dmrg.c])

    A shallow embedding of the DMRG approximation routines of the
    Compressed Continuous Computation library and the properties of its
    sweep engine.

    - C [double] arithmetic is an interface ([Arith]); [binary64] is the
      IEEE 754 instance (primitive floats), [exactZ] is an exact one.
    - C [size_t] values are [Z] with the wrap-around modulo [2^64] written
      out; [int] is the 32-bit two's complement range.
    - The heap holds [struct FunctionTrain] objects and the [double **]
      accumulator arrays; a pointer is an index, [None] is [NULL].
    - Undefined behaviour (an access outside an array, a [NULL] or dangling
      pointer) is a [Fault]. *)

From Stdlib Require Import ZArith List Lia Bool String.
From Stdlib Require Import Floats.PrimFloat.
From stdpp Require Import base tactics option list.

#[local] Set Warnings "-clear-no-such-hyp".

Local Open Scope Z_scope.

(** ** Arithmetic *)

(** The operations the routines use on [double]. *)
Class Arith (D : Type) : Type := {
  dzero : D;
  done_ : D;
  dten : D;
  dadd : D -> D -> D;
  dmul : D -> D -> D;
  dltb : D -> D -> bool
}.

#[export] Instance binary64 : Arith float := {
  dzero := 0%float;
  done_ := 1%float;
  dten := 10%float;
  dadd := PrimFloat.add;
  dmul := PrimFloat.mul;
  dltb := PrimFloat.ltb
}.

#[export] Instance exactZ : Arith Z := {
  dzero := 0;
  done_ := 1;
  dten := 10;
  dadd := Z.add;
  dmul := Z.mul;
  dltb := Z.ltb
}.

(** ** Machine integers *)

Definition SIZE_MAX : Z := 2 ^ 64 - 1.

(** Reduction of an integer to [size_t]. *)
Definition wrap (z : Z) : Z := z mod 2 ^ 64.

Definition size_add (a b : Z) : Z := wrap (a + b).
Definition size_sub (a b : Z) : Z := wrap (a - b).
Definition size_mul (a b : Z) : Z := wrap (a * b).

(** Conversion of a [size_t] to [int] (two's complement, 32 bits). *)
Definition to_int (z : Z) : Z := (z + 2 ^ 31) mod 2 ^ 32 - 2 ^ 31.

(** [l[i]] for a C index: outside the array there is no value. *)
Definition ld {A : Type} (l : list A) (i : Z) : option A :=
  if bool_decide (0 <= i) then l !! Z.to_nat i else None.

(** [l[i] = x]. *)
Definition st {A : Type} (l : list A) (i : Z) (x : A) : option (list A) :=
  if bool_decide (0 <= i < Z.of_nat (length l))
  then Some (<[Z.to_nat i := x]> l) else None.

(** [calloc_double(n)]. *)
Definition calloc_double {D : Type} `{Arith D} (n : Z) : list D :=
  replicate (Z.to_nat n) dzero.

(** Counted loops over options: the body may fail, which ends the loop. *)
Fixpoint for_each {I S : Type} (l : list I) (body : I -> S -> option S)
    (s : S) : option S :=
  match l with
  | [] => Some s
  | i :: l' => match body i s with
               | Some s' => for_each l' body s'
               | None => None
               end
  end.

(** [for (i = 0; i < n; i++) body]. *)
Definition for_loop {S : Type} (n : Z) (body : Z -> S -> option S) (s : S)
  : option S :=
  for_each (seqZ 0 n) body s.

(** ** Data model *)

Section Model.

Context {D GF : Type} `{Arith D}.

(** [struct Qmarray]: [funcs] holds [nrows * ncols] functions, entry
    [(i, j)] at offset [j * nrows + i]. *)
Record Qmarray : Type := {
  nrows : Z;
  ncols : Z;
  funcs : list GF
}.

(** [struct FunctionTrain]; a [NULL] core is [None]. *)
Record FunctionTrain : Type := {
  dim : Z;
  ranks : list Z;
  cores : list (option Qmarray)
}.

(** The routines of the library that [dmrg.c] calls and that are defined
    in other files: parameters of the development.  [cblas_dgemm] stands
    for the column-major call without transposition,
    [cblas_dgemm m n k alpha A lda B ldb beta C ldc];
    [qmarray_householder_simple dir A buf] returns the orthonormal block
    and the contents of the caller's buffer;  [truncated_svd] returns the
    rank and the buffers [u], [s], [vt] it allocates;
    [function_train_orthor] returns the train it allocates, and what it
    leaves in the storage of its argument is not modelled. *)
Record Collab : Type := {
  generic_function_inner : GF -> GF -> D;
  qmam : Qmarray -> list D -> Z -> Qmarray;
  mqma : list D -> Qmarray -> Z -> Qmarray;
  qmarray_householder_simple : string -> Qmarray -> list D -> Qmarray * list D;
  cblas_dgemm :
    Z -> Z -> Z -> D -> list D -> Z -> list D -> Z -> D -> list D -> Z -> list D;
  truncated_svd : Z -> Z -> Z -> list D -> D -> Z * list D * list D * list D;
  function_train_orthor : FunctionTrain -> FunctionTrain
}.

(** ** Memory and effects *)

(** The heap: the train objects and the [double **] arrays, each by its
    address; a freed object is [None].  A slot of an array holds a
    [double *]: a buffer, or [NULL] ([None]). *)
Record state : Type := {
  trains : list (option FunctionTrain);
  arrays : list (option (list (option (list D))))
}.

(** A pointer to a train; [None] is [NULL]. *)
Definition ptr : Type := option nat.

Inductive fault : Type :=
| SlotOutOfRange (arr : nat) (i : Z)
| NullBuffer (arr : nat) (i : Z)
| ElemOutOfRange
| CoreOutOfRange (i : Z)
| NullCore (i : Z)
| RankOutOfRange (i : Z)
| BadTrain (p : ptr)
| BadArray (arr : nat).

(** What the routines print. *)
Inductive event : Type :=
| PrintVerboseWorks
| PrintNumberOfSweeps (n : Z)
| PrintStartingRanks (r : list Z)
| PrintIteration (ii last : Z)
| PrintDiffIsSmall.

Inductive outcome (A : Type) : Type :=
| Ok (a : A) (s : state) (out : list event)
| Fault (f : fault).
Arguments Ok {A} a s out.
Arguments Fault {A} f.

Definition M (A : Type) : Type := state -> outcome A.

Definition ret {A : Type} (a : A) : M A := fun s => Ok a s [].

Definition bind {A B : Type} (m : M A) (k : A -> M B) : M B :=
  fun s =>
    match m s with
    | Ok a s1 out1 =>
        match k a s1 with
        | Ok b s2 out2 => Ok b s2 (out1 ++ out2)
        | Fault f => Fault f
        end
    | Fault f => Fault f
    end.

Definition raise {A : Type} (f : fault) : M A := fun _ => Fault f.

Definition printf (e : event) : M unit := fun s => Ok tt s [e].

(** A kernel over buffers, whose only fault is an access outside one. *)
Definition lift {A : Type} (o : option A) : M A :=
  match o with
  | Some a => ret a
  | None => raise ElemOutOfRange
  end.

End Model.

Arguments Qmarray GF : clear implicits.
Arguments FunctionTrain GF : clear implicits.
Arguments Collab D GF : clear implicits.
Arguments state D GF : clear implicits.
Arguments outcome D GF A : clear implicits.
Arguments M D GF A : clear implicits.
Arguments Ok {D GF A} a s out.
Arguments Fault {D GF A} f.

(** A [double *] held in an accumulator slot, and an array of slots. *)
Abbreviation buffer D := (option (list D)).
Abbreviation slots D := (list (option (list D))).

Notation "x <- m ;; k" := (bind m (fun x => k))
  (at level 100, m at next level, right associativity,
   format "'[v' x  <-  m  ;;  '/' k ']'").
Notation "m ;;; k" := (bind m (fun _ => k))
  (at level 100, right associativity, format "'[v' m  ;;;  '/' k ']'").

(** ** The routines of [dmrg.c] *)

Section Code.

Context {D GF : Type} `{Arith D}.
Variable K : Collab D GF.

#[local] Abbreviation M := (M D GF).
#[local] Abbreviation state := (state D GF).

(** *** Heap operations *)

(** [*p] for a train pointer. *)
Definition get_train (p : ptr) : M (FunctionTrain GF) :=
  fun s =>
    match p with
    | Some n => match trains s !! n with
                | Some (Some ft) => Ok ft s []
                | _ => Fault (BadTrain p)
                end
    | None => Fault (BadTrain p)
    end.

Definition put_train (p : ptr) (ft : FunctionTrain GF) : M unit :=
  fun s =>
    match p with
    | Some n => match trains s !! n with
                | Some (Some _) =>
                    Ok tt {| trains := <[n := Some ft]> (trains s);
                             arrays := arrays s |} []
                | _ => Fault (BadTrain p)
                end
    | None => Fault (BadTrain p)
    end.

(** A new train object, at a fresh address. *)
Definition new_train (ft : FunctionTrain GF) : M ptr :=
  fun s =>
    Ok (Some (length (trains s)))
       {| trains := trains s ++ [Some ft]; arrays := arrays s |} [].

(** A train of [d] cores, none allocated yet, and [d + 1] ranks. *)
Definition blank_train (d : Z) : FunctionTrain GF :=
  {| dim := d;
     ranks := replicate (Z.to_nat (size_add d 1)) 0;
     cores := replicate (Z.to_nat d) None |}.

(** Modelled from the spec: [function_train_alloc], which is not in
    [dmrg.c]; it returns a new blank train. *)
Definition function_train_alloc (d : Z) : M ptr :=
  new_train (blank_train d).

(** Modelled from the spec: [function_train_free], which is not in
    [dmrg.c]; it releases the train and its cores, and accepts [NULL]
    (line 436 passes it on the first iteration). *)
Definition function_train_free (p : ptr) : M unit :=
  fun s =>
    match p with
    | None => Ok tt s []
    | Some n => match trains s !! n with
                | Some (Some _) =>
                    Ok tt {| trains := <[n := None]> (trains s);
                             arrays := arrays s |} []
                | _ => Fault (BadTrain p)
                end
    end.

(** Modelled from the spec: [function_train_copy], which is not in
    [dmrg.c]; a deep copy at a fresh address. *)
Definition function_train_copy (p : ptr) : M ptr :=
  ft <- get_train p ;; new_train ft.

(** [ft->cores[i]], dereferenced. *)
Definition core_at (ft : FunctionTrain GF) (i : Z) : M (Qmarray GF) :=
  match ld (cores ft) i with
  | Some (Some q) => ret q
  | Some None => raise (NullCore i)
  | None => raise (CoreOutOfRange i)
  end.

(** [p->ranks[i] = r]. *)
Definition set_rank (p : ptr) (i r : Z) : M unit :=
  ft <- get_train p ;;
  match st (ranks ft) i r with
  | Some rs => put_train p {| dim := dim ft; ranks := rs; cores := cores ft |}
  | None => raise (RankOutOfRange i)
  end.

(** [p->cores[i] = q]. *)
Definition set_core (p : ptr) (i : Z) (q : Qmarray GF) : M unit :=
  ft <- get_train p ;;
  match st (cores ft) i (Some q) with
  | Some cs => put_train p {| dim := dim ft; ranks := ranks ft; cores := cs |}
  | None => raise (CoreOutOfRange i)
  end.

(** [malloc(n * sizeof(double))] for a [double **]: [n] slots.  Their
    contents are indeterminate in C; the callers store [NULL] in each
    before any read, and the model starts them at [NULL]. *)
Definition malloc_slots (n : Z) : M nat :=
  fun s =>
    Ok (length (arrays s))
       {| trains := trains s;
          arrays := arrays s ++ [Some (replicate (Z.to_nat n) None)] |} [].

(** [free(arr)] for a [double **]. *)
Definition free_slots (arr : nat) : M unit :=
  fun s =>
    match arrays s !! arr with
    | Some (Some _) =>
        Ok tt {| trains := trains s; arrays := <[arr := None]> (arrays s) |} []
    | _ => Fault (BadArray arr)
    end.

(** [arr[i]], the pointer. *)
Definition slot_get (arr : nat) (i : Z) : M (buffer D) :=
  fun s =>
    match arrays s !! arr with
    | Some (Some a) => match ld a i with
                       | Some b => Ok b s []
                       | None => Fault (SlotOutOfRange arr i)
                       end
    | _ => Fault (BadArray arr)
    end.

(** [arr[i] = b]. *)
Definition slot_set (arr : nat) (i : Z) (b : buffer D) : M unit :=
  fun s =>
    match arrays s !! arr with
    | Some (Some a) =>
        match st a i b with
        | Some a' =>
            Ok tt {| trains := trains s;
                     arrays := <[arr := Some a']> (arrays s) |} []
        | None => Fault (SlotOutOfRange arr i)
        end
    | _ => Fault (BadArray arr)
    end.

(** [arr[i]] passed to a routine that reads the buffer. *)
Definition buf_at (arr : nat) (i : Z) : M (list D) :=
  b <- slot_get arr i ;;
  match b with
  | Some l => ret l
  | None => raise (NullBuffer arr i)
  end.

(** [free(arr[i]); arr[i] = NULL;] *)
Definition slot_free (arr : nat) (i : Z) : M unit :=
  _ <- slot_get arr i ;; slot_set arr i None.

(** *** [dmrg_update_right] (lines 59-82) *)

Definition dmrg_update_right (psikp : list D) (left right : Qmarray GF)
  : option (list D) :=
  let val : list D := calloc_double (size_mul (nrows left) (nrows right)) in
  let nrows_ := nrows left in
  let ncols_ := nrows right in
  for_loop ncols_ (fun ii =>
    for_loop nrows_ (fun jj =>
      for_loop (ncols left) (fun kk =>
        for_loop (ncols right) (fun ll val =>
          p ← ld psikp (size_add (size_mul ll (ncols left)) kk);
          f ← ld (funcs left) (size_add (size_mul kk (nrows left)) jj);
          g ← ld (funcs right) (size_add (size_mul ll (nrows right)) ii);
          v ← ld val (size_add (size_mul ii nrows_) jj);
          st val (size_add (size_mul ii nrows_) jj)
             (dadd v (dmul p (generic_function_inner K f g))))))) val.

(** *** [dmrg_update_left] (lines 126-153) *)

Definition dmrg_update_left (phik : list D) (left right : Qmarray GF)
  : option (list D) :=
  let nrows_ := ncols left in
  let ncols_ := ncols right in
  let val : list D := calloc_double (size_mul nrows_ ncols_) in
  for_loop ncols_ (fun ii =>
    for_loop nrows_ (fun jj =>
      for_loop (nrows left) (fun kk =>
        for_loop (nrows right) (fun ll val =>
          p ← ld phik (size_add (size_mul ll (nrows left)) kk);
          f ← ld (funcs left) (size_add (size_mul jj (nrows left)) kk);
          g ← ld (funcs right) (size_add (size_mul ii (nrows right)) ll);
          v ← ld val (size_add (size_mul ii nrows_) jj);
          st val (size_add (size_mul ii nrows_) jj)
             (dadd v (dmul p (generic_function_inner K f g))))))) val.


(** *** [dmrg_update_all_right] (lines 94-112) *)

(** [mats[ii] = dmrg_update_right(mats[ii+1], a->cores[ii+2], b->cores[ii+2])] *)
Definition update_right_at (a b : ptr) (mats : nat) (ii : Z) : M unit :=
  psikp <- buf_at mats (size_add ii 1) ;;
  fa <- get_train a ;;
  left <- core_at fa (size_add ii 2) ;;
  fb <- get_train b ;;
  right <- core_at fb (size_add ii 2) ;;
  val <- lift (dmrg_update_right psikp left right) ;;
  slot_set mats ii (Some val).

(** [for (ii = a->dim-3; ii > 0; ii--)]: the body runs once for each value
    of the counter from its start down to 1, [fuel] of them. *)
Fixpoint all_right_loop (fuel : nat) (a b : ptr) (mats : nat) (ii : Z)
  : M unit :=
  match fuel with
  | O => ret tt
  | S fuel' =>
      slot_free mats ii ;;;
      update_right_at a b mats ii ;;;
      all_right_loop fuel' a b mats (size_sub ii 1)
  end.

Definition dmrg_update_all_right (a b : ptr) (mats : nat) : M unit :=
  fa <- get_train a ;;
  let top := size_sub (dim fa) 2 in
  m <- slot_get mats top ;;
  (match m with
   | Some _ => slot_free mats top
   | None => ret tt
   end) ;;;
  slot_set mats top (Some [done_]) ;;;
  let start := size_sub (dim fa) 3 in
  all_right_loop (Z.to_nat start) a b mats start ;;;
  slot_free mats 0 ;;;
  update_right_at a b mats 0.

(** *** [dmrg_sweep_lr] (lines 166-263) *)

(** Lines 232-236: row [jj] of [vt] (stored with leading dimension [rank])
    is multiplied by [s[jj]]. *)
Definition scale_vt (dimtemp rank : Z) (s vt : list D) : option (list D) :=
  for_loop dimtemp (fun kk =>
    for_loop rank (fun jj vt =>
      x ← ld vt (size_add (size_mul kk rank) jj);
      sj ← ld s jj;
      st vt (size_add (size_mul kk rank) jj) (dmul x sj))) vt.

(** The body of the loop of [dmrg_sweep_lr] for counter [ii] and the
    current [lsize]; it returns the next [lsize]. *)
Definition sweep_lr_step (a b : ptr) (phi psi : nat) (epsilon : D)
    (na : ptr) (ii lsize : Z) : M Z :=
  fa <- get_train a ;;
  fb <- get_train b ;;
  cb <- core_at fb ii ;;
  let dimtemp := ncols cb in
  rsize <- (if bool_decide (ii = size_sub (dim fa) 2) then ret 1
            else ca1 <- core_at fa (size_add ii 1) ;; ret (ncols ca1)) ;;
  cb1 <- core_at fb (size_add ii 1) ;;
  psi_ii <- buf_at psi ii ;;
  let newcorer := qmam K cb1 psi_ii rsize in
  let '(templ, L) :=
    qmarray_householder_simple K "LQ" newcorer
      (calloc_double (size_mul dimtemp dimtemp)) in
  phi_ii <- buf_at phi ii ;;
  let newcorel := mqma K phi_ii cb lsize in
  let '(tempr, R) :=
    qmarray_householder_simple K "QR" newcorel
      (calloc_double (size_mul dimtemp dimtemp)) in
  let RL :=
    cblas_dgemm K dimtemp dimtemp dimtemp done_ R dimtemp L dimtemp dzero
      (calloc_double (size_mul dimtemp dimtemp)) dimtemp in
  let '(rank, u, s, vt) :=
    truncated_svd K dimtemp dimtemp dimtemp RL epsilon in
  set_rank na (size_add ii 1) rank ;;;
  set_core na ii (qmam K tempr u rank) ;;;
  (if bool_decide (size_add ii 1 = size_sub (dim fa) 1) then
     vt' <- lift (scale_vt dimtemp rank s vt) ;;
     set_core na (size_add ii 1) (mqma K vt' templ rank)
   else ret tt) ;;;
  (if bool_decide (ii < size_sub (dim fa) 2) then
     slot_free phi (size_add ii 1) ;;;
     phik <- buf_at phi ii ;;
     fna <- get_train na ;;
     left <- core_at fna ii ;;
     val <- lift (dmrg_update_left phik left cb) ;;
     slot_set phi (size_add ii 1) (Some val)
   else ret tt) ;;;
  ca <- core_at fa ii ;;
  ret (ncols ca).

(** [for (ii = 0; ii < a->dim-1; ii++)], [fuel] iterations left. *)
Fixpoint sweep_lr_loop (fuel : nat) (a b : ptr) (phi psi : nat)
    (epsilon : D) (na : ptr) (ii lsize : Z) : M unit :=
  match fuel with
  | O => ret tt
  | S fuel' =>
      lsize' <- sweep_lr_step a b phi psi epsilon na ii lsize ;;
      sweep_lr_loop fuel' a b phi psi epsilon na (size_add ii 1) lsize'
  end.

Definition dmrg_sweep_lr (a b : ptr) (phi psi : nat) (epsilon : D) : M ptr :=
  fa <- get_train a ;;
  na <- function_train_alloc (dim fa) ;;
  set_rank na 0 1 ;;;
  fna <- get_train na ;;
  set_rank na (dim fna) 1 ;;;
  p0 <- slot_get phi 0 ;;
  (match p0 with
   | None => slot_set phi 0 (Some [done_])
   | Some _ => ret tt
   end) ;;;
  sweep_lr_loop (Z.to_nat (size_sub (dim fa) 1)) a b phi psi epsilon na 0 1 ;;;
  ret na.

(** *** [dmrg_sweep_rl] (lines 276-379) *)

(** Lines 346-350: column [jj] of [u] (leading dimension [dimtemp]) is
    multiplied by [s[jj]]. *)
Definition scale_u (dimtemp rank : Z) (s u : list D) : option (list D) :=
  for_loop rank (fun jj =>
    for_loop dimtemp (fun kk u =>
      x ← ld u (size_add (size_mul jj dimtemp) kk);
      sj ← ld s jj;
      st u (size_add (size_mul jj dimtemp) kk) (dmul x sj))) u.

(** The body of the loop of [dmrg_sweep_rl] for the [int] counter [ii] and
    the current [rsize]; it returns the next [rsize]. *)
Definition sweep_rl_step (a b : ptr) (phi psi : nat) (epsilon : D)
    (na : ptr) (ii rsize : Z) : M Z :=
  fa <- get_train a ;;
  fb <- get_train b ;;
  cb <- core_at fb ii ;;
  let dimtemp := ncols cb in
  lsize <- (if bool_decide (ii = 0) then ret 1
            else ca0 <- core_at fa (ii - 1) ;; ret (ncols ca0)) ;;
  cb1 <- core_at fb (ii + 1) ;;
  psi_ii <- buf_at psi ii ;;
  let newcorer := qmam K cb1 psi_ii rsize in
  let '(templ, L) :=
    qmarray_householder_simple K "LQ" newcorer
      (calloc_double (size_mul dimtemp dimtemp)) in
  phi_ii <- buf_at phi ii ;;
  let newcorel := mqma K phi_ii cb lsize in
  let '(tempr, R) :=
    qmarray_householder_simple K "QR" newcorel
      (calloc_double (size_mul dimtemp dimtemp)) in
  let RL :=
    cblas_dgemm K dimtemp dimtemp dimtemp done_ R dimtemp L dimtemp dzero
      (calloc_double (size_mul dimtemp dimtemp)) dimtemp in
  let '(rank, u, s, vt) :=
    truncated_svd K dimtemp dimtemp dimtemp RL epsilon in
  set_rank na (ii + 1) rank ;;;
  set_core na (ii + 1) (mqma K vt templ rank) ;;;
  (if bool_decide (ii = 0) then
     u' <- lift (scale_u dimtemp rank s u) ;;
     set_core na ii (qmam K tempr u' rank)
   else ret tt) ;;;
  (if bool_decide (ii > 0) then
     slot_free psi (ii - 1) ;;;
     psik <- buf_at psi ii ;;
     fna <- get_train na ;;
     right <- core_at fna (ii + 1) ;;
     val <- lift (dmrg_update_right psik cb1 right) ;;
     slot_set psi (ii - 1) (Some val)
   else ret tt) ;;;
  ca1 <- core_at fa (ii + 1) ;;
  ret (nrows ca1).

(** [for (ii = a->dim-2; ii > -1; ii--)], [fuel] iterations left. *)
Fixpoint sweep_rl_loop (fuel : nat) (a b : ptr) (phi psi : nat)
    (epsilon : D) (na : ptr) (ii rsize : Z) : M unit :=
  match fuel with
  | O => ret tt
  | S fuel' =>
      rsize' <- sweep_rl_step a b phi psi epsilon na ii rsize ;;
      sweep_rl_loop fuel' a b phi psi epsilon na (ii - 1) rsize'
  end.

Definition dmrg_sweep_rl (a b : ptr) (phi psi : nat) (epsilon : D) : M ptr :=
  fa <- get_train a ;;
  na <- function_train_alloc (dim fa) ;;
  set_rank na 0 1 ;;;
  fna <- get_train na ;;
  set_rank na (dim fna) 1 ;;;
  let top := size_sub (dim fa) 2 in
  p <- slot_get psi top ;;
  (match p with
   | None => slot_set psi top (Some [done_])
   | Some _ => ret tt
   end) ;;;
  let start := to_int top in
  sweep_rl_loop (Z.to_nat (start + 1)) a b phi psi epsilon na start 1 ;;;
  ret na.

(** *** [dmrg_sweep_lrl] (lines 392-401) *)

Definition dmrg_sweep_lrl (a b : ptr) (phi psi : nat) (epsilon : D) : M ptr :=
  temp <- dmrg_sweep_lr a b phi psi epsilon ;;
  na <- dmrg_sweep_rl temp b phi psi epsilon ;;
  function_train_free temp ;;;
  ret na.

(** *** [dmrg_approx] (lines 409-460) *)

(** Lines 417-420. *)
Fixpoint null_loop (fuel : nat) (phi psi : nat) (ii : Z) : M unit :=
  match fuel with
  | O => ret tt
  | S fuel' =>
      slot_set phi ii None ;;;
      slot_set psi ii None ;;;
      null_loop fuel' phi psi (size_add ii 1)
  end.

(** Lines 452-455. *)
Fixpoint free_loop (fuel : nat) (phi psi : nat) (ii : Z) : M unit :=
  match fuel with
  | O => ret tt
  | S fuel' =>
      slot_free phi ii ;;;
      slot_free psi ii ;;;
      free_loop fuel' phi psi (size_add ii 1)
  end.

(** Lines 432-450, [fuel] iterations left; the loop carries [ao] and [na]. *)
Fixpoint approx_loop (fuel : nat) (b : ptr) (phi psi : nat)
    (delta : D) (max_sweeps verbose : Z) (epsilon : D)
    (ii : Z) (ao na : ptr) : M (ptr * ptr) :=
  match fuel with
  | O => ret (ao, na)
  | S fuel' =>
      (if bool_decide (verbose > 0)
       then printf (PrintIteration ii (size_sub max_sweeps 1))
       else ret tt) ;;;
      function_train_free na ;;;
      na' <- dmrg_sweep_lrl ao b phi psi epsilon ;;
      let diff : D := dten in
      function_train_free ao ;;;
      (if dltb diff delta then printf PrintDiffIsSmall else ret tt) ;;;
      ao' <- function_train_copy na' ;;
      approx_loop fuel' b phi psi delta max_sweeps verbose epsilon
        (size_add ii 1) ao' na'
  end.

(** [function_train_orthor], defined in another file, is taken to return
    a new train, the right-orthogonalised guess.  The header documents the
    guess [a] as destroyed: what the call leaves at [a] is not modelled,
    and nothing is to be read off the train at [a] after a run; the
    routine reads [a->dim] before the call and does not use [a] after it.
    [max_sweeps] is a [size_t], and the loop of line 432 runs [max_sweeps]
    times. *)
Definition dmrg_approx (a b : ptr) (delta : D) (max_sweeps verbose : Z)
    (epsilon : D) : M ptr :=
  fa <- get_train a ;;
  let dim_ := dim fa in
  ao <- new_train (function_train_orthor K fa) ;;
  phi <- malloc_slots (size_sub dim_ 1) ;;
  psi <- malloc_slots (size_sub dim_ 1) ;;
  null_loop (Z.to_nat (size_sub dim_ 1)) phi psi 0 ;;;
  dmrg_update_all_right b ao psi ;;;
  (if bool_decide (verbose = 2) then
     printf PrintVerboseWorks ;;;
     printf (PrintNumberOfSweeps max_sweeps) ;;;
     fao <- get_train ao ;;
     printf (PrintStartingRanks (take (Z.to_nat (size_add dim_ 1)) (ranks fao)))
   else ret tt) ;;;
  r <- approx_loop (Z.to_nat max_sweeps) b phi psi delta max_sweeps verbose
         epsilon 0 ao None ;;
  let '(ao', na) := r in
  function_train_free ao' ;;;
  free_loop (Z.to_nat (size_sub dim_ 1)) phi psi 0 ;;;
  free_slots phi ;;;
  free_slots psi ;;;
  ret na.

End Code.

(** * Assertions *)

Section Assertions.

Context {D GF : Type} `{Arith D}.

#[local] Abbreviation M := (M D GF).
#[local] Abbreviation state := (state D GF).

(** [wp F m s Q]: run from [s], [m] ends in a result and a state that
    satisfy [Q], or in a fault that satisfies [F]. *)
Definition wp {A : Type} (F : fault -> Prop) (m : M A) (s : state)
    (Q : A -> state -> Prop) : Prop :=
  match m s with
  | Ok a s' _ => Q a s'
  | Fault f => F f
  end.

(** The buffer pointer in slot [i] of array [arr], when there is one. *)
Definition slot_of (s : state) (arr : nat) (i : Z) : option (buffer D) :=
  match arrays s !! arr with
  | Some (Some a) => ld a i
  | _ => None
  end.

(** The train object at address [n], when it is live. *)
Definition train_of (s : state) (n : nat) : option (FunctionTrain GF) :=
  match trains s !! n with
  | Some (Some ft) => Some ft
  | _ => None
  end.

(** The array behind [arr], when it is live. *)
Definition array_of (s : state) (arr : nat) : option (slots D) :=
  match arrays s !! arr with
  | Some (Some a) => Some a
  | _ => None
  end.

(** Between [s] and [s'], the trains at addresses below [n] were left as
    they were, every train object kept its state (live or freed) and its
    [dim], every array kept its length, and the only accumulator slots
    written are those of [W]. *)
Definition touches (n : nat) (W : nat -> Z -> Prop) (s s' : state) : Prop :=
  (forall p o, trains s !! p = Some o ->
     exists o', trains s' !! p = Some o' /\ dim <$> o' = dim <$> o) /\
  (forall p, (p < n)%nat -> trains s' !! p = trains s !! p) /\
  (forall arr, length <$> array_of s' arr = length <$> array_of s arr) /\
  (forall arr i, ~ W arr i -> slot_of s' arr i = slot_of s arr i).

(** [m] leaves every train object as it is. *)
Definition keeps_trains {A : Type} (m : M A) : Prop :=
  forall s, wp (fun _ => True) m s (fun _ s' => trains s' = trains s).

(** The state after the allocation of a train. *)
Definition with_train (s : state) (ft : FunctionTrain GF) : state :=
  {| trains := trains s ++ [Some ft]; arrays := arrays s |}.

(** Faults other than an access outside an accumulator array. *)
Definition in_bounds (f : fault) : Prop :=
  match f with
  | SlotOutOfRange _ _ => False
  | _ => True
  end.

(** The array [mats] is live and has [n] slots. *)
Definition has_slots (mats : nat) (n : Z) (s : state) : Prop :=
  exists l, array_of s mats = Some l /\ Z.of_nat (length l) = n.

End Assertions.

(** * Specifications *)

Section Specifications.

Context {D GF : Type} `{Arith D}.
Variable K : Collab D GF.

#[local] Abbreviation state := (state D GF).

(** ** The contraction of an accumulator with two cores (C3) *)

(** [P[b, a]] for an accumulator with [cols] entries per row. *)
Definition acc_at (P : list D) (cols b a : Z) : option D :=
  ld P (b * cols + a).

(** The function [q(i, j)] of a block. *)
Definition fn_at (q : Qmarray GF) (i j : Z) : option GF :=
  ld (funcs q) (j * nrows q + i).

(** The sum of the terms [ts] added to [v0] one after the other, when all
    of them are defined. *)
Definition osum (v0 : D) (ts : list (option D)) : option D :=
  foldl (fun acc t => x ← acc; y ← t; Some (dadd x y)) (Some v0) ts.

(** [P[b, a] * inner(L(rowL, a), R(rowR, b))] *)
Definition contract_term (P : list D) (L R : Qmarray GF) (rowL rowR : Z)
    (ab : Z * Z) : option D :=
  p ← acc_at P (ncols L) ab.2 ab.1;
  f ← fn_at L rowL ab.1;
  g ← fn_at R rowR ab.2;
  Some (dmul p (generic_function_inner K f g)).

(** The sum over the index pairs [(a, b)], [a] a column of [L] and [b] a
    column of [R], taken in lexicographic order from [0.0]. *)
Definition contract_entry (P : list D) (L R : Qmarray GF) (rowL rowR : Z)
  : option D :=
  osum dzero (contract_term P L R rowL rowR <$>
              list_prod (seqZ 0 (ncols L)) (seqZ 0 (ncols R))).

(** [val] is [contract(P, L, R)]: one entry per pair of a row of [L] and a
    row of [R], the entry of [(rowL, rowR)] at offset
    [rowR * nrows L + rowL]. *)
Definition is_contract (P : list D) (L R : Qmarray GF) (val : list D) : Prop :=
  Z.of_nat (length val) = nrows L * nrows R /\
  forall rowL rowR, 0 <= rowL < nrows L -> 0 <= rowR < nrows R ->
    exists x, ld val (rowR * nrows L + rowL) = Some x /\
              contract_entry P L R rowL rowR = Some x.

(** ** The chain invariants of a train *)

(** A block of [nrows x ncols] functions, of sizes that [size_t] products
    hold. *)
Definition wf_core (q : Qmarray GF) : Prop :=
  1 <= nrows q < 2 ^ 31 /\ 1 <= ncols q < 2 ^ 31 /\
  Z.of_nat (length (funcs q)) = nrows q * ncols q.

(** [ranks[0] = ranks[dim] = 1] and [cores[k]] is a
    [ranks[k] x ranks[k+1]] block. *)
Definition chain (ft : FunctionTrain GF) : Prop :=
  Z.of_nat (length (ranks ft)) = dim ft + 1 /\
  Z.of_nat (length (cores ft)) = dim ft /\
  ld (ranks ft) 0 = Some 1 /\
  ld (ranks ft) (dim ft) = Some 1 /\
  forall k, 0 <= k < dim ft ->
    exists q, ld (cores ft) k = Some (Some q) /\ wf_core q /\
              ld (ranks ft) k = Some (nrows q) /\
              ld (ranks ft) (k + 1) = Some (ncols q).

(** The same as tests. *)
Definition wf_coreb (q : Qmarray GF) : bool :=
  bool_decide (1 <= nrows q < 2 ^ 31) && bool_decide (1 <= ncols q < 2 ^ 31)
  && bool_decide (Z.of_nat (length (funcs q)) = nrows q * ncols q).

Definition chainb (ft : FunctionTrain GF) : bool :=
  bool_decide (Z.of_nat (length (ranks ft)) = dim ft + 1)
  && bool_decide (Z.of_nat (length (cores ft)) = dim ft)
  && bool_decide (ld (ranks ft) 0 = Some 1)
  && bool_decide (ld (ranks ft) (dim ft) = Some 1)
  && forallb (fun k =>
       match ld (cores ft) k with
       | Some (Some q) =>
           wf_coreb q
           && bool_decide (ld (ranks ft) k = Some (nrows q))
           && bool_decide (ld (ranks ft) (k + 1) = Some (ncols q))
       | _ => false
       end) (seqZ 0 (dim ft)).

(** ** The right overlaps (C3) *)

(** In [s], slot [k] of [mats] holds the contraction of slot [k + 1] with
    core [k + 2] of the target [ta] and core [k + 2] of the guess [tb]. *)
Definition overlap_at (s : state) (mats : nat)
    (ta tb : FunctionTrain GF) (k : Z) : Prop :=
  exists P L R val,
    slot_of s mats (k + 1) = Some (Some P) /\
    ld (cores ta) (k + 2) = Some (Some L) /\
    ld (cores tb) (k + 2) = Some (Some R) /\
    slot_of s mats k = Some (Some val) /\
    is_contract P L R val.

(** Slot [k] holds a buffer of [ranks ta [k+2] * ranks tb [k+2]] entries. *)
Definition sized_at (s : state) (mats : nat) (ta tb : FunctionTrain GF)
    (k : Z) : Prop :=
  exists P ra rb,
    slot_of s mats k = Some (Some P) /\
    ld (ranks ta) (k + 2) = Some ra /\ ld (ranks tb) (k + 2) = Some rb /\
    Z.of_nat (length P) = ra * rb.

(** The state of the initialisation when the slots from [j] up are
    computed. *)
Definition overlaps_from (s0 : state) (mats : nat) (ta tb : FunctionTrain GF)
    (j : Z) (s : state) : Prop :=
  trains s = trains s0 /\
  has_slots mats (dim ta - 1) s /\
  slot_of s mats (dim ta - 2) = Some (Some [done_]) /\
  sized_at s mats ta tb j /\
  forall k, j <= k <= dim ta - 3 -> overlap_at s mats ta tb k.

(** ** The two-core update of a left-to-right step (C2) *)

(** [V^T], a [rank x dimtemp] matrix held by columns in [vt], with row
    [j] multiplied by the singular value [s[j]]. *)
Definition s_scaled (dimtemp rank : Z) (s vt : list D) : list D :=
  imap (fun idx x =>
          if bool_decide (Z.of_nat idx < dimtemp * rank)
          then match ld s (Z.of_nat idx mod rank) with
               | Some sj => dmul x sj
               | None => x
               end
          else x) vt.

(** What a step computes from the accumulators [Phi_k] and [Psi_k] and
    the cores [k] and [k + 1] of the target. *)
Record TwoCore : Type := {
  block_Qr : Qmarray GF;    (* the orthonormal block of the QR side *)
  factor_R : list D;
  block_Ql : Qmarray GF;    (* the orthonormal block of the LQ side *)
  factor_L : list D;
  new_rank : Z;
  svd_U : list D;
  svd_S : list D;
  svd_Vt : list D
}.

(** The description of the step: [Phi_k * target_k] is factored by QR
    into a block and [R], [target_k1 * Psi_k] by LQ into [L] and a block,
    [R] and [L] being [dimtemp x dimtemp] for [dimtemp] the number of
    columns of [target_k]; the product [R * L] is decomposed at tolerance
    [epsilon]. *)
Definition two_core_update (Phi_k Psi_k : list D)
    (target_k target_k1 : Qmarray GF) (lsize rsize : Z) (epsilon : D)
  : TwoCore :=
  let dimtemp := ncols target_k in
  let zeros := replicate (Z.to_nat (dimtemp * dimtemp)) dzero in
  let qr := qmarray_householder_simple K "QR"
              (mqma K Phi_k target_k lsize) zeros in
  let lq := qmarray_householder_simple K "LQ"
              (qmam K target_k1 Psi_k rsize) zeros in
  let RL := cblas_dgemm K dimtemp dimtemp dimtemp done_ qr.2 dimtemp
              lq.2 dimtemp dzero zeros dimtemp in
  let svd := truncated_svd K dimtemp dimtemp dimtemp RL epsilon in
  {| block_Qr := qr.1; factor_R := qr.2;
     block_Ql := lq.1; factor_L := lq.2;
     new_rank := svd.1.1.1; svd_U := svd.1.1.2;
     svd_S := svd.1.2; svd_Vt := svd.2 |}.

(** The new core [k]: the block of the QR side times [U]. *)
Definition new_core_k (t : TwoCore) : Qmarray GF :=
  qmam K (block_Qr t) (svd_U t) (new_rank t).

(** The new core [k + 1] of the last step: [S * V^T] times the block of
    the LQ side. *)
Definition new_core_k1 (dimtemp : Z) (t : TwoCore) : Qmarray GF :=
  mqma K (s_scaled dimtemp (new_rank t) (svd_S t) (svd_Vt t)) (block_Ql t)
       (new_rank t).

(** ** The boundary accumulators (C7) *)

(** Both boundary accumulators hold the [1 x 1] matrix [[1.0]]. *)
Definition boundary_ones (phi psi : nat) (d : Z) (s : state) : Prop :=
  slot_of s phi 0 = Some (Some [done_]) /\
  slot_of s psi (d - 2) = Some (Some [done_]).

(** The state between the initialisation and the first sweep: [psi[d-2]]
    is [[1.0]] and [phi[0]] is [[1.0]] or still [NULL]. *)
Definition boundary_ready (phi psi : nat) (d : Z) (s : state) : Prop :=
  (slot_of s phi 0 = Some None \/ slot_of s phi 0 = Some (Some [done_])) /\
  slot_of s psi (d - 2) = Some (Some [done_]).

(** The train behind [p], if it is live, has [d] cores. *)
Definition dim_at (s : state) (p : ptr) (d : Z) : Prop :=
  forall n ft, p = Some n -> train_of s n = Some ft -> dim ft = d.

(** ** The iteration budget (C1) *)

(** What a run returns, apart from what it prints. *)
Definition quiet {A : Type} (o : outcome D GF A) : outcome D GF A :=
  match o with
  | Ok a s _ => Ok a s []
  | Fault f => Fault f
  end.

(** One LRL iteration: a left-to-right sweep on [guess], then a
    right-to-left sweep on its output. *)
Definition lrl_iteration (guess target : ptr) (phi psi : nat) (epsilon : D)
  : M D GF ptr :=
  temp <- dmrg_sweep_lr K guess target phi psi epsilon ;;
  na <- dmrg_sweep_rl K temp target phi psi epsilon ;;
  function_train_free temp ;;;
  ret na.

(** [n] LRL iterations, each on a copy of the output of the one before;
    the result is the last guess and the last output. *)
Fixpoint lrl_iterations (n : nat) (target : ptr) (phi psi : nat)
    (epsilon : D) (ao na : ptr) : M D GF (ptr * ptr) :=
  match n with
  | O => ret (ao, na)
  | S n' =>
      function_train_free na ;;;
      na' <- lrl_iteration ao target phi psi epsilon ;;
      function_train_free ao ;;;
      ao' <- function_train_copy na' ;;
      lrl_iterations n' target phi psi epsilon ao' na'
  end.

(** The approximation as the claim describes it: the accumulators are set
    up for the right-orthogonalised guess, [n] LRL iterations are run, and
    the output of the last one is returned. *)
Definition approx_by_budget (a b : ptr) (n : nat) (epsilon : D)
  : M D GF ptr :=
  fa <- get_train a ;;
  ao <- new_train (function_train_orthor K fa) ;;
  phi <- malloc_slots (size_sub (dim fa) 1) ;;
  psi <- malloc_slots (size_sub (dim fa) 1) ;;
  null_loop (Z.to_nat (size_sub (dim fa) 1)) phi psi 0 ;;;
  dmrg_update_all_right K b ao psi ;;;
  r <- lrl_iterations n b phi psi epsilon ao None ;;
  function_train_free r.1 ;;;
  free_loop (Z.to_nat (size_sub (dim fa) 1)) phi psi 0 ;;;
  free_slots phi ;;;
  free_slots psi ;;;
  ret r.2.

(** The same with the last iteration set apart: [m] iterations, then one
    more, whose output is what is returned. *)
Definition approx_then_last (a b : ptr) (m : nat) (epsilon : D)
  : M D GF ptr :=
  fa <- get_train a ;;
  ao <- new_train (function_train_orthor K fa) ;;
  phi <- malloc_slots (size_sub (dim fa) 1) ;;
  psi <- malloc_slots (size_sub (dim fa) 1) ;;
  null_loop (Z.to_nat (size_sub (dim fa) 1)) phi psi 0 ;;;
  dmrg_update_all_right K b ao psi ;;;
  r <- lrl_iterations m b phi psi epsilon ao None ;;
  function_train_free r.2 ;;;
  last <- lrl_iteration r.1 b phi psi epsilon ;;
  function_train_free r.1 ;;;
  ao' <- function_train_copy last ;;
  function_train_free ao' ;;;
  free_loop (Z.to_nat (size_sub (dim fa) 1)) phi psi 0 ;;;
  free_slots phi ;;;
  free_slots psi ;;;
  ret last.

End Specifications.

(** ** A runnable instance of the collaborators *)

Module Plain.
Section Instance.

Context {D : Type} `{Arith D}.

(** Functions are held by their coefficients in an orthonormal basis, as
    the library's orthonormal polynomial expansions are: the inner product
    is the dot product of the coefficients. *)
Definition GF : Type := list D.

Fixpoint dot (f g : list D) : D :=
  match f, g with
  | x :: f', y :: g' => dadd (dmul x y) (dot f' g')
  | _, _ => dzero
  end.

Fixpoint axpy (c : D) (f g : list D) : list D :=
  match f, g with
  | x :: f', y :: g' => dadd (dmul c x) y :: axpy c f' g'
  | x :: f', [] => dmul c x :: axpy c f' []
  | [], g => g
  end.

Definition entry {A : Type} (d : A) (l : list A) (i : Z) : A :=
  default d (ld l i).

(** [sum_{k < n} c k * f k] *)
Definition lin_comb (n : Z) (c : Z -> D) (f : Z -> GF) : GF :=
  foldr (fun k acc => axpy (c k) (f k) acc) [] (seqZ 0 n).

Definition table {A : Type} (rows cols : Z) (f : Z -> Z -> A) : list A :=
  j ← seqZ 0 cols; i ← seqZ 0 rows; [f i j].

(** [Q * R], with [R] of [b] columns. *)
Definition plain_qmam (Q : Qmarray GF) (R : list D) (b : Z) : Qmarray GF :=
  {| nrows := nrows Q; ncols := b;
     funcs := table (nrows Q) b (fun i j =>
       lin_comb (ncols Q) (fun k => entry dzero R (j * ncols Q + k))
                (fun k => entry [] (funcs Q) (k * nrows Q + i))) |}.

(** [R * Q], with [R] of [b] rows. *)
Definition plain_mqma (R : list D) (Q : Qmarray GF) (b : Z) : Qmarray GF :=
  {| nrows := b; ncols := ncols Q;
     funcs := table b (ncols Q) (fun i j =>
       lin_comb (nrows Q) (fun k => entry dzero R (k * b + i))
                (fun k => entry [] (funcs Q) (j * nrows Q + k))) |}.

(** The identity of order [n] written over a buffer. *)
Definition identity_over (n : Z) (buf : list D) : list D :=
  imap (fun idx _ => if bool_decide (Z.of_nat idx mod (n + 1) = 0)
                     then done_ else dzero) buf.

(** The factorisation [A = A * I], with no orthogonalisation. *)
Definition plain_householder (dir : string) (A : Qmarray GF) (buf : list D)
  : Qmarray GF * list D :=
  (A, identity_over (if String.eqb dir "QR" then ncols A else nrows A) buf).

Definition plain_dgemm (m n k : Z) (alpha : D) (A : list D) (lda : Z)
    (B : list D) (ldb : Z) (beta : D) (C : list D) (ldc : Z) : list D :=
  table m n (fun i j =>
    dadd (dmul alpha
            (foldr (fun l acc => dadd (dmul (entry dzero A (l * lda + i))
                                            (entry dzero B (j * ldb + l))) acc)
                   dzero (seqZ 0 k)))
         (dmul beta (entry dzero C (j * ldc + i)))).

(** The decomposition [I = I * I * I] with every singular value kept; the
    product handed over by the sweeps is the identity for the
    factorisation above. *)
Definition plain_svd (m n lda : Z) (A : list D) (epsilon : D)
  : Z * list D * list D * list D :=
  let r := Z.min m n in
  (r, table m r (fun i j => if bool_decide (i = j) then done_ else dzero),
   replicate (Z.to_nat r) done_,
   table r n (fun i j => if bool_decide (i = j) then done_ else dzero)).

Definition plain : Collab D GF :=
  {| generic_function_inner := dot;
     qmam := plain_qmam;
     mqma := plain_mqma;
     qmarray_householder_simple := plain_householder;
     cblas_dgemm := plain_dgemm;
     truncated_svd := plain_svd;
     function_train_orthor := fun ft => ft |}.

End Instance.
End Plain.


(** ** Concrete trains and states *)

Module Run.
Import Plain.

(** A guess of ranks (1,1,1,1) and a target of ranks (1,2,2,1) in three
    dimensions, over [binary64]; the functions are given by their
    coefficients. *)
Definition block (r c : Z) (fs : list (list float)) : Qmarray (list float) :=
  {| nrows := r; ncols := c; funcs := fs |}.

Definition guess : FunctionTrain (list float) :=
  {| dim := 3; ranks := [1; 1; 1; 1];
     cores := [Some (block 1 1 [[1; 2]%float]);
               Some (block 1 1 [[0; 1]%float]);
               Some (block 1 1 [[3]%float])] |}.

Definition target : FunctionTrain (list float) :=
  {| dim := 3; ranks := [1; 2; 2; 1];
     cores := [Some (block 1 2 [[1; 0]; [0; 1]]%float);
               Some (block 2 2 [[1]; [0; 2]; [0; 1]; [1; 1]]%float);
               Some (block 2 1 [[1; 1]; [2]]%float)] |}.

(** The guess at address 0 and the target at address 1. *)
Definition heap0 : state float (list float) :=
  {| trains := [Some guess; Some target]; arrays := [] |}.

(** The same with [phi] (array 0) and [psi] (array 1) allocated, all
    slots [NULL]. *)
Definition heap1 : state float (list float) :=
  {| trains := [Some guess; Some target];
     arrays := [Some [None; None]; Some [None; None]] |}.

(** The state of [heap1] once [psi] is initialised for the target and the
    guess, as [dmrg_approx] does before its first sweep. *)
Definition heap2 : state float (list float) :=
  match dmrg_update_all_right plain (Some 1%nat) (Some 0%nat) 1 heap1 with
  | Ok _ s _ => s
  | Fault _ => heap1
  end.

(** The state after a left-to-right sweep from [heap2]. *)
Definition heap3 : state float (list float) :=
  match dmrg_sweep_lr plain (Some 0%nat) (Some 1%nat) 0 1 0%float heap2 with
  | Ok _ s _ => s
  | Fault _ => heap2
  end.

(** A target whose blocks are orthonormal where the sweep factors them, so
    that [A = A * I] is a Householder factorisation of each and the
    product [R * L] is the identity: with [e0], [e1] the first two basis
    functions, the cores are [[e0 e1]], [[e0 e1; e1 e0]] and [[e0; e1]].
    The guess has the single function [e0] in each core. *)
Definition unit_guess : FunctionTrain (list float) :=
  {| dim := 3; ranks := [1; 1; 1; 1];
     cores := [Some (block 1 1 [[1; 0]%float]);
               Some (block 1 1 [[1; 0]%float]);
               Some (block 1 1 [[1; 0]%float])] |}.

Definition unit_target : FunctionTrain (list float) :=
  {| dim := 3; ranks := [1; 2; 2; 1];
     cores := [Some (block 1 2 [[1; 0]; [0; 1]]%float);
               Some (block 2 2 [[1; 0]; [0; 1]; [0; 1]; [1; 0]]%float);
               Some (block 2 1 [[1; 0]; [0; 1]]%float)] |}.

(** [unit_guess] at address 0, [unit_target] at address 1, [phi] (array 0)
    all [NULL], and [psi] (array 1) initialised as [dmrg_approx] does. *)
Definition heap4 : state float (list float) :=
  match dmrg_update_all_right plain (Some 1%nat) (Some 0%nat) 1
          {| trains := [Some unit_guess; Some unit_target];
             arrays := [Some [None; None]; Some [None; None]] |} with
  | Ok _ s _ => s
  | Fault _ => {| trains := []; arrays := [] |}
  end.

(** The state of a left-to-right sweep from [heap4] before its first
    step: the output train is allocated at address 2 with its boundary
    ranks set, and [phi[0]] is [[1.0]]. *)
Definition heap5 : state float (list float) :=
  {| trains := trains heap4 ++
               [Some {| dim := 3; ranks := [1; 0; 0; 1];
                        cores := [None; None; None] |}];
     arrays := [Some [Some [1%float]; None];
                Some [Some [1; 0]%float; Some [1%float]]] |}.

End Run.

(** ** Inner product, product and integral of trains *)

Module Inner.
Section Trains.

Context {D GF : Type} `{Arith D}.
Variable K : Collab D GF.

(** The other two operations of a univariate function that these routines
    use: its integral over the domain, and the product of two functions. *)
Variable generic_function_integrate : GF -> D.
Variable generic_function_product : GF -> GF -> GF.

(** Modelled from the spec: entry [j] of the row vector [v] times the
    integrals of the entries of the block [q]. *)
Definition integrate_entry (v : list D) (q : Qmarray GF) (j : Z) : option D :=
  osum dzero
    ((fun i => x ← ld v i; f ← fn_at q i j;
               Some (dmul x (generic_function_integrate f)))
       <$> seqZ 0 (nrows q)).

(** Modelled from the spec: one step of the contraction. *)
Definition integrate_step (v : list D) (q : Qmarray GF) : option (list D) :=
  mapM (integrate_entry v q) (seqZ 0 (ncols q)).

(** Modelled from the spec: the contraction from the row vector [v]. *)
Fixpoint integrate_from (v : list D) (cs : list (option (Qmarray GF)))
  : option (list D) :=
  match cs with
  | [] => Some v
  | Some q :: cs' => v' ← integrate_step v q; integrate_from v' cs'
  | None :: _ => None
  end.

(** Modelled from the spec: [function_train_integrate], which is not in
    the sources at hand; the left-to-right contraction of evaluation, with
    the integral of each entry in place of its value. *)
Definition function_train_integrate (ft : FunctionTrain GF) : option D :=
  v ← integrate_from [done_] (cores ft);
  match v with [y] => Some y | _ => None end.

(** Modelled from the spec: the Kronecker product of two blocks; the
    entry at row
    [ia + nrows qa * ib] and column [ja + ncols qa * jb] is the product of
    [qa(ia, ja)] and [qb(ib, jb)]. *)
Definition kron (qa qb : Qmarray GF) : option (Qmarray GF) :=
  let r := nrows qa * nrows qb in
  let c := ncols qa * ncols qb in
  fs ← mapM (fun idx =>
               let i := idx mod r in
               let j := idx / r in
               f ← fn_at qa (i mod nrows qa) (j mod ncols qa);
               g ← fn_at qb (i / nrows qa) (j / ncols qa);
               Some (generic_function_product f g))
            (seqZ 0 (r * c));
  Some {| nrows := r; ncols := c; funcs := fs |}.

(** Modelled from the spec: the Kronecker products of the pairs of
    cores. *)
Fixpoint product_cores (ca cb : list (option (Qmarray GF)))
  : option (list (option (Qmarray GF))) :=
  match ca, cb with
  | [], [] => Some []
  | Some qa :: ca', Some qb :: cb' =>
      q ← kron qa qb; cs ← product_cores ca' cb'; Some (Some q :: cs)
  | _, _ => None
  end.

(** Modelled from the spec: [function_train_product], which is not in the
    sources at hand; the core-wise Kronecker product, whose ranks are the
    products of the ranks. *)
Definition function_train_product (a b : FunctionTrain GF)
  : option (FunctionTrain GF) :=
  cs ← product_cores (cores a) (cores b);
  Some {| dim := dim a; ranks := zip_with Z.mul (ranks a) (ranks b);
          cores := cs |}.

(** Modelled from the spec: the sweep of the overlap matrix [M] through
    the pairs of cores. *)
Fixpoint inner_from (M : list D) (ca cb : list (option (Qmarray GF)))
  : option (list D) :=
  match ca, cb with
  | [], [] => Some M
  | Some qa :: ca', Some qb :: cb' =>
      M' ← dmrg_update_left K M qa qb; inner_from M' ca' cb'
  | _, _ => None
  end.

(** Modelled from the spec: [function_train_inner], which is not in the
    sources at hand; the overlap matrix, [[1.0]] at first, is swept through
    the pairs of cores by the update of the left accumulator
    ([dmrg_update_left]), and the single scalar left is returned.  No
    product train is built. *)
Definition function_train_inner (a b : FunctionTrain GF) : option D :=
  M ← inner_from [done_] (cores a) (cores b);
  match M with [y] => Some y | _ => None end.

(** Entry [(ja, jb)] of the updated overlap: the sum over the pairs of a
    row [kk] of [qa] and a row [ll] of [qb], in lexicographic order from
    [0.0]. *)
Definition left_term (M : list D) (qa qb : Qmarray GF) (ja jb : Z)
    (p : Z * Z) : option D :=
  x ← ld M (p.2 * nrows qa + p.1);
  f ← fn_at qa p.1 ja;
  g ← fn_at qb p.2 jb;
  Some (dmul x (generic_function_inner K f g)).

Definition left_entry (M : list D) (qa qb : Qmarray GF) (ja jb : Z)
  : option D :=
  osum dzero (left_term M qa qb ja jb <$>
              list_prod (seqZ 0 (nrows qa)) (seqZ 0 (nrows qb))).

(** The cores [cs] are blocks whose sizes chain from [r] rows to [r']
    columns. *)
Fixpoint linked (r : Z) (cs : list (option (Qmarray GF))) (r' : Z) : Prop :=
  match cs with
  | [] => r = r'
  | Some q :: cs' => wf_core q /\ nrows q = r /\ linked (ncols q) cs' r'
  | None :: _ => False
  end.

(** A family of functions to run these on: piecewise-constant functions
    on cells of length one, held by their values; the integral is the sum
    of the values, the product is cell by cell, and the inner product is
    [Plain.dot]. *)
Definition cell_integrate (f : list D) : D := foldr dadd dzero f.

Definition cell_product (f g : list D) : list D := zip_with dmul f g.

End Trains.

(** Two trains of two cores over the integers, of ranks (1,2,1). *)
Definition za : FunctionTrain (list Z) :=
  {| dim := 2; ranks := [1; 2; 1];
     cores := [Some {| nrows := 1; ncols := 2;
                       funcs := [[1; 2; 3]; [0; -1; 4]] |};
               Some {| nrows := 2; ncols := 1;
                       funcs := [[2; 0; 1]; [5; -3; 1]] |}] |}.

Definition zb : FunctionTrain (list Z) :=
  {| dim := 2; ranks := [1; 2; 1];
     cores := [Some {| nrows := 1; ncols := 2;
                       funcs := [[-1; 1; 2]; [3; 0; 7]] |};
               Some {| nrows := 2; ncols := 1;
                       funcs := [[1; 1; -2]; [4; 6; 0]] |}] |}.

(** Two trains over [binary64], and the check of the test of the inner
    product: [(int1 - int2)^2 / int1^2 <= 1e-13]. *)
#[warning="-inexact-float"] Definition fa : FunctionTrain (list float) :=
  {| dim := 2; ranks := [1; 2; 1];
     cores := [Some {| nrows := 1; ncols := 2;
                       funcs := [[0.1; 0.7; -1.3]; [2.9; 0.3; 0.11]]%float |};
               Some {| nrows := 2; ncols := 1;
                       funcs := [[1.7; -0.9; 0.2]; [0.6; 3.1; -2.3]]%float |}]
  |}.

#[warning="-inexact-float"] Definition fb : FunctionTrain (list float) :=
  {| dim := 2; ranks := [1; 2; 1];
     cores := [Some {| nrows := 1; ncols := 2;
                       funcs := [[0.3; -0.2; 1.9]; [0.7; 0.7; 0.13]]%float |};
               Some {| nrows := 2; ncols := 1;
                       funcs := [[-1.1; 0.4; 0.9]; [2.3; 0.01; 1.7]]%float |}]
  |}.

#[warning="-inexact-float"] Definition test_passes (int1 int2 : float) : bool :=
  PrimFloat.leb
    (PrimFloat.div
       (PrimFloat.mul (PrimFloat.sub int1 int2) (PrimFloat.sub int1 int2))
       (PrimFloat.mul int1 int1))
    1e-13%float.

(** [int2] is within relative tolerance [1e-13] of [int1]:
    [|int1 - int2| <= 1e-13 * |int1|]. *)
#[warning="-inexact-float"] Definition rel_close (int1 int2 : float) : bool :=
  PrimFloat.leb (PrimFloat.abs (PrimFloat.sub int1 int2))
                (PrimFloat.mul 1e-13%float (PrimFloat.abs int1)).

(** Two trains over [binary64] whose inner product has terms that cancel:
    over the two cells of the second variable [ca] is
    [(1e16 - 1e16, 1 + 1) = (0, 2)] and [cb] is [(1, 1)], so that their
    inner product is 2. *)
#[warning="-inexact-float"] Definition ca : FunctionTrain (list float) :=
  {| dim := 2; ranks := [1; 2; 1];
     cores := [Some {| nrows := 1; ncols := 2;
                       funcs := [[1]; [1]]%float |};
               Some {| nrows := 2; ncols := 1;
                       funcs := [[1e16; 1]; [-1e16; 1]]%float |}] |}.

Definition cb : FunctionTrain (list float) :=
  {| dim := 2; ranks := [1; 2; 1];
     cores := [Some {| nrows := 1; ncols := 2;
                       funcs := [[1]; [1]]%float |};
               Some {| nrows := 2; ncols := 1;
                       funcs := [[1; 0]; [0; 1]]%float |}] |}.

End Inner.

(** ** The two-core update of a right-to-left step *)

Section StepRL.

Context {D GF : Type} `{Arith D}.
Variable K : Collab D GF.

(** [U], a [dimtemp x rank] matrix held by columns in [u], with column
    [j] multiplied by the singular value [s[j]]. *)
Definition u_scaled (dimtemp rank : Z) (s u : list D) : list D :=
  imap (fun idx x =>
          if bool_decide (Z.of_nat idx < rank * dimtemp)
          then match ld s (Z.of_nat idx / dimtemp) with
               | Some sj => dmul x sj
               | None => x
               end
          else x) u.

(** The new core [k + 1] of a right-to-left step: [V^T] times the block of
    the LQ side. *)
Definition rl_core_k1 (t : TwoCore (D := D) (GF := GF)) : Qmarray GF :=
  mqma K (svd_Vt t) (block_Ql t) (new_rank t).

(** The new core [k] of the last right-to-left step, [k = 0]: the block
    of the QR side times [U * S]. *)
Definition rl_core_k (dimtemp : Z) (t : TwoCore (D := D) (GF := GF))
  : Qmarray GF :=
  qmam K (block_Qr t) (u_scaled dimtemp (new_rank t) (svd_S t) (svd_U t))
       (new_rank t).

End StepRL.

(** ** The shape of the output of a sweep *)

Section Shape.

Context {GF : Type}.

(** Core [j] is allocated. *)
Definition core_set (ft : FunctionTrain GF) (j : Z) : Prop :=
  exists q, ld (cores ft) j = Some (Some q).

(** A train of [d] cores and [d + 1] ranks, the two boundary ranks being
    1, whose cores of index in [C] are allocated. *)
Definition shaped (d : Z) (C : Z -> Prop) (ft : FunctionTrain GF) : Prop :=
  dim ft = d /\
  Z.of_nat (length (ranks ft)) = d + 1 /\
  ld (ranks ft) 0 = Some 1 /\ ld (ranks ft) d = Some 1 /\
  Z.of_nat (length (cores ft)) = d /\
  forall j, C j -> core_set ft j.

(** The same with every core allocated. *)
Definition sweep_shape (d : Z) (ft : FunctionTrain GF) : Prop :=
  shaped d (fun j => 0 <= j < d) ft.

End Shape.

(** ** A sweep as a chain of two-core updates *)

Section Chain.

Context {D GF : Type} `{Arith D}.
Variable K : Collab D GF.

(** The number of columns of core [k] of [ft], 0 when there is none. *)
Definition cols_at (ft : FunctionTrain GF) (k : Z) : Z :=
  match ld (cores ft) k with
  | Some (Some c) => ncols c
  | _ => 0
  end.

(** The number of rows of core [k] of [ft], 0 when there is none. *)
Definition rows_at (ft : FunctionTrain GF) (k : Z) : Z :=
  match ld (cores ft) k with
  | Some (Some c) => nrows c
  | _ => 0
  end.

(** What step [k] of a left-to-right sweep has stored, for a guess [fa]
    and a target [fb], in the output [ft] and in [phi]: with [Phi_k] the
    final [phi[k]] and [Psi_k] the [psi[k]] of the start, rank [k + 1]
    and core [k] of the output are those of the two-core update; at the
    last step core [k + 1] is [S * V^T], as [scale_vt] computes it, times
    the block of the LQ side; before it, [phi[k + 1]] is the left overlap
    of [Phi_k] with the new core and the core of the target. *)
Definition lr_updated (s s' : state D GF) (phi psi : nat) (epsilon : D)
    (fa fb ft : FunctionTrain GF) (k : Z) : Prop :=
  exists cb cb1 Phi_k Psi_k,
    ld (cores fb) k = Some (Some cb) /\
    ld (cores fb) (k + 1) = Some (Some cb1) /\
    slot_of s' phi k = Some (Some Phi_k) /\
    slot_of s psi k = Some (Some Psi_k) /\
    let last := bool_decide (k = dim fa - 2) in
    let lsize := if bool_decide (k = 0) then 1 else cols_at fa (k - 1) in
    let rsize := if last then 1 else cols_at fa (k + 1) in
    let t := two_core_update K Phi_k Psi_k cb cb1 lsize rsize epsilon in
    ld (ranks ft) (k + 1) = Some (new_rank t) /\
    ld (cores ft) k = Some (Some (new_core_k K t)) /\
    if last
    then exists vt',
           scale_vt (ncols cb) (new_rank t) (svd_S t) (svd_Vt t) = Some vt' /\
           ld (cores ft) (k + 1)
           = Some (Some (mqma K vt' (block_Ql t) (new_rank t)))
    else exists val,
           dmrg_update_left K Phi_k (new_core_k K t) cb = Some val /\
           slot_of s' phi (k + 1) = Some (Some val).

(** The same for step [k] of a right-to-left sweep: with [Phi_k] the
    [phi[k]] of the start and [Psi_k] the final [psi[k]], rank and core
    [k + 1] of the output are those of the two-core update; at the last
    step, [k = 0], core [0] is the block of the QR side times [U * S], as
    [scale_u] computes it; before it, [psi[k - 1]] is the right overlap of
    [Psi_k] with the core of the target and the new core. *)
Definition rl_updated (s s' : state D GF) (phi psi : nat) (epsilon : D)
    (fa fb ft : FunctionTrain GF) (k : Z) : Prop :=
  exists cb cb1 Phi_k Psi_k,
    ld (cores fb) k = Some (Some cb) /\
    ld (cores fb) (k + 1) = Some (Some cb1) /\
    slot_of s phi k = Some (Some Phi_k) /\
    slot_of s' psi k = Some (Some Psi_k) /\
    let first := bool_decide (k = 0) in
    let lsize := if first then 1 else cols_at fa (k - 1) in
    let rsize := if bool_decide (k = dim fa - 2) then 1
                 else rows_at fa (k + 2) in
    let t := two_core_update K Phi_k Psi_k cb cb1 lsize rsize epsilon in
    ld (ranks ft) (k + 1) = Some (new_rank t) /\
    ld (cores ft) (k + 1) = Some (Some (rl_core_k1 K t)) /\
    if first
    then exists u',
           scale_u (ncols cb) (new_rank t) (svd_S t) (svd_U t) = Some u' /\
           ld (cores ft) 0
           = Some (Some (qmam K (block_Qr t) u' (new_rank t)))
    else exists val,
           dmrg_update_right K Psi_k cb1 (rl_core_k1 K t) = Some val /\
           slot_of s' psi (k - 1) = Some (Some val).

(** The collaborators return blocks of the shapes they are asked for:
    [qmam] a block of as many rows as its block and [b] columns, [mqma]
    one of [b] rows and as many columns as its block, and the Householder
    factorisations an orthonormal block of the shape of their argument. *)
Definition keeps_shapes : Prop :=
  (forall Q R b, nrows (qmam K Q R b) = nrows Q /\ ncols (qmam K Q R b) = b) /\
  (forall R Q b, nrows (mqma K R Q b) = b /\ ncols (mqma K R Q b) = ncols Q) /\
  (forall dir A buf,
     nrows (qmarray_householder_simple K dir A buf).1 = nrows A /\
     ncols (qmarray_householder_simple K dir A buf).1 = ncols A).

End Chain.

(** ** The memory of [dmrg_approx] *)

Section Memory.

Context {D GF : Type} `{Arith D}.

(** Every array other than [phi] and [psi] is as it was. *)
Definition others_kept (phi psi : nat) (s s' : state D GF) : Prop :=
  forall arr, arr <> phi -> arr <> psi -> array_of s' arr = array_of s arr.

(** [m] writes and frees no array other than [phi] and [psi], and
    allocates none. *)
Definition confined {A : Type} (phi psi : nat) (m : M D GF A) : Prop :=
  forall s, wp (fun _ => True) m s (fun _ s' => others_kept phi psi s s').

(** The trains between two iterations of [dmrg_approx]: those of the
    caller, [old], then freed trains, then the result [na] of the last
    iteration, when there was one, and the guess [ao] of the next, of
    dimension [d]. *)
Definition approx_trains (old : list (option (FunctionTrain GF))) (d : Z)
    (ao na : ptr) (ts : list (option (FunctionTrain GF))) : Prop :=
  exists dead fao,
    Forall (fun o => o = None) dead /\ dim fao = d /\
    match na with
    | None =>
        ts = old ++ dead ++ [Some fao] /\
        ao = Some (length old + length dead)%nat
    | Some n =>
        exists fna,
          ts = old ++ dead ++ [Some fna; Some fao] /\
          n = (length old + length dead)%nat /\
          ao = Some (S n) /\ sweep_shape d fna
    end.

End Memory.

(** ** The safety of the accumulator arrays *)

Section Safety.

Context {D GF : Type} `{Arith D}.

(** Faults other than those of the accumulator arrays: an index outside
    an array, a [NULL] slot handed to a kernel, an array used after it is
    freed. *)
Definition acc_safe (f : fault) : Prop :=
  match f with
  | SlotOutOfRange _ _ | NullBuffer _ _ | BadArray _ => False
  | _ => True
  end.

(** The array [arr] is live and has [n] slots, and those of index in [F]
    hold buffers. *)
Definition holds (arr : nat) (n : Z) (F : Z -> Prop) (s : state D GF) : Prop :=
  exists l, array_of s arr = Some l /\ Z.of_nat (length l) = n /\
            forall i, F i -> exists buf, ld l i = Some (Some buf).

(** [m] leaves the arrays alone, and has none of their faults. *)
Definition array_free {A : Type} (m : M D GF A) : Prop :=
  forall s, wp acc_safe m s (fun _ s' => arrays s' = arrays s).

End Safety.

(** ** What the routines print *)

Section Output.

Context {D GF : Type} `{Arith D}.

(** Whenever [m] returns, it has printed [l]. *)
Definition prints {A : Type} (m : M D GF A) (l : list event) : Prop :=
  forall s a s' out, m s = Ok a s' out -> out = l.

(** The lines of iteration [ii] of [dmrg_approx]. *)
Definition iteration_prints (delta : D) (max_sweeps verbose : Z) (ii : Z)
  : list event :=
  (if bool_decide (verbose > 0)
   then [PrintIteration ii (size_sub max_sweeps 1)] else []) ++
  (if dltb dten delta then [PrintDiffIsSmall] else []).

(** All the lines of a call of [dmrg_approx] whose orthogonalised guess
    has the ranks [start]. *)
Definition approx_prints (delta : D) (max_sweeps verbose : Z)
    (start : list Z) : list event :=
  (if bool_decide (verbose = 2)
   then [PrintVerboseWorks; PrintNumberOfSweeps max_sweeps;
         PrintStartingRanks start]
   else []) ++
  flat_map (iteration_prints delta max_sweeps verbose) (seqZ 0 max_sweeps).

End Output.

(** ** Further concrete states *)

Module XRun.
Import Plain.

(** The state of a right-to-left sweep before its first step, run on the
    output of the left-to-right sweep from [Run.heap4] (the train at
    address 2): the new output train is allocated at address 3 with its
    boundary ranks set. *)
Definition heap6 : state float (list float) :=
  match dmrg_sweep_lr plain (Some 0%nat) (Some 1%nat) 0 1 0%float Run.heap4
  with
  | Ok _ s _ =>
      {| trains := trains s ++
                   [Some {| dim := 3; ranks := [1; 0; 0; 1];
                            cores := [None; None; None] |}];
         arrays := arrays s |}
  | Fault _ => {| trains := []; arrays := [] |}
  end.

(** The state of the left-to-right sweep from [Run.heap4] after its first
    step: rank 1 and core 0 of the output are set, and [phi[1]] is
    computed. *)
Definition heap5_1 : state float (list float) :=
  match sweep_lr_step plain (Some 0%nat) (Some 1%nat) 0 1 0%float
          (Some 2%nat) 0 1 Run.heap5 with
  | Ok _ s _ => s
  | Fault _ => Run.heap5
  end.

(** The output of that left-to-right sweep, at address 2 of [heap6]. *)
Definition lr_output : FunctionTrain (list float) :=
  {| dim := 3; ranks := [1; 2; 2; 1];
     cores := [Some (Run.block 1 2 [[1; 0]; [0; 1]]%float);
               Some (Run.block 1 2 [[1; 0]; [0; 1]]%float);
               Some (Run.block 2 1 [[1; 0]; [0; 1]]%float)] |}.

(** Trains of one, two and four dimensions, with the single function
    [e0] in each core. *)
Definition line (d : Z) : FunctionTrain (list float) :=
  {| dim := d;
     ranks := replicate (Z.to_nat (d + 1)) 1;
     cores := replicate (Z.to_nat d) (Some (Run.block 1 1 [[1; 0]%float])) |}.

(** A one-dimensional guess, with accumulator arrays of [dim - 1 = 0]
    slots. *)
Definition heap_line : state float (list float) :=
  {| trains := [Some (line 1)]; arrays := [Some []; Some []] |}.

(** A guess and a target of dimension [da] and [db], and no array. *)
Definition heap_pair (da db : Z) : state float (list float) :=
  {| trains := [Some (line da); Some (line db)]; arrays := [] |}.

(** A guess whose second core is not allocated, with the target of
    [Run.heap4]. *)
Definition holed_guess : FunctionTrain (list float) :=
  {| dim := 3; ranks := [1; 1; 1; 1];
     cores := [Some (Run.block 1 1 [[1; 0]%float]); None;
               Some (Run.block 1 1 [[1; 0]%float])] |}.

Definition heap_holed : state float (list float) :=
  {| trains := [Some holed_guess; Some Run.unit_target]; arrays := [] |}.

End XRun.

(** * Reasoning about the routines *)

Section Logic.

Context {D GF : Type} `{Arith D}.

#[local] Abbreviation M := (M D GF).
#[local] Abbreviation state := (state D GF).

Lemma wp_ret {A : Type} F (a : A) s (Q : A -> state -> Prop) :
  Q a s -> wp F (ret a) s Q.
Proof. done. Qed.

Lemma wp_bind {A B : Type} F (m : M A) (k : A -> M B) s Q :
  wp F m s (fun a s' => wp F (k a) s' Q) -> wp F (bind m k) s Q.
Proof.
  unfold wp, bind. destruct (m s) as [a s1 o1|f]; [|done].
  by destruct (k a s1).
Qed.

Lemma wp_weaken {A : Type} (F F' : fault -> Prop) (m : M A) s
    (Q Q' : A -> state -> Prop) :
  wp F m s Q -> (forall a s', Q a s' -> Q' a s') -> (forall f, F f -> F' f) ->
  wp F' m s Q'.
Proof. unfold wp. destruct (m s); eauto. Qed.

Lemma wp_seq {A B : Type} F (m : M A) (k : A -> M B) s
    (R : A -> state -> Prop) (Q : B -> state -> Prop) :
  wp F m s R -> (forall a s', R a s' -> wp F (k a) s' Q) ->
  wp F (bind m k) s Q.
Proof.
  intros Hm Hk. apply wp_bind. eapply wp_weaken; [apply Hm|done|done].
Qed.

Lemma wp_ok {A : Type} F (m : M A) s Q a s' out :
  wp F m s Q -> m s = Ok a s' out -> Q a s'.
Proof. unfold wp. intros Hw Heq. by rewrite Heq in Hw. Qed.

Lemma wp_lift {A : Type} F (o : option A) s (Q : A -> state -> Prop) :
  match o with Some a => Q a s | None => F ElemOutOfRange end ->
  wp F (lift o) s Q.
Proof. by destruct o. Qed.

(** *** The heap operations *)

Lemma ld_Some {A : Type} (l : list A) i x :
  ld l i = Some x <-> 0 <= i /\ l !! Z.to_nat i = Some x.
Proof.
  unfold ld. case_bool_decide; naive_solver.
Qed.

Lemma ld_lt {A : Type} (l : list A) i x :
  ld l i = Some x -> 0 <= i < Z.of_nat (length l).
Proof.
  intros [? Hl%lookup_lt_Some]%ld_Some. lia.
Qed.

Lemma ld_is_Some {A : Type} (l : list A) i :
  0 <= i < Z.of_nat (length l) -> is_Some (ld l i).
Proof.
  intros Hi. unfold ld. rewrite bool_decide_eq_true_2 by lia.
  apply lookup_lt_is_Some. lia.
Qed.

Lemma st_Some {A : Type} (l l' : list A) i x :
  st l i x = Some l' ->
  0 <= i < Z.of_nat (length l) /\ l' = <[Z.to_nat i := x]> l.
Proof.
  unfold st. case_bool_decide; naive_solver.
Qed.

Lemma st_is_Some {A : Type} (l : list A) i x :
  0 <= i < Z.of_nat (length l) -> st l i x = Some (<[Z.to_nat i := x]> l).
Proof.
  intros Hi. unfold st. by rewrite bool_decide_eq_true_2.
Qed.

Lemma ld_st {A : Type} (l l' : list A) i j x :
  st l i x = Some l' -> 0 <= j ->
  ld l' j = if bool_decide (i = j) then Some x else ld l j.
Proof.
  intros [Hi ->]%st_Some Hj. unfold ld.
  rewrite (bool_decide_eq_true_2 (0 <= j)) by done.
  case_bool_decide as Hij.
  - subst j. apply list_lookup_insert_eq. lia.
  - apply list_lookup_insert_ne. lia.
Qed.

Lemma ld_st_ne {A : Type} (l l' : list A) i j x :
  st l i x = Some l' -> i <> j -> ld l' j = ld l j.
Proof.
  intros [Hi ->]%st_Some Hj. unfold ld.
  case_bool_decide; [|done]. apply list_lookup_insert_ne. lia.
Qed.

Lemma st_length {A : Type} (l l' : list A) i x :
  st l i x = Some l' -> length l' = length l.
Proof. intros [_ ->]%st_Some. apply length_insert. Qed.

Lemma wp_get_train F (p : ptr) s (Q : FunctionTrain GF -> state -> Prop) :
  match p with
  | Some n => match train_of s n with
              | Some ft => Q ft s
              | None => F (BadTrain p)
              end
  | None => F (BadTrain p)
  end ->
  wp F (get_train p) s Q.
Proof.
  unfold wp, get_train, train_of. destruct p as [n|]; [|done].
  by destruct (trains s !! n) as [[ft|]|].
Qed.

Lemma wp_put_train F (p : ptr) ft s (Q : unit -> state -> Prop) :
  match p with
  | Some n => match train_of s n with
              | Some _ => Q tt {| trains := <[n := Some ft]> (trains s);
                                  arrays := arrays s |}
              | None => F (BadTrain p)
              end
  | None => F (BadTrain p)
  end ->
  wp F (put_train p ft) s Q.
Proof.
  unfold wp, put_train, train_of. destruct p as [n|]; [|done].
  by destruct (trains s !! n) as [[?|]|].
Qed.

Lemma wp_core_at F (ft : FunctionTrain GF) i s
    (Q : Qmarray GF -> state -> Prop) :
  match ld (cores ft) i with
  | Some (Some q) => Q q s
  | Some None => F (NullCore i)
  | None => F (CoreOutOfRange i)
  end ->
  wp F (core_at ft i) s Q.
Proof.
  unfold core_at. by destruct (ld (cores ft) i) as [[q|]|].
Qed.

Lemma wp_set_rank F (p : ptr) i r s (Q : unit -> state -> Prop) :
  match p with
  | Some n =>
      match train_of s n with
      | Some ft =>
          match st (ranks ft) i r with
          | Some rs =>
              Q tt {| trains := <[n := Some {| dim := dim ft; ranks := rs;
                                               cores := cores ft |}]> (trains s);
                      arrays := arrays s |}
          | None => F (RankOutOfRange i)
          end
      | None => F (BadTrain p)
      end
  | None => F (BadTrain p)
  end ->
  wp F (set_rank p i r) s Q.
Proof.
  intros Hq. unfold set_rank. apply wp_bind, wp_get_train.
  destruct p as [n|]; [|done].
  destruct (train_of s n) as [ft|] eqn:Hft; [|done].
  destruct (st (ranks ft) i r) as [rs|]; [|done].
  apply wp_put_train. by rewrite Hft.
Qed.

Lemma wp_set_core F (p : ptr) i q s (Q : unit -> state -> Prop) :
  match p with
  | Some n =>
      match train_of s n with
      | Some ft =>
          match st (cores ft) i (Some q) with
          | Some cs =>
              Q tt {| trains := <[n := Some {| dim := dim ft; ranks := ranks ft;
                                               cores := cs |}]> (trains s);
                      arrays := arrays s |}
          | None => F (CoreOutOfRange i)
          end
      | None => F (BadTrain p)
      end
  | None => F (BadTrain p)
  end ->
  wp F (set_core p i q) s Q.
Proof.
  intros Hq. unfold set_core. apply wp_bind, wp_get_train.
  destruct p as [n|]; [|done].
  destruct (train_of s n) as [ft|] eqn:Hft; [|done].
  destruct (st (cores ft) i (Some q)) as [cs|]; [|done].
  apply wp_put_train. by rewrite Hft.
Qed.

Lemma wp_new_train F ft s (Q : ptr -> state -> Prop) :
  Q (Some (length (trains s))) (with_train s ft) ->
  wp F (new_train ft) s Q.
Proof. done. Qed.

Lemma wp_function_train_free F (p : ptr) s (Q : unit -> state -> Prop) :
  match p with
  | None => Q tt s
  | Some n => match train_of s n with
              | Some _ => Q tt {| trains := <[n := None]> (trains s);
                                  arrays := arrays s |}
              | None => F (BadTrain p)
              end
  end ->
  wp F (function_train_free p) s Q.
Proof.
  unfold wp, function_train_free, train_of. destruct p as [n|]; [|done].
  by destruct (trains s !! n) as [[?|]|].
Qed.

Lemma wp_slot_get F arr i s (Q : buffer D -> state -> Prop) :
  match array_of s arr with
  | Some a => match ld a i with
              | Some b => Q b s
              | None => F (SlotOutOfRange arr i)
              end
  | None => F (BadArray arr)
  end ->
  wp F (slot_get arr i) s Q.
Proof.
  unfold wp, slot_get, array_of.
  destruct (arrays s !! arr) as [[a|]|]; [|done..].
  by destruct (ld a i).
Qed.

Lemma wp_slot_set F arr i b s (Q : unit -> state -> Prop) :
  match array_of s arr with
  | Some a => match st a i b with
              | Some a' => Q tt {| trains := trains s;
                                   arrays := <[arr := Some a']> (arrays s) |}
              | None => F (SlotOutOfRange arr i)
              end
  | None => F (BadArray arr)
  end ->
  wp F (slot_set arr i b) s Q.
Proof.
  unfold wp, slot_set, array_of.
  destruct (arrays s !! arr) as [[a|]|]; [|done..].
  by destruct (st a i b).
Qed.

Lemma wp_buf_at F arr i s (Q : list D -> state -> Prop) :
  match array_of s arr with
  | Some a => match ld a i with
              | Some (Some l) => Q l s
              | Some None => F (NullBuffer arr i)
              | None => F (SlotOutOfRange arr i)
              end
  | None => F (BadArray arr)
  end ->
  wp F (buf_at arr i) s Q.
Proof.
  intros Hq. unfold buf_at. apply wp_bind, wp_slot_get.
  destruct (array_of s arr) as [a|]; [|done].
  by destruct (ld a i) as [[l|]|].
Qed.

Lemma wp_slot_free F arr i s (Q : unit -> state -> Prop) :
  match array_of s arr with
  | Some a => match st a i None with
              | Some a' => Q tt {| trains := trains s;
                                   arrays := <[arr := Some a']> (arrays s) |}
              | None => F (SlotOutOfRange arr i)
              end
  | None => F (BadArray arr)
  end ->
  wp F (slot_free arr i) s Q.
Proof.
  intros Hq. unfold slot_free. apply wp_bind, wp_slot_get.
  destruct (array_of s arr) as [a|] eqn:Ha; [|done].
  destruct (ld a i) as [b|] eqn:Hb.
  - apply wp_slot_set. by rewrite Ha.
  - destruct (st a i None) eqn:Hst; [|done].
    apply st_Some in Hst as [Hi _]. apply ld_is_Some in Hi as [? Hi].
    by rewrite Hi in Hb.
Qed.

(** *** Footprints *)

Lemma touches_refl n W (s : state) : touches n W s s.
Proof. split_and!; eauto. Qed.

Lemma touches_trans n W (s1 s2 s3 : state) :
  touches n W s1 s2 -> touches n W s2 s3 -> touches n W s1 s3.
Proof.
  intros (Hl1 & Ht1 & Ha1 & Hs1) (Hl2 & Ht2 & Ha2 & Hs2).
  split_and!.
  - intros p o Hp. destruct (Hl1 p o Hp) as (o1 & Hp1 & Hd1).
    destruct (Hl2 p o1 Hp1) as (o2 & Hp2 & Hd2).
    exists o2. split; [done|]. by rewrite Hd2.
  - intros p Hp. by rewrite Ht2, Ht1.
  - intros arr. by rewrite Ha2, Ha1.
  - intros arr i Hw. by rewrite Hs2, Hs1.
Qed.

Lemma touches_mono n n' (W W' : nat -> Z -> Prop) (s s' : state) :
  (n' <= n)%nat -> (forall arr i, W arr i -> W' arr i) ->
  touches n W s s' -> touches n' W' s s'.
Proof.
  intros Hn HW (Hl & Ht & Ha & Hs). split_and!; [done|..|done|].
  - intros p Hp. apply Ht. lia.
  - intros arr i Hw. apply Hs. naive_solver.
Qed.

Lemma touches_length n W (s s' : state) :
  touches n W s s' -> (length (trains s) <= length (trains s'))%nat.
Proof.
  intros (Hl & _). destruct (trains s) as [|o l] eqn:Hs using rev_ind;
    [simpl; lia|].
  clear IHl. destruct (Hl (length l) o) as (o' & Ho' & _).
  - by rewrite lookup_app_r, Nat.sub_diag.
  - apply lookup_lt_Some in Ho'. rewrite length_app; simpl. lia.
Qed.

(** A write to a field of the train at [p], which is not below [n]. *)
Lemma touches_train n W (s : state) p ft ft' :
  (n <= p)%nat -> train_of s p = Some ft -> dim ft' = dim ft ->
  touches n W s {| trains := <[p := Some ft']> (trains s); arrays := arrays s |}.
Proof.
  intros Hp Hft Hd. unfold train_of in Hft.
  destruct (trains s !! p) as [[ft0|]|] eqn:Hlk; simplify_eq.
  split_and!; simpl; [| |done..].
  - intros q o Hq. destruct (decide (q = p)) as [->|Hne].
    + rewrite list_lookup_insert_eq by by eapply lookup_lt_Some.
      eexists; split; [done|]. simplify_eq. simpl. by f_equal.
    + rewrite list_lookup_insert_ne by done. eauto.
  - intros q Hq. apply list_lookup_insert_ne. lia.
Qed.

Lemma touches_new n W (s : state) x :
  (n <= length (trains s))%nat ->
  touches n W s {| trains := trains s ++ [x]; arrays := arrays s |}.
Proof.
  intros Hp. split_and!; simpl; [| |done..].
  - intros q o Hq. exists o. split; [|done].
    rewrite lookup_app_l; [done|]. by eapply lookup_lt_Some.
  - intros q Hq. apply lookup_app_l. lia.
Qed.

Lemma touches_slot n (W : nat -> Z -> Prop) (s : state) arr a a' i b :
  array_of s arr = Some a -> st a i b = Some a' -> W arr i ->
  touches n W s {| trains := trains s; arrays := <[arr := Some a']> (arrays s) |}.
Proof.
  intros Ha Hst Hw. unfold array_of in Ha.
  destruct (arrays s !! arr) as [[a0|]|] eqn:Harr; simplify_eq.
  assert (Hlt : (arr < length (arrays s))%nat) by by eapply lookup_lt_Some.
  split_and!; simpl; [eauto|done| |].
  - intros arr'. unfold array_of; simpl.
    destruct (decide (arr' = arr)) as [->|Hne].
    + rewrite list_lookup_insert_eq, Harr by done. simpl.
      f_equal. by eapply st_length.
    + by rewrite list_lookup_insert_ne.
  - intros arr' j Hnw. unfold slot_of; simpl.
    destruct (decide (arr' = arr)) as [->|Hne].
    + rewrite list_lookup_insert_eq, Harr by done.
      eapply ld_st_ne; [done|]. by intros ->.
    + by rewrite list_lookup_insert_ne.
Qed.

Lemma touches_dim n W (s s' : state) p ft :
  touches n W s s' -> train_of s p = Some ft ->
  exists ft', train_of s' p = Some ft' /\ dim ft' = dim ft.
Proof.
  intros (Hl & _) Hft. unfold train_of in *.
  destruct (trains s !! p) as [[ft0|]|] eqn:Hlk; simplify_eq.
  destruct (Hl p _ Hlk) as ([ft'|] & -> & Hd); simplify_eq/=. eauto.
Qed.

Lemma touches_train_of n W (s s' : state) p :
  touches n W s s' -> (p < n)%nat -> train_of s' p = train_of s p.
Proof.
  intros (_ & Ht & _) Hp. unfold train_of. by rewrite Ht.
Qed.

Lemma train_of_lt (s : state) p ft : train_of s p = Some ft -> (p < length (trains s))%nat.
Proof.
  unfold train_of. destruct (trains s !! p) eqn:Hp; [|done].
  intros _. by eapply lookup_lt_Some.
Qed.

Lemma train_of_insert (s : state) p x (arrs : list (option (slots D))) :
  (p < length (trains s))%nat ->
  train_of {| trains := <[p := x]> (trains s); arrays := arrs |} p = x.
Proof.
  intros Hp. unfold train_of; simpl. rewrite list_lookup_insert_eq by done.
  by destruct x.
Qed.

Lemma train_of_new (s : state) x (arrs : list (option (slots D))) :
  train_of {| trains := trains s ++ [Some x]; arrays := arrs |}
    (length (trains s)) = Some x.
Proof.
  unfold train_of; simpl. rewrite lookup_app_r by done.
  by rewrite Nat.sub_diag.
Qed.

Lemma slot_of_insert (s : state) arr a a' i j b
    (trs : list (option (FunctionTrain GF))) :
  array_of s arr = Some a -> st a i b = Some a' -> 0 <= j ->
  slot_of {| trains := trs; arrays := <[arr := Some a']> (arrays s) |} arr j
  = if bool_decide (i = j) then Some b else slot_of s arr j.
Proof.
  intros Ha Hst Hj. unfold slot_of, array_of in *; simpl.
  destruct (arrays s !! arr) as [[a0|]|] eqn:Harr; simplify_eq.
  rewrite list_lookup_insert_eq by by eapply lookup_lt_Some.
  by eapply ld_st.
Qed.

Lemma slot_of_array (s : state) arr i b :
  slot_of s arr i = Some b <-> exists a, array_of s arr = Some a /\ ld a i = Some b.
Proof.
  unfold slot_of, array_of. destruct (arrays s !! arr) as [[a|]|]; naive_solver.
Qed.

Lemma array_of_set (s : state) mats l l'
    (trs : list (option (FunctionTrain GF))) :
  array_of s mats = Some l ->
  array_of {| trains := trs; arrays := <[mats := Some l']> (arrays s) |} mats
  = Some l'.
Proof.
  unfold array_of; simpl. intros Hl.
  destruct (arrays s !! mats) as [[?|]|] eqn:Hlk; simplify_eq.
  by rewrite list_lookup_insert_eq by by eapply lookup_lt_Some.
Qed.

Lemma slot_of_set (s : state) mats l l' i b j
    (trs : list (option (FunctionTrain GF))) :
  array_of s mats = Some l -> st l i b = Some l' -> 0 <= j ->
  slot_of {| trains := trs; arrays := <[mats := Some l']> (arrays s) |} mats j
  = if bool_decide (i = j) then Some b else slot_of s mats j.
Proof. apply slot_of_insert. Qed.

Lemma slot_of_ld (s : state) mats l i :
  array_of s mats = Some l -> slot_of s mats i = ld l i.
Proof.
  unfold slot_of, array_of.
  by destruct (arrays s !! mats) as [[?|]|]; intros; simplify_eq.
Qed.

Lemma wp_total {A : Type} (m : M A) (s : state) (Q : A -> state -> Prop) :
  wp (fun _ => False) m s Q -> exists a s' out, m s = Ok a s' out /\ Q a s'.
Proof. unfold wp. destruct (m s) as [a s' out|]; [eauto|done]. Qed.

Lemma wrap_small z : 0 <= z <= SIZE_MAX -> wrap z = z.
Proof. unfold wrap, SIZE_MAX. intros ?. apply Z.mod_small. lia. Qed.

Lemma wrap_range z : 0 <= wrap z <= SIZE_MAX.
Proof.
  unfold wrap, SIZE_MAX. pose proof (Z.mod_pos_bound z (2 ^ 64)). lia.
Qed.

Lemma touches_with_train n W (s : state) ft :
  (n <= length (trains s))%nat -> touches n W s (with_train s ft).
Proof. apply touches_new. Qed.

Lemma train_of_with_train (s : state) ft :
  train_of (with_train s ft) (length (trains s)) = Some ft.
Proof. apply train_of_new. Qed.

End Logic.

(** Tactics: one step of a routine, and a chain of writes. *)
Ltac wp_head :=
  lazymatch goal with
  | |- wp _ (bind (all_right_loop _ _ _ _ _ _) _) _ _ => fail
  | |- wp _ (bind _ _) _ _ => apply wp_bind
  | |- wp _ (ret _) _ _ => apply wp_ret
  | |- wp _ (get_train _) _ _ => apply wp_get_train
  | |- wp _ (core_at _ _) _ _ => apply wp_core_at
  | |- wp _ (set_rank _ _ _) _ _ => apply wp_set_rank
  | |- wp _ (set_core _ _ _) _ _ => apply wp_set_core
  | |- wp _ (buf_at _ _) _ _ => apply wp_buf_at
  | |- wp _ (slot_get _ _) _ _ => apply wp_slot_get
  | |- wp _ (slot_set _ _ _) _ _ => apply wp_slot_set
  | |- wp _ (slot_free _ _) _ _ => apply wp_slot_free
  | |- wp _ (lift _) _ _ => apply wp_lift
  | |- wp _ (new_train _) _ _ => apply wp_new_train
  | |- wp _ (function_train_free _) _ _ => apply wp_function_train_free
  | |- wp _ (if bool_decide _ then _ else _) _ _ => case_bool_decide
  | |- wp _ (let '(_, _) := ?e in _) _ _ => destruct e eqn:?
  | |- wp _ (match ?e with _ => _ end) _ _ => destruct e eqn:?
  | |- match ?e with _ => _ end => destruct e eqn:?; try exact I
  end.

Ltac touches_peel :=
  repeat first
    [ eassumption
    | apply touches_refl
    | eapply touches_trans;
      [| first [ eapply touches_train; [first [assumption | lia]|eassumption|done]
               | eapply touches_slot; [eassumption|eassumption|] ] ] ].


Section Footprints.

Context {D GF : Type} `{Arith D}.
Variable K : Collab D GF.

#[local] Abbreviation state := (state D GF).

(** Partial correctness: any fault is accepted. *)
#[local] Abbreviation anyf := (fun _ : fault => True).

Lemma sweep_lr_step_touches n (W : nat -> Z -> Prop) s0 a b phi psi eps p
    ii lsize s :
  (n <= p)%nat ->
  (forall fa, a ≫= train_of s = Some fa ->
     ii < size_sub (dim fa) 2 -> W phi (size_add ii 1)) ->
  touches n W s0 s ->
  wp anyf (sweep_lr_step K a b phi psi eps (Some p) ii lsize) s
    (fun _ s' => touches n W s0 s').
Proof.
  intros Hp Hw Ht. unfold sweep_lr_step.
  repeat wp_head.
  all: touches_peel.
  all: simplify_eq/=; eauto.
Qed.

Lemma sweep_lr_loop_touches n (W : nat -> Z -> Prop) s0 a b phi psi eps p fa :
  (n <= p)%nat -> (a < n)%nat -> train_of s0 a = Some fa ->
  (forall i, 1 <= i <= size_sub (dim fa) 2 -> W phi i) ->
  forall fuel ii lsize s,
  0 <= ii -> ii + Z.of_nat fuel <= SIZE_MAX ->
  touches n W s0 s ->
  wp anyf (sweep_lr_loop K fuel (Some a) b phi psi eps (Some p) ii lsize) s
    (fun _ s' => touches n W s0 s').
Proof.
  intros Hp Ha Hfa HW fuel.
  induction fuel as [|fuel IH]; intros ii lsize s Hii Hfuel Ht; simpl.
  - by apply wp_ret.
  - assert (Hnext : size_add ii 1 = ii + 1)
      by (unfold size_add; rewrite wrap_small; lia).
    rewrite Hnext. apply wp_bind.
    eapply wp_weaken; [apply (sweep_lr_step_touches n W s0)|..]; try done.
    + intros fa' Hfa' Hlt. apply HW. simpl in Hfa'.
      rewrite (touches_train_of _ _ _ _ _ Ht Ha), Hfa in Hfa'. simplify_eq.
      lia.
    + intros lsize' s' Ht'. apply IH; [lia|lia|done].
Qed.

(** The effect of [dmrg_sweep_lr]: a new train at the next free address;
    [phi[0]] initialised when it was [NULL]; [phi[1 .. dim-2]] written;
    everything else as it was. *)
Lemma dmrg_sweep_lr_footprint s a b phi psi eps fa :
  train_of s a = Some fa ->
  wp anyf (dmrg_sweep_lr K (Some a) b phi psi eps) s (fun na s' =>
    na = Some (length (trains s)) /\
    touches (length (trains s))
      (fun arr i => arr = phi /\
         (1 <= i <= size_sub (dim fa) 2 \/
          i = 0 /\ slot_of s phi 0 = Some None))
      (with_train s (blank_train (dim fa))) s' /\
    (slot_of s phi 0 = Some None -> slot_of s' phi 0 = Some (Some [done_]))).
Proof.
  intros Hfa. pose proof (train_of_lt _ _ _ Hfa) as Hlt.
  set (n := length (trains s)).
  set (W := fun arr i => arr = phi /\
         (1 <= i <= size_sub (dim fa) 2 \/
          i = 0 /\ slot_of s phi 0 = Some None)).
  set (sa := with_train s (blank_train (dim fa))).
  assert (Hsa : touches n W s sa) by by apply touches_with_train.
  assert (Hloop : forall s1, touches n W sa s1 ->
    (slot_of s phi 0 = Some None -> slot_of s1 phi 0 = Some (Some [done_])) ->
    wp anyf (sweep_lr_loop K (Z.to_nat (size_sub (dim fa) 1)) (Some a) b phi psi
               eps (Some n) 0 1) s1
      (fun _ s' => touches n W sa s' /\
         (slot_of s phi 0 = Some None ->
          slot_of s' phi 0 = Some (Some [done_])))).
  { intros s1 Ht1 H0.
    eapply wp_weaken;
      [apply (sweep_lr_loop_touches n
                (fun arr i => arr = phi /\ 1 <= i <= size_sub (dim fa) 2)
                s1 a b phi psi eps n fa)|..];
      try done; try apply touches_refl.
    - rewrite (touches_train_of _ _ _ _ _ Ht1 Hlt).
      by rewrite (touches_train_of _ _ _ _ _ Hsa Hlt).
    - pose proof (wrap_range (dim fa - 1)). unfold size_sub. lia.
    - simpl. intros _ s' Ht'. split.
      + eapply touches_trans; [done|].
        eapply touches_mono; [done| |done]. unfold W. naive_solver.
      + intros Hnull. destruct Ht' as (_ & _ & _ & Hs).
        rewrite Hs; [auto|]. lia. }
  unfold dmrg_sweep_lr, function_train_alloc.
  apply wp_bind, wp_get_train. rewrite Hfa.
  apply wp_bind, wp_new_train.
  fold sa. fold n.
  repeat wp_head.
  all: (eapply wp_weaken; [apply Hloop|..]; [| |by simpl|done]).
  all: try (touches_peel; try apply touches_refl).
  all: try (intros _; erewrite slot_of_insert;
            [by rewrite bool_decide_eq_true_2|eassumption|eassumption|done]).
  all: unfold W, sa, with_train, slot_of, array_of in *;
    cbn [arrays trains] in *.
  all: try intros Hnull.
  all: repeat case_match; simplify_eq; naive_solver.
Qed.

(** *** Right-to-left *)

Lemma sweep_rl_step_touches n (W : nat -> Z -> Prop) s0 a b phi psi eps p
    ii rsize s :
  (n <= p)%nat ->
  (ii > 0 -> W psi (ii - 1)) ->
  touches n W s0 s ->
  wp anyf (sweep_rl_step K a b phi psi eps (Some p) ii rsize) s
    (fun _ s' => touches n W s0 s').
Proof.
  intros Hp Hw Ht. unfold sweep_rl_step.
  repeat wp_head.
  all: touches_peel.
  all: simplify_eq/=; eauto.
Qed.

Lemma sweep_rl_loop_touches n (W : nat -> Z -> Prop) s0 a b phi psi eps p top :
  (n <= p)%nat ->
  (forall i, 0 <= i < top -> W psi i) ->
  forall fuel ii rsize s,
  ii <= top ->
  touches n W s0 s ->
  wp anyf (sweep_rl_loop K fuel a b phi psi eps (Some p) ii rsize) s
    (fun _ s' => touches n W s0 s').
Proof.
  intros Hp HW fuel.
  induction fuel as [|fuel IH]; intros ii rsize s Hii Ht; simpl.
  - by apply wp_ret.
  - apply wp_bind.
    eapply wp_weaken; [apply (sweep_rl_step_touches n W s0)|..]; try done.
    + intros Hpos. apply HW. lia.
    + intros rsize' s' Ht'. apply IH; [lia|done].
Qed.

Lemma to_int_le z : 0 <= z -> to_int z <= z.
Proof.
  intros Hz. unfold to_int.
  pose proof (Z.mod_le (z + 2 ^ 31) (2 ^ 32)). lia.
Qed.

(** The effect of [dmrg_sweep_rl]: a new train at the next free address;
    [psi[dim-2]] initialised when it was [NULL]; [psi[0 .. dim-3]] written;
    everything else as it was. *)
Lemma dmrg_sweep_rl_footprint s a b phi psi eps fa :
  train_of s a = Some fa ->
  let top := size_sub (dim fa) 2 in
  wp anyf (dmrg_sweep_rl K (Some a) b phi psi eps) s (fun na s' =>
    na = Some (length (trains s)) /\
    touches (length (trains s))
      (fun arr i => arr = psi /\
         (0 <= i < to_int top \/
          i = top /\ slot_of s psi top = Some None))
      (with_train s (blank_train (dim fa))) s' /\
    (slot_of s psi top = Some None ->
     slot_of s' psi top = Some (Some [done_]))).
Proof.
  intros Hfa top. pose proof (train_of_lt _ _ _ Hfa) as Hlt.
  assert (Htop : 0 <= top) by apply wrap_range.
  set (n := length (trains s)).
  set (W := fun arr i => arr = psi /\
         (0 <= i < to_int top \/
          i = top /\ slot_of s psi top = Some None)).
  set (sa := with_train s (blank_train (dim fa))).
  assert (Hsa : touches n W s sa) by by apply touches_with_train.
  assert (Hloop : forall s1, touches n W sa s1 ->
    (slot_of s psi top = Some None ->
     slot_of s1 psi top = Some (Some [done_])) ->
    wp anyf (sweep_rl_loop K (Z.to_nat (to_int top + 1)) (Some a) b phi psi
               eps (Some n) (to_int top) 1) s1
      (fun _ s' => touches n W sa s' /\
         (slot_of s psi top = Some None ->
          slot_of s' psi top = Some (Some [done_])))).
  { intros s1 Ht1 H0.
    eapply wp_weaken;
      [apply (sweep_rl_loop_touches n
                (fun arr i => arr = psi /\ 0 <= i < to_int top)
                s1 (Some a) b phi psi eps n (to_int top))|..];
      try done; try apply touches_refl.
    simpl. intros _ s' Ht'. split.
    + eapply touches_trans; [done|].
      eapply touches_mono; [done| |done]. unfold W. naive_solver.
    + intros Hnull. destruct Ht' as (_ & _ & _ & Hs).
      rewrite Hs; [auto|]. pose proof (to_int_le top Htop). lia. }
  unfold dmrg_sweep_rl, function_train_alloc.
  apply wp_bind, wp_get_train. rewrite Hfa.
  apply wp_bind, wp_new_train.
  fold sa. fold n. fold top.
  repeat wp_head.
  all: (eapply wp_weaken; [apply Hloop|..]; [| |by simpl|done]).
  all: try (touches_peel; try apply touches_refl).
  all: try (intros _; erewrite slot_of_insert;
            [by rewrite bool_decide_eq_true_2|eassumption|eassumption|done]).
  all: unfold W, sa, with_train, slot_of, array_of in *;
    cbn [arrays trains] in *.
  all: try intros Hnull.
  all: repeat case_match; simplify_eq; naive_solver.
Qed.

(** *** The initialisation of [psi] *)

Lemma update_right_at_touches n (W : nat -> Z -> Prop) s0 a b mats ii s :
  W mats ii ->
  touches n W s0 s ->
  wp anyf (update_right_at K a b mats ii) s (fun _ s' => touches n W s0 s').
Proof.
  intros Hw Ht. unfold update_right_at.
  repeat wp_head.
  all: touches_peel.
  all: simplify_eq/=; eauto.
Qed.

Lemma slot_free_touches n (W : nat -> Z -> Prop) (s0 : state) mats ii s :
  W mats ii ->
  touches n W s0 s ->
  wp anyf (slot_free mats ii) s (fun _ s' => touches n W s0 s').
Proof.
  intros Hw Ht. repeat wp_head; touches_peel; done.
Qed.

Lemma all_right_loop_touches n (W : nat -> Z -> Prop) s0 a b mats start :
  start <= SIZE_MAX ->
  (forall i, 1 <= i <= start -> W mats i) ->
  forall fuel ii s,
  Z.of_nat fuel <= ii <= start ->
  touches n W s0 s ->
  wp anyf (all_right_loop K fuel a b mats ii) s
    (fun _ s' => touches n W s0 s').
Proof.
  intros Hstart HW fuel.
  induction fuel as [|fuel IH]; intros ii s Hii Ht; simpl.
  - by apply wp_ret.
  - assert (Hw : W mats ii) by (apply HW; lia).
    apply wp_bind.
    eapply wp_weaken; [by apply (slot_free_touches n W s0)|..]; [|done].
    simpl. intros _ s1 Ht1. apply wp_bind.
    eapply wp_weaken; [by apply (update_right_at_touches n W s0)|..]; [|done].
    simpl. intros _ s2 Ht2. apply IH; [|done].
    unfold size_sub. rewrite wrap_small; lia.
Qed.

(** The effect of [dmrg_update_all_right] for a first argument of
    dimension at least 3: only slots of [mats] are written, and slot
    [dim-2] ends as the buffer [[1.0]]. *)
Lemma dmrg_update_all_right_footprint s a b mats fa :
  train_of s a = Some fa ->
  3 <= dim fa <= SIZE_MAX ->
  wp anyf (dmrg_update_all_right K (Some a) b mats) s (fun _ s' =>
    touches (length (trains s))
      (fun arr i => arr = mats /\ 0 <= i <= dim fa - 2) s s' /\
    slot_of s' mats (dim fa - 2) = Some (Some [done_])).
Proof.
  intros Hfa Hd.
  set (n := length (trains s)).
  set (W := fun arr i => arr = mats /\ 0 <= i <= dim fa - 2).
  assert (Htop : size_sub (dim fa) 2 = dim fa - 2)
    by (unfold size_sub; rewrite wrap_small; lia).
  assert (Hstart : size_sub (dim fa) 3 = dim fa - 3)
    by (unfold size_sub; rewrite wrap_small; lia).
  assert (Htail : forall s1, touches n W s s1 ->
    slot_of s1 mats (dim fa - 2) = Some (Some [done_]) ->
    wp anyf (all_right_loop K (Z.to_nat (dim fa - 3)) (Some a) b mats
               (dim fa - 3) ;;;
             slot_free mats 0 ;;;
             update_right_at K (Some a) b mats 0) s1
      (fun _ s' => touches n W s s' /\
         slot_of s' mats (dim fa - 2) = Some (Some [done_]))).
  { intros s1 Ht1 H1.
    set (W' := fun arr i => arr = mats /\ 0 <= i <= dim fa - 3).
    assert (Hfin : forall s', touches n W' s1 s' ->
      touches n W s s' /\ slot_of s' mats (dim fa - 2) = Some (Some [done_])).
    { intros s' Ht'. split.
      - eapply touches_trans; [done|].
        eapply touches_mono; [done| |done]. unfold W, W'. intros; lia.
      - destruct Ht' as (_ & _ & _ & Hs). rewrite Hs; [done|].
        unfold W'. lia. }
    apply wp_bind.
    eapply wp_weaken;
      [apply (all_right_loop_touches n W' s1 (Some a) b mats (dim fa - 3))|..];
      try done; try apply touches_refl; try lia.
    { unfold W'. intros; lia. }
    simpl. intros _ s2 Ht2. apply wp_bind.
    eapply wp_weaken; [apply (slot_free_touches n W' s1)|..];
      [unfold W'; lia|done| |done].
    simpl. intros _ s3 Ht3.
    eapply wp_weaken; [apply (update_right_at_touches n W' s1)|..];
      [unfold W'; lia|done| |done].
    simpl. intros _ s4 Ht4. by apply Hfin. }
  unfold dmrg_update_all_right.
  apply wp_bind, wp_get_train. rewrite Hfa. rewrite Htop, Hstart.
  repeat wp_head.
  all: (eapply wp_weaken; [apply Htail|..]; [| |by simpl|done]).
  all: try (touches_peel; unfold W; lia).
  all: erewrite slot_of_insert; [by rewrite bool_decide_eq_true_2| | |lia].
  all: try eassumption.
  all: unfold array_of in *; cbn [arrays trains] in *.
  all: repeat case_match; simplify_eq; try done.
  all: by rewrite Htop.
Qed.

End Footprints.

(** * The sweeps and their accumulators *)

Section Sweeps.

Context {D GF : Type} `{Arith D}.
Variable K : Collab D GF.

#[local] Abbreviation state := (state D GF).
#[local] Abbreviation anyf := (fun _ : fault => True).

Lemma slot_of_with_train (s : state) ft arr i :
  slot_of (with_train s ft) arr i = slot_of s arr i.
Proof. done. Qed.

Lemma small_dim d :
  2 <= d <= 2 ^ 31 -> size_sub d 2 = d - 2 /\ to_int (d - 2) = d - 2.
Proof.
  intros Hd. unfold size_sub, to_int, wrap. split.
  - apply Z.mod_small. lia.
  - rewrite Z.mod_small; lia.
Qed.

(** C8. A left-to-right sweep writes, of all accumulator slots, only
    [phi[1 .. dim-2]], and [phi[0]] when it was [NULL] (it becomes the
    buffer [[1.0]]); every slot of [psi], and of any other array, is as
    before.  A right-to-left sweep writes only [psi[0 .. dim-3]], and
    [psi[dim-2]] when it was [NULL]; every slot of [phi] is as before. *)
Theorem sweeps_write_only_their_accumulators
    (s : state) (a : nat) (b : ptr) (phi psi : nat) (epsilon : D)
    (fa : FunctionTrain GF) :
  train_of s a = Some fa ->
  2 <= dim fa <= 2 ^ 31 ->
  phi <> psi ->
  (forall na s' out,
     dmrg_sweep_lr K (Some a) b phi psi epsilon s = Ok na s' out ->
     (forall k, slot_of s' psi k = slot_of s psi k) /\
     (forall k, k <> 0 -> ~ 1 <= k <= dim fa - 2 ->
        slot_of s' phi k = slot_of s phi k) /\
     slot_of s' phi 0 =
       match slot_of s phi 0 with
       | Some None => Some (Some [done_])
       | old => old
       end) /\
  (forall na s' out,
     dmrg_sweep_rl K (Some a) b phi psi epsilon s = Ok na s' out ->
     (forall k, slot_of s' phi k = slot_of s phi k) /\
     (forall k, k <> dim fa - 2 -> ~ 0 <= k <= dim fa - 3 ->
        slot_of s' psi k = slot_of s psi k) /\
     slot_of s' psi (dim fa - 2) =
       match slot_of s psi (dim fa - 2) with
       | Some None => Some (Some [done_])
       | old => old
       end).
Proof.
  intros Hfa Hd Hne.
  destruct (small_dim _ Hd) as [Htop Hint]. split.
  - intros na s' out Hrun.
    pose proof (wp_ok _ _ _ _ _ _ _
      (dmrg_sweep_lr_footprint K s a b phi psi epsilon fa Hfa) Hrun)
      as (_ & (_ & _ & _ & Hs) & H0).
    rewrite Htop in Hs. split_and!.
    + intros k. rewrite Hs by naive_solver. apply slot_of_with_train.
    + intros k Hk0 Hk. rewrite Hs by naive_solver. apply slot_of_with_train.
    + destruct (slot_of s phi 0) as [[l|]|] eqn:Hnull; [|by apply H0|].
      all: rewrite Hs by naive_solver.
      all: by rewrite slot_of_with_train.
  - intros na s' out Hrun.
    pose proof (wp_ok _ _ _ _ _ _ _
      (dmrg_sweep_rl_footprint K s a b phi psi epsilon fa Hfa) Hrun)
      as (_ & (_ & _ & _ & Hs) & H0).
    rewrite Htop, ?Hint in Hs, H0. split_and!.
    + intros k. rewrite Hs by naive_solver. apply slot_of_with_train.
    + intros k Hk0 Hk. rewrite Hs; [apply slot_of_with_train|].
      intros [_ [?|[? _]]]; lia.
    + destruct (slot_of s psi (dim fa - 2)) as [[l|]|] eqn:Hnull;
        [|by apply H0|].
      all: rewrite Hs by (intros [_ [?|[_ ?]]]; [lia|congruence]).
      all: by rewrite slot_of_with_train.
Qed.

End Sweeps.

Lemma sweeps_write_only_their_accumulators_run :
  (exists na out,
     dmrg_sweep_lr Plain.plain (Some 0%nat) (Some 1%nat) 0 1 0%float Run.heap2
     = Ok na Run.heap3 out) /\
  (forall k, slot_of Run.heap3 1 k = slot_of Run.heap2 1 k).
Proof.
  split.
  - vm_compute. eauto.
  - intros k.
    refine (proj1 (proj1 (sweeps_write_only_their_accumulators Plain.plain
                     Run.heap2 0 (Some 1%nat) 0 1 0%float Run.guess
                     _ _ _) _ Run.heap3 _ _) k).
    + reflexivity.
    + simpl; lia.
    + lia.
    + vm_compute. reflexivity.
Defined.

(** * The guess train of a sweep *)

Section Guess.

Context {D GF : Type} `{Arith D}.
Variable K : Collab D GF.

#[local] Abbreviation state := (state D GF).

Lemma bind_Ok {A B : Type} (m : M D GF A) (k : A -> M D GF B) s b s' out :
  bind m k s = Ok b s' out ->
  exists a s1 out1 out2,
    m s = Ok a s1 out1 /\ k a s1 = Ok b s' out2 /\ out = out1 ++ out2.
Proof.
  unfold bind. destruct (m s) as [a s1 out1|]; [|done].
  destruct (k a s1) as [b' s2 out2|] eqn:Hk; [|done].
  intros ?; simplify_eq. by exists a, s1, out1, out2.
Qed.

Lemma get_train_Ok (p : ptr) (s : state) ft s' out :
  get_train p s = Ok ft s' out ->
  exists n, p = Some n /\ train_of s n = Some ft /\ s' = s.
Proof.
  unfold get_train, train_of. destruct p as [n|]; [|done].
  destruct (trains s !! n) as [[ft'|]|] eqn:Hlk; [|done..].
  intros ?; simplify_eq. exists n. by rewrite Hlk.
Qed.

(** A sweep that returns has read its guess: the pointer is a live train. *)
Lemma dmrg_sweep_lr_guess a b phi psi epsilon (s : state) na s' out :
  dmrg_sweep_lr K a b phi psi epsilon s = Ok na s' out ->
  exists n fa, a = Some n /\ train_of s n = Some fa.
Proof.
  intros (fa & s1 & ? & ? & (n & -> & Hfa & _)%get_train_Ok & _)%bind_Ok.
  eauto.
Qed.

Lemma dmrg_sweep_rl_guess a b phi psi epsilon (s : state) na s' out :
  dmrg_sweep_rl K a b phi psi epsilon s = Ok na s' out ->
  exists n fa, a = Some n /\ train_of s n = Some fa.
Proof.
  intros (fa & s1 & ? & ? & (n & -> & Hfa & _)%get_train_Ok & _)%bind_Ok.
  eauto.
Qed.

(** C9, amended. A sweep does not modify the train it is given as the
    guess: it returns a train at a new address, and every train that
    existed before the call, the guess and the target among them, is as
    before. *)
Theorem sweeps_leave_the_guess_intact
    (s : state) (a b : ptr) (phi psi : nat) (epsilon : D)
    (na : ptr) (s' : state) (out : list event) :
  dmrg_sweep_lr K a b phi psi epsilon s = Ok na s' out \/
  dmrg_sweep_rl K a b phi psi epsilon s = Ok na s' out ->
  na = Some (length (trains s)) /\
  na <> a /\
  (forall p, (p < length (trains s))%nat -> trains s' !! p = trains s !! p) /\
  a ≫= train_of s' = a ≫= train_of s.
Proof.
  intros Hrun.
  assert (exists n fa, a = Some n /\ train_of s n = Some fa /\
            na = Some (length (trains s)) /\
            forall p, (p < length (trains s))%nat ->
                      trains s' !! p = trains s !! p)
    as (n & fa & -> & Hfa & -> & Hkeep).
  { destruct Hrun as [Hrun|Hrun].
    - destruct (dmrg_sweep_lr_guess _ _ _ _ _ _ _ _ _ Hrun)
        as (n & fa & -> & Hfa).
      pose proof (wp_ok _ _ _ _ _ _ _
        (dmrg_sweep_lr_footprint K s n b phi psi epsilon fa Hfa) Hrun)
        as (-> & (_ & Hkeep & _) & _).
      exists n, fa. split_and!; [done..|].
      intros p Hp. rewrite Hkeep by done. by apply lookup_app_l.
    - destruct (dmrg_sweep_rl_guess _ _ _ _ _ _ _ _ _ Hrun)
        as (n & fa & -> & Hfa).
      pose proof (wp_ok _ _ _ _ _ _ _
        (dmrg_sweep_rl_footprint K s n b phi psi epsilon fa Hfa) Hrun)
        as (-> & (_ & Hkeep & _) & _).
      exists n, fa. split_and!; [done..|].
      intros p Hp. rewrite Hkeep by done. by apply lookup_app_l. }
  pose proof (train_of_lt _ _ _ Hfa) as Hlt.
  split_and!; [done| |done|].
  - intros [= Heq]. lia.
  - simpl. unfold train_of. by rewrite Hkeep.
Qed.

End Guess.

(** C9 as stated fails: after this left-to-right sweep the guess, at
    address 0, is the train it was before the call, and the result is
    another train, at address 2. *)
Lemma sweep_does_not_modify_its_guess :
  exists out,
    dmrg_sweep_lr Plain.plain (Some 0%nat) (Some 1%nat) 0 1 0%float Run.heap2
    = Ok (Some 2%nat) Run.heap3 out /\
    train_of Run.heap2 0 = Some Run.guess /\
    train_of Run.heap3 0 = Some Run.guess.
Proof. vm_compute. eauto. Qed.

Lemma sweeps_leave_the_guess_intact_run :
  Some 2%nat = Some (length (trains Run.heap2)) /\
  Some 2%nat <> Some 0%nat /\
  (forall p, (p < length (trains Run.heap2))%nat ->
             trains Run.heap3 !! p = trains Run.heap2 !! p) /\
  Some 0%nat ≫= train_of Run.heap3 = Some 0%nat ≫= train_of Run.heap2.
Proof.
  apply (sweeps_leave_the_guess_intact Plain.plain Run.heap2 (Some 0%nat)
           (Some 1%nat) 0 1 0%float (Some 2%nat) Run.heap3 []).
  left. vm_compute. reflexivity.
Defined.

(** * Bounds of the accumulator indices *)

Section Bounds.

Context {D GF : Type} `{Arith D}.
Variable K : Collab D GF.

#[local] Abbreviation state := (state D GF).

Lemma has_slots_set mats n (s : state) l l' i b :
  array_of s mats = Some l -> st l i b = Some l' ->
  has_slots mats n s ->
  has_slots mats n
    {| trains := trains s; arrays := <[mats := Some l']> (arrays s) |}.
Proof.
  intros Hl Hst (l0 & Hl0 & Hn). simplify_eq.
  exists l'. split; [|by erewrite st_length].
  unfold array_of in *; simpl.
  destruct (arrays s !! mats) as [[?|]|] eqn:Hlk; simplify_eq.
  by rewrite list_lookup_insert_eq by by eapply lookup_lt_Some.
Qed.

(** An index within the array does not fault. *)
Ltac in_range :=
  repeat match goal with
  | Ha : array_of {| trains := _; arrays := <[?m := Some ?l']> (arrays ?s) |}
           ?m = _, Hs : array_of ?s ?m = Some _ |- _ =>
      rewrite (array_of_set _ _ _ _ _ Hs) in Ha; simplify_eq
  | Hst : st ?l ?i ?b = Some ?l' |- _ =>
      apply st_Some in Hst as [? ->]; rewrite ?length_insert in *
  | Hs : has_slots ?mats _ ?s, Ha : array_of ?s ?mats = Some _ |- _ =>
      let l := fresh "l" in
      destruct Hs as (l & ? & ?); simplify_eq
  | Hl : ld ?l ?i = None |- _ =>
      let Hi := fresh in
      assert (Hi : is_Some (ld l i))
        by (apply ld_is_Some; rewrite ?length_insert; lia);
      rewrite Hl in Hi; by destruct Hi
  | Hl : st ?l ?i ?b = None |- _ =>
      rewrite st_is_Some in Hl by (rewrite ?length_insert; lia);
      discriminate
  | Ha : array_of ?s ?mats = None, Hs : has_slots ?mats _ ?s |- _ =>
      destruct Hs as (? & ? & ?); congruence
  end.

Lemma slot_free_in_bounds mats n i (s : state) :
  0 <= i < n -> has_slots mats n s ->
  wp in_bounds (slot_free mats i) s (fun _ s' => has_slots mats n s').
Proof.
  intros Hi Hs. repeat wp_head.
  - by eapply has_slots_set.
  - in_range.
Qed.

Lemma update_right_at_in_bounds a b mats n ii (s : state) :
  0 <= ii -> ii + 1 < n -> n <= SIZE_MAX -> has_slots mats n s ->
  wp in_bounds (update_right_at K a b mats ii) s
    (fun _ s' => has_slots mats n s').
Proof.
  intros Hi Hn Hmax Hs. unfold update_right_at.
  assert (Hnext : size_add ii 1 = ii + 1)
    by (unfold size_add; rewrite wrap_small; lia).
  rewrite Hnext.
  repeat wp_head.
  all: try by eapply has_slots_set.
  all: in_range.
Qed.

Lemma all_right_loop_in_bounds a b mats n :
  n <= SIZE_MAX ->
  forall fuel ii (s : state),
  Z.of_nat fuel <= ii -> ii + 1 < n -> has_slots mats n s ->
  wp in_bounds (all_right_loop K fuel a b mats ii) s
    (fun _ s' => has_slots mats n s').
Proof.
  intros Hmax fuel.
  induction fuel as [|fuel IH]; intros ii s Hii Hn Hs; simpl.
  - by apply wp_ret.
  - assert (Hprev : size_sub ii 1 = ii - 1)
      by (unfold size_sub; rewrite wrap_small; lia).
    rewrite Hprev. apply wp_bind.
    eapply wp_weaken; [apply (slot_free_in_bounds mats n)|..];
      [lia|done| |done].
    simpl. intros _ s1 Hs1. apply wp_bind.
    eapply wp_weaken; [apply (update_right_at_in_bounds a b mats n)|..];
      [lia|lia|done|done| |done].
    simpl. intros _ s2 Hs2. apply IH; [lia|lia|done].
Qed.

Lemma dmrg_update_all_right_in_bounds (s : state) a b mats fa :
  train_of s a = Some fa ->
  3 <= dim fa <= SIZE_MAX ->
  has_slots mats (dim fa - 1) s ->
  wp in_bounds (dmrg_update_all_right K (Some a) b mats) s
    (fun _ s' => has_slots mats (dim fa - 1) s').
Proof.
  intros Hfa Hd Hs.
  assert (Htop : size_sub (dim fa) 2 = dim fa - 2)
    by (unfold size_sub; rewrite wrap_small; lia).
  assert (Hstart : size_sub (dim fa) 3 = dim fa - 3)
    by (unfold size_sub; rewrite wrap_small; lia).
  assert (Htail : forall s1, has_slots mats (dim fa - 1) s1 ->
    wp in_bounds (all_right_loop K (Z.to_nat (dim fa - 3)) (Some a) b mats
               (dim fa - 3) ;;;
             slot_free mats 0 ;;;
             update_right_at K (Some a) b mats 0) s1
      (fun _ s' => has_slots mats (dim fa - 1) s')).
  { intros s1 Hs1. apply wp_bind.
    eapply wp_weaken;
      [apply (all_right_loop_in_bounds (Some a) b mats (dim fa - 1))|..];
      [lia|lia|lia|done| |done].
    simpl. intros _ s2 Hs2. apply wp_bind.
    eapply wp_weaken; [apply (slot_free_in_bounds mats (dim fa - 1))|..];
      [lia|done| |done].
    simpl. intros _ s3 Hs3.
    apply update_right_at_in_bounds; [lia|lia|lia|done]. }
  unfold dmrg_update_all_right.
  apply wp_bind, wp_get_train. rewrite Hfa. cbv zeta. rewrite Htop, Hstart.
  repeat wp_head.
  all: try (apply Htail; repeat (eapply has_slots_set; [eassumption..|]);
            done).
  all: in_range.
Qed.

(** C10. With [mats] an array of [dim - 1] slots, as [dmrg_approx]
    allocates it: for [dim >= 3] no access of [dmrg_update_all_right] to a
    slot of an accumulator array is outside the array, so every index it
    frees, reads or writes is within [0 .. dim-2]; for [dim = 2] the
    counter [dim - 3] wraps around to [2^64 - 1] and the first iteration of
    the loop frees the slot of that index, outside the array. *)
Theorem update_all_right_needs_dim_3
    (s : state) (a : nat) (b : ptr) (mats : nat) (fa : FunctionTrain GF) :
  train_of s a = Some fa ->
  has_slots mats (dim fa - 1) s ->
  (3 <= dim fa <= SIZE_MAX ->
   forall arr i,
     dmrg_update_all_right K (Some a) b mats s <> Fault (SlotOutOfRange arr i)) /\
  (dim fa = 2 ->
   dmrg_update_all_right K (Some a) b mats s
   = Fault (SlotOutOfRange mats (2 ^ 64 - 1))).
Proof.
  intros Hfa Hs. split.
  - intros Hd arr i Hrun.
    pose proof (dmrg_update_all_right_in_bounds s a b mats fa Hfa Hd Hs) as Hw.
    unfold wp in Hw. by rewrite Hrun in Hw.
  - intros Hd. destruct Hs as (l & Hl & Hlen). rewrite Hd in Hlen.
    destruct l as [|x [|??]]; simpl in Hlen; try lia.
    set (F := fun f => f = SlotOutOfRange mats (2 ^ 64 - 1)).
    assert (Hw : wp F (dmrg_update_all_right K (Some a) b mats) s
                   (fun _ _ => False)).
    { assert (Hloop : forall y (s1 : state), array_of s1 mats = Some [y] ->
        wp F (all_right_loop K (Z.to_nat (size_sub 2 3)) (Some a) b mats
                (size_sub 2 3) ;;;
              slot_free mats 0 ;;;
              update_right_at K (Some a) b mats 0) s1 (fun _ _ => False)).
      { intros y s1 Hs1.
        assert (Hstart : size_sub 2 3 = 2 ^ 64 - 1) by done.
        rewrite Hstart.
        replace (Z.to_nat (2 ^ 64 - 1)) with (S (Z.to_nat (2 ^ 64 - 2)))
          by lia.
        cbn [all_right_loop].
        apply wp_bind, wp_bind, wp_slot_free. by rewrite Hs1. }
      unfold dmrg_update_all_right.
      apply wp_bind, wp_get_train. rewrite Hfa, Hd. cbv zeta.
      change (size_sub 2 2) with 0.
      apply wp_bind, wp_slot_get. rewrite Hl. cbn [ld bool_decide].
      change ([x] !! Z.to_nat 0) with (Some x).
      destruct x as [l0|].
      - apply wp_bind, wp_slot_free. rewrite Hl.
        change (st [Some l0] 0 None) with (Some [None : buffer D]).
        apply wp_bind, wp_slot_set.
        rewrite (array_of_set _ _ _ _ _ Hl).
        change (st [None] 0 (Some [done_]))
          with (Some [Some [done_] : buffer D]).
        eapply Hloop, array_of_set, array_of_set, Hl.
      - apply wp_bind, wp_ret, wp_bind, wp_slot_set. rewrite Hl.
        change (st [None] 0 (Some [done_]))
          with (Some [Some [done_] : buffer D]).
        eapply Hloop, array_of_set, Hl. }
    unfold wp, F in Hw.
    destruct (dmrg_update_all_right K (Some a) b mats s); [done|].
    by rewrite Hw.
Qed.

End Bounds.

Lemma update_all_right_needs_dim_3_run :
  (3 <= dim Run.target <= SIZE_MAX ->
   forall arr i,
     dmrg_update_all_right Plain.plain (Some 1%nat) (Some 0%nat) 1 Run.heap1
     <> Fault (SlotOutOfRange arr i)) /\
  (dim Run.target = 2 ->
   dmrg_update_all_right Plain.plain (Some 1%nat) (Some 0%nat) 1 Run.heap1
   = Fault (SlotOutOfRange 1 (2 ^ 64 - 1))).
Proof.
  apply (update_all_right_needs_dim_3 Plain.plain Run.heap1 1 (Some 0%nat) 1
           Run.target).
  - reflexivity.
  - exists [None; None]. split; reflexivity.
Defined.

(** * The right overlaps *)

Section Loops.

Context {I J S : Type}.

Lemma for_each_ext (l : list I) (f g : I -> S -> option S) s :
  (forall i, i ∈ l -> forall s, f i s = g i s) ->
  for_each l f s = for_each l g s.
Proof.
  revert s. induction l as [|i l IH]; intros s Hfg; [done|]. simpl.
  rewrite (Hfg i) by left. destruct (g i s); [|done].
  apply IH. intros j Hj. apply Hfg. by right.
Qed.

Lemma for_each_app (l1 l2 : list I) (f : I -> S -> option S) s :
  for_each (l1 ++ l2) f s = for_each l1 f s ≫= for_each l2 f.
Proof.
  revert s. induction l1 as [|i l1 IH]; intros s; [done|]. simpl.
  by destruct (f i s).
Qed.

Lemma for_each_fmap (h : I -> J) (l : list I) (f : J -> S -> option S) s :
  for_each (h <$> l) f s = for_each l (fun i => f (h i)) s.
Proof.
  revert s. induction l as [|i l IH]; intros s; [done|]. simpl.
  by destruct (f (h i) s).
Qed.

End Loops.

Lemma for_each_prod {I J S : Type} (la : list I) (lb : list J)
    (f : I -> J -> S -> option S) s :
  for_each la (fun a => for_each lb (f a)) s
  = for_each (list_prod la lb) (fun p => f p.1 p.2) s.
Proof.
  revert s. induction la as [|a la IH]; intros s; [done|].
  cbn [list_prod for_each].
  rewrite for_each_app.
  change (map (fun y => (a, y)) lb) with ((fun y => (a, y)) <$> lb).
  rewrite for_each_fmap. cbn [fst snd].
  destruct (for_each lb (f a) s) as [s'|] eqn:Hs'; [|done].
  simpl. apply IH.
Qed.

Lemma elem_of_list_prod {A B : Type} (la : list A) (lb : list B) a b :
  (a, b) ∈ list_prod la lb <-> a ∈ la /\ b ∈ lb.
Proof. rewrite !list_elem_of_In. apply in_prod_iff. Qed.

Lemma NoDup_list_prod {A B : Type} (la : list A) (lb : list B) :
  NoDup la -> NoDup lb -> NoDup (list_prod la lb).
Proof.
  intros Ha Hb. induction Ha as [|a la Hla Ha IH]; simpl; [constructor|].
  apply NoDup_app. split_and!; [| |done].
  - by apply (NoDup_fmap_2 (pair a)).
  - intros [a' b'] Hin Hin'. apply elem_of_list_prod in Hin' as [? _].
    apply list_elem_of_In, in_map_iff in Hin as (? & [= <- <-] & _). done.
Qed.

Section Contraction.

Context {D GF : Type} `{Arith D}.
Variable K : Collab D GF.

Lemma osum_None (ts : list (option D)) :
  foldl (fun acc t => x ← acc; y ← t; Some (dadd x y)) None ts = None.
Proof. by induction ts. Qed.

Lemma osum_cons v0 t (ts : list (option D)) :
  osum v0 (Some t :: ts) = osum (dadd v0 t) ts.
Proof. done. Qed.

Lemma osum_cons_None v0 (ts : list (option D)) : osum v0 (None :: ts) = None.
Proof. apply osum_None. Qed.

Lemma osum_is_Some v0 (ts : list (option D)) :
  Forall is_Some ts -> is_Some (osum v0 ts).
Proof.
  intros Hts. revert v0. induction Hts as [|t ts [x ->] _ IH]; intros v0.
  - by eexists.
  - rewrite osum_cons. apply IH.
Qed.

(** A loop that adds one term per index to [val[m]]. *)
Lemma for_each_accumulate {I : Type} (ps : list I) (term : I -> option D) m :
  forall (val : list D) v0,
  ld val m = Some v0 ->
  for_each ps (fun p val =>
    t ← term p; v ← ld val m; st val m (dadd v t)) val
  = (x ← osum v0 (term <$> ps); st val m x).
Proof.
  induction ps as [|p ps IH]; intros val v0 Hv.
  - pose proof (ld_lt _ _ _ Hv) as Hm. apply ld_Some in Hv as [_ Hv].
    simpl. rewrite st_is_Some by done. by rewrite list_insert_id.
  - rewrite fmap_cons. cbn [for_each].
    destruct (term p) as [t|]; [|by rewrite osum_cons_None].
    rewrite osum_cons. simpl. rewrite Hv. simpl.
    pose proof (ld_lt _ _ _ Hv) as Hm.
    rewrite st_is_Some by done.
    rewrite (IH _ (dadd v0 t)).
    + destruct (osum (dadd v0 t) (term <$> ps)); [|done].
      simpl. rewrite !st_is_Some by (rewrite ?length_insert; done).
      by rewrite list_insert_insert_eq.
    + erewrite ld_st; [|by apply st_is_Some|lia].
      by rewrite bool_decide_eq_true_2.
Qed.

(** A loop whose iteration [p] replaces [val[m p]] by [g p val[m p]], for
    offsets [m p] all different. *)
Lemma for_each_fill {I : Type} (m : I -> Z) (g : I -> D -> option D)
    (body : I -> list D -> option (list D)) :
  forall (ps : list I) (val : list D),
  (forall p val v, p ∈ ps -> ld val (m p) = Some v ->
     body p val = (x ← g p v; st val (m p) x)) ->
  NoDup (m <$> ps) ->
  (forall p v, p ∈ ps -> ld val (m p) = Some v -> is_Some (g p v)) ->
  (forall p, p ∈ ps -> 0 <= m p < Z.of_nat (length val)) ->
  exists val',
    for_each ps body val = Some val' /\
    length val' = length val /\
    (forall p, p ∈ ps ->
       exists v, ld val (m p) = Some v /\ ld val' (m p) = g p v) /\
    (forall k, (forall p, p ∈ ps -> m p <> k) -> ld val' k = ld val k).
Proof.
  induction ps as [|p ps IH]; intros val Hbody Hnd Hg Hm.
  { exists val. split_and!; [done..| |done]. intros p Hp. by inversion Hp. }
  apply NoDup_cons in Hnd as [Hp Hnd].
  destruct (ld_is_Some val (m p)) as [v Hv]; [apply Hm; left|].
  destruct (Hg p v) as [x Hx]; [left|done|].
  simpl. rewrite (Hbody p val v), Hx by (done || left). simpl.
  rewrite st_is_Some by (apply Hm; left).
  set (val1 := <[Z.to_nat (m p) := x]> val).
  assert (Hst : st val (m p) x = Some val1)
    by (apply st_is_Some, Hm; left).
  assert (Hother : forall q, q ∈ ps -> ld val1 (m q) = ld val (m q)).
  { intros q Hq. eapply ld_st_ne; [done|].
    intros Heq. apply Hp. rewrite Heq. by apply list_elem_of_fmap_2. }
  destruct (IH val1) as (val' & Hrun & Hlen & Hin & Hout).
  - intros q val2 v2 Hq. apply Hbody. by right.
  - done.
  - intros q v2 Hq. rewrite Hother by done. apply Hg. by right.
  - intros q Hq. unfold val1. rewrite length_insert. apply Hm. by right.
  - exists val'. split_and!; [done| | |].
    + rewrite Hlen. apply length_insert.
    + intros q [->|Hq]%elem_of_cons.
      * exists v. split; [done|]. rewrite Hout.
        -- rewrite Hx. assert (0 <= m p) by (apply Hm; left).
           erewrite ld_st by done. by rewrite bool_decide_eq_true_2.
        -- intros q' Hq Heq. apply Hp. rewrite <- Heq.
           by apply list_elem_of_fmap_2.
      * destruct (Hin q Hq) as (v2 & Hv2 & Hq2).
        exists v2. split; [|done]. by rewrite <- Hother.
    + intros k Hk. rewrite Hout by (intros q Hq; apply Hk; by right).
      eapply ld_st_ne; [done|]. apply Hk. left.
Qed.

Lemma wrap_index i n j :
  0 <= i < 2 ^ 31 -> 0 <= n < 2 ^ 31 -> 0 <= j < 2 ^ 31 ->
  size_add (size_mul i n) j = i * n + j.
Proof.
  intros Hi Hn Hj. unfold size_add, size_mul.
  assert (0 <= i * n < 2 ^ 62) by nia.
  rewrite (wrap_small (i * n)) by (unfold SIZE_MAX; lia).
  apply wrap_small. unfold SIZE_MAX. lia.
Qed.

Lemma bind_term {A B C E : Type} (x : option A) (y : option B) (z : option C)
    (h : A -> B -> C -> D) (k : D -> option E) :
  (t ← (a ← x; b ← y; c ← z; Some (h a b c)); k t)
  = (a ← x; b ← y; c ← z; k (h a b c)).
Proof. by destruct x, y, z. Qed.

(** [dmrg_update_right] computes the contraction of the specification, for
    blocks and an accumulator of matching sizes. *)
Lemma dmrg_update_right_contract (P : list D) (L R : Qmarray GF) :
  wf_core L -> wf_core R ->
  Z.of_nat (length P) = ncols L * ncols R ->
  exists val, dmrg_update_right K P L R = Some val /\ is_contract K P L R val.
Proof.
  intros (HrL & HcL & HfL) (HrR & HcR & HfR) HP.
  set (ps := list_prod (seqZ 0 (nrows R)) (seqZ 0 (nrows L))).
  set (qs := list_prod (seqZ 0 (ncols L)) (seqZ 0 (ncols R))).
  set (m := fun p : Z * Z => p.1 * nrows L + p.2).
  set (g := fun (p : Z * Z) v =>
              osum v (contract_term K P L R p.2 p.1 <$> qs)).
  assert (Hps : forall p, p ∈ ps <->
            0 <= p.1 < nrows R /\ 0 <= p.2 < nrows L).
  { intros [ii jj]. unfold ps. rewrite elem_of_list_prod, !elem_of_seqZ.
    simpl. lia. }
  assert (Hqs : forall q, q ∈ qs <->
            0 <= q.1 < ncols L /\ 0 <= q.2 < ncols R).
  { intros [kk ll]. unfold qs. rewrite elem_of_list_prod, !elem_of_seqZ.
    simpl. lia. }
  assert (Hsize : size_mul (nrows L) (nrows R) = nrows L * nrows R).
  { unfold size_mul. apply wrap_small. unfold SIZE_MAX. nia. }
  destruct (for_each_fill m g
              (fun p => for_each (seqZ 0 (ncols L)) (fun kk =>
                 for_each (seqZ 0 (ncols R)) (fun ll val =>
                   p0 ← ld P (size_add (size_mul ll (ncols L)) kk);
                   f ← ld (funcs L) (size_add (size_mul kk (nrows L)) p.2);
                   g0 ← ld (funcs R) (size_add (size_mul ll (nrows R)) p.1);
                   v ← ld val (size_add (size_mul p.1 (nrows L)) p.2);
                   st val (size_add (size_mul p.1 (nrows L)) p.2)
                     (dadd v (dmul p0 (generic_function_inner K f g0))))))
              ps (calloc_double (size_mul (nrows L) (nrows R))))
    as (val & Hrun & Hlen & Hin & _).
  - intros [ii jj] val v [Hii Hjj]%Hps Hv. simpl in Hii, Hjj.
    rewrite for_each_prod. fold qs. cbn [fst snd].
    rewrite (for_each_ext qs _ (fun q val =>
      t ← contract_term K P L R jj ii q;
      v ← ld val (m (ii, jj)); st val (m (ii, jj)) (dadd v t))).
    + by apply for_each_accumulate.
    + intros [kk ll] [Hkk Hll]%Hqs val'. simpl in Hkk, Hll.
      unfold contract_term, acc_at, fn_at, m. cbn [fst snd].
      rewrite !wrap_index by lia. by rewrite bind_term.
  - apply NoDup_fmap_2_strong.
    + intros [i1 j1] [i2 j2] [? ?]%Hps [? ?]%Hps Heq.
      unfold m in Heq. simpl in *.
      assert (i1 = i2) by nia. subst. f_equal. lia.
    + apply NoDup_list_prod; apply NoDup_seqZ.
  - intros [ii jj] v [Hii Hjj]%Hps _. simpl in Hii, Hjj.
    apply osum_is_Some, Forall_fmap, Forall_forall.
    intros [kk ll] [Hkk Hll]%Hqs. simpl in Hkk, Hll.
    unfold compose, contract_term, acc_at, fn_at. cbn [fst snd].
    destruct (ld_is_Some P (ll * ncols L + kk)) as [? ->]; [nia|].
    destruct (ld_is_Some (funcs L) (kk * nrows L + jj)) as [? ->]; [nia|].
    destruct (ld_is_Some (funcs R) (ll * nrows R + ii)) as [? ->]; [nia|].
    by eexists.
  - intros [ii jj] [Hii Hjj]%Hps. simpl in Hii, Hjj.
    unfold calloc_double, m. rewrite length_replicate, Hsize. simpl. nia.
  - exists val. split.
    + unfold dmrg_update_right, for_loop. cbv zeta.
      by rewrite for_each_prod.
    + split.
      * rewrite Hlen. unfold calloc_double. rewrite length_replicate, Hsize.
        nia.
      * intros rowL rowR HrowL HrowR.
        destruct (Hin (rowR, rowL)) as (v & Hv & Hval).
        { apply Hps. simpl. lia. }
        unfold m in Hv, Hval. cbn [fst snd] in Hv, Hval.
        assert (v = dzero) as ->.
        { apply ld_Some in Hv as [_ Hv]. unfold calloc_double in Hv.
          by apply lookup_replicate in Hv as [-> _]. }
        destruct (osum_is_Some dzero
                    (contract_term K P L R rowL rowR <$> qs)) as [x Hx].
        { apply Forall_fmap, Forall_forall.
          intros [kk ll] [Hkk Hll]%Hqs. simpl in Hkk, Hll.
          unfold compose, contract_term, acc_at, fn_at. cbn [fst snd].
          destruct (ld_is_Some P (ll * ncols L + kk)) as [? ->]; [nia|].
          destruct (ld_is_Some (funcs L) (kk * nrows L + rowL)) as [? ->];
            [nia|].
          destruct (ld_is_Some (funcs R) (ll * nrows R + rowR)) as [? ->];
            [nia|].
          by eexists. }
        exists x. split; [|done]. rewrite Hval. unfold g. by cbn [fst snd].
Qed.

End Contraction.

Section Chain.

Context {GF : Type}.

Lemma wf_coreb_spec (q : Qmarray GF) : wf_coreb q = true <-> wf_core q.
Proof.
  unfold wf_coreb, wf_core.
  rewrite !andb_true_iff, !bool_decide_eq_true. tauto.
Qed.

Lemma chainb_spec (ft : FunctionTrain GF) : chainb ft = true <-> chain ft.
Proof.
  unfold chainb, chain.
  rewrite !andb_true_iff, !bool_decide_eq_true, forallb_forall.
  split.
  - intros ((((? & ?) & ?) & ?) & Hall). split_and!; [done..|].
    intros k Hk. specialize (Hall k).
    rewrite <- list_elem_of_In, elem_of_seqZ in Hall.
    specialize (Hall ltac:(lia)).
    destruct (ld (cores ft) k) as [[q|]|]; [|done..].
    rewrite !andb_true_iff, !bool_decide_eq_true, wf_coreb_spec in Hall.
    exists q. tauto.
  - intros (? & ? & ? & ? & Hall). split_and!; [done..|].
    intros k Hk. rewrite <- list_elem_of_In, elem_of_seqZ in Hk.
    destruct (Hall k ltac:(lia)) as (q & -> & ? & ? & ?).
    rewrite !andb_true_iff, !bool_decide_eq_true, wf_coreb_spec. tauto.
Qed.

End Chain.

Section RightOverlaps.

Context {D GF : Type} `{Arith D}.
Variable K : Collab D GF.

#[local] Abbreviation state := (state D GF).
#[local] Abbreviation nofault := (fun _ : fault => False).

(** One step of the initialisation: [free(mats[ii])] and the assignment of
    the contraction to [mats[ii]]. *)
Lemma update_step (s : state) a b mats ta tb ii :
  train_of s a = Some ta -> train_of s b = Some tb ->
  chain ta -> chain tb -> dim tb = dim ta -> dim ta <= SIZE_MAX ->
  0 <= ii <= dim ta - 3 ->
  has_slots mats (dim ta - 1) s ->
  sized_at s mats ta tb (ii + 1) ->
  wp nofault
    (slot_free mats ii ;;; update_right_at K (Some a) (Some b) mats ii) s
    (fun _ s' =>
       trains s' = trains s /\
       has_slots mats (dim ta - 1) s' /\
       (forall k, 0 <= k -> k <> ii -> slot_of s' mats k = slot_of s mats k) /\
       overlap_at K s' mats ta tb ii /\
       sized_at s' mats ta tb ii).
Proof.
  intros Hta Htb Hca Hcb Hdim Hmax Hii (l & Hl & Hlen)
    (P & ra & rb & HP & Hra & Hrb & HPlen).
  destruct Hca as (_ & _ & _ & _ & Hca). destruct Hcb as (_ & _ & _ & _ & Hcb).
  destruct (Hca (ii + 2)) as (L & HL & HwL & HLr & HLc); [lia|].
  destruct (Hcb (ii + 2)) as (R & HR & HwR & HRr & HRc); [lia|].
  replace (ii + 2 + 1) with (ii + 1 + 2) in HLc, HRc by lia.
  rewrite Hra in HLc. rewrite Hrb in HRc. simplify_eq.
  destruct (dmrg_update_right_contract K P L R HwL HwR HPlen)
    as (val & Hval & Hcontract).
  assert (H1 : size_add ii 1 = ii + 1)
    by (unfold size_add; rewrite wrap_small; lia).
  assert (H2 : size_add ii 2 = ii + 2)
    by (unfold size_add; rewrite wrap_small; lia).
  destruct (ld_is_Some l ii) as [old Hold]; [lia|].
  set (l1 := <[Z.to_nat ii := None]> l).
  assert (Hst1 : st l ii None = Some l1) by (apply st_is_Some; lia).
  set (s1 := {| trains := trains s; arrays := <[mats := Some l1]> (arrays s) |}).
  assert (Hl1 : array_of s1 mats = Some l1) by by eapply array_of_set.
  set (l2 := <[Z.to_nat ii := Some val]> l1).
  assert (Hst2 : st l1 ii (Some val) = Some l2).
  { apply st_is_Some. unfold l1. rewrite length_insert. lia. }
  assert (HP1 : ld l1 (ii + 1) = Some (Some P)).
  { erewrite ld_st_ne; [|done|lia]. by rewrite <- (slot_of_ld s mats). }
  apply wp_bind, wp_slot_free. rewrite Hl, Hst1. fold s1.
  unfold update_right_at. rewrite H1, H2.
  apply wp_bind, wp_buf_at. rewrite Hl1, HP1.
  apply wp_bind, wp_get_train.
  change (train_of s1 a) with (train_of s a). rewrite Hta.
  apply wp_bind, wp_core_at. rewrite HL.
  apply wp_bind, wp_get_train.
  change (train_of s1 b) with (train_of s b). rewrite Htb.
  apply wp_bind, wp_core_at. rewrite HR.
  apply wp_bind, wp_lift. rewrite Hval.
  apply wp_slot_set. rewrite Hl1, Hst2.
  set (s2 := {| trains := trains s1; arrays := <[mats := Some l2]> (arrays s1) |}).
  assert (Hl2 : array_of s2 mats = Some l2) by by eapply array_of_set.
  assert (Hslot : forall k, 0 <= k ->
    slot_of s2 mats k
    = if bool_decide (ii = k) then Some (Some val) else slot_of s mats k).
  { intros k Hk. unfold s2. erewrite slot_of_set by done.
    case_bool_decide; [done|]. unfold s1. erewrite slot_of_set by done.
    case_bool_decide; [done|]. done. }
  split_and!.
  - done.
  - exists l2. split; [done|]. unfold l2, l1. by rewrite !length_insert.
  - intros k Hk Hne. rewrite Hslot by done.
    by rewrite bool_decide_eq_false_2 by lia.
  - exists P, L, R, val. split_and!; [|done..| |done].
    + rewrite Hslot by lia. by rewrite bool_decide_eq_false_2 by lia.
    + rewrite Hslot by lia. by rewrite bool_decide_eq_true_2.
  - exists val, (nrows L), (nrows R). split_and!; [|done..|apply Hcontract].
    rewrite Hslot by lia. by rewrite bool_decide_eq_true_2.
Qed.

Lemma update_step_from (s0 s : state) a b mats ta tb ii :
  train_of s0 a = Some ta -> train_of s0 b = Some tb ->
  chain ta -> chain tb -> dim tb = dim ta -> dim ta <= SIZE_MAX ->
  0 <= ii <= dim ta - 3 ->
  overlaps_from K s0 mats ta tb (ii + 1) s ->
  wp nofault
    (slot_free mats ii ;;; update_right_at K (Some a) (Some b) mats ii) s
    (fun _ s' => overlaps_from K s0 mats ta tb ii s').
Proof.
  intros Hta Htb Hca Hcb Hdim Hmax Hii (Htr & Hsl & Htop & Hsz & Hov).
  eapply wp_weaken;
    [apply (update_step s a b mats ta tb ii)|..]; try done.
  - unfold train_of. by rewrite Htr.
  - unfold train_of. by rewrite Htr.
  - simpl. intros _ s' (Htr' & Hsl' & Hkeep & Hov' & Hsz').
    split_and!; [congruence|done| |done|].
    + rewrite Hkeep by lia. done.
    + intros k Hk. destruct (decide (k = ii)) as [->|Hne]; [done|].
      destruct (Hov k) as (P & L & R & val & HP & HL & HR & Hval & Hc);
        [lia|].
      exists P, L, R, val. split_and!; [|done..| |done].
      * rewrite Hkeep by lia. done.
      * rewrite Hkeep by lia. done.
Qed.

Lemma all_right_loop_from (s0 : state) a b mats ta tb :
  train_of s0 a = Some ta -> train_of s0 b = Some tb ->
  chain ta -> chain tb -> dim tb = dim ta -> dim ta <= SIZE_MAX ->
  forall fuel ii s,
  Z.of_nat fuel = ii -> ii <= dim ta - 3 ->
  overlaps_from K s0 mats ta tb (ii + 1) s ->
  wp nofault (all_right_loop K fuel (Some a) (Some b) mats ii) s
    (fun _ s' => overlaps_from K s0 mats ta tb 1 s').
Proof.
  intros Hta Htb Hca Hcb Hdim Hmax fuel.
  induction fuel as [|fuel IH]; intros ii s Hfuel Hii Hinv.
  - apply wp_ret. by replace 1 with (ii + 1) by lia.
  - cbn [all_right_loop].
    assert (Hprev : size_sub ii 1 = ii - 1)
      by (unfold size_sub; rewrite wrap_small; lia).
    rewrite Hprev.
    assert (Hstep := update_step_from s0 s a b mats ta tb ii
                       Hta Htb Hca Hcb Hdim Hmax ltac:(lia) Hinv).
    unfold wp, bind in *.
    destruct (slot_free mats ii s) as [[] s1 o1|]; [|done].
    destruct (update_right_at K (Some a) (Some b) mats ii s1)
      as [[] s2 o2|]; [|done].
    specialize (IH (ii - 1) s2 ltac:(lia) ltac:(lia)).
    replace (ii - 1 + 1) with ii in IH by lia.
    specialize (IH Hstep).
    by destruct (all_right_loop K fuel (Some a) (Some b) mats (ii - 1) s2).
Qed.

(** C3. For a target and a guess of dimension [dim >= 3] that satisfy the
    chain invariants, [dmrg_update_all_right] returns, with [psi[dim-2]]
    the one-entry buffer [[1.0]] and, for every [k] from [dim-3] down to
    [0], [psi[k]] the contraction of [psi[k+1]] with core [k+2] of the
    target and core [k+2] of the guess: one entry per pair of a row of
    the one and a row of the other, equal to the sum over [(a, b)] of
    [psi[k+1][b, a] * inner(L(rowL, a), R(rowR, b))]. *)
Theorem right_overlaps_are_contractions
    (s : state) (a b : nat) (mats : nat) (ta tb : FunctionTrain GF) :
  train_of s a = Some ta -> train_of s b = Some tb ->
  chain ta -> chain tb -> dim tb = dim ta ->
  3 <= dim ta <= SIZE_MAX ->
  has_slots mats (dim ta - 1) s ->
  exists s' out,
    dmrg_update_all_right K (Some a) (Some b) mats s = Ok tt s' out /\
    slot_of s' mats (dim ta - 2) = Some (Some [done_]) /\
    forall k, 0 <= k <= dim ta - 3 -> overlap_at K s' mats ta tb k.
Proof.
  intros Hta Htb Hca Hcb Hdim Hd Hsl.
  assert (Htop : size_sub (dim ta) 2 = dim ta - 2)
    by (unfold size_sub; rewrite wrap_small; lia).
  assert (Hstart : size_sub (dim ta) 3 = dim ta - 3)
    by (unfold size_sub; rewrite wrap_small; lia).
  (* the state once [mats[dim-2]] is set *)
  assert (Hinit : forall (s1 : state) l l',
    trains s1 = trains s -> array_of s1 mats = Some l ->
    Z.of_nat (length l) = dim ta - 1 ->
    st l (dim ta - 2) (Some [done_]) = Some l' ->
    overlaps_from K s mats ta tb (dim ta - 3 + 1)
      {| trains := trains s1; arrays := <[mats := Some l']> (arrays s1) |}).
  { intros s1 l l' Htr Hl Hlen Hst.
    assert (Hslot : slot_of
      {| trains := trains s1; arrays := <[mats := Some l']> (arrays s1) |}
      mats (dim ta - 2) = Some (Some [done_])).
    { erewrite slot_of_set; [|done..|lia]. by rewrite bool_decide_eq_true_2. }
    split_and!; [done| |done| |intros; lia].
    - exists l'. split; [by eapply array_of_set|].
      by erewrite st_length.
    - destruct Hca as (_ & _ & _ & Hra & _).
      destruct Hcb as (_ & _ & _ & Hrb & _). rewrite Hdim in Hrb.
      exists [done_], 1, 1.
      replace (dim ta - 3 + 1) with (dim ta - 2) by lia.
      replace (dim ta - 2 + 2) with (dim ta) by lia. done. }
  assert (Htail : forall s1, overlaps_from K s mats ta tb (dim ta - 3 + 1) s1 ->
    wp nofault
      (all_right_loop K (Z.to_nat (dim ta - 3)) (Some a) (Some b) mats
         (dim ta - 3) ;;;
       slot_free mats 0 ;;;
       update_right_at K (Some a) (Some b) mats 0) s1
      (fun _ s' => overlaps_from K s mats ta tb 0 s')).
  { intros s1 Hs1. apply wp_bind.
    eapply wp_weaken;
      [apply (all_right_loop_from s a b mats ta tb); try done; lia|..];
      [|done].
    simpl. intros _ s2 Hs2.
    apply (update_step_from s s2 a b mats ta tb 0); try done; lia. }
  destruct Hsl as (l & Hl & Hlen).
  destruct (ld_is_Some l (dim ta - 2)) as [old Hold]; [lia|].
  cut (wp nofault (dmrg_update_all_right K (Some a) (Some b) mats) s
         (fun _ s' => overlaps_from K s mats ta tb 0 s')).
  { intros ([] & s' & out & Hrun & (_ & _ & ? & _ & ?))%wp_total.
    by exists s', out. }
  unfold dmrg_update_all_right.
  apply wp_bind, wp_get_train. rewrite Hta. cbv zeta. rewrite Htop, Hstart.
  apply wp_bind, wp_slot_get. rewrite Hl, Hold.
  apply wp_bind.
  destruct old as [buf|].
  - apply wp_slot_free. rewrite Hl.
    rewrite st_is_Some by lia.
    apply wp_bind, wp_slot_set. erewrite array_of_set by done.
    rewrite st_is_Some by (rewrite length_insert; lia).
    eapply Htail, Hinit; [done|by eapply array_of_set| |].
    + rewrite length_insert. lia.
    + apply st_is_Some. rewrite length_insert. lia.
  - apply wp_ret, wp_bind, wp_slot_set. rewrite Hl.
    rewrite st_is_Some by lia.
    eapply Htail, Hinit; [done|done|lia|]. apply st_is_Some. lia.
Qed.

End RightOverlaps.

Lemma right_overlaps_are_contractions_run :
  exists s' out,
    dmrg_update_all_right Plain.plain (Some 1%nat) (Some 0%nat) 1 Run.heap1
    = Ok tt s' out /\
    slot_of s' 1 (dim Run.target - 2) = Some (Some [done_]) /\
    forall k, 0 <= k <= dim Run.target - 3 ->
      overlap_at Plain.plain s' 1 Run.target Run.guess k.
Proof.
  apply (right_overlaps_are_contractions Plain.plain Run.heap1 1 0 1
           Run.target Run.guess).
  - reflexivity.
  - reflexivity.
  - apply chainb_spec. reflexivity.
  - apply chainb_spec. reflexivity.
  - reflexivity.
  - vm_compute. split; discriminate.
  - exists [None; None]. split; reflexivity.
Defined.

(** * The iteration budget *)

Section Budget.

Context {D GF : Type} `{Arith D}.
Variable K : Collab D GF.

#[local] Abbreviation state := (state D GF).
#[local] Abbreviation M := (M D GF).
#[local] Abbreviation anyf := (fun _ : fault => True).
#[local] Abbreviation keeps_trains := (keeps_trains (D := D) (GF := GF)).

Lemma quiet_bind {A B : Type} (m1 m2 : M A) (k1 k2 : A -> M B) (s : state) :
  quiet (m1 s) = quiet (m2 s) ->
  (forall a s', quiet (k1 a s') = quiet (k2 a s')) ->
  quiet (bind m1 k1 s) = quiet (bind m2 k2 s).
Proof.
  unfold bind. intros Hm Hk.
  destruct (m1 s) as [a1 s1 o1|], (m2 s) as [a2 s2 o2|]; simplify_eq/=;
    [|done].
  specialize (Hk a2 s2). by destruct (k1 a2 s2), (k2 a2 s2); simplify_eq/=.
Qed.

(** The same, with what is known of the state after [m]. *)
Lemma quiet_bind_wp {A B : Type} (m : M A) (k1 k2 : A -> M B) (s : state)
    (Q : A -> state -> Prop) :
  wp anyf m s Q ->
  (forall a s', Q a s' -> quiet (k1 a s') = quiet (k2 a s')) ->
  quiet (bind m k1 s) = quiet (bind m k2 s).
Proof.
  unfold bind, wp. intros Hm Hk.
  destruct (m s) as [a1 s1 o1|]; [|done].
  specialize (Hk a1 s1 Hm). by destruct (k1 a1 s1), (k2 a1 s1); simplify_eq/=.
Qed.

(** A step that only prints. *)
Lemma quiet_skip {B : Type} (m : M unit) (k : unit -> M B) (s : state)
    (r : outcome D GF B) :
  (exists out, m s = Ok tt s out) ->
  quiet (k tt s) = r ->
  quiet (bind m k s) = r.
Proof.
  unfold bind. intros [out ->] <-. by destruct (k tt s).
Qed.

Lemma approx_loop_quiet b phi psi delta max_sweeps verbose epsilon :
  forall fuel ii ao na (s : state),
  quiet (approx_loop K fuel b phi psi delta max_sweeps verbose epsilon
           ii ao na s)
  = quiet (lrl_iterations K fuel b phi psi epsilon ao na s).
Proof.
  induction fuel as [|fuel IH]; intros ii ao na s; [done|].
  cbn [approx_loop lrl_iterations].
  apply quiet_skip; [case_bool_decide; by eexists|].
  apply quiet_bind; [done|]. intros _ s1.
  apply quiet_bind; [done|]. intros na' s2.
  apply quiet_bind; [done|]. intros _ s3.
  apply quiet_skip; [destruct (dltb dten delta); by eexists|].
  apply quiet_bind; [done|]. intros ao' s4. apply IH.
Qed.

Lemma keeps_ret {A : Type} (a : A) : keeps_trains (ret a).
Proof. by intros s. Qed.

Lemma keeps_bind {A B : Type} (m : M A) (k : A -> M B) :
  keeps_trains m -> (forall a, keeps_trains (k a)) -> keeps_trains (bind m k).
Proof.
  intros Hm Hk s. apply wp_bind.
  eapply wp_weaken; [apply Hm| |done]. simpl. intros a s1 Hs1.
  eapply wp_weaken; [apply Hk| |done]. simpl. intros b s2 Hs2. congruence.
Qed.

Lemma keeps_slot_get arr i : keeps_trains (slot_get arr i).
Proof. intros s. by repeat wp_head. Qed.

Lemma keeps_slot_set arr i b : keeps_trains (slot_set arr i b).
Proof. intros s. by repeat wp_head. Qed.

Lemma keeps_get_train p : keeps_trains (get_train p).
Proof. intros s. by repeat wp_head. Qed.

Lemma keeps_core_at ft i : keeps_trains (core_at ft i).
Proof. intros s. by repeat wp_head. Qed.

Lemma keeps_lift {A : Type} (o : option A) : keeps_trains (lift o).
Proof. intros s. by repeat wp_head. Qed.

Lemma keeps_raise {A : Type} f : keeps_trains (raise (A := A) f).
Proof. by intros s. Qed.

Lemma keeps_malloc_slots n : keeps_trains (malloc_slots n).
Proof. by intros s. Qed.

Ltac keeps :=
  repeat first
    [ apply keeps_ret | apply keeps_raise
    | apply keeps_bind; [|intros ?]
    | apply keeps_slot_get | apply keeps_slot_set | apply keeps_get_train
    | apply keeps_core_at | apply keeps_lift
    | match goal with
      | |- keeps_trains (match ?e with _ => _ end) => destruct e
      end ].

Lemma keeps_slot_free arr i : keeps_trains (slot_free arr i).
Proof. unfold slot_free. keeps. Qed.

Lemma keeps_buf_at arr i : keeps_trains (buf_at arr i).
Proof. unfold buf_at. keeps. Qed.

Lemma keeps_update_right_at a b mats ii :
  keeps_trains (update_right_at K a b mats ii).
Proof.
  unfold update_right_at.
  repeat first [apply keeps_buf_at | apply keeps_bind; [|intros ?] | keeps].
Qed.

Lemma keeps_all_right_loop a b mats :
  forall fuel ii, keeps_trains (all_right_loop K fuel a b mats ii).
Proof.
  induction fuel as [|fuel IH]; intros ii; simpl; [apply keeps_ret|].
  apply keeps_bind; [apply keeps_slot_free|intros _].
  apply keeps_bind; [apply keeps_update_right_at|intros _]. apply IH.
Qed.

Lemma keeps_dmrg_update_all_right a b mats :
  keeps_trains (dmrg_update_all_right K a b mats).
Proof.
  unfold dmrg_update_all_right.
  apply keeps_bind; [apply keeps_get_train|intros fa]. cbv zeta.
  apply keeps_bind; [apply keeps_slot_get|intros m].
  apply keeps_bind; [destruct m; [apply keeps_slot_free|apply keeps_ret]|].
  intros _.
  apply keeps_bind; [apply keeps_slot_set|intros _].
  apply keeps_bind; [apply keeps_all_right_loop|intros _].
  apply keeps_bind; [apply keeps_slot_free|intros _].
  apply keeps_update_right_at.
Qed.

Lemma keeps_null_loop phi psi :
  forall fuel ii, keeps_trains (null_loop fuel phi psi ii).
Proof.
  induction fuel as [|fuel IH]; intros ii; simpl; [apply keeps_ret|].
  apply keeps_bind; [apply keeps_slot_set|intros _].
  apply keeps_bind; [apply keeps_slot_set|intros _]. apply IH.
Qed.

Lemma keeps_train_of {A : Type} (m : M A) (s : state) n ft :
  keeps_trains m -> train_of s n = Some ft ->
  wp anyf m s (fun _ s' => train_of s' n = Some ft).
Proof.
  intros Hm Hn. eapply wp_weaken; [apply Hm| |done].
  simpl. intros _ s' Hs'. unfold train_of in *. by rewrite Hs'.
Qed.

Lemma bind_assoc {A B C : Type} (m : M A) (k : A -> M B) (h : B -> M C)
    (s : state) :
  bind (bind m k) h s = bind m (fun a => bind (k a) h) s.
Proof.
  unfold bind. destruct (m s) as [a s1 o1|]; [|done].
  destruct (k a s1) as [b s2 o2|]; [|done].
  destruct (h b s2); [|done]. by rewrite app_assoc.
Qed.

Lemma bind_ret_l {A B : Type} (a : A) (k : A -> M B) (s : state) :
  bind (ret a) k s = k a s.
Proof. unfold bind, ret. by destruct (k a s). Qed.

Lemma bind_ext {A B : Type} (m : M A) (k1 k2 : A -> M B) (s : state) :
  (forall a s', k1 a s' = k2 a s') -> bind m k1 s = bind m k2 s.
Proof.
  unfold bind. intros Hk. destruct (m s) as [a s1 o1|]; [|done].
  by rewrite Hk.
Qed.

Lemma bind_ext_l {A B : Type} (m1 m2 : M A) (k : A -> M B) (s : state) :
  m1 s = m2 s -> bind m1 k s = bind m2 k s.
Proof. unfold bind. by intros ->. Qed.

Lemma lrl_iterations_S (n : nat) target phi psi epsilon ao na :
  lrl_iterations K (S n) target phi psi epsilon ao na
  = (function_train_free na ;;;
     na' <- lrl_iteration K ao target phi psi epsilon ;;
     function_train_free ao ;;;
     ao' <- function_train_copy na' ;;
     lrl_iterations K n target phi psi epsilon ao' na').
Proof. done. Qed.

(** The last of [S n] iterations is the one whose output is kept. *)
Lemma lrl_iterations_last target phi psi epsilon :
  forall (n : nat) ao na (s : state),
  lrl_iterations K (S n) target phi psi epsilon ao na s
  = (r <- lrl_iterations K n target phi psi epsilon ao na ;;
     function_train_free r.2 ;;;
     na' <- lrl_iteration K r.1 target phi psi epsilon ;;
     function_train_free r.1 ;;;
     ao' <- function_train_copy na' ;;
     ret (ao', na')) s.
Proof.
  induction n as [|n IH]; intros ao na s.
  - rewrite lrl_iterations_S. cbn [lrl_iterations]. by rewrite bind_ret_l.
  - rewrite (lrl_iterations_S (S n)), (lrl_iterations_S n).
    rewrite bind_assoc. apply bind_ext. intros _ s1.
    rewrite bind_assoc. apply bind_ext. intros na1 s2.
    rewrite bind_assoc. apply bind_ext. intros _ s3.
    rewrite bind_assoc. apply bind_ext. intros ao1 s4.
    apply IH.
Qed.

Lemma approx_budget_last a b m epsilon (s : state) :
  approx_by_budget K a b (S m) epsilon s = approx_then_last K a b m epsilon s.
Proof.
  unfold approx_by_budget, approx_then_last.
  apply bind_ext. intros fa s1. apply bind_ext. intros ao s2.
  apply bind_ext. intros phi s3. apply bind_ext. intros psi s4.
  apply bind_ext. intros _ s5. apply bind_ext. intros _ s6.
  erewrite bind_ext_l; [|apply lrl_iterations_last].
  rewrite bind_assoc. apply bind_ext. intros r s7.
  rewrite bind_assoc. apply bind_ext. intros _ s8.
  rewrite bind_assoc. apply bind_ext. intros na' s9.
  rewrite bind_assoc. apply bind_ext. intros _ s10.
  rewrite bind_assoc. apply bind_ext. intros ao' s11.
  by rewrite bind_ret_l.
Qed.

Lemma dmrg_approx_quiet a b delta max_sweeps verbose epsilon (s : state) :
  quiet (dmrg_approx K a b delta max_sweeps verbose epsilon s)
  = quiet (approx_by_budget K a b (Z.to_nat max_sweeps) epsilon s).
Proof.
  unfold dmrg_approx, approx_by_budget.
  apply quiet_bind; [done|]. intros fa s1. cbv zeta.
  apply (quiet_bind_wp _ _ _ _
    (fun ao s' => exists n, ao = Some n /\ train_of s' n <> None)).
  { apply wp_new_train. eexists. split; [done|].
    by rewrite train_of_with_train. }
  intros ao s2 (n & -> & Hn).
  destruct (train_of s2 n) as [ft|] eqn:Hft; [clear Hn|done].
  apply (quiet_bind_wp _ _ _ _ (fun _ s' => train_of s' n = Some ft));
    [by apply keeps_train_of; [apply keeps_malloc_slots|]|].
  intros phi s3 H3.
  apply (quiet_bind_wp _ _ _ _ (fun _ s' => train_of s' n = Some ft));
    [by apply keeps_train_of; [apply keeps_malloc_slots|]|].
  intros psi s4 H4.
  apply (quiet_bind_wp _ _ _ _ (fun _ s' => train_of s' n = Some ft));
    [by apply keeps_train_of; [apply keeps_null_loop|]|].
  intros _ s5 H5.
  apply (quiet_bind_wp _ _ _ _ (fun _ s' => train_of s' n = Some ft));
    [by apply keeps_train_of; [apply keeps_dmrg_update_all_right|]|].
  intros _ s6 H6.
  apply quiet_skip.
  { case_bool_decide; [|by eexists].
    unfold bind, printf, get_train. unfold train_of in H6.
    destruct (trains s6 !! n) as [[?|]|]; simplify_eq/=. by eexists. }
  apply quiet_bind; [apply approx_loop_quiet|]. intros [ao' na] s7. done.
Qed.

Lemma wp_any {A : Type} (m : M A) (s : state) :
  wp anyf m s (fun _ _ => True).
Proof. unfold wp. by destruct (m s). Qed.

Lemma quiet_Ok {A : Type} (o1 o2 : outcome D GF A) a s' out :
  quiet o1 = quiet o2 -> o1 = Ok a s' out -> exists out', o2 = Ok a s' out'.
Proof. intros Hq ->. destruct o2; simplify_eq/=. eauto. Qed.

(** With no iteration to run, the pointer returned is [NULL]. *)
Lemma approx_by_budget_0 a b epsilon (s : state) :
  wp anyf (approx_by_budget K a b 0 epsilon) s (fun r _ => r = None).
Proof.
  unfold approx_by_budget.
  eapply wp_seq; [apply wp_any|]. intros fa s1 _.
  eapply wp_seq; [apply wp_any|]. intros ao s2 _.
  eapply wp_seq; [apply wp_any|]. intros phi s3 _.
  eapply wp_seq; [apply wp_any|]. intros psi s4 _.
  eapply wp_seq; [apply wp_any|]. intros _ s5 _.
  eapply wp_seq; [apply wp_any|]. intros _ s6 _.
  cbn [lrl_iterations]. apply wp_bind, wp_ret. cbn [fst snd].
  eapply wp_seq; [apply wp_any|]. intros _ s7 _.
  eapply wp_seq; [apply wp_any|]. intros _ s8 _.
  eapply wp_seq; [apply wp_any|]. intros _ s9 _.
  eapply wp_seq; [apply wp_any|]. intros _ s10 _.
  by apply wp_ret.
Qed.

(** C1, amended. Whatever the guess [a], the target [b], the tolerance [delta] and
    the budget [max_sweeps], [dmrg_approx] does what [approx_by_budget]
    does with [max_sweeps] iterations: it sets the accumulators up, runs
    exactly [max_sweeps] LRL iterations (a left-to-right sweep, then a
    right-to-left sweep on its output) and cleans up.  [delta] does not
    occur on the right-hand side, so the run neither stops early nor fails
    for lack of convergence; only what is printed may differ.  With a
    budget of [S m] the pointer returned is the output of the last LRL
    iteration, the one after the first [m]; with a budget of 0 there is no
    such iteration, and the pointer returned is [NULL]. *)
Theorem dmrg_approx_runs_its_budget a b delta verbose epsilon (s : state) :
  (forall max_sweeps,
     quiet (dmrg_approx K a b delta max_sweeps verbose epsilon s)
     = quiet (approx_by_budget K a b (Z.to_nat max_sweeps) epsilon s)) /\
  (forall m : nat,
     quiet (dmrg_approx K a b delta (Z.of_nat (S m)) verbose epsilon s)
     = quiet (approx_then_last K a b m epsilon s)) /\
  (forall r s' out,
     dmrg_approx K a b delta 0 verbose epsilon s = Ok r s' out -> r = None).
Proof.
  split_and!; [intros; apply dmrg_approx_quiet| |].
  - intros m. rewrite dmrg_approx_quiet, Nat2Z.id.
    by rewrite approx_budget_last.
  - intros r s' out Hrun.
    destruct (quiet_Ok _ _ _ _ _
                (dmrg_approx_quiet a b delta 0 verbose epsilon s) Hrun)
      as [out' Hrun'].
    exact (wp_ok _ _ _ _ _ _ _ (approx_by_budget_0 a b epsilon s) Hrun').
Qed.

End Budget.

(** C1 as stated fails for a budget of 0: on the guess and the target of
    [Run.heap0] the run returns [NULL], and no train comes out of it. *)
Lemma dmrg_approx_zero_budget_returns_null :
  exists s' out,
    dmrg_approx Plain.plain (Some 0%nat) (Some 1%nat) 0%float 0 0 0%float
      Run.heap0 = Ok None s' out.
Proof. eexists _, _. vm_compute. reflexivity. Qed.

(** * The boundary accumulators *)

Section Boundary.

Context {D GF : Type} `{Arith D}.
Variable K : Collab D GF.

#[local] Abbreviation state := (state D GF).
#[local] Abbreviation M := (M D GF).
#[local] Abbreviation anyf := (fun _ : fault => True).

Lemma wp_dead_guess {B : Type} (a : ptr) (k : FunctionTrain GF -> M B)
    (s : state) (Q : B -> state -> Prop) :
  (forall n, a = Some n -> train_of s n = None) ->
  wp anyf (bind (get_train a) k) s Q.
Proof.
  intros Ha. unfold wp, bind, get_train. destruct a as [n|]; [|done].
  specialize (Ha n eq_refl). unfold train_of in Ha.
  by destruct (trains s !! n) as [[?|]|].
Qed.

Lemma train_of_freed (s : state) n p ft :
  train_of {| trains := <[n := None]> (trains s); arrays := arrays s |} p
    = Some ft ->
  train_of s p = Some ft.
Proof.
  unfold train_of; simpl. intros Hp.
  destruct (<[n:=None]> (trains s) !! p) as [[ft'|]|] eqn:Hlk; simplify_eq.
  apply list_lookup_insert_Some in Hlk as [(_ & ? & _)|[_ ->]]; done.
Qed.

Lemma function_train_free_frame (p : ptr) (s : state) :
  wp anyf (function_train_free p) s (fun _ s' =>
    arrays s' = arrays s /\ forall q d, dim_at s q d -> dim_at s' q d).
Proof.
  apply wp_function_train_free. destruct p as [n|]; [|done].
  destruct (train_of s n); [|done]. split; [done|].
  intros q d Hq m ft -> Hm%train_of_freed. by eapply Hq.
Qed.

Lemma function_train_copy_frame (p : ptr) (s : state) :
  wp anyf (function_train_copy p) s (fun r s' =>
    arrays s' = arrays s /\ forall d, dim_at s p d -> dim_at s' r d).
Proof.
  unfold function_train_copy. apply wp_bind, wp_get_train.
  destruct p as [n|]; [|done].
  destruct (train_of s n) as [ft|] eqn:Hft; [|done].
  apply wp_new_train. split; [done|].
  intros d Hd m ft' [= <-]. rewrite train_of_with_train. intros [= <-].
  by eapply Hd.
Qed.

Lemma boundary_ones_arrays phi psi d (s s' : state) :
  arrays s' = arrays s -> boundary_ones phi psi d s ->
  boundary_ones phi psi d s'.
Proof. unfold boundary_ones, slot_of. by intros ->. Qed.

Lemma boundary_ready_arrays phi psi d (s s' : state) :
  arrays s' = arrays s -> boundary_ready phi psi d s ->
  boundary_ready phi psi d s'.
Proof. unfold boundary_ready, slot_of. by intros ->. Qed.

Lemma boundary_ones_ready phi psi d (s : state) :
  boundary_ones phi psi d s -> boundary_ready phi psi d s.
Proof. intros [? ?]. split; eauto. Qed.

Lemma dim_at_dead (s : state) (a : ptr) :
  (forall n, a = Some n -> train_of s n = None) \/
  (exists n fa, a = Some n /\ train_of s n = Some fa).
Proof.
  destruct a as [n|]; [|left; congruence].
  destruct (train_of s n) as [fa|] eqn:Hfa; [right; eauto|].
  left. congruence.
Qed.

(** A left-to-right sweep makes [phi[0]] the buffer [[1.0]] when it was
    [NULL], leaves it alone otherwise, and leaves [psi] alone; its output
    has as many cores as its guess. *)
Lemma dmrg_sweep_lr_boundary (s : state) (a b : ptr) phi psi eps d :
  dim_at s a d -> 2 <= d <= 2 ^ 31 -> phi <> psi ->
  wp anyf (dmrg_sweep_lr K a b phi psi eps) s (fun na s' =>
    dim_at s' na d /\
    (forall k, slot_of s' psi k = slot_of s psi k) /\
    slot_of s' phi 0 = match slot_of s phi 0 with
                       | Some None => Some (Some [done_])
                       | old => old
                       end).
Proof.
  intros Ha Hd Hne.
  destruct (dim_at_dead s a) as [Hdead|(n & fa & -> & Hfa)];
    [by apply wp_dead_guess|].
  pose proof (Ha _ _ eq_refl Hfa) as Hdim. subst d.
  destruct (small_dim _ Hd) as [Htop Hint].
  eapply wp_weaken; [by apply dmrg_sweep_lr_footprint| |done].
  simpl. intros na s' (-> & Ht & H0). rewrite Htop in Ht. split_and!.
  - intros m ft [= <-] Hm.
    destruct (touches_dim _ _ _ _ _ _ Ht (train_of_with_train s _))
      as (ft' & Hft' & Hdim').
    by simplify_eq.
  - intros k. destruct Ht as (_ & _ & _ & Hs). rewrite Hs by naive_solver.
    apply slot_of_with_train.
  - destruct Ht as (_ & _ & _ & Hs).
    destruct (slot_of s phi 0) as [[l|]|] eqn:Hnull; [|by apply H0|].
    all: rewrite Hs by naive_solver.
    all: by rewrite slot_of_with_train.
Qed.

Lemma dmrg_sweep_rl_boundary (s : state) (a b : ptr) phi psi eps d :
  dim_at s a d -> 2 <= d <= 2 ^ 31 -> phi <> psi ->
  wp anyf (dmrg_sweep_rl K a b phi psi eps) s (fun na s' =>
    dim_at s' na d /\
    (forall k, slot_of s' phi k = slot_of s phi k) /\
    slot_of s' psi (d - 2) = match slot_of s psi (d - 2) with
                             | Some None => Some (Some [done_])
                             | old => old
                             end).
Proof.
  intros Ha Hd Hne.
  destruct (dim_at_dead s a) as [Hdead|(n & fa & -> & Hfa)];
    [by apply wp_dead_guess|].
  pose proof (Ha _ _ eq_refl Hfa) as Hdim. subst d.
  destruct (small_dim _ Hd) as [Htop Hint].
  eapply wp_weaken; [by apply dmrg_sweep_rl_footprint| |done].
  simpl. intros na s' (-> & Ht & H0). rewrite Htop, ?Hint in Ht, H0.
  split_and!.
  - intros m ft [= <-] Hm.
    destruct (touches_dim _ _ _ _ _ _ Ht (train_of_with_train s _))
      as (ft' & Hft' & Hdim').
    by simplify_eq.
  - intros k. destruct Ht as (_ & _ & _ & Hs). rewrite Hs by naive_solver.
    apply slot_of_with_train.
  - destruct Ht as (_ & _ & _ & Hs).
    destruct (slot_of s psi (dim fa - 2)) as [[l|]|] eqn:Hnull;
      [|by apply H0|].
    all: rewrite Hs by (intros [_ [?|[_ ?]]]; [lia|congruence]).
    all: by rewrite slot_of_with_train.
Qed.

Lemma dmrg_sweep_lrl_boundary (s : state) (a b : ptr) phi psi eps d :
  dim_at s a d -> 2 <= d <= 2 ^ 31 -> phi <> psi ->
  boundary_ready phi psi d s ->
  wp anyf (dmrg_sweep_lrl K a b phi psi eps) s (fun na s' =>
    dim_at s' na d /\ boundary_ones phi psi d s').
Proof.
  intros Ha Hd Hne [H0 H1]. unfold dmrg_sweep_lrl.
  eapply wp_seq; [by apply dmrg_sweep_lr_boundary|].
  simpl. intros temp s1 (Htemp & Hpsi & Hphi).
  eapply wp_seq; [by apply dmrg_sweep_rl_boundary|].
  simpl. intros na s2 (Hna & Hphi2 & Hpsi2).
  eapply wp_seq; [apply function_train_free_frame|].
  simpl. intros _ s3 (Harr & Hkeep). apply wp_ret. split; [by apply Hkeep|].
  apply (boundary_ones_arrays _ _ _ s2); [done|]. split.
  - rewrite Hphi2, Hphi. by destruct H0 as [->| ->].
  - rewrite Hpsi2, Hpsi, H1. done.
Qed.

Lemma approx_loop_boundary b phi psi delta max_sweeps verbose eps d :
  2 <= d <= 2 ^ 31 -> phi <> psi ->
  forall fuel ii (ao na : ptr) (s : state),
  dim_at s ao d -> boundary_ready phi psi d s ->
  wp anyf (approx_loop K fuel b phi psi delta max_sweeps verbose eps
             ii ao na) s
    (fun _ s' => boundary_ready phi psi d s' /\
                 (boundary_ones phi psi d s \/ fuel <> O ->
                  boundary_ones phi psi d s')).
Proof.
  intros Hd Hne. induction fuel as [|fuel IH]; intros ii ao na s Hao Hb;
    [apply wp_ret; naive_solver|].
  cbn [approx_loop].
  eapply (wp_seq _ _ _ _ (fun _ s' => s' = s));
    [by case_bool_decide|]. intros _ ? ->.
  eapply wp_seq; [apply function_train_free_frame|].
  simpl. intros _ s1 (Harr1 & Hkeep1).
  eapply wp_seq.
  { apply dmrg_sweep_lrl_boundary; [by apply Hkeep1|done..|].
    by apply (boundary_ready_arrays _ _ _ s). }
  simpl. intros na' s2 (Hna' & Hb2).
  eapply wp_seq; [apply function_train_free_frame|].
  simpl. intros _ s3 (Harr3 & Hkeep3).
  eapply (wp_seq _ _ _ _ (fun _ s' => s' = s3));
    [by destruct (dltb dten delta)|]. intros _ ? ->.
  eapply wp_seq; [apply function_train_copy_frame|].
  simpl. intros ao' s4 (Harr4 & Hkeep4).
  assert (Hb4 : boundary_ones phi psi d s4).
  { apply (boundary_ones_arrays _ _ _ s2); [congruence|done]. }
  eapply wp_weaken; [apply IH| |done].
  - apply Hkeep4. by apply Hkeep3.
  - by apply boundary_ones_ready.
  - simpl. intros _ s5 [Hr Ho]. split; [done|]. intros _. apply Ho. by left.
Qed.

Lemma dmrg_update_all_right_boundary (s : state) (a g : ptr) phi psi d :
  dim_at s a d -> 3 <= d <= 2 ^ 31 -> phi <> psi ->
  wp anyf (dmrg_update_all_right K a g psi) s (fun _ s' =>
    slot_of s' psi (d - 2) = Some (Some [done_]) /\
    slot_of s' phi 0 = slot_of s phi 0).
Proof.
  intros Ha Hd Hne.
  destruct (dim_at_dead s a) as [Hdead|(n & fa & -> & Hfa)];
    [by apply wp_dead_guess|].
  pose proof (Ha _ _ eq_refl Hfa) as Hdim. subst d.
  eapply wp_weaken;
    [apply dmrg_update_all_right_footprint; [done|unfold SIZE_MAX; lia]|
    |done].
  simpl. intros _ s' ((_ & _ & _ & Hs) & H1). split; [done|].
  apply Hs. naive_solver.
Qed.

(** C7. For a guess of [d] cores, [3 <= d]: the initialisation
    ([dmrg_update_all_right]) makes [psi[d-2]] the buffer [[1.0]] and
    leaves [phi[0]] as it was ([NULL] in [dmrg_approx]); from then on a
    left-to-right sweep makes [phi[0]] the buffer [[1.0]] and keeps
    [psi[d-2]], and once both hold the value [[1.0]] every sweep, every
    LRL iteration and any number of iterations of the loop of
    [dmrg_approx] end with both still holding [[1.0]]. *)
Theorem boundary_accumulators_stay_one
    (s : state) (a b : ptr) (phi psi : nat) (epsilon : D) (d : Z) :
  dim_at s a d ->
  3 <= d <= 2 ^ 31 ->
  phi <> psi ->
  (slot_of s phi 0 = Some None ->
   forall g r s' out,
     dmrg_update_all_right K a g psi s = Ok r s' out ->
     boundary_ready phi psi d s') /\
  (boundary_ready phi psi d s ->
   (forall r s' out,
      dmrg_sweep_lr K a b phi psi epsilon s = Ok r s' out ->
      boundary_ones phi psi d s') /\
   (forall r s' out,
      dmrg_sweep_lrl K a b phi psi epsilon s = Ok r s' out ->
      boundary_ones phi psi d s') /\
   (forall fuel delta max_sweeps verbose ii na r s' out,
      approx_loop K (S fuel) b phi psi delta max_sweeps verbose epsilon
        ii a na s = Ok r s' out ->
      boundary_ones phi psi d s')) /\
  (boundary_ones phi psi d s ->
   (forall r s' out,
      dmrg_sweep_rl K a b phi psi epsilon s = Ok r s' out ->
      boundary_ones phi psi d s') /\
   (forall fuel delta max_sweeps verbose ii na r s' out,
      approx_loop K fuel b phi psi delta max_sweeps verbose epsilon
        ii a na s = Ok r s' out ->
      boundary_ones phi psi d s')).
Proof.
  intros Ha Hd Hne. split_and!.
  - intros H0 g r s' out Hrun.
    pose proof (wp_ok _ _ _ _ _ _ _
      (dmrg_update_all_right_boundary s a g phi psi d Ha Hd Hne) Hrun)
      as [H1 H2].
    split; [left; congruence|done].
  - intros [H0 H1]. split_and!.
    + intros r s' out Hrun.
      pose proof (wp_ok _ _ _ _ _ _ _
        (dmrg_sweep_lr_boundary s a b phi psi epsilon d Ha ltac:(lia) Hne)
        Hrun) as (_ & Hpsi & Hphi).
      split; [|by rewrite Hpsi]. rewrite Hphi. by destruct H0 as [->| ->].
    + intros r s' out Hrun.
      by pose proof (wp_ok _ _ _ _ _ _ _
        (dmrg_sweep_lrl_boundary s a b phi psi epsilon d Ha ltac:(lia) Hne
           (conj H0 H1)) Hrun) as (_ & ?).
    + intros fuel delta max_sweeps verbose ii na r s' out Hrun.
      pose proof (wp_ok _ _ _ _ _ _ _
        (approx_loop_boundary b phi psi delta max_sweeps verbose epsilon d
           ltac:(lia) Hne (S fuel) ii a na s Ha (conj H0 H1)) Hrun)
        as (_ & Ho).
      apply Ho. by right.
  - intros Hb. pose proof Hb as [H0 H1]. split.
    + intros r s' out Hrun.
      pose proof (wp_ok _ _ _ _ _ _ _
        (dmrg_sweep_rl_boundary s a b phi psi epsilon d Ha ltac:(lia) Hne)
        Hrun) as (_ & Hphi & Hpsi).
      split; [by rewrite Hphi|]. by rewrite Hpsi, H1.
    + intros fuel delta max_sweeps verbose ii na r s' out Hrun.
      pose proof (wp_ok _ _ _ _ _ _ _
        (approx_loop_boundary b phi psi delta max_sweeps verbose epsilon d
           ltac:(lia) Hne fuel ii a na s Ha (boundary_ones_ready _ _ _ _ Hb))
        Hrun) as (_ & Ho).
      apply Ho. by left.
Qed.

End Boundary.

Lemma boundary_accumulators_stay_one_run :
  exists r s' out,
    dmrg_sweep_lrl Plain.plain (Some 0%nat) (Some 1%nat) 0 1 0%float
      Run.heap2 = Ok r s' out /\
    boundary_ones 0 1 3 s'.
Proof.
  eexists _, _, _. split; [vm_compute; reflexivity|].
  refine (proj1 (proj2 (proj1 (proj2
    (boundary_accumulators_stay_one Plain.plain Run.heap2 (Some 0%nat)
       (Some 1%nat) 0 1 0%float 3 _ _ _)) _)) _ _ _ _).
  - intros n ft [= <-] Hft. vm_compute in Hft. by simplify_eq.
  - lia.
  - lia.
  - split; [left|]; vm_compute; reflexivity.
  - vm_compute; reflexivity.
Defined.

(** * The chain invariants of a sweep's output *)

(** C4. The chain invariants do not hold of every train that
    [dmrg_sweep_lr] returns.  The guess [Run.unit_guess] (ranks 1,1,1,1)
    and the target [Run.unit_target] (ranks 1,2,2,1) both satisfy them;
    the sweep from [Run.heap4] at tolerance 0 returns a train of ranks
    1,2,2,1 whose core 1 has one row, the rank of the guess at that cut
    (line 249, [lsize = a->cores[ii]->ncols]), where [ranks[1]] is the 2
    found by the decomposition of the step before (line 229). *)
Theorem sweep_output_breaks_the_chain :
  chain Run.unit_guess /\ chain Run.unit_target /\
  exists s' out ft q,
    dmrg_sweep_lr Plain.plain (Some 0%nat) (Some 1%nat) 0 1 0%float Run.heap4
      = Ok (Some 2%nat) s' out /\
    train_of s' 2 = Some ft /\
    ranks ft = [1; 2; 2; 1] /\
    ld (cores ft) 1 = Some (Some q) /\ nrows q = 1 /\ ncols q = 2 /\
    chainb ft = false.
Proof.
  split; [by apply chainb_spec|]. split; [by apply chainb_spec|].
  eexists _, _, _, _. split; [vm_compute; reflexivity|].
  split; [vm_compute; reflexivity|].
  split_and!; vm_compute; reflexivity.
Qed.

(** * The two-core update *)

Section TwoCoreStep.

Context {D GF : Type} `{Arith D}.
Variable K : Collab D GF.

#[local] Abbreviation state := (state D GF).
#[local] Abbreviation M := (M D GF).
#[local] Abbreviation nofault := (fun _ : fault => False).

Lemma ld_lookup {A : Type} (l : list A) (n : nat) :
  ld l (Z.of_nat n) = l !! n.
Proof.
  unfold ld. rewrite bool_decide_eq_true_2 by lia. by rewrite Nat2Z.id.
Qed.

(** The loops of lines 232-236 scale the rows of [V^T]. *)
Lemma scale_vt_scaled (dimtemp rank : Z) (s vt : list D) :
  0 <= dimtemp < 2 ^ 31 -> 0 <= rank < 2 ^ 31 ->
  dimtemp * rank <= Z.of_nat (length vt) ->
  rank <= Z.of_nat (length s) ->
  scale_vt dimtemp rank s vt = Some (s_scaled dimtemp rank s vt).
Proof.
  intros Hd Hr Hvt Hs.
  set (ps := list_prod (seqZ 0 dimtemp) (seqZ 0 rank)).
  set (m := fun p : Z * Z => p.1 * rank + p.2).
  set (g := fun (p : Z * Z) (x : D) => sj ← ld s p.2; Some (dmul x sj)).
  assert (Hps : forall p, p ∈ ps <-> 0 <= p.1 < dimtemp /\ 0 <= p.2 < rank).
  { intros [kk jj]. unfold ps. rewrite elem_of_list_prod, !elem_of_seqZ.
    simpl. lia. }
  destruct (for_each_fill m g
              (fun p vt =>
                 x ← ld vt (size_add (size_mul p.1 rank) p.2);
                 sj ← ld s p.2;
                 st vt (size_add (size_mul p.1 rank) p.2) (dmul x sj))
              ps vt) as (vt' & Hrun & Hlen & Hin & Hout).
  - intros [kk jj] val v [Hkk Hjj]%Hps Hv. simpl in Hkk, Hjj.
    unfold m, g in *. cbn [fst snd] in *.
    rewrite wrap_index by lia. rewrite Hv. simpl.
    by destruct (ld s jj).
  - apply NoDup_fmap_2_strong.
    + intros [k1 j1] [k2 j2] [? ?]%Hps [? ?]%Hps Heq.
      unfold m in Heq. simpl in *.
      assert (k1 = k2) by nia. subst. f_equal. lia.
    + apply NoDup_list_prod; apply NoDup_seqZ.
  - intros [kk jj] v [Hkk Hjj]%Hps _. simpl in Hkk, Hjj. unfold g.
    cbn [snd]. destruct (ld_is_Some s jj) as [? ->]; [lia|]. by eexists.
  - intros [kk jj] [Hkk Hjj]%Hps. simpl in Hkk, Hjj. unfold m. simpl. nia.
  - unfold scale_vt, for_loop. rewrite for_each_prod. fold ps.
    rewrite Hrun. f_equal. apply list_eq. intros n.
    unfold s_scaled. rewrite list_lookup_imap.
    rewrite <- !ld_lookup.
    destruct (decide (Z.of_nat n < dimtemp * rank)) as [Hn|Hn].
    + assert (0 < rank) by nia.
      destruct (Hin (Z.of_nat n / rank, Z.of_nat n mod rank))
        as (v & Hv & Hv').
      { apply Hps. simpl. split; [|by apply Z.mod_pos_bound].
        split; [apply Z.div_pos; lia|].
        apply Z.div_lt_upper_bound; lia. }
      unfold m, g in Hv, Hv'. cbn [fst snd] in Hv, Hv'.
      replace (Z.of_nat n `div` rank * rank + Z.of_nat n `mod` rank)
        with (Z.of_nat n) in Hv, Hv'
        by (rewrite (Z.div_mod (Z.of_nat n) rank) at 1; lia).
      rewrite Hv', Hv. simpl. rewrite bool_decide_eq_true_2 by done.
      destruct (ld_is_Some s (Z.of_nat n mod rank)) as [sj ->];
        [pose proof (Z.mod_pos_bound (Z.of_nat n) rank); lia|done].
    + rewrite Hout.
      * destruct (ld vt (Z.of_nat n)); [|done]. simpl.
        by rewrite bool_decide_eq_false_2.
      * intros [kk jj] [Hkk Hjj]%Hps. unfold m. simpl in *. nia.
Qed.

Lemma train_of_insert_ne (s : state) (n p : nat) x
    (arrs : list (option (slots D))) :
  p <> n ->
  train_of {| trains := <[n := x]> (trains s); arrays := arrs |} p
  = train_of s p.
Proof.
  intros Hp. unfold train_of; simpl. by rewrite list_lookup_insert_ne.
Qed.

(** X13. Step [ii] of a left-to-right sweep, run with the accumulators
    [Phi_k = phi[ii]] and [Psi_k = psi[ii]] and the cores [cb], [cb1] of
    the target at [ii] and [ii + 1], returns, and does what
    [two_core_update] describes: [Phi_k * cb] is factored by QR and
    [cb1 * Psi_k] by LQ, with [R] and [L] in [dimtemp x dimtemp] buffers
    for [dimtemp = ncols cb]; the rank found by the truncated SVD of
    [R * L] at tolerance [epsilon] is stored in [ranks[ii + 1]]; core [ii]
    becomes the block of the QR side times [U]; core [ii + 1] is written
    only at the last step, [ii = dim - 2], as [S * V^T] times the block of
    the LQ side.  No other train changes, and before the last step
    [phi[ii + 1]] is recomputed from the new core. *)
Theorem lr_step_is_the_two_core_update (s : state) (a b na : nat) (phi psi : nat)
    (epsilon : D) (ii lsize : Z) (fa fb fna : FunctionTrain GF)
    (ca cb cb1 : Qmarray GF) (Phi_k Psi_k : list D) :
  let last := bool_decide (ii = dim fa - 2) in
  let rsize := if last then 1
               else match ld (cores fa) (ii + 1) with
                    | Some (Some ca1) => ncols ca1
                    | _ => 0
                    end in
  let t := two_core_update K Phi_k Psi_k cb cb1 lsize rsize epsilon in
  train_of s a = Some fa -> train_of s b = Some fb ->
  train_of s na = Some fna -> na <> a -> na <> b ->
  2 <= dim fa <= 2 ^ 31 -> 0 <= ii <= dim fa - 2 ->
  ld (cores fa) ii = Some (Some ca) ->
  (last = false -> exists ca1, ld (cores fa) (ii + 1) = Some (Some ca1)) ->
  ld (cores fb) ii = Some (Some cb) ->
  ld (cores fb) (ii + 1) = Some (Some cb1) ->
  slot_of s phi ii = Some (Some Phi_k) ->
  slot_of s psi ii = Some (Some Psi_k) ->
  ii + 1 < Z.of_nat (length (ranks fna)) ->
  ii + 1 < Z.of_nat (length (cores fna)) ->
  0 <= ncols cb < 2 ^ 31 ->
  (last = true ->
   0 <= new_rank t < 2 ^ 31 /\
   ncols cb * new_rank t <= Z.of_nat (length (svd_Vt t)) /\
   new_rank t <= Z.of_nat (length (svd_S t))) ->
  (last = false ->
   is_Some (slot_of s phi (ii + 1)) /\
   is_Some (dmrg_update_left K Phi_k (new_core_k K t) cb)) ->
  exists s' out,
    sweep_lr_step K (Some a) (Some b) phi psi epsilon (Some na) ii lsize s
      = Ok (ncols ca) s' out /\
       train_of s' na =
         Some {| dim := dim fna;
                 ranks := <[Z.to_nat (ii + 1) := new_rank t]> (ranks fna);
                 cores :=
                   (if last
                    then <[Z.to_nat (ii + 1) :=
                             Some (new_core_k1 K (ncols cb) t)]>
                    else id)
                     (<[Z.to_nat ii := Some (new_core_k K t)]> (cores fna))
              |} /\
       (forall p, p <> na -> train_of s' p = train_of s p) /\
       (last = false ->
        slot_of s' phi (ii + 1)
        = Some (dmrg_update_left K Phi_k (new_core_k K t) cb)).
Proof.
  intros last rsize t Hfa Hfb Hfna Hna Hnb Hd Hii Hca Hca1 Hcb Hcb1 Hphi
    Hpsi Hranks Hcores Hdt Hsvd Hleft.
  cut (wp nofault
         (sweep_lr_step K (Some a) (Some b) phi psi epsilon (Some na)
            ii lsize) s
         (fun r s' =>
            r = ncols ca /\
            train_of s' na =
              Some {| dim := dim fna;
                      ranks := <[Z.to_nat (ii + 1) := new_rank t]> (ranks fna);
                      cores :=
                        (if last
                         then <[Z.to_nat (ii + 1) :=
                                  Some (new_core_k1 K (ncols cb) t)]>
                         else id)
                          (<[Z.to_nat ii := Some (new_core_k K t)]>
                             (cores fna)) |} /\
            (forall p, p <> na -> train_of s' p = train_of s p) /\
            (last = false ->
             slot_of s' phi (ii + 1)
             = Some (dmrg_update_left K Phi_k (new_core_k K t) cb)))).
  { intros (r & s' & out & Hrun & -> & Hpost)%wp_total. eauto. }
  assert (Hs2 : size_sub (dim fa) 2 = dim fa - 2)
    by (unfold size_sub; apply wrap_small; unfold SIZE_MAX; lia).
  assert (Hs1 : size_sub (dim fa) 1 = dim fa - 1)
    by (unfold size_sub; apply wrap_small; unfold SIZE_MAX; lia).
  assert (Hi1 : size_add ii 1 = ii + 1)
    by (unfold size_add; apply wrap_small; unfold SIZE_MAX; lia).
  assert (Hzeros : calloc_double (size_mul (ncols cb) (ncols cb))
                   = replicate (Z.to_nat (ncols cb * ncols cb)) dzero).
  { unfold calloc_double, size_mul. rewrite wrap_small; [done|].
    unfold SIZE_MAX. nia. }
  assert (Hlt : (na < length (trains s))%nat) by by eapply train_of_lt.
  unfold slot_of in Hphi, Hpsi.
  destruct (arrays s !! phi) as [[aphi|]|] eqn:Haphi; [|done..].
  destruct (arrays s !! psi) as [[apsi|]|] eqn:Hapsi; [|done..].
  unfold sweep_lr_step.
  wp_head. wp_head. rewrite Hfa.
  wp_head. wp_head. rewrite Hfb.
  wp_head. wp_head. rewrite Hcb. cbv zeta.
  rewrite Hs2, Hs1, Hi1, Hzeros. fold last.
  eapply (wp_seq _ _ _ _ (fun r s' => r = rsize /\ s' = s)).
  { unfold rsize. destruct last eqn:Hlast; [done|].
    destruct (Hca1 eq_refl) as [ca1 Hc]. rewrite Hc.
    wp_head. wp_head. by rewrite Hc. }
  intros ? ? [-> ->].
  wp_head. wp_head. rewrite Hcb1.
  wp_head. wp_head. unfold array_of. rewrite Hapsi, Hpsi.
  destruct (qmarray_householder_simple K "LQ" _ _) as [templ L] eqn:Hlq.
  wp_head. wp_head. unfold array_of. rewrite Haphi, Hphi.
  destruct (qmarray_householder_simple K "QR" _ _) as [tempr R] eqn:Hqr.
  destruct (truncated_svd K _ _ _ _ _) as [[[rank u] sv] vt] eqn:Hsplit.
  assert (Ht : t = {| block_Qr := tempr; factor_R := R;
                      block_Ql := templ; factor_L := L;
                      new_rank := rank; svd_U := u;
                      svd_S := sv; svd_Vt := vt |}).
  { unfold t, two_core_update. cbv zeta. rewrite Hlq, Hqr. cbn [fst snd].
    by rewrite Hsplit. }
  clearbody t. subst t. unfold new_core_k, new_core_k1 in *.
  cbn [block_Qr block_Ql new_rank svd_U svd_S svd_Vt] in *.
  wp_head. wp_head. rewrite Hfna.
  rewrite st_is_Some by lia.
  wp_head. wp_head. rewrite train_of_insert by done.
  cbn [cores ranks dim].
  rewrite st_is_Some by lia.
  cbn [trains arrays]. rewrite list_insert_insert_eq.
  assert (Hcase : last = bool_decide (ii + 1 = dim fa - 1)).
  { unfold last. apply bool_decide_ext. lia. }
  assert (Hcase' : negb last = bool_decide (ii < dim fa - 2)).
  { unfold last. rewrite <- bool_decide_not. apply bool_decide_ext. lia. }
  rewrite <- Hcase, <- Hcase'. clear Hcase Hcase'.
  destruct last eqn:Hlast; cbn [negb].
  - destruct (Hsvd eq_refl) as (Hr & Hvt & Hsv).
    rewrite scale_vt_scaled by done.
    wp_head. wp_head. wp_head. wp_head.
    rewrite train_of_insert by done. cbn [cores ranks dim].
    rewrite st_is_Some by (rewrite length_insert; lia).
    cbn [trains arrays]. rewrite list_insert_insert_eq.
    wp_head. wp_head. wp_head. wp_head. rewrite Hca. wp_head.
    split_and!; [done| |by intros; apply train_of_insert_ne|done].
    by rewrite train_of_insert.
  - destruct (Hleft eq_refl) as [[old Hold] [val Hval]].
    unfold slot_of in Hold. rewrite Haphi in Hold.
    pose proof (ld_lt _ _ _ Hold) as Hrange.
    wp_head. wp_head. wp_head. wp_head. wp_head.
    unfold array_of. cbn [arrays]. rewrite Haphi.
    rewrite st_is_Some by done.
    wp_head. wp_head. unfold array_of. cbn [arrays].
    rewrite list_lookup_insert_eq by by eapply lookup_lt_Some.
    erewrite ld_st_ne; [|by apply st_is_Some|lia]. rewrite Hphi.
    wp_head. wp_head. cbn [trains arrays].
    rewrite train_of_insert by done.
    wp_head. wp_head. cbn [cores].
    erewrite ld_st; [|by apply st_is_Some; lia|lia].
    rewrite bool_decide_eq_true_2 by done.
    wp_head. wp_head. rewrite Hval.
    wp_head. unfold array_of. cbn [arrays].
    rewrite list_lookup_insert_eq by by eapply lookup_lt_Some.
    rewrite st_is_Some by (rewrite length_insert; done).
    wp_head. wp_head. rewrite Hca. wp_head. cbn [trains arrays].
    split_and!; [done|by rewrite train_of_insert
                |by intros; apply train_of_insert_ne|].
    intros _. unfold slot_of. cbn [arrays].
    rewrite list_lookup_insert_eq
      by (rewrite length_insert; by eapply lookup_lt_Some).
    erewrite ld_st; [|by apply st_is_Some; rewrite length_insert|lia].
    by rewrite bool_decide_eq_true_2.
Qed.

End TwoCoreStep.

Lemma lr_step_is_the_two_core_update_run :
  (exists s' out,
     sweep_lr_step Plain.plain (Some 0%nat) (Some 1%nat) 0 1 0%float
       (Some 2%nat) 0 1 Run.heap5 = Ok 1 s' out /\
     train_of s' 2 =
       Some {| dim := 3; ranks := [1; 2; 0; 1];
               cores := [Some (Run.block 1 2 [[1; 0]; [0; 1]]%float);
                         None; None] |}) /\
  (exists s' out,
     sweep_lr_step Plain.plain (Some 0%nat) (Some 1%nat) 0 1 0%float
       (Some 2%nat) 1 1 XRun.heap5_1 = Ok 1 s' out /\
     train_of s' 2 = Some XRun.lr_output).
Proof.
  split.
  - destruct (lr_step_is_the_two_core_update Plain.plain Run.heap5
                0 1 2 0 1 0%float 0 1 Run.unit_guess Run.unit_target
                {| dim := 3; ranks := [1; 0; 0; 1];
                   cores := [None; None; None] |}
                (Run.block 1 1 [[1; 0]%float])
                (Run.block 1 2 [[1; 0]; [0; 1]]%float)
                (Run.block 2 2 [[1; 0]; [0; 1]; [0; 1]; [1; 0]]%float)
                [1%float] [1; 0]%float)
      as (s' & out & Hrun & Htrain & _).
    + reflexivity.
    + reflexivity.
    + reflexivity.
    + lia.
    + lia.
    + simpl; lia.
    + simpl; lia.
    + reflexivity.
    + intros _. eexists. reflexivity.
    + reflexivity.
    + reflexivity.
    + reflexivity.
    + reflexivity.
    + simpl; lia.
    + simpl; lia.
    + simpl; lia.
    + intros Hlast. vm_compute in Hlast. discriminate Hlast.
    + intros _. split; vm_compute; eexists; reflexivity.
    + exists s', out. split; [exact Hrun|]. rewrite Htrain. vm_compute.
      reflexivity.
  - destruct (lr_step_is_the_two_core_update Plain.plain XRun.heap5_1
                0 1 2 0 1 0%float 1 1 Run.unit_guess Run.unit_target
                {| dim := 3; ranks := [1; 2; 0; 1];
                   cores := [Some (Run.block 1 2 [[1; 0]; [0; 1]]%float);
                             None; None] |}
                (Run.block 1 1 [[1; 0]%float])
                (Run.block 2 2 [[1; 0]; [0; 1]; [0; 1]; [1; 0]]%float)
                (Run.block 2 1 [[1; 0]; [0; 1]]%float)
                [1; 0; 0; 1]%float [1%float])
      as (s' & out & Hrun & Htrain & _).
    + reflexivity.
    + reflexivity.
    + reflexivity.
    + lia.
    + lia.
    + simpl; lia.
    + simpl; lia.
    + reflexivity.
    + intros Hlast. vm_compute in Hlast. discriminate Hlast.
    + reflexivity.
    + reflexivity.
    + reflexivity.
    + reflexivity.
    + simpl; lia.
    + simpl; lia.
    + simpl; lia.
    + intros _. split_and!; by vm_compute.
    + intros Hlast. vm_compute in Hlast. discriminate Hlast.
    + exists s', out. split; [exact Hrun|]. rewrite Htrain. vm_compute.
      reflexivity.
Defined.

(** * The inner product of two trains *)

Section InnerProduct.

Context {D GF : Type} `{Arith D}.
Variable K : Collab D GF.
Variable generic_function_integrate : GF -> D.
Variable generic_function_product : GF -> GF -> GF.

#[local] Abbreviation left_term := (Inner.left_term K).
#[local] Abbreviation left_entry := (Inner.left_entry K).

(** [dmrg_update_left] computes the entries [left_entry], for blocks and
    an accumulator of matching sizes. *)
Lemma dmrg_update_left_entries (M : list D) (L R : Qmarray GF) :
  wf_core L -> wf_core R ->
  Z.of_nat (length M) = nrows L * nrows R ->
  exists val,
    dmrg_update_left K M L R = Some val /\
    Z.of_nat (length val) = ncols L * ncols R /\
    forall ja jb, 0 <= ja < ncols L -> 0 <= jb < ncols R ->
      exists x, ld val (jb * ncols L + ja) = Some x /\
                left_entry M L R ja jb = Some x.
Proof.
  intros (HrL & HcL & HfL) (HrR & HcR & HfR) HM.
  set (ps := list_prod (seqZ 0 (ncols R)) (seqZ 0 (ncols L))).
  set (qs := list_prod (seqZ 0 (nrows L)) (seqZ 0 (nrows R))).
  set (m := fun p : Z * Z => p.1 * ncols L + p.2).
  set (g := fun (p : Z * Z) v => osum v (left_term M L R p.2 p.1 <$> qs)).
  assert (Hps : forall p, p ∈ ps <->
            0 <= p.1 < ncols R /\ 0 <= p.2 < ncols L).
  { intros [ii jj]. unfold ps. rewrite elem_of_list_prod, !elem_of_seqZ.
    simpl. lia. }
  assert (Hqs : forall q, q ∈ qs <->
            0 <= q.1 < nrows L /\ 0 <= q.2 < nrows R).
  { intros [kk ll]. unfold qs. rewrite elem_of_list_prod, !elem_of_seqZ.
    simpl. lia. }
  assert (Hsize : size_mul (ncols L) (ncols R) = ncols L * ncols R).
  { unfold size_mul. apply wrap_small. unfold SIZE_MAX. nia. }
  assert (Hterm : forall ja jb q, q ∈ qs -> 0 <= ja < ncols L ->
            0 <= jb < ncols R -> is_Some (left_term M L R ja jb q)).
  { intros ja jb [kk ll] [Hkk Hll]%Hqs Hja Hjb. simpl in Hkk, Hll.
    unfold Inner.left_term, fn_at. cbn [fst snd].
    destruct (ld_is_Some M (ll * nrows L + kk)) as [? ->]; [nia|].
    destruct (ld_is_Some (funcs L) (ja * nrows L + kk)) as [? ->]; [nia|].
    destruct (ld_is_Some (funcs R) (jb * nrows R + ll)) as [? ->]; [nia|].
    by eexists. }
  destruct (for_each_fill m g
              (fun p => for_each (seqZ 0 (nrows L)) (fun kk =>
                 for_each (seqZ 0 (nrows R)) (fun ll val =>
                   p0 ← ld M (size_add (size_mul ll (nrows L)) kk);
                   f ← ld (funcs L) (size_add (size_mul p.2 (nrows L)) kk);
                   g0 ← ld (funcs R) (size_add (size_mul p.1 (nrows R)) ll);
                   v ← ld val (size_add (size_mul p.1 (ncols L)) p.2);
                   st val (size_add (size_mul p.1 (ncols L)) p.2)
                     (dadd v (dmul p0 (generic_function_inner K f g0))))))
              ps (calloc_double (size_mul (ncols L) (ncols R))))
    as (val & Hrun & Hlen & Hin & _).
  - intros [ii jj] val v [Hii Hjj]%Hps Hv. simpl in Hii, Hjj.
    rewrite for_each_prod. fold qs. cbn [fst snd].
    rewrite (for_each_ext qs _ (fun q val =>
      t ← left_term M L R jj ii q;
      v ← ld val (m (ii, jj)); st val (m (ii, jj)) (dadd v t))).
    + by apply for_each_accumulate.
    + intros [kk ll] [Hkk Hll]%Hqs val'. simpl in Hkk, Hll.
      unfold Inner.left_term, fn_at, m. cbn [fst snd].
      rewrite !wrap_index by lia. by rewrite bind_term.
  - apply NoDup_fmap_2_strong.
    + intros [i1 j1] [i2 j2] [? ?]%Hps [? ?]%Hps Heq.
      unfold m in Heq. simpl in *.
      assert (i1 = i2) by nia. subst. f_equal. lia.
    + apply NoDup_list_prod; apply NoDup_seqZ.
  - intros [ii jj] v [Hii Hjj]%Hps _. simpl in Hii, Hjj.
    apply osum_is_Some, Forall_fmap, Forall_forall.
    intros q Hq. by apply Hterm.
  - intros [ii jj] [Hii Hjj]%Hps. simpl in Hii, Hjj.
    unfold calloc_double, m. rewrite length_replicate, Hsize. simpl. nia.
  - exists val. split_and!.
    + unfold dmrg_update_left, for_loop. cbv zeta.
      by rewrite for_each_prod.
    + rewrite Hlen. unfold calloc_double. rewrite length_replicate, Hsize.
      nia.
    + intros ja jb Hja Hjb.
      destruct (Hin (jb, ja)) as (v & Hv & Hval).
      { apply Hps. simpl. lia. }
      unfold m in Hv, Hval. cbn [fst snd] in Hv, Hval.
      assert (v = dzero) as ->.
      { apply ld_Some in Hv as [_ Hv]. unfold calloc_double in Hv.
        by apply lookup_replicate in Hv as [-> _]. }
      destruct (osum_is_Some dzero (left_term M L R ja jb <$> qs))
        as [x Hx].
      { apply Forall_fmap, Forall_forall. intros q Hq. by apply Hterm. }
      exists x. split; [|done]. rewrite Hval. unfold g. by cbn [fst snd].
Qed.

(** Exact arithmetic: addition is commutative and associative, and the
    inner product of two functions is the integral of their product. *)
Hypothesis dadd_comm : forall x y : D, dadd x y = dadd y x.
Hypothesis dadd_assoc : forall x y z : D, dadd x (dadd y z) = dadd (dadd x y) z.
Hypothesis inner_integrate : forall f g,
  generic_function_inner K f g
  = generic_function_integrate (generic_function_product f g).

#[local] Abbreviation kron := (Inner.kron generic_function_product).
#[local] Abbreviation integrate_entry :=
  (Inner.integrate_entry generic_function_integrate).
#[local] Abbreviation integrate_step :=
  (Inner.integrate_step generic_function_integrate).

Lemma osum_perm (l1 l2 : list (option D)) :
  l1 ≡ₚ l2 -> forall v, osum v l1 = osum v l2.
Proof.
  unfold osum. intros Hp v. generalize (Some v). revert Hp.
  induction 1 as [|x l1 l2 _ IH|x y l|l1 l2 l3 _ IH1 _ IH2]; intros acc;
    simpl; [done|apply IH| |by rewrite IH1].
  f_equal. destruct acc as [a|], x as [x|], y as [y|]; simpl; try done.
  f_equal. rewrite <- !dadd_assoc. f_equal. apply dadd_comm.
Qed.

(** The rows of a Kronecker product are the pairs of rows. *)
Lemma pairs_perm (ra rb : Z) :
  0 <= ra -> 0 <= rb ->
  (fun p : Z * Z => p.2 * ra + p.1) <$> list_prod (seqZ 0 ra) (seqZ 0 rb)
  ≡ₚ seqZ 0 (ra * rb).
Proof.
  intros Hra Hrb. apply NoDup_Permutation.
  - apply NoDup_fmap_2_strong.
    + intros [k1 l1] [k2 l2].
      rewrite !elem_of_list_prod, !elem_of_seqZ. simpl.
      intros [? ?] [? ?] Heq. assert (l1 = l2) by nia. subst.
      f_equal. lia.
    + apply NoDup_list_prod; apply NoDup_seqZ.
  - apply NoDup_seqZ.
  - intros i. rewrite list_elem_of_fmap, elem_of_seqZ. split.
    + intros ([kk ll] & -> & Hin).
      apply elem_of_list_prod in Hin as [Hk Hl].
      apply elem_of_seqZ in Hk, Hl. simpl. nia.
    + intros Hi. assert (0 < ra) by nia.
      exists (i mod ra, i / ra). split.
      * simpl. rewrite (Z.div_mod i ra) at 1 by lia. lia.
      * rewrite elem_of_list_prod, !elem_of_seqZ.
        pose proof (Z.mod_pos_bound i ra). split; [lia|].
        split; [apply Z.div_pos; lia|].
        apply Z.div_lt_upper_bound; lia.
Qed.

Lemma seqZ_lookup (n : Z) (i : nat) x :
  seqZ 0 n !! i = Some x -> x = Z.of_nat i /\ Z.of_nat i < n.
Proof.
  intros Hx. apply lookup_seqZ in Hx. lia.
Qed.

Lemma kron_spec (qa qb : Qmarray GF) :
  wf_core qa -> wf_core qb ->
  exists qc,
    kron qa qb = Some qc /\
    nrows qc = nrows qa * nrows qb /\
    ncols qc = ncols qa * ncols qb /\
    forall kk ll ja jb,
      0 <= kk < nrows qa -> 0 <= ll < nrows qb ->
      0 <= ja < ncols qa -> 0 <= jb < ncols qb ->
      exists f g,
        fn_at qa kk ja = Some f /\ fn_at qb ll jb = Some g /\
        fn_at qc (ll * nrows qa + kk) (jb * ncols qa + ja)
        = Some (generic_function_product f g).
Proof.
  intros (Hra & Hca & Hfa) (Hrb & Hcb & Hfb).
  set (r := nrows qa * nrows qb). set (c := ncols qa * ncols qb).
  set (F := fun idx : Z =>
              f ← fn_at qa ((idx mod r) mod nrows qa)
                          ((idx / r) mod ncols qa);
              g ← fn_at qb ((idx mod r) / nrows qa)
                          ((idx / r) / ncols qa);
              Some (generic_function_product f g)).
  assert (Hr : 0 < r) by (unfold r; nia).
  assert (Hc : 0 < c) by (unfold c; nia).
  assert (Hat : forall (q : Qmarray GF) i j, wf_core q ->
            0 <= i < nrows q -> 0 <= j < ncols q -> is_Some (fn_at q i j)).
  { intros q i j (? & ? & ?) Hi Hj. unfold fn_at. apply ld_is_Some. nia. }
  assert (Hall : Forall (is_Some ∘ F) (seqZ 0 (r * c))).
  { apply Forall_forall. intros idx Hidx%elem_of_seqZ. unfold compose, F.
    pose proof (Z.mod_pos_bound idx r Hr).
    assert (0 <= idx / r < c).
    { split; [apply Z.div_pos; lia|apply Z.div_lt_upper_bound; lia]. }
    destruct (Hat qa ((idx mod r) mod nrows qa) ((idx / r) mod ncols qa))
      as [f ->]; [done|apply Z.mod_pos_bound; lia..|].
    destruct (Hat qb ((idx mod r) / nrows qa) ((idx / r) / ncols qa))
      as [g ->]; [done| | |by eexists].
    - split; [apply Z.div_pos; lia|].
      apply Z.div_lt_upper_bound; unfold r in *; lia.
    - split; [apply Z.div_pos; lia|].
      apply Z.div_lt_upper_bound; unfold c in *; lia. }
  apply mapM_is_Some in Hall as [fs Hfs].
  exists {| nrows := r; ncols := c; funcs := fs |}.
  split; [unfold Inner.kron; fold r c F; by rewrite Hfs|].
  split; [done|]. split; [done|].
  intros kk ll ja jb Hkk Hll Hja Hjb.
  destruct (Hat qa kk ja) as [f Hf]; [done..|].
  destruct (Hat qb ll jb) as [g Hg]; [done..|].
  exists f, g. split; [done|]. split; [done|].
  apply mapM_Some in Hfs.
  set (i := ll * nrows qa + kk). set (j := jb * ncols qa + ja).
  assert (Hi : 0 <= i < r) by (unfold i, r; nia).
  assert (Hj : 0 <= j < c) by (unfold j, c; nia).
  unfold fn_at. cbn [funcs nrows].
  destruct (Forall2_lookup_l _ _ _ (Z.to_nat (j * r + i)) (j * r + i) Hfs)
    as (y & Hy & HF).
  { apply lookup_seqZ. split; [lia|]. nia. }
  unfold ld. rewrite bool_decide_eq_true_2 by nia. rewrite Hy. f_equal.
  unfold F in HF.
  replace ((j * r + i) mod r) with i in HF
    by (apply Z.mod_unique_pos with j; lia).
  replace ((j * r + i) / r) with j in HF
    by (apply Z.div_unique_pos with i; lia).
  replace (i mod nrows qa) with kk in HF
    by (apply Z.mod_unique_pos with ll; unfold i; lia).
  replace (i / nrows qa) with ll in HF
    by (apply Z.div_unique_pos with kk; unfold i; lia).
  replace (j mod ncols qa) with ja in HF
    by (apply Z.mod_unique_pos with jb; unfold j; lia).
  replace (j / ncols qa) with jb in HF
    by (apply Z.div_unique_pos with ja; unfold j; lia).
  rewrite Hf, Hg in HF. simpl in HF. congruence.
Qed.

(** One step of the integral of the product is one update of the overlap
    matrix. *)
Lemma integrate_step_kron (M : list D) (qa qb : Qmarray GF) :
  wf_core qa -> wf_core qb ->
  Z.of_nat (length M) = nrows qa * nrows qb ->
  exists qc val,
    kron qa qb = Some qc /\
    dmrg_update_left K M qa qb = Some val /\
    integrate_step M qc = Some val /\
    Z.of_nat (length val) = ncols qa * ncols qb.
Proof.
  intros Hqa Hqb HM.
  destruct (kron_spec qa qb Hqa Hqb) as (qc & Hqc & Hrc & Hcc & Hat).
  destruct (dmrg_update_left_entries M qa qb Hqa Hqb HM)
    as (val & Hval & Hlen & Hin).
  exists qc, val. split_and!; [done..| |done].
  pose proof Hqa as (Hra & Hca & _). pose proof Hqb as (Hrb & Hcb & _).
  unfold Inner.integrate_step. apply mapM_Some.
  apply Forall2_same_length_lookup. split.
  { rewrite length_seqZ. lia. }
  intros n j x [-> Hj]%seqZ_lookup Hx. rewrite Hcc in Hj.
  set (ja := Z.of_nat n mod ncols qa). set (jb := Z.of_nat n / ncols qa).
  assert (Hja : 0 <= ja < ncols qa) by (apply Z.mod_pos_bound; lia).
  assert (Hjb : 0 <= jb < ncols qb).
  { split; [apply Z.div_pos; lia|apply Z.div_lt_upper_bound; lia]. }
  assert (Hn : Z.of_nat n = jb * ncols qa + ja).
  { unfold ja, jb. rewrite (Z.div_mod (Z.of_nat n) (ncols qa)) at 1; lia. }
  destruct (Hin ja jb Hja Hjb) as (y & Hy & Hentry).
  rewrite <- Hn, ld_lookup, Hx in Hy. injection Hy as <-.
  rewrite <- Hentry. unfold Inner.integrate_entry, Inner.left_entry.
  rewrite Hrc, <- (osum_perm _ _ (fmap_Permutation _ _ _
                     (pairs_perm (nrows qa) (nrows qb) ltac:(lia) ltac:(lia)))).
  rewrite <- list_fmap_compose. f_equal.
  apply Forall_fmap_ext, Forall_forall. intros [kk ll].
  rewrite elem_of_list_prod, !elem_of_seqZ. intros [Hkk Hll].
  unfold compose, Inner.left_term. cbn [fst snd].
  destruct (Hat kk ll ja jb) as (f & g & Hf & Hg & Hfg); [lia..|].
  rewrite Hn, Hfg, Hf, Hg. destruct (ld M _); [|done]. simpl.
  by rewrite inner_integrate.
Qed.

Lemma ld_cons {A : Type} (x : A) (l : list A) k :
  0 <= k -> ld (x :: l) (k + 1) = ld l k.
Proof.
  intros Hk. unfold ld. rewrite !bool_decide_eq_true_2 by lia.
  by replace (Z.to_nat (k + 1)) with (S (Z.to_nat k)) by lia.
Qed.

Lemma linked_of_ranks (rs : list Z) :
  forall (cs : list (option (Qmarray GF))) off r r',
  0 <= off ->
  (forall k, 0 <= k < Z.of_nat (length cs) ->
     exists q, ld cs k = Some (Some q) /\ wf_core q /\
               ld rs (off + k) = Some (nrows q) /\
               ld rs (off + k + 1) = Some (ncols q)) ->
  ld rs off = Some r -> ld rs (off + Z.of_nat (length cs)) = Some r' ->
  Inner.linked r cs r'.
Proof.
  induction cs as [|c cs IH]; intros off r r' Hoff Hall Hr Hr'.
  - simpl in *. rewrite Z.add_0_r in Hr'. congruence.
  - destruct (Hall 0) as (q & Hq & Hwf & Hn & Hc); [simpl; lia|].
    rewrite Z.add_0_r in Hn, Hc. injection Hq as ->.
    simpl. split; [done|]. split; [congruence|].
    apply (IH (off + 1)); [lia| |done|].
    + intros k Hk. destruct (Hall (k + 1)) as (q' & Hq' & ? & ? & ?);
        [simpl; lia|].
      rewrite ld_cons in Hq' by lia. exists q'.
      by replace (off + 1 + k) with (off + (k + 1)) by lia.
    + rewrite <- Hr'. f_equal. simpl. lia.
Qed.

Lemma chain_linked (ft : FunctionTrain GF) :
  chain ft -> Inner.linked 1 (cores ft) 1.
Proof.
  intros (Hlr & Hlc & H0 & Hd & Hall).
  apply (linked_of_ranks (ranks ft) (cores ft) 0); [done| |done|].
  - intros k Hk. rewrite Hlc in Hk. by apply Hall.
  - by rewrite Hlc.
Qed.

Lemma inner_from_product :
  forall (ca cb : list (option (Qmarray GF))) (M : list D) ra rb,
  Inner.linked ra ca 1 -> Inner.linked rb cb 1 ->
  length ca = length cb ->
  Z.of_nat (length M) = ra * rb ->
  exists cs v,
    Inner.product_cores generic_function_product ca cb = Some cs /\
    Inner.inner_from K M ca cb = Some v /\
    Inner.integrate_from generic_function_integrate M cs = Some v /\
    length v = 1%nat.
Proof.
  induction ca as [|[qa|] ca IH]; intros [|[qb|] cb] M ra rb; simpl;
    try done.
  - intros -> -> _ HM. exists [], M. split_and!; [done..|lia].
  - intros (Hqa & <- & Ha) (Hqb & <- & Hb) [= Hlen] HM.
    destruct (integrate_step_kron M qa qb Hqa Hqb HM)
      as (qc & val & Hqc & Hleft & Hstep & Hval).
    destruct (IH cb val _ _ Ha Hb Hlen Hval)
      as (cs & v & Hcs & Hin & Hint & Hv).
    exists (Some qc :: cs), v. rewrite Hqc, Hleft. simpl.
    rewrite Hcs, Hin, Hstep. simpl. by rewrite Hint.
Qed.


End InnerProduct.

Lemma dot_cell_integrate (f g : list Z) :
  Plain.dot f g = Inner.cell_integrate (Inner.cell_product f g).
Proof.
  revert g. induction f as [|x f IH]; intros [|y g]; simpl; [done..|].
  by rewrite IH.
Qed.



(** * Runs *)

(** Three iterations on the trains of [Run.heap4]: the run returns, and
    has printed one line per iteration. *)
Example dmrg_approx_three_sweeps :
  exists s' out,
    dmrg_approx Plain.plain (Some 0%nat) (Some 1%nat) 0%float 3 1 0%float
      {| trains := [Some Run.unit_guess; Some Run.unit_target];
         arrays := [] |}
    = Ok (Some 10%nat) s' out /\
    out = [PrintIteration 0 2; PrintIteration 1 2; PrintIteration 2 2] /\
    (chainb <$> train_of s' 10) = Some true.
Proof.
  eexists _, _. split; [vm_compute; reflexivity|].
  split; vm_compute; reflexivity.
Qed.

(** On the trains [Inner.fa] and [Inner.fb] the two sides of the
    inner-product identity, computed in [binary64], pass the check of the
    test. *)
Example inner_agrees_in_binary64 :
  exists c int1 int2,
    Inner.function_train_product Inner.cell_product Inner.fa Inner.fb
      = Some c /\
    Inner.function_train_integrate Inner.cell_integrate c = Some int1 /\
    Inner.function_train_inner Plain.plain Inner.fa Inner.fb = Some int2 /\
    Inner.test_passes int1 int2 = true.
Proof.
  eexists _, _, _. split_and!; vm_compute; reflexivity.
Qed.

(** * The accumulator updates and their bounds *)

Section Kernels.

Context {D GF : Type} `{Arith D}.
Variable K : Collab D GF.

Lemma for_each_fails {I S : Type} (l : list I) (body : I -> S -> option S)
    (i : I) (s : S) :
  i ∈ l -> (forall s', body i s' = None) -> for_each l body s = None.
Proof.
  intros Hi Hnone. revert s.
  induction l as [|x l IH]; intros s; [by inversion Hi|].
  apply elem_of_cons in Hi as [<-|Hi]; simpl; [by rewrite Hnone|].
  destruct (body x s); [by apply IH|done].
Qed.

Lemma ld_take {A : Type} (l : list A) (n i : Z) :
  0 <= i < n -> ld (take (Z.to_nat n) l) i = ld l i.
Proof.
  intros Hi. unfold ld. rewrite bool_decide_eq_true_2 by lia.
  apply lookup_take_lt. lia.
Qed.

(** [dmrg_update_right] reads [psikp] below [ncols left * ncols right]
    only. *)
Lemma dmrg_update_right_prefix (P : list D) (L R : Qmarray GF) :
  wf_core L -> wf_core R ->
  dmrg_update_right K (take (Z.to_nat (ncols L * ncols R)) P) L R
  = dmrg_update_right K P L R.
Proof.
  intros (HrL & HcL & _) (HrR & HcR & _).
  unfold dmrg_update_right, for_loop. cbv zeta.
  apply for_each_ext. intros ii _ val1.
  apply for_each_ext. intros jj _ val2.
  apply for_each_ext. intros kk Hkk%elem_of_seqZ val3.
  apply for_each_ext. intros ll Hll%elem_of_seqZ val4.
  rewrite (wrap_index ll (ncols L) kk) by lia.
  rewrite ld_take by nia. done.
Qed.

Lemma dmrg_update_left_prefix (M : list D) (L R : Qmarray GF) :
  wf_core L -> wf_core R ->
  dmrg_update_left K (take (Z.to_nat (nrows L * nrows R)) M) L R
  = dmrg_update_left K M L R.
Proof.
  intros (HrL & HcL & _) (HrR & HcR & _).
  unfold dmrg_update_left, for_loop. cbv zeta.
  apply for_each_ext. intros ii _ val1.
  apply for_each_ext. intros jj _ val2.
  apply for_each_ext. intros kk Hkk%elem_of_seqZ val3.
  apply for_each_ext. intros ll Hll%elem_of_seqZ val4.
  rewrite (wrap_index ll (nrows L) kk) by lia.
  rewrite ld_take by nia. done.
Qed.

Lemma length_take_Z {A : Type} (l : list A) (n : Z) :
  0 <= n <= Z.of_nat (length l) ->
  Z.of_nat (length (take (Z.to_nat n) l)) = n.
Proof. intros Hn. rewrite length_take_le; lia. Qed.

(** X1. For blocks of well-formed sizes, [dmrg_update_right] stays within
    [psikp] exactly when [psikp] holds at least
    [ncols left * ncols right] entries: then it returns a buffer of
    [nrows left * nrows right] entries, the contraction of the entries of
    [psikp] below that bound; with a shorter [psikp] it reads past its
    end. *)
Theorem dmrg_update_right_bounds (P : list D) (L R : Qmarray GF) :
  wf_core L -> wf_core R ->
  (ncols L * ncols R <= Z.of_nat (length P) ->
   exists val,
     dmrg_update_right K P L R = Some val /\
     is_contract K (take (Z.to_nat (ncols L * ncols R)) P) L R val) /\
  (Z.of_nat (length P) < ncols L * ncols R ->
   dmrg_update_right K P L R = None).
Proof.
  intros HL HR. pose proof HL as (HrL & HcL & _).
  pose proof HR as (HrR & HcR & _). split.
  - intros Hlen. rewrite <- dmrg_update_right_prefix by done.
    apply dmrg_update_right_contract; [done..|].
    apply length_take_Z. nia.
  - intros Hlen. unfold dmrg_update_right, for_loop. cbv zeta.
    apply (for_each_fails _ _ 0); [apply elem_of_seqZ; lia|]. intros val1.
    apply (for_each_fails _ _ 0); [apply elem_of_seqZ; lia|]. intros val2.
    apply (for_each_fails _ _ (ncols L - 1)); [apply elem_of_seqZ; lia|].
    intros val3.
    apply (for_each_fails _ _ (ncols R - 1)); [apply elem_of_seqZ; lia|].
    intros val4.
    assert (ld P (size_add (size_mul (ncols R - 1) (ncols L)) (ncols L - 1))
            = None) as ->; [|done].
    rewrite wrap_index by lia. unfold ld. case_bool_decide; [|done].
    apply lookup_ge_None_2. nia.
Qed.

(** X2. For blocks of well-formed sizes, [dmrg_update_left] stays within
    [phik] exactly when [phik] holds at least [nrows left * nrows right]
    entries: then it returns a buffer of [ncols left * ncols right]
    entries in which the entry of the columns [(ja, jb)], at offset
    [jb * ncols left + ja], is the sum over the rows [(kk, ll)] of
    [phik[ll * nrows left + kk] * inner(left(kk, ja), right(ll, jb))];
    with a shorter [phik] it reads past its end. *)
Theorem dmrg_update_left_bounds (M : list D) (L R : Qmarray GF) :
  wf_core L -> wf_core R ->
  (nrows L * nrows R <= Z.of_nat (length M) ->
   exists val,
     dmrg_update_left K M L R = Some val /\
     Z.of_nat (length val) = ncols L * ncols R /\
     forall ja jb, 0 <= ja < ncols L -> 0 <= jb < ncols R ->
       exists x, ld val (jb * ncols L + ja) = Some x /\
                 Inner.left_entry K M L R ja jb = Some x) /\
  (Z.of_nat (length M) < nrows L * nrows R ->
   dmrg_update_left K M L R = None).
Proof.
  intros HL HR. pose proof HL as (HrL & HcL & _).
  pose proof HR as (HrR & HcR & _). split.
  - intros Hlen.
    destruct (dmrg_update_left_entries K
                (take (Z.to_nat (nrows L * nrows R)) M) L R HL HR)
      as (val & Hval & Hlv & Hin); [apply length_take_Z; nia|].
    exists val. rewrite <- dmrg_update_left_prefix by done.
    split_and!; [done..|].
    intros ja jb Hja Hjb. destruct (Hin ja jb Hja Hjb) as (x & Hx & Hentry).
    exists x. split; [done|]. rewrite <- Hentry.
    unfold Inner.left_entry. f_equal.
    apply Forall_fmap_ext, Forall_forall. intros [kk ll].
    rewrite elem_of_list_prod, !elem_of_seqZ. intros [Hkk Hll].
    unfold Inner.left_term. cbn [fst snd]. by rewrite ld_take by nia.
  - intros Hlen. unfold dmrg_update_left, for_loop. cbv zeta.
    apply (for_each_fails _ _ 0); [apply elem_of_seqZ; lia|]. intros val1.
    apply (for_each_fails _ _ 0); [apply elem_of_seqZ; lia|]. intros val2.
    apply (for_each_fails _ _ (nrows L - 1)); [apply elem_of_seqZ; lia|].
    intros val3.
    apply (for_each_fails _ _ (nrows R - 1)); [apply elem_of_seqZ; lia|].
    intros val4.
    assert (ld M (size_add (size_mul (nrows R - 1) (nrows L)) (nrows L - 1))
            = None) as ->; [|done].
    rewrite wrap_index by lia. unfold ld. case_bool_decide; [|done].
    apply lookup_ge_None_2. nia.
Qed.

End Kernels.

Lemma dmrg_update_right_bounds_run :
  (exists val,
     dmrg_update_right (Plain.plain (D := Z)) [5; 7]
       {| nrows := 2; ncols := 1; funcs := [[1; 2]; [0; 1]] |}
       {| nrows := 1; ncols := 1; funcs := [[3; 1]] |} = Some val /\
     Z.of_nat (length val) = 2) /\
  dmrg_update_right (Plain.plain (D := Z)) []
    {| nrows := 2; ncols := 1; funcs := [[1; 2]; [0; 1]] |}
    {| nrows := 1; ncols := 1; funcs := [[3; 1]] |} = None.
Proof.
  split.
  - destruct (proj1 (dmrg_update_right_bounds (Plain.plain (D := Z)) [5; 7]
                {| nrows := 2; ncols := 1; funcs := [[1; 2]; [0; 1]] |}
                {| nrows := 1; ncols := 1; funcs := [[3; 1]] |}
                ltac:(by apply wf_coreb_spec) ltac:(by apply wf_coreb_spec)))
      as (val & Hval & Hlen & _); [simpl; lia|].
    exists val. split; [exact Hval|exact Hlen].
  - apply (dmrg_update_right_bounds (Plain.plain (D := Z)) []
             {| nrows := 2; ncols := 1; funcs := [[1; 2]; [0; 1]] |}
             {| nrows := 1; ncols := 1; funcs := [[3; 1]] |});
      [by apply wf_coreb_spec..|simpl; lia].
Defined.

Lemma dmrg_update_left_bounds_run :
  (exists val,
     dmrg_update_left (Plain.plain (D := Z)) [5; 7; 9]
       {| nrows := 2; ncols := 1; funcs := [[1; 2]; [0; 1]] |}
       {| nrows := 1; ncols := 1; funcs := [[3; 1]] |} = Some val /\
     Z.of_nat (length val) = 1) /\
  dmrg_update_left (Plain.plain (D := Z)) [5]
    {| nrows := 2; ncols := 1; funcs := [[1; 2]; [0; 1]] |}
    {| nrows := 1; ncols := 1; funcs := [[3; 1]] |} = None.
Proof.
  split.
  - destruct (proj1 (dmrg_update_left_bounds (Plain.plain (D := Z)) [5; 7; 9]
                {| nrows := 2; ncols := 1; funcs := [[1; 2]; [0; 1]] |}
                {| nrows := 1; ncols := 1; funcs := [[3; 1]] |}
                ltac:(by apply wf_coreb_spec) ltac:(by apply wf_coreb_spec)))
      as (val & Hval & Hlen & _); [simpl; lia|].
    exists val. split; [exact Hval|exact Hlen].
  - apply (dmrg_update_left_bounds (Plain.plain (D := Z)) [5]
             {| nrows := 2; ncols := 1; funcs := [[1; 2]; [0; 1]] |}
             {| nrows := 1; ncols := 1; funcs := [[3; 1]] |});
      [by apply wf_coreb_spec..|simpl; lia].
Defined.

(** * The two-core update of a right-to-left step *)

Section TwoCoreStepRL.

Context {D GF : Type} `{Arith D}.
Variable K : Collab D GF.

#[local] Abbreviation state := (state D GF).
#[local] Abbreviation nofault := (fun _ : fault => False).

(** The loops of lines 346-350 scale the columns of [U]. *)
Lemma scale_u_scaled (dimtemp rank : Z) (s u : list D) :
  0 <= dimtemp < 2 ^ 31 -> 0 <= rank < 2 ^ 31 ->
  rank * dimtemp <= Z.of_nat (length u) ->
  rank <= Z.of_nat (length s) ->
  scale_u dimtemp rank s u = Some (u_scaled dimtemp rank s u).
Proof.
  intros Hd Hr Hu Hs.
  set (ps := list_prod (seqZ 0 rank) (seqZ 0 dimtemp)).
  set (m := fun p : Z * Z => p.1 * dimtemp + p.2).
  set (g := fun (p : Z * Z) (x : D) => sj ← ld s p.1; Some (dmul x sj)).
  assert (Hps : forall p, p ∈ ps <-> 0 <= p.1 < rank /\ 0 <= p.2 < dimtemp).
  { intros [jj kk]. unfold ps. rewrite elem_of_list_prod, !elem_of_seqZ.
    simpl. lia. }
  destruct (for_each_fill m g
              (fun p u =>
                 x ← ld u (size_add (size_mul p.1 dimtemp) p.2);
                 sj ← ld s p.1;
                 st u (size_add (size_mul p.1 dimtemp) p.2) (dmul x sj))
              ps u) as (u' & Hrun & Hlen & Hin & Hout).
  - intros [jj kk] val v [Hjj Hkk]%Hps Hv. simpl in Hjj, Hkk.
    unfold m, g in *. cbn [fst snd] in *.
    rewrite wrap_index by lia. rewrite Hv. simpl.
    by destruct (ld s jj).
  - apply NoDup_fmap_2_strong.
    + intros [j1 k1] [j2 k2] [? ?]%Hps [? ?]%Hps Heq.
      unfold m in Heq. simpl in *.
      assert (j1 = j2) by nia. subst. f_equal. lia.
    + apply NoDup_list_prod; apply NoDup_seqZ.
  - intros [jj kk] v [Hjj Hkk]%Hps _. simpl in Hjj, Hkk. unfold g.
    cbn [fst]. destruct (ld_is_Some s jj) as [? ->]; [lia|]. by eexists.
  - intros [jj kk] [Hjj Hkk]%Hps. simpl in Hjj, Hkk. unfold m. simpl. nia.
  - unfold scale_u, for_loop. rewrite for_each_prod. fold ps.
    rewrite Hrun. f_equal. apply list_eq. intros n.
    unfold u_scaled. rewrite list_lookup_imap.
    rewrite <- !ld_lookup.
    destruct (decide (Z.of_nat n < rank * dimtemp)) as [Hn|Hn].
    + assert (0 < dimtemp) by nia.
      destruct (Hin (Z.of_nat n / dimtemp, Z.of_nat n mod dimtemp))
        as (v & Hv & Hv').
      { apply Hps. simpl. split; [|by apply Z.mod_pos_bound].
        split; [apply Z.div_pos; lia|].
        apply Z.div_lt_upper_bound; lia. }
      unfold m, g in Hv, Hv'. cbn [fst snd] in Hv, Hv'.
      replace (Z.of_nat n `div` dimtemp * dimtemp + Z.of_nat n `mod` dimtemp)
        with (Z.of_nat n) in Hv, Hv'
        by (rewrite (Z.div_mod (Z.of_nat n) dimtemp) at 1; lia).
      rewrite Hv', Hv. simpl. rewrite bool_decide_eq_true_2 by done.
      destruct (ld_is_Some s (Z.of_nat n / dimtemp)) as [sj ->]; [|done].
      split; [apply Z.div_pos; lia|].
      assert (Z.of_nat n / dimtemp < rank)
        by (apply Z.div_lt_upper_bound; lia).
      lia.
    + rewrite Hout.
      * destruct (ld u (Z.of_nat n)); [|done]. simpl.
        by rewrite bool_decide_eq_false_2.
      * intros [jj kk] [Hjj Hkk]%Hps. unfold m. simpl in *. nia.
Qed.

(** X3. Step [ii] of a right-to-left sweep, run with the accumulators
    [Phi_k = phi[ii]] and [Psi_k = psi[ii]] and the cores [cb], [cb1] of
    the target at [ii] and [ii + 1], returns, and does the two-core
    update of the left-to-right step with the roles of the two sides
    exchanged: the rank found by the truncated SVD of [R * L] is stored
    in [ranks[ii + 1]]; core [ii + 1] becomes [V^T] times the block of the
    LQ side at every step; core [ii] is written only at the last step,
    [ii = 0], as the block of the QR side times [U * S].  No other train
    changes, and before the last step [psi[ii - 1]] is recomputed from the
    new core [ii + 1]. *)
Theorem rl_step_is_the_two_core_update (s : state) (a b na : nat)
    (phi psi : nat) (epsilon : D) (ii rsize : Z)
    (fa fb fna : FunctionTrain GF) (ca1 cb cb1 : Qmarray GF)
    (Phi_k Psi_k : list D) :
  let first := bool_decide (ii = 0) in
  let lsize := if first then 1
               else match ld (cores fa) (ii - 1) with
                    | Some (Some ca0) => ncols ca0
                    | _ => 0
                    end in
  let t := two_core_update K Phi_k Psi_k cb cb1 lsize rsize epsilon in
  train_of s a = Some fa -> train_of s b = Some fb ->
  train_of s na = Some fna -> na <> a -> na <> b ->
  0 <= ii ->
  ld (cores fa) (ii + 1) = Some (Some ca1) ->
  (first = false -> exists ca0, ld (cores fa) (ii - 1) = Some (Some ca0)) ->
  ld (cores fb) ii = Some (Some cb) ->
  ld (cores fb) (ii + 1) = Some (Some cb1) ->
  slot_of s phi ii = Some (Some Phi_k) ->
  slot_of s psi ii = Some (Some Psi_k) ->
  ii + 1 < Z.of_nat (length (ranks fna)) ->
  ii + 1 < Z.of_nat (length (cores fna)) ->
  0 <= ncols cb < 2 ^ 31 ->
  (first = true ->
   0 <= new_rank t < 2 ^ 31 /\
   new_rank t * ncols cb <= Z.of_nat (length (svd_U t)) /\
   new_rank t <= Z.of_nat (length (svd_S t))) ->
  (first = false ->
   is_Some (slot_of s psi (ii - 1)) /\
   is_Some (dmrg_update_right K Psi_k cb1 (rl_core_k1 K t))) ->
  exists s' out,
    sweep_rl_step K (Some a) (Some b) phi psi epsilon (Some na) ii rsize s
      = Ok (nrows ca1) s' out /\
    train_of s' na =
      Some {| dim := dim fna;
              ranks := <[Z.to_nat (ii + 1) := new_rank t]> (ranks fna);
              cores :=
                (if first
                 then <[Z.to_nat ii := Some (rl_core_k K (ncols cb) t)]>
                 else id)
                  (<[Z.to_nat (ii + 1) := Some (rl_core_k1 K t)]>
                     (cores fna)) |} /\
    (forall p, p <> na -> train_of s' p = train_of s p) /\
    (first = false ->
     slot_of s' psi (ii - 1)
     = Some (dmrg_update_right K Psi_k cb1 (rl_core_k1 K t))).
Proof.
  intros first lsize t Hfa Hfb Hfna Hna Hnb Hii Hca1 Hca0 Hcb Hcb1 Hphi
    Hpsi Hranks Hcores Hdt Hsvd Hright.
  cut (wp nofault
         (sweep_rl_step K (Some a) (Some b) phi psi epsilon (Some na)
            ii rsize) s
         (fun r s' =>
            r = nrows ca1 /\
            train_of s' na =
              Some {| dim := dim fna;
                      ranks := <[Z.to_nat (ii + 1) := new_rank t]> (ranks fna);
                      cores :=
                        (if first
                         then <[Z.to_nat ii :=
                                  Some (rl_core_k K (ncols cb) t)]>
                         else id)
                          (<[Z.to_nat (ii + 1) := Some (rl_core_k1 K t)]>
                             (cores fna)) |} /\
            (forall p, p <> na -> train_of s' p = train_of s p) /\
            (first = false ->
             slot_of s' psi (ii - 1)
             = Some (dmrg_update_right K Psi_k cb1 (rl_core_k1 K t))))).
  { intros (r & s' & out & Hrun & -> & Hpost)%wp_total. eauto. }
  assert (Hzeros : calloc_double (size_mul (ncols cb) (ncols cb))
                   = replicate (Z.to_nat (ncols cb * ncols cb)) dzero).
  { unfold calloc_double, size_mul. rewrite wrap_small; [done|].
    unfold SIZE_MAX. nia. }
  assert (Hlt : (na < length (trains s))%nat) by by eapply train_of_lt.
  unfold slot_of in Hphi, Hpsi.
  destruct (arrays s !! phi) as [[aphi|]|] eqn:Haphi; [|done..].
  destruct (arrays s !! psi) as [[apsi|]|] eqn:Hapsi; [|done..].
  unfold sweep_rl_step.
  wp_head. wp_head. rewrite Hfa.
  wp_head. wp_head. rewrite Hfb.
  wp_head. wp_head. rewrite Hcb. cbv zeta.
  rewrite Hzeros. fold first.
  eapply (wp_seq _ _ _ _ (fun r s' => r = lsize /\ s' = s)).
  { unfold lsize. destruct first eqn:Hfirst; [done|].
    destruct (Hca0 eq_refl) as [ca0 Hc]. rewrite Hc.
    wp_head. wp_head. by rewrite Hc. }
  intros ? ? [-> ->].
  wp_head. wp_head. rewrite Hcb1.
  wp_head. wp_head. unfold array_of. rewrite Hapsi, Hpsi.
  destruct (qmarray_householder_simple K "LQ" _ _) as [templ L] eqn:Hlq.
  wp_head. wp_head. unfold array_of. rewrite Haphi, Hphi.
  destruct (qmarray_householder_simple K "QR" _ _) as [tempr R] eqn:Hqr.
  destruct (truncated_svd K _ _ _ _ _) as [[[rank u] sv] vt] eqn:Hsplit.
  assert (Ht : t = {| block_Qr := tempr; factor_R := R;
                      block_Ql := templ; factor_L := L;
                      new_rank := rank; svd_U := u;
                      svd_S := sv; svd_Vt := vt |}).
  { unfold t, two_core_update. cbv zeta. rewrite Hlq, Hqr. cbn [fst snd].
    by rewrite Hsplit. }
  clearbody t. subst t. unfold rl_core_k, rl_core_k1 in *.
  cbn [block_Qr block_Ql new_rank svd_U svd_S svd_Vt] in *.
  wp_head. wp_head. rewrite Hfna.
  rewrite st_is_Some by lia.
  wp_head. wp_head. rewrite train_of_insert by done.
  cbn [cores ranks dim].
  rewrite st_is_Some by lia.
  cbn [trains arrays]. rewrite list_insert_insert_eq.
  assert (Hcase : negb first = bool_decide (ii > 0)).
  { unfold first. rewrite <- bool_decide_not. apply bool_decide_ext. lia. }
  rewrite <- Hcase. clear Hcase.
  destruct first eqn:Hfirst; cbn [negb].
  - destruct (Hsvd eq_refl) as (Hr & Hu & Hsv).
    rewrite scale_u_scaled by done.
    wp_head. wp_head. wp_head. wp_head.
    rewrite train_of_insert by done. cbn [cores ranks dim].
    rewrite st_is_Some by (rewrite length_insert; lia).
    cbn [trains arrays]. rewrite list_insert_insert_eq.
    wp_head. wp_head. wp_head. wp_head. rewrite Hca1. wp_head.
    split_and!; [done| |by intros; apply train_of_insert_ne|done].
    by rewrite train_of_insert.
  - destruct (Hright eq_refl) as [[old Hold] [val Hval]].
    unfold slot_of in Hold. rewrite Hapsi in Hold.
    pose proof (ld_lt _ _ _ Hold) as Hrange.
    wp_head. wp_head. wp_head. wp_head. wp_head.
    unfold array_of. cbn [arrays]. rewrite Hapsi.
    rewrite st_is_Some by done.
    wp_head. wp_head. unfold array_of. cbn [arrays].
    rewrite list_lookup_insert_eq by by eapply lookup_lt_Some.
    erewrite ld_st_ne; [|by apply st_is_Some|lia]. rewrite Hpsi.
    wp_head. wp_head. cbn [trains arrays].
    rewrite train_of_insert by done.
    wp_head. wp_head. cbn [cores].
    erewrite ld_st; [|by apply st_is_Some; lia|lia].
    rewrite bool_decide_eq_true_2 by done.
    wp_head. wp_head. rewrite Hval.
    wp_head. unfold array_of. cbn [arrays].
    rewrite list_lookup_insert_eq by by eapply lookup_lt_Some.
    rewrite st_is_Some by (rewrite length_insert; done).
    wp_head. wp_head. rewrite Hca1. wp_head. cbn [trains arrays].
    split_and!; [done|by rewrite train_of_insert
                |by intros; apply train_of_insert_ne|].
    intros _. unfold slot_of. cbn [arrays].
    rewrite list_lookup_insert_eq
      by (rewrite length_insert; by eapply lookup_lt_Some).
    erewrite ld_st; [|by apply st_is_Some; rewrite length_insert|lia].
    by rewrite bool_decide_eq_true_2.
Qed.

End TwoCoreStepRL.

Lemma rl_step_is_the_two_core_update_run :
  exists s' out,
    sweep_rl_step Plain.plain (Some 2%nat) (Some 1%nat) 0 1 0%float
      (Some 3%nat) 1 1 XRun.heap6 = Ok 2 s' out /\
    train_of s' 3 =
      Some {| dim := 3; ranks := [1; 0; 2; 1];
              cores := [None; None;
                        Some (Run.block 2 1 [[1; 0]; [0; 1]]%float)] |} /\
    slot_of s' 1 0 = Some (Some [1; 0; 0; 1]%float).
Proof.
  destruct (rl_step_is_the_two_core_update Plain.plain XRun.heap6
              2 1 3 0 1 0%float 1 1
              {| dim := 3; ranks := [1; 2; 2; 1];
                 cores := [Some (Run.block 1 2 [[1; 0]; [0; 1]]%float);
                           Some (Run.block 1 2 [[1; 0]; [0; 1]]%float);
                           Some (Run.block 2 1 [[1; 0]; [0; 1]]%float)] |}
              Run.unit_target
              {| dim := 3; ranks := [1; 0; 0; 1];
                 cores := [None; None; None] |}
              (Run.block 2 1 [[1; 0]; [0; 1]]%float)
              (Run.block 2 2 [[1; 0]; [0; 1]; [0; 1]; [1; 0]]%float)
              (Run.block 2 1 [[1; 0]; [0; 1]]%float)
              [1; 0; 0; 1]%float [1%float])
    as (s' & out & Hrun & Htrain & _ & Hpsi).
  - reflexivity.
  - reflexivity.
  - reflexivity.
  - lia.
  - lia.
  - lia.
  - reflexivity.
  - intros _. eexists. reflexivity.
  - reflexivity.
  - reflexivity.
  - reflexivity.
  - reflexivity.
  - simpl; lia.
  - simpl; lia.
  - simpl; lia.
  - intros Hfirst. vm_compute in Hfirst. discriminate Hfirst.
  - intros _. split; vm_compute; eexists; reflexivity.
  - exists s', out. split; [exact Hrun|]. split.
    + rewrite Htrain. vm_compute. reflexivity.
    + change 0 with (1 - 1) at 1. rewrite (Hpsi eq_refl). vm_compute.
      reflexivity.
Defined.

(** * Dimensions below three *)

Section SmallDims.

Context {D GF : Type} `{Arith D}.
Variable K : Collab D GF.

#[local] Abbreviation state := (state D GF).

Lemma wp_fault {A : Type} (m : M D GF A) (s : state) (f : fault) :
  wp (fun f' => f' = f) m s (fun _ _ => False) -> m s = Fault f.
Proof. unfold wp. destruct (m s); [done|]. by intros ->. Qed.

Lemma array_of_with_train (s : state) ft arr :
  array_of (with_train s ft) arr = array_of s arr.
Proof. done. Qed.

Lemma has_no_slots mats (s : state) :
  has_slots mats 0 s -> array_of s mats = Some [].
Proof.
  intros (l & Hl & Hlen). destruct l; [done|]. simpl in Hlen. lia.
Qed.

(** X4. On a guess of dimension one, with the accumulator arrays of
    [dim - 1 = 0] slots that [dmrg_approx] allocates, neither sweep
    reaches its loop: the left-to-right sweep reads [phi[0]] and the
    right-to-left sweep reads [psi[dim - 2]], whose index wraps around to
    [2^64 - 1]; both reads are outside the array. *)
Theorem sweeps_need_dim_2 (s : state) (a : nat) (b : ptr) (phi psi : nat)
    (epsilon : D) (fa : FunctionTrain GF) :
  train_of s a = Some fa ->
  dim fa = 1 ->
  has_slots phi 0 s -> has_slots psi 0 s ->
  dmrg_sweep_lr K (Some a) b phi psi epsilon s
  = Fault (SlotOutOfRange phi 0) /\
  dmrg_sweep_rl K (Some a) b phi psi epsilon s
  = Fault (SlotOutOfRange psi (2 ^ 64 - 1)).
Proof.
  intros Hfa Hd Hphi%has_no_slots Hpsi%has_no_slots.
  pose proof (train_of_lt _ _ _ Hfa) as Hlt.
  assert (Hblank : train_of (with_train s (blank_train 1)) (length (trains s))
                   = Some {| dim := 1; ranks := [0; 0]; cores := [None] |})
    by apply train_of_with_train.
  split; apply wp_fault.
  - unfold dmrg_sweep_lr, function_train_alloc.
    apply wp_bind, wp_get_train. rewrite Hfa, Hd.
    apply wp_bind, wp_new_train, wp_bind, wp_set_rank.
    rewrite Hblank. cbn [ranks dim cores].
    change (st [0; 0] 0 1) with (Some [1; 0]).
    apply wp_bind, wp_get_train.
    rewrite train_of_insert
      by (unfold with_train; simpl; rewrite length_app; simpl; lia).
    cbn [ranks dim cores].
    apply wp_bind, wp_set_rank.
    rewrite train_of_insert
      by (unfold with_train; simpl; rewrite length_app; simpl; lia).
    cbn [ranks dim cores].
    change (st [1; 0] 1 1) with (Some [1; 1]).
    apply wp_bind, wp_slot_get. unfold array_of. cbn [arrays with_train].
    fold (array_of s phi). by rewrite Hphi.
  - unfold dmrg_sweep_rl, function_train_alloc.
    apply wp_bind, wp_get_train. rewrite Hfa, Hd.
    apply wp_bind, wp_new_train, wp_bind, wp_set_rank.
    rewrite Hblank. cbn [ranks dim cores].
    change (st [0; 0] 0 1) with (Some [1; 0]).
    apply wp_bind, wp_get_train.
    rewrite train_of_insert
      by (unfold with_train; simpl; rewrite length_app; simpl; lia).
    cbn [ranks dim cores].
    apply wp_bind, wp_set_rank.
    rewrite train_of_insert
      by (unfold with_train; simpl; rewrite length_app; simpl; lia).
    cbn [ranks dim cores].
    change (st [1; 0] 1 1) with (Some [1; 1]).
    cbv zeta. change (size_sub 1 2) with (2 ^ 64 - 1).
    apply wp_bind, wp_slot_get. unfold array_of. cbn [arrays with_train].
    fold (array_of s psi). by rewrite Hpsi.
Qed.

(** The loop of lines 417-420 stores [NULL] in slots that the model
    already starts at [NULL]. *)
Lemma null_loop_fresh phi psi (n : nat) :
  Z.of_nat n <= SIZE_MAX ->
  forall fuel i (s : state),
  array_of s phi = Some (replicate n None) ->
  array_of s psi = Some (replicate n None) ->
  0 <= i -> i + Z.of_nat fuel <= Z.of_nat n ->
  null_loop fuel phi psi i s = Ok tt s [].
Proof.
  intros Hn fuel. induction fuel as [|fuel IH]; intros i s Hphi Hpsi Hi Hf.
  - done.
  - assert (Hset : forall arr, array_of s arr = Some (replicate n None) ->
                     slot_set arr i None s = Ok tt s []).
    { intros arr Harr. unfold slot_set. unfold array_of in Harr.
      destruct (arrays s !! arr) as [[l|]|] eqn:Hl; simplify_eq.
      unfold st. rewrite bool_decide_eq_true_2
        by (rewrite length_replicate; lia).
      rewrite (list_insert_id (replicate n None))
        by (apply lookup_replicate_2; lia).
      rewrite list_insert_id by done. by destruct s. }
    cbn [null_loop]. unfold bind at 1. rewrite (Hset phi Hphi).
    unfold bind at 1. rewrite (Hset psi Hpsi).
    rewrite IH; [done..| |].
    all: unfold size_add; rewrite wrap_small; lia.
Qed.

Lemma wp_malloc_slots F n (s : state) (Q : nat -> state -> Prop) :
  Q (length (arrays s))
    {| trains := trains s;
       arrays := arrays s ++ [Some (replicate (Z.to_nat n) None)] |} ->
  wp F (malloc_slots n) s Q.
Proof. done. Qed.

(** The state of [dmrg_approx] when it calls [dmrg_update_all_right]:
    the orthogonalised guess [o] at a new address, and two new arrays of
    [n] slots. *)
Lemma dmrg_approx_enters (a : nat) (b : ptr) delta max_sweeps verbose epsilon
    (s : state) (fa : FunctionTrain GF) F (Q : ptr -> state -> Prop) :
  train_of s a = Some fa ->
  1 <= dim fa <= SIZE_MAX ->
  let n := Z.to_nat (dim fa - 1) in
  let s3 := {| trains := trains s ++ [Some (function_train_orthor K fa)];
               arrays := (arrays s ++ [Some (replicate n None)])
                           ++ [Some (replicate n None)] |} in
  wp F (dmrg_update_all_right K b (Some (length (trains s)))
          (S (length (arrays s)))) s3 (fun _ _ => False) ->
  wp F (dmrg_approx K (Some a) b delta max_sweeps verbose epsilon) s Q.
Proof.
  intros Hfa Hd n s3 Hw. unfold dmrg_approx.
  apply wp_bind, wp_get_train. rewrite Hfa. cbv zeta.
  assert (Hn : size_sub (dim fa) 1 = dim fa - 1)
    by (unfold size_sub; rewrite wrap_small; lia).
  rewrite Hn. fold n.
  apply wp_bind, wp_new_train, wp_bind, wp_malloc_slots.
  apply wp_bind, wp_malloc_slots.
  cbn [trains arrays with_train]. rewrite length_app. cbn [length].
  replace (length (arrays s) + 1)%nat with (S (length (arrays s))) by lia.
  fold s3. apply wp_bind.
  unfold wp at 1. rewrite (null_loop_fresh _ _ n).
  - apply wp_bind. eapply wp_weaken; [apply Hw|done..].
  - unfold n. lia.
  - unfold array_of, s3. cbn [arrays].
    rewrite lookup_app_l by (rewrite length_app; simpl; lia).
    by rewrite lookup_app_r, Nat.sub_diag.
  - unfold array_of, s3. cbn [arrays].
    rewrite lookup_app_r by (rewrite length_app; simpl; lia).
    rewrite length_app. cbn [length].
    by replace (S (length (arrays s)) - (length (arrays s) + 1))%nat
      with 0%nat by lia.
  - done.
  - unfold n. lia.
Qed.

(** X5. [dmrg_approx] sizes [psi] by the dimension of the guess, and
    [dmrg_update_all_right] indexes it by the dimension of the target:
    when the target has more dimensions than the guess, the first access,
    to [psi[b->dim - 2]], is outside the array. *)
Theorem dmrg_approx_sizes_psi_by_the_guess (s : state) (a b : nat)
    (delta : D) (max_sweeps verbose : Z) (epsilon : D)
    (fa fb : FunctionTrain GF) :
  train_of s a = Some fa -> train_of s b = Some fb ->
  1 <= dim fa -> dim fa < dim fb -> dim fb <= SIZE_MAX ->
  dmrg_approx K (Some a) (Some b) delta max_sweeps verbose epsilon s
  = Fault (SlotOutOfRange (S (length (arrays s))) (dim fb - 2)).
Proof.
  intros Hfa Hfb Hda Hlt Hdb. apply wp_fault.
  apply (dmrg_approx_enters _ _ _ _ _ _ _ fa); [done|lia|].
  unfold dmrg_update_all_right.
  apply wp_bind, wp_get_train.
  assert (Hb : (b < length (trains s))%nat) by by eapply train_of_lt.
  unfold train_of in *. cbn [trains].
  rewrite lookup_app_l by done.
  destruct (trains s !! b) as [[?|]|]; simplify_eq. cbv zeta.
  assert (Htop : size_sub (dim fb) 2 = dim fb - 2)
    by (unfold size_sub; rewrite wrap_small; lia).
  rewrite Htop.
  apply wp_bind, wp_slot_get. unfold array_of. cbn [arrays].
  rewrite lookup_app_r by (rewrite length_app; simpl; lia).
  rewrite length_app. cbn [length].
  replace (S (length (arrays s)) - (length (arrays s) + 1))%nat
    with 0%nat by lia.
  cbn [lookup list_lookup]. unfold ld.
  rewrite bool_decide_eq_true_2 by lia.
  rewrite lookup_ge_None_2; [done|]. rewrite length_replicate. lia.
Qed.

(** X6. [dmrg_approx] needs trains of dimension three or more: for a
    guess and a target of dimension one or two it stops in
    [dmrg_update_all_right], at an access to [psi[2^64 - 1]].  For
    dimension one that is the first read, of [psi[dim - 2]]; for dimension
    two it is the first iteration of the loop, whose counter starts at
    [dim - 3]. *)
Theorem dmrg_approx_needs_dim_3 (s : state) (a b : nat)
    (delta : D) (max_sweeps verbose : Z) (epsilon : D)
    (fa fb : FunctionTrain GF) :
  train_of s a = Some fa -> train_of s b = Some fb ->
  dim fb = dim fa -> 1 <= dim fa <= 2 ->
  dmrg_approx K (Some a) (Some b) delta max_sweeps verbose epsilon s
  = Fault (SlotOutOfRange (S (length (arrays s))) (2 ^ 64 - 1)).
Proof.
  intros Hfa Hfb Hdim Hd. apply wp_fault.
  apply (dmrg_approx_enters _ _ _ _ _ _ _ fa); [done|unfold SIZE_MAX; lia|].
  unfold dmrg_update_all_right.
  apply wp_bind, wp_get_train.
  assert (Hb : (b < length (trains s))%nat) by by eapply train_of_lt.
  unfold train_of in *. cbn [trains].
  rewrite lookup_app_l by done.
  destruct (trains s !! b) as [[?|]|]; simplify_eq. cbv zeta.
  set (psi := S (length (arrays s))).
  assert (Hpsi : forall l (trs : list (option (FunctionTrain GF))),
            array_of {| trains := trs;
                        arrays := (arrays s ++ [Some l]) ++ [Some l] |} psi
            = Some l).
  { intros l trs. unfold array_of, psi. cbn [arrays].
    rewrite lookup_app_r by (rewrite length_app; simpl; lia).
    rewrite length_app. cbn [length].
    by replace (S (length (arrays s)) - (length (arrays s) + 1))%nat
      with 0%nat by lia. }
  assert (dim fa = 1 \/ dim fa = 2) as [Hone|Htwo] by lia.
  - rewrite Hdim, Hone. change (size_sub 1 2) with (2 ^ 64 - 1).
    apply wp_bind, wp_slot_get. by rewrite Hpsi.
  - rewrite Hdim, Htwo. change (size_sub 2 2) with 0.
    change (size_sub 2 3) with (2 ^ 64 - 1).
    change (Z.to_nat (2 - 1)) with 1%nat. cbn [replicate].
    apply wp_bind, wp_slot_get. rewrite Hpsi.
    change (ld [None] 0) with (Some (None : buffer D)).
    apply wp_bind, wp_ret, wp_bind, wp_slot_set. rewrite Hpsi.
    change (st [None] 0 (Some [done_]))
      with (Some [Some [done_] : buffer D]).
    replace (Z.to_nat (2 ^ 64 - 1)) with (S (Z.to_nat (2 ^ 64 - 2))) by lia.
    cbn [all_right_loop].
    apply wp_bind, wp_bind, wp_slot_free.
    erewrite array_of_set by apply Hpsi. done.
Qed.

End SmallDims.

Lemma sweeps_need_dim_2_run :
  dmrg_sweep_lr Plain.plain (Some 0%nat) (Some 0%nat) 0 1 0%float
    XRun.heap_line = Fault (SlotOutOfRange 0 0) /\
  dmrg_sweep_rl Plain.plain (Some 0%nat) (Some 0%nat) 0 1 0%float
    XRun.heap_line = Fault (SlotOutOfRange 1 (2 ^ 64 - 1)).
Proof.
  apply (sweeps_need_dim_2 Plain.plain XRun.heap_line 0 (Some 0%nat) 0 1
           0%float (XRun.line 1)).
  - reflexivity.
  - reflexivity.
  - exists []. split; reflexivity.
  - exists []. split; reflexivity.
Defined.

Lemma dmrg_approx_sizes_psi_by_the_guess_run :
  dmrg_approx Plain.plain (Some 0%nat) (Some 1%nat) 0%float 1 0 0%float
    (XRun.heap_pair 3 4) = Fault (SlotOutOfRange 1 2).
Proof.
  apply (dmrg_approx_sizes_psi_by_the_guess Plain.plain (XRun.heap_pair 3 4)
           0 1 0%float 1 0 0%float (XRun.line 3) (XRun.line 4)).
  - reflexivity.
  - reflexivity.
  - simpl; lia.
  - simpl; lia.
  - vm_compute. discriminate.
Defined.

Lemma dmrg_approx_needs_dim_3_run :
  dmrg_approx Plain.plain (Some 0%nat) (Some 1%nat) 0%float 1 0 0%float
    (XRun.heap_pair 2 2) = Fault (SlotOutOfRange 1 (2 ^ 64 - 1)).
Proof.
  apply (dmrg_approx_needs_dim_3 Plain.plain (XRun.heap_pair 2 2)
           0 1 0%float 1 0 0%float (XRun.line 2) (XRun.line 2)).
  - reflexivity.
  - reflexivity.
  - reflexivity.
  - simpl; lia.
Defined.

(** * What is printed *)

Section Prints.

Context {D GF : Type} `{Arith D}.
Variable K : Collab D GF.

#[local] Abbreviation state := (state D GF).
#[local] Abbreviation M := (M D GF).
#[local] Abbreviation anyf := (fun _ : fault => True).
#[local] Abbreviation prints := (prints (D := D) (GF := GF)).

Lemma prints_ret {A : Type} (a : A) : prints (ret a) [].
Proof. intros s a' s' out [= _ _ <-]. done. Qed.

Lemma prints_raise {A : Type} f : prints (raise (A := A) f) [].
Proof. by intros s a s' out. Qed.

Lemma prints_printf e : prints (printf e) [e].
Proof. intros s a' s' out [= _ _ <-]. done. Qed.

Lemma prints_bind {A B : Type} (m : M A) (k : A -> M B) l1 l2 :
  prints m l1 -> (forall a, prints (k a) l2) -> prints (bind m k) (l1 ++ l2).
Proof.
  intros Hm Hk s b s' out (a & s1 & o1 & o2 & H1 & H2 & ->)%bind_Ok.
  by rewrite (Hm _ _ _ _ H1), (Hk _ _ _ _ _ H2).
Qed.

Lemma silent_bind {A B : Type} (m : M A) (k : A -> M B) :
  prints m [] -> (forall a, prints (k a) []) -> prints (bind m k) [].
Proof. apply (prints_bind m k [] []). Qed.

Ltac silent_prim :=
  let s := fresh in let a := fresh in let s' := fresh in
  let out := fresh in let Heq := fresh in
  intros s a s' out Heq;
  repeat match type of Heq with
         | context [match ?e with _ => _ end] => destruct e
         end;
  by simplify_eq.

Lemma silent_get_train p : prints (get_train p) [].
Proof. unfold get_train. silent_prim. Qed.

Lemma silent_put_train p ft : prints (put_train p ft) [].
Proof. unfold put_train. silent_prim. Qed.

Lemma silent_new_train ft : prints (new_train ft) [].
Proof. unfold new_train. silent_prim. Qed.

Lemma silent_function_train_free p : prints (function_train_free p) [].
Proof. unfold function_train_free. silent_prim. Qed.

Lemma silent_malloc_slots n : prints (malloc_slots n) [].
Proof. unfold malloc_slots. silent_prim. Qed.

Lemma silent_free_slots arr : prints (free_slots arr) [].
Proof. unfold free_slots. silent_prim. Qed.

Lemma silent_slot_get arr i : prints (slot_get arr i) [].
Proof. unfold slot_get. silent_prim. Qed.

Lemma silent_slot_set arr i b : prints (slot_set arr i b) [].
Proof. unfold slot_set. silent_prim. Qed.

Lemma silent_core_at (ft : FunctionTrain GF) i : prints (core_at ft i) [].
Proof. unfold core_at, ret, raise. silent_prim. Qed.

Lemma silent_lift {A : Type} (o : option A) : prints (lift o) [].
Proof. unfold lift, ret, raise. silent_prim. Qed.

Ltac silence :=
  repeat first
    [ apply prints_ret | apply prints_raise
    | apply silent_get_train | apply silent_put_train | apply silent_new_train
    | apply silent_function_train_free | apply silent_malloc_slots
    | apply silent_free_slots | apply silent_slot_get | apply silent_slot_set
    | apply silent_core_at | apply silent_lift
    | apply silent_bind; [|intros ?]
    | match goal with
      | |- prints (if ?c then _ else _) [] => destruct c
      | |- prints (let '(_, _) := ?e in _) [] => destruct e
      | |- prints (match ?e with _ => _ end) [] => destruct e
      end ].

Lemma silent_set_rank p i r : prints (set_rank p i r) [].
Proof. unfold set_rank. silence. Qed.

Lemma silent_set_core p i q : prints (set_core p i q) [].
Proof. unfold set_core. silence. Qed.

Lemma silent_buf_at arr i : prints (buf_at arr i) [].
Proof. unfold buf_at. silence. Qed.

Lemma silent_slot_free arr i : prints (slot_free arr i) [].
Proof. unfold slot_free. silence. Qed.

Ltac silence' :=
  repeat first
    [ apply silent_set_rank | apply silent_set_core | apply silent_buf_at
    | apply silent_slot_free | progress silence ].

Lemma silent_update_right_at a b mats ii :
  prints (update_right_at K a b mats ii) [].
Proof. unfold update_right_at. silence'. Qed.

Lemma silent_all_right_loop a b mats :
  forall fuel ii, prints (all_right_loop K fuel a b mats ii) [].
Proof.
  induction fuel as [|fuel IH]; intros ii; simpl; [apply prints_ret|].
  apply silent_bind; [apply silent_slot_free|intros _].
  apply silent_bind; [apply silent_update_right_at|intros _]. apply IH.
Qed.

Lemma silent_dmrg_update_all_right a b mats :
  prints (dmrg_update_all_right K a b mats) [].
Proof.
  unfold dmrg_update_all_right.
  apply silent_bind; [apply silent_get_train|intros fa]. cbv zeta.
  apply silent_bind; [apply silent_slot_get|intros m].
  apply silent_bind; [destruct m; [apply silent_slot_free|apply prints_ret]|].
  intros _.
  apply silent_bind; [apply silent_slot_set|intros _].
  apply silent_bind; [apply silent_all_right_loop|intros _].
  apply silent_bind; [apply silent_slot_free|intros _].
  apply silent_update_right_at.
Qed.

Lemma silent_sweep_lr_step a b phi psi eps na ii lsize :
  prints (sweep_lr_step K a b phi psi eps na ii lsize) [].
Proof. unfold sweep_lr_step. silence'. Qed.

Lemma silent_sweep_rl_step a b phi psi eps na ii rsize :
  prints (sweep_rl_step K a b phi psi eps na ii rsize) [].
Proof. unfold sweep_rl_step. silence'. Qed.

Lemma silent_sweep_lr_loop a b phi psi eps na :
  forall fuel ii lsize,
  prints (sweep_lr_loop K fuel a b phi psi eps na ii lsize) [].
Proof.
  induction fuel as [|fuel IH]; intros ii lsize; simpl; [apply prints_ret|].
  apply silent_bind; [apply silent_sweep_lr_step|intros ?]. apply IH.
Qed.

Lemma silent_sweep_rl_loop a b phi psi eps na :
  forall fuel ii rsize,
  prints (sweep_rl_loop K fuel a b phi psi eps na ii rsize) [].
Proof.
  induction fuel as [|fuel IH]; intros ii rsize; simpl; [apply prints_ret|].
  apply silent_bind; [apply silent_sweep_rl_step|intros ?]. apply IH.
Qed.

Lemma silent_dmrg_sweep_lr a b phi psi eps :
  prints (dmrg_sweep_lr K a b phi psi eps) [].
Proof.
  unfold dmrg_sweep_lr, function_train_alloc.
  repeat first [ apply silent_sweep_lr_loop
               | apply silent_bind; [|intros ?] | progress silence' ].
Qed.

Lemma silent_dmrg_sweep_rl a b phi psi eps :
  prints (dmrg_sweep_rl K a b phi psi eps) [].
Proof.
  unfold dmrg_sweep_rl, function_train_alloc.
  repeat first [ apply silent_sweep_rl_loop
               | apply silent_bind; [|intros ?] | progress silence' ].
Qed.

Lemma silent_dmrg_sweep_lrl a b phi psi eps :
  prints (dmrg_sweep_lrl K a b phi psi eps) [].
Proof.
  unfold dmrg_sweep_lrl.
  apply silent_bind; [apply silent_dmrg_sweep_lr|intros ?].
  apply silent_bind; [apply silent_dmrg_sweep_rl|intros ?].
  apply silent_bind; [apply silent_function_train_free|intros ?].
  apply prints_ret.
Qed.

Lemma silent_function_train_copy p : prints (function_train_copy p) [].
Proof. unfold function_train_copy. silence. Qed.

Lemma silent_null_loop phi psi :
  forall fuel ii, prints (null_loop fuel phi psi ii) [].
Proof.
  induction fuel as [|fuel IH]; intros ii; simpl; [apply prints_ret|].
  apply silent_bind; [apply silent_slot_set|intros _].
  apply silent_bind; [apply silent_slot_set|intros _]. apply IH.
Qed.

Lemma silent_free_loop phi psi :
  forall fuel ii, prints (free_loop fuel phi psi ii) [].
Proof.
  induction fuel as [|fuel IH]; intros ii; simpl; [apply prints_ret|].
  apply silent_bind; [apply silent_slot_free|intros _].
  apply silent_bind; [apply silent_slot_free|intros _]. apply IH.
Qed.

(** The loop of lines 432-450 prints the lines of its iterations. *)
Lemma approx_loop_prints b phi psi delta max_sweeps verbose eps :
  forall fuel ii ao na,
  0 <= ii -> ii + Z.of_nat fuel <= SIZE_MAX ->
  prints (approx_loop K fuel b phi psi delta max_sweeps verbose eps ii ao na)
    (flat_map (iteration_prints delta max_sweeps verbose)
       (seqZ ii (Z.of_nat fuel))).
Proof.
  induction fuel as [|fuel IH]; intros ii ao na Hii Hfuel.
  - apply prints_ret.
  - rewrite seqZ_cons by lia. cbn [flat_map approx_loop].
    replace (Z.pred (Z.of_nat (S fuel))) with (Z.of_nat fuel) by lia.
    assert (Hnext : size_add ii 1 = Z.succ ii)
      by (unfold size_add; rewrite wrap_small; lia).
    rewrite Hnext. unfold iteration_prints at 1.
    rewrite <- (app_assoc _ _ (flat_map _ _)).
    apply prints_bind; [case_bool_decide; [apply prints_printf|apply prints_ret]|].
    intros _.
    apply (prints_bind _ _ []); [apply silent_function_train_free|intros _].
    apply (prints_bind _ _ []); [apply silent_dmrg_sweep_lrl|intros na'].
    apply (prints_bind _ _ []); [apply silent_function_train_free|intros _].
    apply prints_bind;
      [destruct (dltb dten delta); [apply prints_printf|apply prints_ret]|].
    intros _.
    apply (prints_bind _ _ []); [apply silent_function_train_copy|intros ao'].
    apply IH; lia.
Qed.

(** X7. A call of [dmrg_approx] that returns has printed: when
    [verbose = 2], the three opening lines, the last with the first
    [dim + 1] ranks of the orthogonalised guess; then for each iteration
    [0 .. max_sweeps - 1] in turn the line of the iteration when
    [verbose > 0], and [diff is small] when [10 < delta]: the difference
    is the constant 10, so that line tells nothing of the approximation.
    The sweeps themselves print nothing. *)
Theorem dmrg_approx_prints (s : state) (a : nat) (b : ptr) (delta : D)
    (max_sweeps verbose : Z) (epsilon : D) (fa : FunctionTrain GF)
    (na : ptr) (s' : state) (out : list event) :
  train_of s a = Some fa ->
  0 <= max_sweeps <= SIZE_MAX ->
  dmrg_approx K (Some a) b delta max_sweeps verbose epsilon s = Ok na s' out ->
  out = approx_prints delta max_sweeps verbose
          (take (Z.to_nat (size_add (dim fa) 1))
             (ranks (function_train_orthor K fa))).
Proof.
  intros Hfa Hmax Hrun. unfold dmrg_approx in Hrun.
  apply bind_Ok in Hrun as (fa' & s1 & o1 & o2 & Hget & Hrun & ->).
  rewrite (silent_get_train _ _ _ _ _ Hget).
  apply get_train_Ok in Hget as (a' & [= <-] & Hfa' & ->).
  assert (fa' = fa) as -> by congruence. cbv zeta in Hrun.
  apply bind_Ok in Hrun as (ao & s2 & o3 & o4 & Hnew & Hrun & ->).
  injection Hnew as <- <- <-.
  apply bind_Ok in Hrun as (phi & s3 & o5 & o6 & Hphi & Hrun & ->).
  injection Hphi as <- <- <-.
  apply bind_Ok in Hrun as (psi & s4 & o7 & o8 & Hpsi & Hrun & ->).
  injection Hpsi as <- <- <-.
  apply bind_Ok in Hrun as ([] & s5 & o9 & o10 & Hnull & Hrun & ->).
  rewrite (silent_null_loop _ _ _ _ _ _ _ _ Hnull).
  pose proof (wp_ok _ _ _ _ _ _ _ (keeps_null_loop _ _ _ _ _) Hnull) as Ht5.
  apply bind_Ok in Hrun as ([] & s6 & o11 & o12 & Hall & Hrun & ->).
  rewrite (silent_dmrg_update_all_right _ _ _ _ _ _ _ Hall).
  pose proof (wp_ok _ _ _ _ _ _ _
                (keeps_dmrg_update_all_right K _ _ _ _) Hall) as Ht6.
  rewrite Ht5 in Ht6. cbn [trains] in Ht6.
  apply bind_Ok in Hrun as ([] & s7 & o13 & o14 & Hverb & Hrun & ->).
  apply bind_Ok in Hrun as ([ao' na'] & s8 & o15 & o16 & Hloop & Hrun & ->).
  assert (o16 = []) as ->.
  { revert Hrun. apply silent_bind; [apply silent_function_train_free|].
    intros _. apply silent_bind; [apply silent_free_loop|intros _].
    apply silent_bind; [apply silent_free_slots|intros _].
    apply silent_bind; [apply silent_free_slots|intros _].
    apply prints_ret. }
  assert (o15 = flat_map (iteration_prints delta max_sweeps verbose)
                  (seqZ 0 (Z.of_nat (Z.to_nat max_sweeps)))) as ->.
  { revert Hloop. apply approx_loop_prints; lia. }
  rewrite Z2Nat.id by lia. cbn [app]. rewrite app_nil_r.
  unfold approx_prints. f_equal.
  case_bool_decide as Hv.
  - unfold bind, printf, get_train in Hverb. cbn [trains] in Hverb.
    rewrite Ht6 in Hverb.
    rewrite lookup_app_r, Nat.sub_diag in Hverb by done.
    cbn [lookup list_lookup] in Hverb. by simplify_eq.
  - by injection Hverb as <- <-.
Qed.

End Prints.

Lemma dmrg_approx_prints_run :
  match dmrg_approx Plain.plain (Some 0%nat) (Some 1%nat) 11%float 2 2
          0%float Run.heap0 with
  | Ok _ _ out =>
      out = [PrintVerboseWorks; PrintNumberOfSweeps 2;
             PrintStartingRanks [1; 1; 1; 1];
             PrintIteration 0 1; PrintDiffIsSmall;
             PrintIteration 1 1; PrintDiffIsSmall]
  | Fault _ => False
  end.
Proof.
  destruct (dmrg_approx Plain.plain (Some 0%nat) (Some 1%nat) 11%float 2 2
              0%float Run.heap0) as [na s' out|f] eqn:Hrun.
  - rewrite (dmrg_approx_prints Plain.plain Run.heap0 0 (Some 1%nat)
               11%float 2 2 0%float Run.guess na s' out).
    + vm_compute. reflexivity.
    + reflexivity.
    + unfold SIZE_MAX. lia.
    + exact Hrun.
  - vm_compute in Hrun. discriminate Hrun.
Defined.

(** * What the initialisation of [psi] writes *)

Section InitFrame.

Context {D GF : Type} `{Arith D}.
Variable K : Collab D GF.

#[local] Abbreviation state := (state D GF).
#[local] Abbreviation M := (M D GF).
#[local] Abbreviation anyf := (fun _ : fault => True).

Lemma wp_and {A : Type} F (m : M A) (s : state) (Q1 Q2 : A -> state -> Prop) :
  wp F m s Q1 -> wp F m s Q2 -> wp F m s (fun a s' => Q1 a s' /\ Q2 a s').
Proof. unfold wp. by destruct (m s). Qed.

(** An array none of whose slots is written is as it was. *)
Lemma touches_array_of n (W : nat -> Z -> Prop) (s s' : state) arr :
  touches n W s s' -> (forall i, ~ W arr i) ->
  array_of s' arr = array_of s arr.
Proof.
  intros (_ & _ & Hlen & Hslots) Hw. specialize (Hlen arr).
  destruct (array_of s arr) as [l|] eqn:Hl,
           (array_of s' arr) as [l'|] eqn:Hl'; simplify_eq/=; [|done].
  f_equal. apply list_eq. intros k.
  specialize (Hslots arr (Z.of_nat k) (Hw _)).
  rewrite (slot_of_ld _ _ _ _ Hl), (slot_of_ld _ _ _ _ Hl') in Hslots.
  by rewrite !ld_lookup in Hslots.
Qed.

(** The slot holds a buffer. *)
#[local] Abbreviation is_buf s mats i :=
  (exists l : list D, slot_of s mats i = Some (Some l)).

Lemma update_right_at_fills a b mats ii (s : state) :
  0 <= ii ->
  wp anyf (update_right_at K a b mats ii) s (fun _ s' =>
    is_buf s' mats ii /\
    forall j, j <> ii -> slot_of s' mats j = slot_of s mats j).
Proof.
  intros Hii. apply wp_and.
  - unfold update_right_at. repeat wp_head.
    erewrite slot_of_insert; [|done..].
    rewrite bool_decide_eq_true_2 by done. eauto.
  - eapply wp_weaken;
      [apply (update_right_at_touches K 0 (fun arr i => arr = mats /\ i = ii) s);
       [done|apply touches_refl]| |done].
    simpl. intros _ s' (_ & _ & _ & Hs) j Hj. apply Hs. naive_solver.
Qed.

Lemma slot_free_others mats ii (s : state) :
  wp anyf (slot_free mats ii) s (fun _ s' =>
    forall j, j <> ii -> slot_of s' mats j = slot_of s mats j).
Proof.
  eapply wp_weaken;
    [apply (slot_free_touches 0 (fun arr i => arr = mats /\ i = ii) s);
     [done|apply touches_refl]| |done].
  simpl. intros _ s' (_ & _ & _ & Hs) j Hj. apply Hs. naive_solver.
Qed.

Lemma all_right_loop_fills a b mats top :
  forall fuel ii (s : state),
  Z.of_nat fuel <= ii <= SIZE_MAX ->
  (forall j, ii < j <= top -> is_buf s mats j) ->
  wp anyf (all_right_loop K fuel a b mats ii) s (fun _ s' =>
    forall j, ii - Z.of_nat fuel < j <= top -> is_buf s' mats j).
Proof.
  induction fuel as [|fuel IH]; intros ii s Hii Hs; cbn [all_right_loop].
  - apply wp_ret. intros j Hj. apply Hs. lia.
  - eapply wp_seq; [apply slot_free_others|]. simpl. intros _ s1 H1.
    eapply wp_seq; [apply update_right_at_fills; lia|].
    simpl. intros _ s2 [Hb H2].
    assert (Hprev : size_sub ii 1 = ii - 1)
      by (unfold size_sub; rewrite wrap_small; lia).
    rewrite Hprev.
    eapply wp_weaken; [apply IH| |done].
    + lia.
    + intros j Hj. destruct (decide (j = ii)) as [->|Hne]; [done|].
      rewrite H2, H1 by done. apply Hs. lia.
    + simpl. intros _ s3 H3 j Hj. apply H3. lia.
Qed.

Lemma dmrg_update_all_right_fills a b mats (s : state) fa :
  train_of s a = Some fa ->
  3 <= dim fa <= SIZE_MAX ->
  wp anyf (dmrg_update_all_right K (Some a) b mats) s (fun _ s' =>
    forall j, 0 <= j <= dim fa - 2 -> is_buf s' mats j).
Proof.
  intros Hfa Hd.
  assert (Htop : size_sub (dim fa) 2 = dim fa - 2)
    by (unfold size_sub; rewrite wrap_small; lia).
  assert (Hstart : size_sub (dim fa) 3 = dim fa - 3)
    by (unfold size_sub; rewrite wrap_small; lia).
  unfold dmrg_update_all_right.
  apply wp_bind, wp_get_train. rewrite Hfa, Htop, Hstart.
  eapply wp_seq; [apply wp_any|]. intros m s1 _.
  eapply wp_seq; [apply wp_any|]. intros _ s2 _.
  eapply (wp_seq _ _ _ _ (fun _ s3 => is_buf s3 mats (dim fa - 2))).
  { repeat wp_head. erewrite slot_of_insert; [|done..|lia].
    rewrite bool_decide_eq_true_2 by done. eauto. }
  intros _ s3 H3.
  eapply wp_seq.
  { apply (all_right_loop_fills _ _ _ (dim fa - 2)); [lia|].
    intros j Hj. by replace j with (dim fa - 2) by lia. }
  simpl. intros _ s4 H4.
  rewrite Z2Nat.id in H4 by lia.
  eapply wp_seq; [apply slot_free_others|]. simpl. intros _ s5 H5.
  eapply wp_weaken; [apply update_right_at_fills; lia| |done].
  simpl. intros _ s6 [Hb H6] j Hj.
  destruct (decide (j = 0)) as [->|Hne]; [done|].
  rewrite H6, H5 by done. apply H4. lia.
Qed.

(** X8. For a first argument of dimension [dim >= 3], a call of
    [dmrg_update_all_right] that returns has printed nothing and changed
    no train; no array other than [mats] is changed, [mats] keeps its
    length, and of its slots only [0 .. dim-2] are written: each of them
    holds a buffer afterwards, whatever it held before. *)
Theorem update_all_right_fills_only_mats (s : state) (a : nat) (b : ptr)
    (mats : nat) (fa : FunctionTrain GF) (r : unit) (s' : state)
    (out : list event) :
  train_of s a = Some fa ->
  3 <= dim fa <= SIZE_MAX ->
  dmrg_update_all_right K (Some a) b mats s = Ok r s' out ->
  out = [] /\
  trains s' = trains s /\
  (forall arr, arr <> mats -> array_of s' arr = array_of s arr) /\
  length <$> array_of s' mats = length <$> array_of s mats /\
  (forall i, ~ 0 <= i <= dim fa - 2 ->
     slot_of s' mats i = slot_of s mats i) /\
  (forall i, 0 <= i <= dim fa - 2 ->
     exists l, slot_of s' mats i = Some (Some l)).
Proof.
  intros Hfa Hd Hrun.
  pose proof (wp_ok _ _ _ _ _ _ _
                (dmrg_update_all_right_footprint K s a b mats fa Hfa Hd) Hrun)
    as [Ht _].
  split_and!.
  - revert Hrun. apply silent_dmrg_update_all_right.
  - apply (wp_ok _ _ _ _ _ _ _
             (keeps_dmrg_update_all_right K _ _ _ _) Hrun).
  - intros arr Harr. eapply touches_array_of; [done|]. naive_solver.
  - by destruct Ht as (_ & _ & Hlen & _).
  - intros i Hi. destruct Ht as (_ & _ & _ & Hs). apply Hs. naive_solver.
  - apply (wp_ok _ _ _ _ _ _ _
             (dmrg_update_all_right_fills _ _ _ _ _ Hfa Hd) Hrun).
Qed.

End InitFrame.

Lemma update_all_right_fills_only_mats_run :
  match dmrg_update_all_right Plain.plain (Some 1%nat) (Some 0%nat) 1
          Run.heap1 with
  | Ok _ s' out =>
      out = [] /\ trains s' = trains Run.heap1 /\
      array_of s' 0 = array_of Run.heap1 0 /\
      (exists l, slot_of s' 1 0 = Some (Some l)) /\
      (exists l, slot_of s' 1 1 = Some (Some l))
  | Fault _ => False
  end.
Proof.
  destruct (dmrg_update_all_right Plain.plain (Some 1%nat) (Some 0%nat) 1
              Run.heap1) as [r s' out|f] eqn:Hrun.
  - destruct (update_all_right_fills_only_mats Plain.plain Run.heap1 1
                (Some 0%nat) 1 Run.target r s' out)
      as (Hout & Htrains & Harr & _ & _ & Hbuf).
    + reflexivity.
    + unfold SIZE_MAX. simpl. lia.
    + exact Hrun.
    + split_and!; [exact Hout|exact Htrains|apply Harr; lia
                  |apply Hbuf; simpl; lia|apply Hbuf; simpl; lia].
  - vm_compute in Hrun. discriminate Hrun.
Defined.

(** * The shape of the output of a sweep *)

Section OutputShape.

Context {D GF : Type} `{Arith D}.
Variable K : Collab D GF.

#[local] Abbreviation state := (state D GF).
#[local] Abbreviation M := (M D GF).
#[local] Abbreviation anyf := (fun _ : fault => True).
#[local] Abbreviation keeps_trains := (keeps_trains (D := D) (GF := GF)).

Ltac keeps' :=
  repeat first
    [ apply keeps_ret | apply keeps_raise
    | apply keeps_slot_free | apply keeps_buf_at
    | apply keeps_bind; [|intros ?]
    | apply keeps_slot_get | apply keeps_slot_set | apply keeps_get_train
    | apply keeps_core_at | apply keeps_lift
    | match goal with
      | |- keeps_trains (if ?c then _ else _) => destruct c
      | |- keeps_trains (match ?e with _ => _ end) => destruct e
      end ].

Ltac wp_upto_write :=
  repeat lazymatch goal with
         | |- wp _ (bind (set_rank _ _ _) _) _ _ => fail
         | |- wp _ (bind (set_core _ _ _) _) _ _ => fail
         | _ => wp_head
         end.

(** What a step of the left-to-right sweep does to the trains: rank
    [ii + 1] and core [ii] of the output are stored, core [ii + 1] too at
    the last step, and nothing else. *)
Lemma sweep_lr_step_effect (s : state) (a : nat) b phi psi eps p ii lsize
    (ft fa : FunctionTrain GF) :
  train_of s p = Some ft -> train_of s a = Some fa ->
  wp anyf (sweep_lr_step K (Some a) b phi psi eps (Some p) ii lsize) s
    (fun _ s' =>
       exists rank q rs cs0 cs,
         st (ranks ft) (size_add ii 1) rank = Some rs /\
         st (cores ft) ii (Some q) = Some cs0 /\
         (if bool_decide (size_add ii 1 = size_sub (dim fa) 1)
          then exists q1, st cs0 (size_add ii 1) (Some q1) = Some cs
          else cs = cs0) /\
         trains s' = <[p := Some {| dim := dim ft; ranks := rs;
                                    cores := cs |}]> (trains s)).
Proof.
  intros Hft Hfa.
  pose proof (train_of_lt _ _ _ Hft) as Hlt.
  unfold sweep_lr_step.
  apply wp_bind, wp_get_train. rewrite Hfa.
  wp_upto_write.
  all: apply wp_bind, wp_set_rank; rewrite Hft.
  all: destruct (st (ranks ft) (size_add ii 1) _) as [rs|] eqn:Hrs; [|done].
  all: apply wp_bind, wp_set_core; rewrite train_of_insert by done.
  all: cbn [cores ranks dim].
  all: destruct (st (cores ft) ii _) as [cs0|] eqn:Hcs0; [|done].
  all: cbn [trains arrays]; rewrite list_insert_insert_eq.
  all: apply wp_bind.
  all: case_bool_decide as Hlast.
  all: try (apply wp_bind, wp_lift;
            destruct (scale_vt _ _ _ _) as [vt'|]; [|done];
            apply wp_set_core; rewrite train_of_insert by done;
            cbn [cores ranks dim];
            destruct (st cs0 (size_add ii 1) _) as [cs|] eqn:Hcs; [|done];
            cbn [trains arrays]; rewrite list_insert_insert_eq).
  all: try apply wp_ret.
  all: match goal with
       | |- wp _ ?m ?s0 _ =>
           assert (Hk : keeps_trains m) by keeps';
           eapply wp_weaken; [apply (Hk s0)| |done]
       end.
  all: simpl; intros ? s' Hs'.
  all: eexists _, _, _, _, _.
  all: refine (conj Hrs (conj Hcs0 (conj _ Hs'))).
  all: first [reflexivity | by eauto].
Qed.

(** The same for the right-to-left sweep: rank and core [ii + 1] are
    stored, core [ii] too at the last step, [ii = 0]. *)
Lemma sweep_rl_step_effect (s : state) a b phi psi eps p ii rsize
    (ft : FunctionTrain GF) :
  train_of s p = Some ft ->
  wp anyf (sweep_rl_step K a b phi psi eps (Some p) ii rsize) s
    (fun _ s' =>
       exists rank q rs cs0 cs,
         st (ranks ft) (ii + 1) rank = Some rs /\
         st (cores ft) (ii + 1) (Some q) = Some cs0 /\
         (if bool_decide (ii = 0)
          then exists q0, st cs0 ii (Some q0) = Some cs
          else cs = cs0) /\
         trains s' = <[p := Some {| dim := dim ft; ranks := rs;
                                    cores := cs |}]> (trains s)).
Proof.
  intros Hft.
  pose proof (train_of_lt _ _ _ Hft) as Hlt.
  unfold sweep_rl_step.
  wp_upto_write.
  all: apply wp_bind, wp_set_rank; rewrite Hft.
  all: destruct (st (ranks ft) (ii + 1) _) as [rs|] eqn:Hrs; [|done].
  all: apply wp_bind, wp_set_core; rewrite train_of_insert by done.
  all: cbn [cores ranks dim].
  all: destruct (st (cores ft) (ii + 1) _) as [cs0|] eqn:Hcs0; [|done].
  all: cbn [trains arrays]; rewrite list_insert_insert_eq.
  all: apply wp_bind.
  all: case_bool_decide as Hlast.
  all: try (apply wp_bind, wp_lift;
            destruct (scale_u _ _ _ _) as [u'|]; [|done];
            apply wp_set_core; rewrite train_of_insert by done;
            cbn [cores ranks dim];
            destruct (st cs0 ii _) as [cs|] eqn:Hcs; [|done];
            cbn [trains arrays]; rewrite list_insert_insert_eq).
  all: try apply wp_ret.
  all: match goal with
       | |- wp _ ?m ?s0 _ =>
           assert (Hk : keeps_trains m) by keeps';
           eapply wp_weaken; [apply (Hk s0)| |done]
       end.
  all: simpl; intros ? s' Hs'.
  all: eexists _, _, _, _, _.
  all: refine (conj Hrs (conj Hcs0 (conj _ Hs'))).
  all: first [reflexivity | by eauto].
Qed.

Lemma shaped_mono d (C C' : Z -> Prop) (ft : FunctionTrain GF) :
  (forall j, C' j -> C j) -> shaped d C ft -> shaped d C' ft.
Proof. unfold shaped. naive_solver. Qed.

(** The trains of [s] are those of [s0] but for the train at [p], which
    is shaped. *)
#[local] Abbreviation output_at s0 p d C s :=
  (exists ft : FunctionTrain GF,
     trains s = <[p := Some ft]> (trains s0) /\ shaped d C ft).

Lemma output_at_train (s0 s : state) p d C :
  (p < length (trains s0))%nat -> output_at s0 p d C s ->
  exists ft, train_of s p = Some ft /\ shaped d C ft /\
             forall n, n <> p -> train_of s n = train_of s0 n.
Proof.
  intros Hp (ft & Hs & Hsh). exists ft. unfold train_of. rewrite Hs.
  rewrite list_lookup_insert_eq by done. split_and!; [done..|].
  intros n Hn. by rewrite list_lookup_insert_ne.
Qed.

(** A store of a core keeps the shape and allocates the core. *)
Lemma shaped_set_core d (C : Z -> Prop) (ft : FunctionTrain GF) i q cs :
  shaped d C ft -> st (cores ft) i (Some q) = Some cs ->
  shaped d (fun j => C j \/ j = i)
    {| dim := dim ft; ranks := ranks ft; cores := cs |}.
Proof.
  intros (Hd & Hr & H0 & H1 & Hc & Hset) Hst.
  pose proof (st_Some _ _ _ _ Hst) as [Hi _].
  split_and!; cbn [dim ranks cores]; [done..| |].
  - by rewrite (st_length _ _ _ _ Hst).
  - intros j Hj. unfold core_set. cbn [cores].
    destruct (decide (j = i)) as [->|Hne].
    + rewrite (ld_st _ _ _ _ _ Hst) by lia.
      rewrite bool_decide_eq_true_2 by done. eauto.
    + rewrite (ld_st_ne _ _ _ _ _ Hst) by done.
      destruct Hj as [Hj|Hj]; [by apply Hset|done].
Qed.

(** A store of an interior rank keeps the shape. *)
Lemma shaped_set_rank d (C : Z -> Prop) (ft : FunctionTrain GF) i r rs :
  shaped d C ft -> st (ranks ft) i r = Some rs -> i <> 0 -> i <> d ->
  shaped d C {| dim := dim ft; ranks := rs; cores := cores ft |}.
Proof.
  intros (Hd & Hr & H0 & H1 & Hc & Hset) Hst Hi0 Hid.
  split_and!; cbn [dim ranks cores]; [done| | | |done..].
  - by rewrite (st_length _ _ _ _ Hst).
  - by rewrite (ld_st_ne _ _ _ _ _ Hst).
  - by rewrite (ld_st_ne _ _ _ _ _ Hst).
Qed.

Lemma sweep_lr_step_shape (s0 s : state) (a : nat) b phi psi eps p ii lsize
    (fa : FunctionTrain GF) d (C : Z -> Prop) :
  train_of s0 a = Some fa -> a <> p -> dim fa = d ->
  (p < length (trains s0))%nat ->
  0 <= ii -> ii + 1 <= d - 1 -> d <= SIZE_MAX ->
  output_at s0 p d C s ->
  wp anyf (sweep_lr_step K (Some a) b phi psi eps (Some p) ii lsize) s
    (fun _ s' =>
       output_at s0 p d
         (fun j => C j \/ j = ii \/ (ii + 1 = d - 1 /\ j = ii + 1)) s').
Proof.
  intros Hfa Hap Hd Hp Hii Hlast Hmax Hout.
  destruct (output_at_train _ _ _ _ _ Hp Hout) as (ft & Hft & Hsh & Hoth).
  destruct Hout as (ft0 & Hs & _).
  assert (Hnext : size_add ii 1 = ii + 1)
    by (unfold size_add; rewrite wrap_small; lia).
  assert (Hdm : size_sub (dim fa) 1 = d - 1)
    by (unfold size_sub; rewrite wrap_small; lia).
  eapply wp_weaken;
    [apply (sweep_lr_step_effect s a b phi psi eps p ii lsize ft fa);
     [done|by rewrite Hoth]| |done].
  simpl. rewrite Hnext, Hdm.
  intros _ s' (rank & q & rs & cs0 & cs & Hrs & Hcs0 & Hcs & Hs').
  eexists. split.
  { rewrite Hs', Hs. apply list_insert_insert_eq. }
  pose proof (shaped_set_rank _ _ _ _ _ _ Hsh Hrs ltac:(lia) ltac:(lia))
    as Hsh1.
  pose proof (shaped_set_core d C {| dim := dim ft; ranks := rs;
                                     cores := cores ft |} ii q cs0 Hsh1 Hcs0)
    as Hsh2.
  cbn [dim ranks cores] in Hsh2.
  case_bool_decide as Hl.
  - destruct Hcs as [q1 Hcs].
    pose proof (shaped_set_core _ _ {| dim := dim ft; ranks := rs;
                                       cores := cs0 |} _ _ _ Hsh2 Hcs)
      as Hsh3.
    cbn [dim ranks cores] in Hsh3.
    eapply shaped_mono; [|exact Hsh3]. simpl. naive_solver lia.
  - subst cs. eapply shaped_mono; [|exact Hsh2]. simpl. naive_solver lia.
Qed.

Lemma sweep_rl_step_shape (s0 s : state) a b phi psi eps p ii rsize
    d (C : Z -> Prop) :
  (p < length (trains s0))%nat ->
  0 <= ii -> ii + 1 <= d - 1 ->
  output_at s0 p d C s ->
  wp anyf (sweep_rl_step K a b phi psi eps (Some p) ii rsize) s
    (fun _ s' =>
       output_at s0 p d
         (fun j => C j \/ j = ii + 1 \/ (ii = 0 /\ j = 0)) s').
Proof.
  intros Hp Hii Hlast Hout.
  destruct (output_at_train _ _ _ _ _ Hp Hout) as (ft & Hft & Hsh & Hoth).
  destruct Hout as (ft0 & Hs & _).
  eapply wp_weaken;
    [apply (sweep_rl_step_effect s a b phi psi eps p ii rsize ft); done| |done].
  simpl.
  intros _ s' (rank & q & rs & cs0 & cs & Hrs & Hcs0 & Hcs & Hs').
  eexists. split.
  { rewrite Hs', Hs. apply list_insert_insert_eq. }
  pose proof (shaped_set_rank _ _ _ _ _ _ Hsh Hrs ltac:(lia) ltac:(lia))
    as Hsh1.
  pose proof (shaped_set_core d C {| dim := dim ft; ranks := rs;
                                     cores := cores ft |} (ii + 1) q cs0
                Hsh1 Hcs0)
    as Hsh2.
  cbn [dim ranks cores] in Hsh2.
  case_bool_decide as Hl.
  - destruct Hcs as [q1 Hcs].
    pose proof (shaped_set_core _ _ {| dim := dim ft; ranks := rs;
                                       cores := cs0 |} _ _ _ Hsh2 Hcs)
      as Hsh3.
    cbn [dim ranks cores] in Hsh3.
    eapply shaped_mono; [|exact Hsh3]. simpl. naive_solver lia.
  - subst cs. eapply shaped_mono; [|exact Hsh2]. simpl. naive_solver lia.
Qed.

Lemma sweep_lr_loop_shape (s0 : state) (a : nat) b phi psi eps p
    (fa : FunctionTrain GF) d :
  train_of s0 a = Some fa -> a <> p -> dim fa = d ->
  (p < length (trains s0))%nat -> d <= SIZE_MAX ->
  forall fuel ii lsize (s : state),
  0 <= ii -> ii + Z.of_nat fuel = d - 1 ->
  output_at s0 p d (fun j => 0 <= j < ii) s ->
  (fuel = 0%nat -> output_at s0 p d (fun j => 0 <= j < d) s) ->
  wp anyf (sweep_lr_loop K fuel (Some a) b phi psi eps (Some p) ii lsize) s
    (fun _ s' => output_at s0 p d (fun j => 0 <= j < d) s').
Proof.
  intros Hfa Hap Hd Hp Hmax fuel.
  induction fuel as [|fuel IH]; intros ii lsize s Hii Hfuel Hout Hend.
  - apply wp_ret. by apply Hend.
  - cbn [sweep_lr_loop].
    assert (Hnext : size_add ii 1 = ii + 1)
      by (unfold size_add; rewrite wrap_small; lia).
    rewrite Hnext.
    eapply wp_seq.
    { eapply (sweep_lr_step_shape s0 s a); try done. lia. }
    simpl. intros lsize' s1 (ft1 & Hs1 & Hsh1).
    apply IH; [lia|lia| |].
    + exists ft1. split; [done|].
      eapply shaped_mono; [|exact Hsh1]. simpl. intros j. lia.
    + intros ->. exists ft1. split; [done|].
      eapply shaped_mono; [|exact Hsh1]. simpl. intros j. lia.
Qed.

Lemma sweep_rl_loop_shape (s0 : state) a b phi psi eps p d :
  (p < length (trains s0))%nat ->
  forall fuel ii rsize (s : state),
  Z.of_nat fuel = ii + 1 -> ii + 1 <= d - 1 ->
  output_at s0 p d (fun j => ii + 2 <= j < d) s ->
  (fuel = 0%nat -> output_at s0 p d (fun j => 0 <= j < d) s) ->
  wp anyf (sweep_rl_loop K fuel a b phi psi eps (Some p) ii rsize) s
    (fun _ s' => output_at s0 p d (fun j => 0 <= j < d) s').
Proof.
  intros Hp fuel.
  induction fuel as [|fuel IH]; intros ii rsize s Hfuel Hlast Hout Hend.
  - apply wp_ret. by apply Hend.
  - cbn [sweep_rl_loop].
    eapply wp_seq.
    { eapply (sweep_rl_step_shape s0 s); try done. lia. }
    simpl. intros rsize' s1 (ft1 & Hs1 & Hsh1).
    apply IH; [lia|lia| |].
    + exists ft1. split; [done|].
      eapply shaped_mono; [|exact Hsh1]. simpl. intros j. lia.
    + intros ->. exists ft1. split; [done|].
      eapply shaped_mono; [|exact Hsh1]. simpl. intros j. lia.
Qed.

(** The output train once its boundary ranks are stored (lines 175-177
    and 285-287). *)
Lemma blank_shaped d :
  2 <= d <= 2 ^ 31 ->
  exists rs0 rs,
    st (ranks (blank_train (GF := GF) d)) 0 1 = Some rs0 /\
    st rs0 d 1 = Some rs /\
    shaped d (fun _ => False)
      {| dim := d; ranks := rs; cores := cores (blank_train (GF := GF) d) |}.
Proof.
  intros Hd.
  assert (Hnext : size_add d 1 = d + 1)
    by (unfold size_add; rewrite wrap_small; unfold SIZE_MAX; lia).
  unfold blank_train. cbn [ranks cores]. rewrite Hnext.
  eexists _, _. split; [apply st_is_Some; rewrite length_replicate; lia|].
  split; [apply st_is_Some; rewrite length_insert, length_replicate; lia|].
  split_and!; cbn [dim ranks cores]; [done| | | | |done].
  - rewrite !length_insert, length_replicate. lia.
  - unfold ld. rewrite bool_decide_eq_true_2 by lia.
    rewrite list_lookup_insert_ne by lia.
    apply list_lookup_insert_eq. rewrite length_replicate. lia.
  - unfold ld. rewrite bool_decide_eq_true_2 by lia.
    apply list_lookup_insert_eq. rewrite length_insert, length_replicate. lia.
  - rewrite length_replicate. lia.
Qed.

Lemma output_at_new (s s' : state) (bt : FunctionTrain GF) d C :
  output_at (with_train s bt) (length (trains s)) d C s' ->
  exists ft, trains s' = trains s ++ [Some ft] /\ shaped d C ft.
Proof.
  intros (ft & Hs' & Hsh). exists ft. split; [|done].
  rewrite Hs'. unfold with_train. cbn [trains].
  rewrite insert_app_r_alt, Nat.sub_diag by done. done.
Qed.

Lemma dmrg_sweep_lr_shape (s : state) (a : nat) b phi psi eps
    (fa : FunctionTrain GF) :
  train_of s a = Some fa -> 2 <= dim fa <= 2 ^ 31 ->
  wp anyf (dmrg_sweep_lr K (Some a) b phi psi eps) s (fun na s' =>
    na = Some (length (trains s)) /\
    exists ft, trains s' = trains s ++ [Some ft] /\
               sweep_shape (dim fa) ft).
Proof.
  intros Hfa Hd.
  pose proof (train_of_lt _ _ _ Hfa) as Hlt.
  destruct (blank_shaped _ Hd) as (rs0 & rs & Hrs0 & Hrs & Hsh).
  set (s0 := with_train s (blank_train (dim fa))).
  assert (Hp : (length (trains s) < length (trains s0))%nat)
    by (unfold s0, with_train; cbn [trains]; rewrite length_app; simpl; lia).
  assert (Hfa0 : train_of s0 a = Some fa).
  { unfold train_of, s0, with_train in *. cbn [trains].
    by rewrite lookup_app_l. }
  assert (Hfuel : Z.of_nat (Z.to_nat (size_sub (dim fa) 1)) = dim fa - 1).
  { unfold size_sub. rewrite wrap_small by (unfold SIZE_MAX; lia). lia. }
  unfold dmrg_sweep_lr, function_train_alloc.
  apply wp_bind, wp_get_train. rewrite Hfa.
  apply wp_bind, wp_new_train. fold s0.
  apply wp_bind, wp_set_rank. unfold s0 at 1. rewrite train_of_with_train.
  rewrite Hrs0. fold s0.
  apply wp_bind, wp_get_train. rewrite train_of_insert by done.
  cbn [dim ranks cores].
  apply wp_bind, wp_set_rank. rewrite train_of_insert by done.
  cbn [dim ranks cores].
  change (dim (blank_train (GF := GF) (dim fa))) with (dim fa).
  rewrite Hrs.
  cbn [trains arrays]. rewrite list_insert_insert_eq.
  apply wp_bind, wp_slot_get.
  destruct (array_of _ _) as [l|]; [|done].
  destruct (ld l _) as [p0|]; [|done].
  eapply (wp_seq _ _ _ _ (fun _ s1 =>
            output_at s0 (length (trains s)) (dim fa) (fun _ => False) s1)).
  { destruct p0; repeat wp_head; cbn [trains]; eauto. }
  intros _ s1 Hs1. apply wp_bind.
  eapply wp_weaken;
    [eapply (sweep_lr_loop_shape s0 a b phi psi eps (length (trains s)) fa);
     try done| |done].
  - lia.
  - unfold SIZE_MAX. lia.
  - destruct Hs1 as (ft & ? & ?). exists ft. split; [done|].
    eapply shaped_mono; [|done]. simpl. intros j. lia.
  - intros Hz. lia.
  - simpl. intros _ s2 Hs2. apply wp_ret. split; [done|].
    by apply output_at_new in Hs2.
Qed.

Lemma dmrg_sweep_rl_shape (s : state) (a : nat) b phi psi eps
    (fa : FunctionTrain GF) :
  train_of s a = Some fa -> 2 <= dim fa <= 2 ^ 31 ->
  wp anyf (dmrg_sweep_rl K (Some a) b phi psi eps) s (fun na s' =>
    na = Some (length (trains s)) /\
    exists ft, trains s' = trains s ++ [Some ft] /\
               sweep_shape (dim fa) ft).
Proof.
  intros Hfa Hd.
  pose proof (train_of_lt _ _ _ Hfa) as Hlt.
  destruct (blank_shaped _ Hd) as (rs0 & rs & Hrs0 & Hrs & Hsh).
  destruct (small_dim _ Hd) as [Htop Hint].
  set (s0 := with_train s (blank_train (dim fa))).
  assert (Hp : (length (trains s) < length (trains s0))%nat)
    by (unfold s0, with_train; cbn [trains]; rewrite length_app; simpl; lia).
  unfold dmrg_sweep_rl, function_train_alloc.
  apply wp_bind, wp_get_train. rewrite Hfa.
  apply wp_bind, wp_new_train. fold s0.
  apply wp_bind, wp_set_rank. unfold s0 at 1. rewrite train_of_with_train.
  rewrite Hrs0. fold s0.
  apply wp_bind, wp_get_train. rewrite train_of_insert by done.
  cbn [dim ranks cores].
  apply wp_bind, wp_set_rank. rewrite train_of_insert by done.
  cbn [dim ranks cores].
  change (dim (blank_train (GF := GF) (dim fa))) with (dim fa).
  rewrite Hrs.
  cbn [trains arrays]. rewrite list_insert_insert_eq.
  cbv zeta. rewrite Htop, Hint.
  apply wp_bind, wp_slot_get.
  destruct (array_of _ _) as [l|]; [|done].
  destruct (ld l _) as [p0|]; [|done].
  eapply (wp_seq _ _ _ _ (fun _ s1 =>
            output_at s0 (length (trains s)) (dim fa) (fun _ => False) s1)).
  { destruct p0; repeat wp_head; cbn [trains]; eauto. }
  intros _ s1 Hs1. apply wp_bind.
  eapply wp_weaken;
    [eapply (sweep_rl_loop_shape s0 (Some a) b phi psi eps
               (length (trains s)) (dim fa)); try done| |done].
  - lia.
  - lia.
  - destruct Hs1 as (ft & ? & ?). exists ft. split; [done|].
    eapply shaped_mono; [|done]. simpl. intros j. lia.
  - intros Hz. lia.
  - simpl. intros _ s2 Hs2. apply wp_ret. split; [done|].
    by apply output_at_new in Hs2.
Qed.

(** X9. For a guess of dimension [2 <= dim <= 2^31], a sweep that returns
    has allocated exactly one train, the one it returns: every train that
    existed is as before, and the new one has the dimension of the guess,
    [dim + 1] ranks of which the first and the last are 1, and [dim]
    cores that are all allocated. *)
Theorem sweep_output_shape (s : state) (a : nat) (b : ptr) (phi psi : nat)
    (epsilon : D) (fa : FunctionTrain GF) (na : ptr) (s' : state)
    (out : list event) :
  train_of s a = Some fa ->
  2 <= dim fa <= 2 ^ 31 ->
  dmrg_sweep_lr K (Some a) b phi psi epsilon s = Ok na s' out \/
  dmrg_sweep_rl K (Some a) b phi psi epsilon s = Ok na s' out ->
  na = Some (length (trains s)) /\
  exists ft, trains s' = trains s ++ [Some ft] /\ sweep_shape (dim fa) ft.
Proof.
  intros Hfa Hd [Hrun|Hrun].
  - apply (wp_ok _ _ _ _ _ _ _
             (dmrg_sweep_lr_shape s a b phi psi epsilon fa Hfa Hd) Hrun).
  - apply (wp_ok _ _ _ _ _ _ _
             (dmrg_sweep_rl_shape s a b phi psi epsilon fa Hfa Hd) Hrun).
Qed.

(** The round trip: the train of the left-to-right sweep is freed, the
    one of the right-to-left sweep is returned. *)
Lemma dmrg_sweep_lrl_shape (s : state) (a : nat) b phi psi eps
    (fa : FunctionTrain GF) :
  train_of s a = Some fa -> 2 <= dim fa <= 2 ^ 31 ->
  wp anyf (dmrg_sweep_lrl K (Some a) b phi psi eps) s (fun na s' =>
    na = Some (S (length (trains s))) /\
    exists ft, trains s' = trains s ++ [None; Some ft] /\
               sweep_shape (dim fa) ft).
Proof.
  intros Hfa Hd. unfold dmrg_sweep_lrl.
  eapply wp_seq; [by apply dmrg_sweep_lr_shape|].
  simpl. intros temp s1 (-> & ft1 & Hs1 & Hsh1).
  assert (Hft1 : train_of s1 (length (trains s)) = Some ft1).
  { unfold train_of. rewrite Hs1.
    by rewrite lookup_app_r, Nat.sub_diag by done. }
  assert (Hd1 : dim ft1 = dim fa) by apply Hsh1.
  eapply wp_seq.
  { apply (dmrg_sweep_rl_shape s1 _ b phi psi eps ft1 Hft1).
    by rewrite Hd1. }
  simpl. intros na s2 (-> & ft2 & Hs2 & Hsh2).
  apply wp_bind, wp_function_train_free.
  assert (Hlive : train_of s2 (length (trains s)) = Some ft1).
  { unfold train_of. rewrite Hs2, Hs1.
    rewrite lookup_app_l by (rewrite length_app; simpl; lia).
    by rewrite lookup_app_r, Nat.sub_diag by done. }
  rewrite Hlive. apply wp_ret. cbn [trains].
  split; [rewrite Hs1, length_app; simpl; f_equal; lia|].
  exists ft2. split; [|by rewrite <- Hd1].
  rewrite Hs2, Hs1, <- app_assoc. cbn [app].
  by rewrite insert_app_r_alt, Nat.sub_diag by done.
Qed.

(** X10. For a guess of dimension [2 <= dim <= 2^31], a call of
    [dmrg_sweep_lrl] that returns has allocated two trains and freed the
    first, the output of the left-to-right sweep; it returns the second,
    whose shape is that of a sweep output; every train that existed is as
    before. *)
Theorem lrl_frees_the_intermediate_train (s : state) (a : nat) (b : ptr)
    (phi psi : nat) (epsilon : D) (fa : FunctionTrain GF) (na : ptr)
    (s' : state) (out : list event) :
  train_of s a = Some fa ->
  2 <= dim fa <= 2 ^ 31 ->
  dmrg_sweep_lrl K (Some a) b phi psi epsilon s = Ok na s' out ->
  na = Some (S (length (trains s))) /\
  exists ft, trains s' = trains s ++ [None; Some ft] /\
             sweep_shape (dim fa) ft.
Proof.
  intros Hfa Hd Hrun.
  apply (wp_ok _ _ _ _ _ _ _
           (dmrg_sweep_lrl_shape s a b phi psi epsilon fa Hfa Hd) Hrun).
Qed.

End OutputShape.

Lemma sweep_output_shape_run :
  match dmrg_sweep_lr Plain.plain (Some 0%nat) (Some 1%nat) 0 1 0%float
          Run.heap4 with
  | Ok na s' _ =>
      na = Some 2%nat /\
      exists ft, trains s' = trains Run.heap4 ++ [Some ft] /\
                 sweep_shape 3 ft
  | Fault _ => False
  end.
Proof.
  destruct (dmrg_sweep_lr Plain.plain (Some 0%nat) (Some 1%nat) 0 1 0%float
              Run.heap4) as [na s' out|f] eqn:Hrun.
  - apply (sweep_output_shape Plain.plain Run.heap4 0 (Some 1%nat) 0 1
             0%float Run.unit_guess na s' out).
    + reflexivity.
    + simpl; lia.
    + left. exact Hrun.
  - vm_compute in Hrun. discriminate Hrun.
Defined.

Lemma lrl_frees_the_intermediate_train_run :
  match dmrg_sweep_lrl Plain.plain (Some 0%nat) (Some 1%nat) 0 1 0%float
          Run.heap4 with
  | Ok na s' _ =>
      na = Some 3%nat /\
      exists ft, trains s' = trains Run.heap4 ++ [None; Some ft] /\
                 sweep_shape 3 ft
  | Fault _ => False
  end.
Proof.
  destruct (dmrg_sweep_lrl Plain.plain (Some 0%nat) (Some 1%nat) 0 1 0%float
              Run.heap4) as [na s' out|f] eqn:Hrun.
  - apply (lrl_frees_the_intermediate_train Plain.plain Run.heap4 0
             (Some 1%nat) 0 1 0%float Run.unit_guess na s' out).
    + reflexivity.
    + simpl; lia.
    + exact Hrun.
  - vm_compute in Hrun. discriminate Hrun.
Defined.

(** * The memory of [dmrg_approx] *)

Section Memory.

Context {D GF : Type} `{Arith D}.
Variable K : Collab D GF.

#[local] Abbreviation state := (state D GF).
#[local] Abbreviation M := (M D GF).
#[local] Abbreviation anyf := (fun _ : fault => True).
#[local] Abbreviation keeps_trains := (keeps_trains (D := D) (GF := GF)).

(** ** Arrays *)

Lemma others_kept_refl phi psi (s : state) : others_kept phi psi s s.
Proof. by intros arr. Qed.

Lemma others_kept_trans phi psi (s1 s2 s3 : state) :
  others_kept phi psi s1 s2 -> others_kept phi psi s2 s3 ->
  others_kept phi psi s1 s3.
Proof. intros H12 H23 arr Hp Hq. by rewrite H23, H12. Qed.

Lemma others_kept_arrays phi psi (s s' : state) :
  arrays s' = arrays s -> others_kept phi psi s s'.
Proof. intros Heq arr _ _. unfold array_of. by rewrite Heq. Qed.

Lemma others_kept_insert phi psi (s : state) arr x
    (trs : list (option (FunctionTrain GF))) :
  arr = phi \/ arr = psi ->
  others_kept phi psi s
    {| trains := trs; arrays := <[arr := x]> (arrays s) |}.
Proof.
  intros Harr arr' Hp Hq. unfold array_of. cbn [arrays].
  rewrite list_lookup_insert_ne; [done|]. naive_solver.
Qed.

Section Confined.

Variables phi psi : nat.

#[local] Abbreviation confined := (confined (D := D) (GF := GF) phi psi).


Lemma confined_ret {A : Type} (a : A) : confined (ret a).
Proof. intros s. apply others_kept_refl. Qed.

Lemma confined_raise {A : Type} f : confined (raise (A := A) f).
Proof. by intros s. Qed.

Lemma confined_printf e : confined (printf e).
Proof. intros s. apply others_kept_refl. Qed.

Lemma confined_bind {A B : Type} (m : M A) (k : A -> M B) :
  confined m -> (forall a, confined (k a)) -> confined (bind m k).
Proof.
  intros Hm Hk s. apply wp_bind.
  eapply wp_weaken; [apply Hm| |done]. simpl. intros a s1 Hs1.
  eapply wp_weaken; [apply Hk| |done]. simpl. intros b s2 Hs2.
  by eapply others_kept_trans.
Qed.

(** A routine that leaves every array as it is. *)
Lemma confined_arrays {A : Type} (m : M A) :
  (forall s, wp anyf m s (fun _ s' => arrays s' = arrays s)) -> confined m.
Proof.
  intros Hm s. eapply wp_weaken; [apply Hm| |done].
  simpl. intros _ s'. apply others_kept_arrays.
Qed.

Lemma confined_get_train p : confined (get_train p).
Proof. apply confined_arrays. intros s. by repeat wp_head. Qed.

Lemma confined_new_train ft : confined (new_train ft).
Proof. apply confined_arrays. intros s. by repeat wp_head. Qed.

Lemma confined_function_train_free p : confined (function_train_free p).
Proof. apply confined_arrays. intros s. by repeat wp_head. Qed.

Lemma confined_set_rank p i r : confined (set_rank p i r).
Proof. apply confined_arrays. intros s. by repeat wp_head. Qed.

Lemma confined_set_core p i q : confined (set_core p i q).
Proof. apply confined_arrays. intros s. by repeat wp_head. Qed.

Lemma confined_core_at (ft : FunctionTrain GF) i : confined (core_at ft i).
Proof. apply confined_arrays. intros s. by repeat wp_head. Qed.

Lemma confined_lift {A : Type} (o : option A) : confined (lift o).
Proof. apply confined_arrays. intros s. by repeat wp_head. Qed.

Lemma confined_slot_get arr i : confined (slot_get arr i).
Proof. apply confined_arrays. intros s. by repeat wp_head. Qed.

Lemma confined_buf_at arr i : confined (buf_at arr i).
Proof. apply confined_arrays. intros s. by repeat wp_head. Qed.

Lemma confined_slot_set arr i b :
  arr = phi \/ arr = psi -> confined (slot_set arr i b).
Proof.
  intros Harr s. repeat wp_head. by apply others_kept_insert.
Qed.

Lemma confined_slot_free arr i :
  arr = phi \/ arr = psi -> confined (slot_free arr i).
Proof.
  intros Harr s. repeat wp_head. by apply others_kept_insert.
Qed.

Lemma confined_free_slots arr :
  arr = phi \/ arr = psi -> confined (free_slots arr).
Proof.
  intros Harr s. unfold wp, free_slots.
  destruct (arrays s !! arr) as [[l|]|]; [|done..].
  by apply others_kept_insert.
Qed.

Ltac confine :=
  repeat first
    [ apply confined_ret | apply confined_raise | apply confined_printf
    | apply confined_get_train | apply confined_new_train
    | apply confined_function_train_free
    | apply confined_set_rank | apply confined_set_core
    | apply confined_core_at | apply confined_lift
    | apply confined_slot_get | apply confined_buf_at
    | apply confined_slot_set; auto
    | apply confined_slot_free; auto
    | apply confined_free_slots; auto
    | apply confined_bind; [|intros ?]
    | match goal with
      | |- confined (if ?c then _ else _) => destruct c
      | |- confined (let '(_, _) := ?e in _) => destruct e
      | |- confined (match ?e with _ => _ end) => destruct e
      end ].

Lemma confined_update_right_at a b mats ii :
  mats = phi \/ mats = psi -> confined (update_right_at K a b mats ii).
Proof. intros Hm. unfold update_right_at. confine. Qed.

Lemma confined_all_right_loop a b mats :
  mats = phi \/ mats = psi ->
  forall fuel ii, confined (all_right_loop K fuel a b mats ii).
Proof.
  intros Hm. induction fuel as [|fuel IH]; intros ii; simpl;
    [apply confined_ret|].
  apply confined_bind; [by apply confined_slot_free|intros _].
  apply confined_bind; [by apply confined_update_right_at|intros _].
  apply IH.
Qed.

Lemma confined_dmrg_update_all_right a b mats :
  mats = phi \/ mats = psi -> confined (dmrg_update_all_right K a b mats).
Proof.
  intros Hm. unfold dmrg_update_all_right.
  apply confined_bind; [apply confined_get_train|intros fa]. cbv zeta.
  apply confined_bind; [apply confined_slot_get|intros m].
  apply confined_bind;
    [destruct m; [by apply confined_slot_free|apply confined_ret]|].
  intros _.
  apply confined_bind; [by apply confined_slot_set|intros _].
  apply confined_bind; [by apply confined_all_right_loop|intros _].
  apply confined_bind; [by apply confined_slot_free|intros _].
  by apply confined_update_right_at.
Qed.

Lemma confined_sweep_lr_step a b eps na ii lsize :
  confined (sweep_lr_step K a b phi psi eps na ii lsize).
Proof. unfold sweep_lr_step. confine. Qed.

Lemma confined_sweep_rl_step a b eps na ii rsize :
  confined (sweep_rl_step K a b phi psi eps na ii rsize).
Proof. unfold sweep_rl_step. confine. Qed.

Lemma confined_sweep_lr_loop a b eps na :
  forall fuel ii lsize,
  confined (sweep_lr_loop K fuel a b phi psi eps na ii lsize).
Proof.
  induction fuel as [|fuel IH]; intros ii lsize; simpl; [apply confined_ret|].
  apply confined_bind; [apply confined_sweep_lr_step|intros ?]. apply IH.
Qed.

Lemma confined_sweep_rl_loop a b eps na :
  forall fuel ii rsize,
  confined (sweep_rl_loop K fuel a b phi psi eps na ii rsize).
Proof.
  induction fuel as [|fuel IH]; intros ii rsize; simpl; [apply confined_ret|].
  apply confined_bind; [apply confined_sweep_rl_step|intros ?]. apply IH.
Qed.

Lemma confined_dmrg_sweep_lr a b eps :
  confined (dmrg_sweep_lr K a b phi psi eps).
Proof.
  unfold dmrg_sweep_lr, function_train_alloc.
  repeat first [ apply confined_sweep_lr_loop | progress confine ].
Qed.

Lemma confined_dmrg_sweep_rl a b eps :
  confined (dmrg_sweep_rl K a b phi psi eps).
Proof.
  unfold dmrg_sweep_rl, function_train_alloc.
  repeat first [ apply confined_sweep_rl_loop | progress confine ].
Qed.

Lemma confined_dmrg_sweep_lrl a b eps :
  confined (dmrg_sweep_lrl K a b phi psi eps).
Proof.
  unfold dmrg_sweep_lrl.
  apply confined_bind; [apply confined_dmrg_sweep_lr|intros ?].
  apply confined_bind; [apply confined_dmrg_sweep_rl|intros ?].
  confine.
Qed.

Lemma confined_function_train_copy p : confined (function_train_copy p).
Proof. unfold function_train_copy. confine. Qed.

Lemma confined_null_loop :
  forall fuel ii, confined (null_loop fuel phi psi ii).
Proof.
  induction fuel as [|fuel IH]; intros ii; simpl; [apply confined_ret|].
  apply confined_bind; [apply confined_slot_set; auto|intros _].
  apply confined_bind; [apply confined_slot_set; auto|intros _]. apply IH.
Qed.

Lemma confined_free_loop :
  forall fuel ii, confined (free_loop fuel phi psi ii).
Proof.
  induction fuel as [|fuel IH]; intros ii; simpl; [apply confined_ret|].
  apply confined_bind; [apply confined_slot_free; auto|intros _].
  apply confined_bind; [apply confined_slot_free; auto|intros _]. apply IH.
Qed.

Lemma confined_approx_loop b delta max_sweeps verbose eps :
  forall fuel ii ao na,
  confined (approx_loop K fuel b phi psi delta max_sweeps verbose eps
              ii ao na).
Proof.
  induction fuel as [|fuel IH]; intros ii ao na; cbn [approx_loop];
    [apply confined_ret|].
  apply confined_bind; [confine|intros _].
  apply confined_bind; [confine|intros _].
  apply confined_bind; [apply confined_dmrg_sweep_lrl|intros na'].
  apply confined_bind; [confine|intros _].
  apply confined_bind; [confine|intros _].
  apply confined_bind; [apply confined_function_train_copy|intros ao'].
  apply IH.
Qed.

End Confined.

(** ** Trains *)

Lemma keeps_printf e : keeps_trains (printf e).
Proof. by intros s. Qed.

Lemma keeps_free_slots arr : keeps_trains (free_slots arr).
Proof.
  intros s. unfold wp, free_slots.
  by destruct (arrays s !! arr) as [[l|]|].
Qed.

Lemma keeps_free_loop phi psi :
  forall fuel ii, keeps_trains (free_loop fuel phi psi ii).
Proof.
  induction fuel as [|fuel IH]; intros ii; simpl; [apply keeps_ret|].
  apply keeps_bind; [apply keeps_slot_free|intros _].
  apply keeps_bind; [apply keeps_slot_free|intros _]. apply IH.
Qed.

Lemma train_of_middle (s : state) (pre post : list (option (FunctionTrain GF)))
    o n :
  trains s = pre ++ o :: post -> n = length pre ->
  train_of s n = o.
Proof.
  intros Hs ->. unfold train_of. rewrite Hs.
  rewrite list_lookup_middle by done. by destruct o.
Qed.

Lemma insert_middle {A : Type} (pre post : list A) x y n :
  n = length pre -> <[n := y]> (pre ++ x :: post) = pre ++ y :: post.
Proof.
  intros ->. by rewrite insert_app_r_alt, Nat.sub_diag by done.
Qed.

(** One iteration of the loop of lines 432-450 frees the result of the
    iteration before, the intermediate train of its round trip and its
    guess, and allocates a new result and a copy of it, the next guess. *)
Lemma approx_loop_trains old d b phi psi delta max_sweeps verbose eps :
  2 <= d <= 2 ^ 31 ->
  forall fuel ii ao na (s : state),
  approx_trains old d ao na (trains s) ->
  wp anyf (approx_loop K fuel b phi psi delta max_sweeps verbose eps ii ao na)
    s (fun r s' =>
         approx_trains old d r.1 r.2 (trains s') /\
         (r.2 = None -> na = None /\ fuel = 0%nat)).
Proof.
  intros Hd. induction fuel as [|fuel IH]; intros ii ao na s Hts.
  - apply wp_ret. by simpl.
  - cbn [approx_loop].
    eapply (wp_seq _ _ _ _ (fun _ s1 => s1 = s));
      [by case_bool_decide|intros _ ? ->].
    destruct Hts as (dead & fao & Hdead & Hdim & Hna).
    eapply (wp_seq _ _ _ _ (fun _ s1 =>
              exists dead1, Forall (fun o => o = None) dead1 /\
                trains s1 = (old ++ dead1) ++ [Some fao] /\
                ao = Some (length (old ++ dead1)))).
    { apply wp_function_train_free. destruct na as [n|].
      - destruct Hna as (fna & Hs & -> & -> & Hsh).
        rewrite app_assoc in Hs.
        rewrite (train_of_middle _ _ _ _ _ Hs) by (by rewrite length_app).
        exists (dead ++ [None]). cbn [trains]. split_and!.
        + apply Forall_app. split; [done|]. by constructor.
        + rewrite Hs.
          rewrite (insert_middle (old ++ dead)) by (by rewrite length_app).
          by rewrite !app_assoc, <- !app_assoc.
        + f_equal. rewrite !length_app. simpl. lia.
      - destruct Hna as [Hs ->]. exists dead.
        split_and!; [done| |by rewrite length_app].
        by rewrite Hs, app_assoc. }
    simpl. intros _ s1 (dead1 & Hdead1 & Hs1 & ->).
    set (pre := old ++ dead1) in *.
    assert (Hfao : train_of s1 (length pre) = Some fao)
      by by eapply train_of_middle.
    eapply wp_seq.
    { apply (dmrg_sweep_lrl_shape K s1 _ b phi psi eps fao Hfao).
      by rewrite Hdim. }
    simpl. intros na' s2 (-> & ft & Hs2 & Hsh).
    rewrite Hs1, <- app_assoc in Hs2. cbn [app] in Hs2.
    assert (Hlen1 : length (trains s1) = S (length pre))
      by (rewrite Hs1, length_app; simpl; lia).
    rewrite Hlen1.
    apply wp_bind, wp_function_train_free.
    rewrite (train_of_middle _ _ _ _ _ Hs2) by done.
    eapply (wp_seq _ _ _ _ (fun _ s3 =>
              trains s3 = pre ++ [None; None; Some ft]));
      [destruct (dltb dten delta); cbn [trains]; rewrite Hs2;
       by apply insert_middle|].
    intros _ s3 Hs3.
    unfold function_train_copy.
    apply wp_bind, wp_bind, wp_get_train.
    assert (Hft : train_of s3 (S (S (length pre))) = Some ft).
    { apply (train_of_middle _ (pre ++ [None; None]) []).
      - by rewrite <- app_assoc.
      - rewrite length_app. simpl. lia. }
    rewrite Hft. apply wp_new_train.
    eapply wp_weaken; [apply IH| |done].
    + exists (dead1 ++ [None; None]), ft.
      split_and!.
      * apply Forall_app. split; [done|]. by repeat constructor.
      * rewrite <- Hdim. apply Hsh.
      * exists ft. unfold with_train. cbn [trains]. split_and!.
        -- rewrite Hs3. unfold pre. by rewrite <- !app_assoc.
        -- unfold pre. rewrite !length_app. simpl. lia.
        -- rewrite Hs3. f_equal. rewrite !length_app. simpl. lia.
        -- by rewrite <- Hdim.
    + simpl. intros r s' [Hr Hnone]. split; [done|].
      intros Hr2. by destruct (Hnone Hr2).
Qed.

Lemma keeps_seq {A B : Type} (m : M A) (k : A -> M B) (s : state)
    (Q : B -> state -> Prop) :
  keeps_trains m ->
  (forall a s', trains s' = trains s -> wp anyf (k a) s' Q) ->
  wp anyf (bind m k) s Q.
Proof. intros Hm Hk. eapply wp_seq; [apply Hm|]. apply Hk. Qed.

Lemma confined_seq {A B : Type} phi psi (m : M A) (k : A -> M B)
    (s0 s : state) (Q : B -> state -> Prop) :
  confined phi psi m ->
  others_kept phi psi s0 s ->
  (forall a s', others_kept phi psi s0 s' -> wp anyf (k a) s' Q) ->
  wp anyf (bind m k) s Q.
Proof.
  intros Hm Hs Hk. eapply wp_seq; [apply Hm|].
  simpl. intros a s' Hs'. apply Hk. by eapply others_kept_trans.
Qed.

(** The trains after [dmrg_approx]: those of the caller, then freed
    trains, among them the result when there is one. *)
Lemma dmrg_approx_trains (s : state) (a : nat) b delta max_sweeps verbose eps
    (fa : FunctionTrain GF) :
  train_of s a = Some fa ->
  dim (function_train_orthor K fa) = dim fa ->
  2 <= dim fa <= 2 ^ 31 ->
  wp anyf (dmrg_approx K (Some a) b delta max_sweeps verbose eps) s
    (fun na s' =>
       exists dead, Forall (fun o => o = None) dead /\
         match na with
         | None => trains s' = trains s ++ dead /\ Z.to_nat max_sweeps = 0%nat
         | Some n =>
             exists fna,
               trains s' = (trains s ++ dead) ++ [Some fna; None] /\
               n = length (trains s ++ dead) /\
               sweep_shape (dim fa) fna
         end).
Proof.
  intros Hfa Horth Hd. unfold dmrg_approx.
  apply wp_bind, wp_get_train. rewrite Hfa. cbv zeta.
  apply wp_bind, wp_new_train, wp_bind, wp_malloc_slots.
  apply wp_bind, wp_malloc_slots.
  set (orth := function_train_orthor K fa) in *.
  apply keeps_seq; [apply keeps_null_loop|]. intros _ s1 Hs1.
  apply keeps_seq; [apply keeps_dmrg_update_all_right|]. intros _ s2 Hs2.
  apply keeps_seq.
  { case_bool_decide; [|apply keeps_ret].
    repeat first [ apply keeps_printf | apply keeps_get_train
                 | apply keeps_bind; [|intros ?] ]. }
  intros _ s3 Hs3.
  rewrite Hs2, Hs1 in Hs3. cbn [trains with_train] in Hs3.
  eapply wp_seq.
  { apply (approx_loop_trains (trains s) (dim fa)); [done|].
    exists [], orth. split; [done|]. split; [done|]. split.
    - by rewrite Hs3.
    - f_equal. simpl. lia. }
  simpl. intros [ao' na] s4 [(dead & fao & Hdead & Hdim & Hna) Hnone].
  cbn [fst snd] in *.
  apply wp_bind, wp_function_train_free.
  assert (Hrest : forall (s5 : state) (Q : ptr -> state -> Prop),
            (forall s6, trains s6 = trains s5 -> Q na s6) ->
            wp anyf (free_loop (Z.to_nat (size_sub (dim fa) 1))
                       (length (arrays s)) (S (length (arrays s))) 0 ;;;
                     free_slots (length (arrays s)) ;;;
                     free_slots (S (length (arrays s))) ;;;
                     ret na) s5 Q).
  { intros s5 Q HQ.
    apply keeps_seq; [apply keeps_free_loop|]. intros _ s6 Hs6.
    apply keeps_seq; [apply keeps_free_slots|]. intros _ s7 Hs7.
    apply keeps_seq; [apply keeps_free_slots|]. intros _ s8 Hs8.
    apply wp_ret, HQ. congruence. }
  replace (length (arrays s ++ [Some (replicate
             (Z.to_nat (size_sub (dim fa) 1)) None)]))
    with (S (length (arrays s))) by (rewrite length_app; simpl; lia).
  destruct na as [n|].
  - destruct Hna as (fna & Hs4 & -> & -> & Hsh).
    rewrite (train_of_middle s4 ((trains s ++ dead) ++ [Some fna]) []
               (Some fao)).
    + apply Hrest. intros s6 ->. cbn [trains].
      exists dead. split; [done|]. exists fna. split_and!; [|..|done].
      * replace (trains s4)
          with (((trains s ++ dead) ++ [Some fna]) ++ [Some fao])
          by (by rewrite Hs4, <- !app_assoc).
        rewrite (insert_middle ((trains s ++ dead) ++ [Some fna]) [])
          by (rewrite !length_app; simpl; lia).
        by rewrite <- !app_assoc.
      * by rewrite length_app.
    + rewrite Hs4. by rewrite <- !app_assoc.
    + rewrite !length_app. simpl. lia.
  - destruct Hna as [Hs4 ->].
    rewrite (train_of_middle s4 (trains s ++ dead) [] (Some fao)).
    + apply Hrest. intros s6 ->. cbn [trains].
      exists (dead ++ [None]). split.
      { apply Forall_app. split; [done|]. by constructor. }
      split; [|by destruct (Hnone eq_refl)].
      replace (trains s4) with ((trains s ++ dead) ++ [Some fao])
        by (by rewrite Hs4, <- !app_assoc).
      rewrite (insert_middle (trains s ++ dead) [])
        by (by rewrite length_app).
      by rewrite <- !app_assoc.
    + by rewrite Hs4, app_assoc.
    + by rewrite length_app.
Qed.

Lemma free_slots_frees arr (s : state) :
  wp anyf (free_slots arr) s (fun _ s' =>
    array_of s' arr = None /\
    forall arr', arr' <> arr -> array_of s' arr' = array_of s arr').
Proof.
  unfold wp, free_slots.
  destruct (arrays s !! arr) as [[l|]|] eqn:Hl; [|done..].
  unfold array_of. cbn [arrays]. split.
  - by rewrite list_lookup_insert_eq by by eapply lookup_lt_Some.
  - intros arr' Hne. by rewrite list_lookup_insert_ne.
Qed.

(** The arrays after [dmrg_approx]: those of the caller, as they were,
    and two freed ones. *)
Lemma dmrg_approx_arrays (s : state) a b delta max_sweeps verbose eps :
  wp anyf (dmrg_approx K a b delta max_sweeps verbose eps) s
    (fun _ s' =>
       (forall arr, (arr < length (arrays s))%nat ->
          array_of s' arr = array_of s arr) /\
       (forall arr, (length (arrays s) <= arr)%nat ->
          array_of s' arr = None)).
Proof.
  unfold dmrg_approx.
  apply wp_bind, wp_get_train.
  destruct a as [a|]; [|done]. destruct (train_of s a) as [fa|]; [|done].
  cbv zeta.
  apply wp_bind, wp_new_train, wp_bind, wp_malloc_slots.
  apply wp_bind, wp_malloc_slots.
  cbn [trains arrays with_train].
  replace (length (arrays s ++ [Some (replicate
             (Z.to_nat (size_sub (dim fa) 1)) None)]))
    with (S (length (arrays s))) by (rewrite length_app; simpl; lia).
  set (phi := length (arrays s)). set (psi := S (length (arrays s))).
  set (slots := Some (replicate (Z.to_nat (size_sub (dim fa) 1)) None)).
  match goal with |- wp _ _ ?s0 _ => set (s3 := s0) end.
  assert (Hold : forall arr, (arr < phi)%nat ->
                   array_of s3 arr = array_of s arr).
  { intros arr Harr. unfold array_of, s3. cbn [arrays].
    rewrite <- app_assoc. by rewrite lookup_app_l. }
  assert (Hnew : forall arr, (psi < arr)%nat -> array_of s3 arr = None).
  { intros arr Harr. unfold array_of, s3. cbn [arrays].
    rewrite lookup_ge_None_2; [done|].
    rewrite !length_app. simpl. unfold psi in Harr. lia. }
  eapply (confined_seq phi psi _ _ s3);
    [apply confined_null_loop|apply others_kept_refl|]. intros _ s4 Hs4.
  eapply (confined_seq phi psi _ _ s3);
    [apply confined_dmrg_update_all_right; auto|done|]. intros _ s5 Hs5.
  eapply (confined_seq phi psi _ _ s3); [|done|].
  { case_bool_decide; [|apply confined_ret].
    repeat first [ apply confined_printf | apply confined_get_train
                 | apply confined_bind; [|intros ?] ]. }
  intros _ s6 Hs6.
  eapply (confined_seq phi psi _ _ s3);
    [apply confined_approx_loop|done|]. intros [ao' na] s7 Hs7.
  eapply (confined_seq phi psi _ _ s3);
    [apply confined_function_train_free|done|]. intros _ s8 Hs8.
  eapply (confined_seq phi psi _ _ s3);
    [apply confined_free_loop|done|]. intros _ s9 Hs9.
  eapply wp_seq; [apply free_slots_frees|]. simpl.
  intros _ s10 [Hphi H10].
  eapply wp_seq; [apply free_slots_frees|]. simpl.
  intros _ s11 [Hpsi H11]. apply wp_ret.
  assert (Hkept : forall arr, arr <> phi -> arr <> psi ->
                    array_of s11 arr = array_of s3 arr).
  { intros arr Hp Hq. by rewrite H11, H10, Hs9. }
  split.
  - intros arr Harr. rewrite Hkept by (unfold psi; lia). by apply Hold.
  - intros arr Harr.
    destruct (decide (arr = phi)) as [->|Hp].
    { rewrite H11 by (unfold psi, phi; lia). done. }
    destruct (decide (arr = psi)) as [->|Hq]; [done|].
    rewrite Hkept by done. apply Hnew. unfold psi, phi in *. lia.
Qed.

(** X11. A call of [dmrg_approx] that returns, on a guess of dimension
    [2 <= dim <= 2^31] whose orthogonalisation has the same dimension,
    leaves the heap as it found it but for the guess and its result:
    every train that existed, other than the guess, is as before (the
    guess is handed to [function_train_orthor], and nothing is said of
    what is left of it); every train the call allocated is freed, except
    the one it returns, which has the shape of a sweep output; the result
    is [NULL] only for a budget of zero sweeps; every array that existed
    is as before, and both accumulator arrays are freed. *)
Theorem dmrg_approx_frees_what_it_allocates (s : state) (a : nat) (b : ptr)
    (delta : D) (max_sweeps verbose : Z) (epsilon : D)
    (fa : FunctionTrain GF) (na : ptr) (s' : state) (out : list event) :
  train_of s a = Some fa ->
  dim (function_train_orthor K fa) = dim fa ->
  2 <= dim fa <= 2 ^ 31 ->
  dmrg_approx K (Some a) b delta max_sweeps verbose epsilon s = Ok na s' out ->
  (forall n, (n < length (trains s))%nat -> n <> a ->
     trains s' !! n = trains s !! n) /\
  (forall n, (length (trains s) <= n)%nat -> na <> Some n ->
     train_of s' n = None) /\
  match na with
  | None => max_sweeps <= 0
  | Some n =>
      (length (trains s) <= n)%nat /\
      exists ft, train_of s' n = Some ft /\ sweep_shape (dim fa) ft
  end /\
  (forall arr, (arr < length (arrays s))%nat ->
     array_of s' arr = array_of s arr) /\
  (forall arr, (length (arrays s) <= arr)%nat -> array_of s' arr = None).
Proof.
  intros Hfa Horth Hd Hrun.
  pose proof (wp_ok _ _ _ _ _ _ _
                (dmrg_approx_trains s a b delta max_sweeps verbose epsilon
                   fa Hfa Horth Hd) Hrun) as (dead & Hdead & Hna).
  pose proof (wp_ok _ _ _ _ _ _ _
                (dmrg_approx_arrays s (Some a) b delta max_sweeps verbose
                   epsilon) Hrun) as [Hold Hnew].
  assert (Hnone : forall l n,
            Forall (fun o : option (FunctionTrain GF) => o = None) l ->
            match l !! n with Some (Some ft) => Some ft | _ => None end
            = None).
  { intros l n Hl. destruct (l !! n) as [[ft|]|] eqn:Hn; [|done..].
    by apply (Forall_lookup_1 _ _ _ _ Hl) in Hn. }
  split_and!; [| | |done..].
  - intros n Hn _. destruct na as [m|].
    + destruct Hna as (fna & -> & _).
      by rewrite <- app_assoc, lookup_app_l.
    + destruct Hna as [-> _]. by rewrite lookup_app_l.
  - intros n Hn Hne. unfold train_of. destruct na as [m|].
    + destruct Hna as (fna & -> & -> & _).
      rewrite <- app_assoc, lookup_app_r by done.
      destruct (decide (n - length (trains s) < length dead)%nat).
      * rewrite lookup_app_l by done. by apply Hnone.
      * rewrite lookup_app_r by lia.
        destruct (n - length (trains s) - length dead)%nat
          as [|[|k]] eqn:Hk; [|done..].
        exfalso. apply Hne. f_equal. rewrite length_app. lia.
    + destruct Hna as [-> _]. rewrite lookup_app_r by done.
      by apply Hnone.
  - destruct na as [m|].
    + destruct Hna as (fna & Hs' & -> & Hsh).
      split; [rewrite length_app; lia|]. exists fna. split; [|done].
      by apply (train_of_middle _ _ _ _ _ Hs').
    + destruct Hna as [_ Hz]. lia.
Qed.

End Memory.

Lemma dmrg_approx_frees_what_it_allocates_run :
  match dmrg_approx Plain.plain (Some 0%nat) (Some 1%nat) 0%float 2 0
          0%float Run.heap0 with
  | Ok na s' _ =>
      trains s' !! 1%nat = Some (Some Run.target) /\
      (forall n, (2 <= n)%nat -> na <> Some n -> train_of s' n = None) /\
      (forall arr, array_of s' arr = None)
  | Fault _ => False
  end.
Proof.
  destruct (dmrg_approx Plain.plain (Some 0%nat) (Some 1%nat) 0%float 2 0
              0%float Run.heap0) as [na s' out|f] eqn:Hrun.
  - destruct (dmrg_approx_frees_what_it_allocates Plain.plain Run.heap0 0
                (Some 1%nat) 0%float 2 0 0%float Run.guess na s' out)
      as (Hold & Hfreed & _ & _ & Harr).
    + reflexivity.
    + reflexivity.
    + simpl; lia.
    + exact Hrun.
    + split_and!.
      * apply (Hold 1%nat); [simpl; lia|lia].
      * exact Hfreed.
      * intros arr. apply Harr. simpl; lia.
  - vm_compute in Hrun. discriminate Hrun.
Defined.

(** * The safety of the accumulator arrays *)

Section Safety.

Context {D GF : Type} `{Arith D}.
Variable K : Collab D GF.

#[local] Abbreviation state := (state D GF).
#[local] Abbreviation M := (M D GF).
#[local] Abbreviation anyf := (fun _ : fault => True).
#[local] Abbreviation array_free := (array_free (D := D) (GF := GF)).
#[local] Abbreviation holds := (holds (D := D) (GF := GF)).

(** What holds of the result whatever the faults, and the faults. *)
Lemma wp_and_any {A : Type} F (m : M A) (s : state)
    (Q1 Q2 : A -> state -> Prop) :
  wp anyf m s Q1 -> wp F m s Q2 -> wp F m s (fun a s' => Q1 a s' /\ Q2 a s').
Proof. unfold wp. by destruct (m s). Qed.

(** ** Routines that leave the arrays alone *)

Lemma array_free_ret {A : Type} (a : A) : array_free (ret a).
Proof. by intros s. Qed.

Lemma array_free_printf e : array_free (printf e).
Proof. by intros s. Qed.

Lemma array_free_bind {A B : Type} (m : M A) (k : A -> M B) :
  array_free m -> (forall a, array_free (k a)) -> array_free (bind m k).
Proof.
  intros Hm Hk s. apply wp_bind.
  eapply wp_weaken; [apply Hm| |done]. simpl. intros a s1 Hs1.
  eapply wp_weaken; [apply Hk| |done]. simpl. intros b s2 Hs2. congruence.
Qed.

Lemma array_free_get_train p : array_free (get_train p).
Proof. intros s. by repeat wp_head. Qed.

Lemma array_free_new_train ft : array_free (new_train ft).
Proof. intros s. by repeat wp_head. Qed.

Lemma array_free_function_train_free p : array_free (function_train_free p).
Proof. intros s. by repeat wp_head. Qed.

Lemma array_free_set_rank p i r : array_free (set_rank p i r).
Proof. intros s. by repeat wp_head. Qed.

Lemma array_free_set_core p i q : array_free (set_core p i q).
Proof. intros s. by repeat wp_head. Qed.

Lemma array_free_core_at (ft : FunctionTrain GF) i : array_free (core_at ft i).
Proof. intros s. by repeat wp_head. Qed.

Lemma array_free_lift {A : Type} (o : option A) : array_free (lift o).
Proof. intros s. by repeat wp_head. Qed.

Lemma array_free_function_train_copy p : array_free (function_train_copy p).
Proof.
  unfold function_train_copy.
  apply array_free_bind; [apply array_free_get_train|intros ?].
  apply array_free_new_train.
Qed.

Ltac array_frees :=
  repeat first
    [ apply array_free_ret | apply array_free_printf
    | apply array_free_get_train | apply array_free_new_train
    | apply array_free_function_train_free | apply array_free_function_train_copy
    | apply array_free_set_rank | apply array_free_set_core
    | apply array_free_core_at | apply array_free_lift
    | apply array_free_bind; [|intros ?]
    | match goal with
      | |- array_free (if ?c then _ else _) => destruct c
      end ].

(** A step that leaves the arrays alone, in a sequence. *)
Lemma wp_array_free {A B : Type} (m : M A) (k : A -> M B) (s : state)
    (Q : B -> state -> Prop) :
  array_free m ->
  (forall a s', arrays s' = arrays s -> wp acc_safe (k a) s' Q) ->
  wp acc_safe (bind m k) s Q.
Proof. intros Hm Hk. eapply wp_seq; [apply Hm|]. apply Hk. Qed.

Lemma holds_arrays arr n F (s s' : state) :
  arrays s' = arrays s -> holds arr n F s -> holds arr n F s'.
Proof. unfold holds, array_of. by intros ->. Qed.

Lemma holds_mono arr n (F F' : Z -> Prop) (s : state) :
  (forall i, F' i -> F i) -> holds arr n F s -> holds arr n F' s.
Proof. intros HF (l & ? & ? & Hl). exists l. naive_solver. Qed.

(** ** The accesses to the arrays *)

Lemma wp_buf_at_acc arr n F i (s : state) (Q : list D -> state -> Prop) :
  holds arr n F s -> F i ->
  (forall l, Q l s) ->
  wp acc_safe (buf_at arr i) s Q.
Proof.
  intros (l & Hl & Hn & HF) Hi HQ. apply wp_buf_at. rewrite Hl.
  destruct (HF i Hi) as [buf ->]. apply HQ.
Qed.

Lemma wp_slot_get_acc arr n F i (s : state) (Q : buffer D -> state -> Prop) :
  holds arr n F s -> 0 <= i < n ->
  (forall b, holds arr n (fun j => F j \/ (j = i /\ is_Some b)) s -> Q b s) ->
  wp acc_safe (slot_get arr i) s Q.
Proof.
  intros (l & Hl & Hn & HF) Hi HQ. apply wp_slot_get. rewrite Hl.
  destruct (ld_is_Some l i) as [b Hb]; [lia|]. rewrite Hb. apply HQ.
  exists l. split_and!; [done..|].
  intros j [Hj|[-> [buf ->]]]; [by apply HF|eauto].
Qed.

(** A store: the slot holds what is stored, and the other arrays are as
    they were. *)
Lemma wp_slot_set_acc arr n F i b (s : state) (Q : unit -> state -> Prop) :
  holds arr n F s -> 0 <= i < n ->
  (forall s',
     holds arr n (fun j => (F j /\ j <> i) \/ (j = i /\ is_Some b)) s' ->
     (forall arr' n' F', arr' <> arr -> holds arr' n' F' s ->
        holds arr' n' F' s') ->
     trains s' = trains s ->
     Q tt s') ->
  wp acc_safe (slot_set arr i b) s Q.
Proof.
  intros (l & Hl & Hn & HF) Hi HQ. apply wp_slot_set. rewrite Hl.
  rewrite st_is_Some by lia. apply HQ; [| |done].
  - exists (<[Z.to_nat i := b]> l). split_and!.
    + by eapply array_of_set.
    + by rewrite length_insert.
    + intros j [[Hj Hne]|[-> [buf ->]]].
      * destruct (HF j Hj) as [buf Hbuf]. exists buf.
        rewrite <- Hbuf. eapply ld_st_ne; [apply st_is_Some; lia|done].
      * exists buf. erewrite ld_st; [|apply st_is_Some; lia|lia].
        by rewrite bool_decide_eq_true_2.
  - intros arr' n' F' Hne (l' & Hl' & ?). exists l'. split; [|done].
    unfold array_of in *. cbn [arrays].
    by rewrite list_lookup_insert_ne.
Qed.

Lemma wp_slot_free_acc arr n F i (s : state) (Q : unit -> state -> Prop) :
  holds arr n F s -> 0 <= i < n ->
  (forall s',
     holds arr n (fun j => F j /\ j <> i) s' ->
     (forall arr' n' F', arr' <> arr -> holds arr' n' F' s ->
        holds arr' n' F' s') ->
     trains s' = trains s ->
     Q tt s') ->
  wp acc_safe (slot_free arr i) s Q.
Proof.
  intros Hh Hi HQ. unfold slot_free.
  apply wp_bind. eapply wp_slot_get_acc; [done..|]. intros _ _.
  eapply wp_slot_set_acc; [done..|]. intros s' Hs' Hoth Htr.
  apply HQ; [|done..].
  eapply holds_mono; [|done]. simpl. intros j Hj. by left.
Qed.

Lemma wp_array_free_end {A : Type} (m : M A) (s : state)
    (Q : A -> state -> Prop) :
  array_free m ->
  (forall a s', arrays s' = arrays s -> Q a s') ->
  wp acc_safe m s Q.
Proof. intros Hm HQ. eapply wp_weaken; [apply Hm| |done]. apply HQ. Qed.

Lemma wp_free_slots_acc arr m F (s : state) (Q : unit -> state -> Prop) :
  holds arr m F s ->
  (forall s',
     (forall arr' n' F', arr' <> arr -> holds arr' n' F' s ->
        holds arr' n' F' s') ->
     Q tt s') ->
  wp acc_safe (free_slots arr) s Q.
Proof.
  intros (l & Hl & _) HQ. unfold wp, free_slots.
  unfold array_of in Hl.
  destruct (arrays s !! arr) as [[l0|]|] eqn:Harr; simplify_eq.
  apply HQ. intros arr' n' F' Hne' (l' & Hl' & ?). exists l'. split; [|done].
  unfold array_of in *. cbn [arrays]. by rewrite list_lookup_insert_ne.
Qed.

(** ** The steps of the sweeps *)

Section Steps.

Variables (phi psi : nat) (n : Z).
Hypothesis Hne : phi <> psi.
Hypothesis Hn : n + 1 <= SIZE_MAX.

(** A step that leaves the arrays alone: what is known of them carries
    over. *)
Ltac step_free Hphi Hpsi :=
  eapply wp_array_free;
  [solve [array_frees]
  |let Hs := fresh "Hs" in
   intros ? ? Hs;
   apply (holds_arrays _ _ _ _ _ Hs) in Hphi;
   apply (holds_arrays _ _ _ _ _ Hs) in Hpsi;
   clear Hs].

Ltac step_end Hphi Hpsi :=
  eapply wp_array_free_end;
  [solve [array_frees]
  |let Hs := fresh "Hs" in
   intros ? ? Hs;
   apply (holds_arrays _ _ _ _ _ Hs) in Hphi;
   apply (holds_arrays _ _ _ _ _ Hs) in Hpsi;
   clear Hs].

Lemma sweep_lr_step_acc (s : state) (a : nat) b eps p ii lsize
    (fa : FunctionTrain GF) (Fphi Fpsi : Z -> Prop) :
  train_of s a = Some fa -> dim fa = n + 1 ->
  0 <= ii <= n - 1 ->
  holds phi n Fphi s -> holds psi n Fpsi s -> Fphi ii -> Fpsi ii ->
  wp acc_safe (sweep_lr_step K (Some a) b phi psi eps p ii lsize) s
    (fun _ s' =>
       holds phi n (fun j => Fphi j \/ (j = ii + 1 /\ ii < n - 1)) s' /\
       holds psi n Fpsi s').
Proof.
  intros Hfa Hd Hii Hphi Hpsi Hi1 Hi2.
  assert (Htop : size_sub (dim fa) 2 = n - 1)
    by (unfold size_sub; rewrite wrap_small; lia).
  assert (Hnext : size_add ii 1 = ii + 1)
    by (unfold size_add; rewrite wrap_small; lia).
  unfold sweep_lr_step.
  apply wp_bind, wp_get_train. rewrite Hfa.
  do 4 step_free Hphi Hpsi.
  apply wp_bind. eapply (wp_buf_at_acc psi); [exact Hpsi|exact Hi2|].
  intros psi_ii.
  destruct (qmarray_householder_simple K "LQ" _ _) as [templ L].
  apply wp_bind. eapply (wp_buf_at_acc phi); [exact Hphi|exact Hi1|].
  intros phi_ii.
  destruct (qmarray_householder_simple K "QR" _ _) as [tempr R].
  destruct (truncated_svd K _ _ _ _ _) as [[[rank u] sv] vt].
  do 3 step_free Hphi Hpsi.
  rewrite Htop, Hnext. apply wp_bind. case_bool_decide as Hlt.
  - apply wp_bind. eapply (wp_slot_free_acc phi); [exact Hphi|lia|].
    intros s1 Hphi1 Hoth1 _.
    pose proof (Hoth1 psi _ _ ltac:(done) Hpsi) as Hpsi1.
    apply wp_bind. eapply (wp_buf_at_acc phi); [exact Hphi1|split; [done|lia]|].
    intros phik.
    do 3 step_free Hphi1 Hpsi1.
    eapply (wp_slot_set_acc phi); [exact Hphi1|lia|].
    intros s2 Hphi2 Hoth2 _.
    pose proof (Hoth2 psi _ _ ltac:(done) Hpsi1) as Hpsi2.
    step_end Hphi2 Hpsi2. split; [|done].
    eapply holds_mono; [|exact Hphi2]. simpl.
    intros j [Hj|[-> _]]; [|right; eauto].
    destruct (decide (j = ii + 1)) as [->|?]; [right; eauto|by left].
  - apply wp_ret. step_end Hphi Hpsi. split; [|done].
    eapply holds_mono; [|exact Hphi]. simpl. intros j [Hj|[_ ?]]; [done|lia].
Qed.

Lemma sweep_rl_step_acc (s : state) a b eps p ii rsize
    (Fphi Fpsi : Z -> Prop) :
  0 <= ii <= n - 1 ->
  holds phi n Fphi s -> holds psi n Fpsi s -> Fphi ii -> Fpsi ii ->
  wp acc_safe (sweep_rl_step K a b phi psi eps p ii rsize) s
    (fun _ s' =>
       holds phi n Fphi s' /\
       holds psi n (fun j => Fpsi j \/ (j = ii - 1 /\ ii > 0)) s').
Proof.
  intros Hii Hphi Hpsi Hi1 Hi2.
  unfold sweep_rl_step.
  do 5 step_free Hphi Hpsi.
  apply wp_bind. eapply (wp_buf_at_acc psi); [exact Hpsi|exact Hi2|].
  intros psi_ii.
  destruct (qmarray_householder_simple K "LQ" _ _) as [templ L].
  apply wp_bind. eapply (wp_buf_at_acc phi); [exact Hphi|exact Hi1|].
  intros phi_ii.
  destruct (qmarray_householder_simple K "QR" _ _) as [tempr R].
  destruct (truncated_svd K _ _ _ _ _) as [[[rank u] sv] vt].
  do 3 step_free Hphi Hpsi.
  apply wp_bind. case_bool_decide as Hlt.
  - apply wp_bind. eapply (wp_slot_free_acc psi); [exact Hpsi|lia|].
    intros s1 Hpsi1 Hoth1 _.
    pose proof (Hoth1 phi _ _ Hne Hphi) as Hphi1.
    apply wp_bind.
    eapply (wp_buf_at_acc psi); [exact Hpsi1|split; [done|lia]|].
    intros psik.
    do 3 step_free Hphi1 Hpsi1.
    eapply (wp_slot_set_acc psi); [exact Hpsi1|lia|].
    intros s2 Hpsi2 Hoth2 _.
    pose proof (Hoth2 phi _ _ Hne Hphi1) as Hphi2.
    step_end Hphi2 Hpsi2. split; [done|].
    eapply holds_mono; [|exact Hpsi2]. simpl.
    intros j [Hj|[-> _]]; [|right; eauto].
    destruct (decide (j = ii - 1)) as [->|?]; [right; eauto|by left].
  - apply wp_ret. step_end Hphi Hpsi. split; [done|].
    eapply holds_mono; [|exact Hpsi]. simpl. intros j [Hj|[_ ?]]; [done|lia].
Qed.

(** A step stores into the output train only. *)
Lemma sweep_lr_step_others (s : state) (a p : nat) b eps ii lsize
    (fa : FunctionTrain GF) :
  a <> p -> train_of s a = Some fa -> is_Some (train_of s p) ->
  wp anyf (sweep_lr_step K (Some a) b phi psi eps (Some p) ii lsize) s
    (fun _ s' => train_of s' a = Some fa /\ is_Some (train_of s' p)).
Proof.
  intros Hap Hfa [ft Hft].
  pose proof (train_of_lt _ _ _ Hft) as Hlt.
  eapply wp_weaken; [by apply (sweep_lr_step_effect K s a)| |done].
  simpl. intros _ s' (? & ? & ? & ? & ? & _ & _ & _ & Hs').
  unfold train_of in *. rewrite Hs'.
  rewrite list_lookup_insert_ne by done.
  by rewrite list_lookup_insert_eq.
Qed.

Lemma sweep_rl_step_others (s : state) a (p : nat) b eps ii rsize :
  is_Some (train_of s p) ->
  wp anyf (sweep_rl_step K a b phi psi eps (Some p) ii rsize) s
    (fun _ s' => is_Some (train_of s' p)).
Proof.
  intros [ft Hft].
  pose proof (train_of_lt _ _ _ Hft) as Hlt.
  eapply wp_weaken; [by apply (sweep_rl_step_effect K s a)| |done].
  simpl. intros _ s' (? & ? & ? & ? & ? & _ & _ & _ & Hs').
  unfold train_of. rewrite Hs'. by rewrite list_lookup_insert_eq.
Qed.

(** ** The loops of the sweeps *)

Lemma sweep_lr_loop_acc (a p : nat) b eps (fa : FunctionTrain GF)
    (Fpsi : Z -> Prop) :
  a <> p -> dim fa = n + 1 ->
  (forall j, 0 <= j <= n - 1 -> Fpsi j) ->
  forall fuel ii lsize (s : state) (Fphi : Z -> Prop),
  0 <= ii -> ii + Z.of_nat fuel = n ->
  train_of s a = Some fa -> is_Some (train_of s p) ->
  holds phi n Fphi s -> holds psi n Fpsi s ->
  (forall j, 0 <= j <= ii -> j <= n - 1 -> Fphi j) ->
  wp acc_safe
    (sweep_lr_loop K fuel (Some a) b phi psi eps (Some p) ii lsize) s
    (fun _ s' =>
       holds phi n (fun j => 0 <= j <= n - 1) s' /\ holds psi n Fpsi s').
Proof.
  intros Hap Hd HFpsi fuel.
  induction fuel as [|fuel IH];
    intros ii lsize s Fphi Hii Hfuel Hfa Hp Hphi Hpsi HFphi.
  - apply wp_ret. split; [|done].
    eapply holds_mono; [|exact Hphi]. simpl. intros j Hj. apply HFphi; lia.
  - cbn [sweep_lr_loop].
    assert (Hnext : size_add ii 1 = ii + 1)
      by (unfold size_add; rewrite wrap_small; lia).
    rewrite Hnext.
    eapply wp_seq.
    { apply wp_and_any.
      - by apply (sweep_lr_step_others s a p b eps ii lsize fa).
      - apply (sweep_lr_step_acc s a b eps (Some p) ii lsize fa Fphi Fpsi);
          try done; [lia|apply HFphi; lia|apply HFpsi; lia]. }
    simpl. intros lsize' s1 [[Hfa1 Hp1] [Hphi1 Hpsi1]].
    eapply IH; [lia|lia|done..|].
    simpl. intros j Hj Hjn.
    destruct (decide (j = ii + 1)) as [->|?]; [right; lia|].
    left. apply HFphi; lia.
Qed.

Lemma sweep_rl_loop_acc a (p : nat) b eps (Fphi : Z -> Prop) :
  (forall j, 0 <= j <= n - 1 -> Fphi j) ->
  forall fuel ii rsize (s : state) (Fpsi : Z -> Prop),
  Z.of_nat fuel = ii + 1 -> ii <= n - 1 ->
  is_Some (train_of s p) ->
  holds phi n Fphi s -> holds psi n Fpsi s ->
  (forall j, ii <= j <= n - 1 -> 0 <= j -> Fpsi j) ->
  wp acc_safe
    (sweep_rl_loop K fuel a b phi psi eps (Some p) ii rsize) s
    (fun _ s' =>
       holds phi n Fphi s' /\ holds psi n (fun j => 0 <= j <= n - 1) s').
Proof.
  intros HFphi fuel.
  induction fuel as [|fuel IH];
    intros ii rsize s Fpsi Hfuel Hii Hp Hphi Hpsi HFpsi.
  - apply wp_ret. split; [done|].
    eapply holds_mono; [|exact Hpsi]. simpl. intros j Hj. apply HFpsi; lia.
  - cbn [sweep_rl_loop].
    eapply wp_seq.
    { apply wp_and_any.
      - by apply (sweep_rl_step_others s a p b eps ii rsize).
      - apply (sweep_rl_step_acc s a b eps (Some p) ii rsize Fphi Fpsi);
          try done; [lia|apply HFphi; lia|apply HFpsi; lia]. }
    simpl. intros rsize' s1 [Hp1 [Hphi1 Hpsi1]].
    eapply IH; [lia|lia|done..|].
    simpl. intros j Hj Hj0.
    destruct (decide (j = ii - 1)) as [->|?]; [right; lia|].
    left. apply HFpsi; lia.
Qed.

(** ** The sweeps *)

(** The state of a sweep once its output train is allocated and the
    boundary ranks are stored. *)
Lemma sweep_enters (s : state) (a : nat) (fa : FunctionTrain GF)
    (rest : M ptr) (Fphi Fpsi : Z -> Prop) (Q : ptr -> state -> Prop) :
  train_of s a = Some fa -> dim fa = n + 1 -> 1 <= n -> n + 1 <= 2 ^ 31 ->
  holds phi n Fphi s -> holds psi n Fpsi s ->
  (forall s2 : state,
     train_of s2 a = Some fa ->
     is_Some (train_of s2 (length (trains s))) ->
     a <> length (trains s) ->
     holds phi n Fphi s2 -> holds psi n Fpsi s2 ->
     wp acc_safe rest s2 Q) ->
  wp acc_safe
    (na <- function_train_alloc (dim fa) ;;
     set_rank na 0 1 ;;;
     fna <- get_train na ;;
     set_rank na (dim fna) 1 ;;;
     rest) s Q.
Proof.
  intros Hfa Hd Hn1 Hn2 Hphi Hpsi Hrest.
  pose proof (train_of_lt _ _ _ Hfa) as Hlt.
  destruct (blank_shaped (GF := GF) (dim fa) ltac:(lia))
    as (rs0 & rs & Hrs0 & Hrs & _).
  set (s0 := with_train s (blank_train (dim fa))).
  assert (Hp : (length (trains s) < length (trains s0))%nat)
    by (unfold s0, with_train; cbn [trains]; rewrite length_app; simpl; lia).
  unfold function_train_alloc.
  apply wp_bind, wp_new_train. fold s0.
  apply wp_bind, wp_set_rank. unfold s0 at 1. rewrite train_of_with_train.
  rewrite Hrs0. fold s0.
  apply wp_bind, wp_get_train. rewrite train_of_insert by done.
  cbn [dim ranks cores].
  apply wp_bind, wp_set_rank. rewrite train_of_insert by done.
  cbn [dim ranks cores].
  change (dim (blank_train (GF := GF) (dim fa))) with (dim fa).
  rewrite Hrs.
  cbn [trains arrays]. rewrite list_insert_insert_eq.
  apply Hrest.
  - unfold train_of in *. cbn [trains].
    rewrite list_lookup_insert_ne by lia.
    unfold s0, with_train. cbn [trains]. by rewrite lookup_app_l.
  - unfold train_of. cbn [trains].
    by rewrite list_lookup_insert_eq.
  - lia.
  - by eapply holds_arrays; [|exact Hphi].
  - by eapply holds_arrays; [|exact Hpsi].
Qed.

Lemma dmrg_sweep_lr_acc (s : state) (a : nat) b eps (fa : FunctionTrain GF)
    (Fphi Fpsi : Z -> Prop) :
  train_of s a = Some fa -> dim fa = n + 1 -> 1 <= n -> n + 1 <= 2 ^ 31 ->
  holds phi n Fphi s -> holds psi n Fpsi s ->
  (forall j, 0 <= j <= n - 1 -> Fpsi j) ->
  wp acc_safe (dmrg_sweep_lr K (Some a) b phi psi eps) s
    (fun _ s' =>
       holds phi n (fun j => 0 <= j <= n - 1) s' /\ holds psi n Fpsi s').
Proof.
  intros Hfa Hd Hn1 Hn2 Hphi Hpsi HFpsi.
  assert (Hfuel : Z.of_nat (Z.to_nat (size_sub (dim fa) 1)) = n).
  { unfold size_sub. rewrite wrap_small by (unfold SIZE_MAX; lia). lia. }
  unfold dmrg_sweep_lr.
  apply wp_bind, wp_get_train. rewrite Hfa.
  eapply sweep_enters; [done..|].
  intros s2 Hfa2 Hp2 Hap Hphi2 Hpsi2.
  apply wp_bind. eapply (wp_slot_get_acc phi); [exact Hphi2|lia|].
  intros p0 Hphi3. apply wp_bind.
  assert (Hloop : forall (s3 : state) F,
            train_of s3 a = Some fa ->
            is_Some (train_of s3 (length (trains s))) ->
            holds phi n F s3 -> holds psi n Fpsi s3 -> F 0 ->
            wp acc_safe
              (sweep_lr_loop K (Z.to_nat (size_sub (dim fa) 1)) (Some a) b
                 phi psi eps (Some (length (trains s))) 0 1 ;;;
               ret (Some (length (trains s)))) s3
              (fun _ s' =>
                 holds phi n (fun j => 0 <= j <= n - 1) s' /\
                 holds psi n Fpsi s')).
  { intros s3 F Hfa3 Hp3 Hphi' Hpsi' HF0. apply wp_bind.
    eapply wp_weaken;
      [eapply (sweep_lr_loop_acc a _ b eps fa Fpsi); try done| |done].
    - intros j Hj _. by replace j with 0 by lia.
    - simpl. intros _ s4 Hs4. by apply wp_ret. }
  destruct p0 as [buf|].
  - apply wp_ret. eapply Hloop; [done..|]. right. eauto.
  - eapply (wp_slot_set_acc phi); [exact Hphi3|lia|].
    intros s3 Hphi4 Hoth Htr.
    eapply Hloop; [| |exact Hphi4|by apply Hoth|right; eauto].
    + unfold train_of in *. by rewrite Htr.
    + unfold train_of in *. by rewrite Htr.
Qed.

Lemma dmrg_sweep_rl_acc (s : state) (a : nat) b eps (fa : FunctionTrain GF)
    (Fphi Fpsi : Z -> Prop) :
  train_of s a = Some fa -> dim fa = n + 1 -> 1 <= n -> n + 1 <= 2 ^ 31 ->
  holds phi n Fphi s -> holds psi n Fpsi s ->
  (forall j, 0 <= j <= n - 1 -> Fphi j) ->
  wp acc_safe (dmrg_sweep_rl K (Some a) b phi psi eps) s
    (fun _ s' =>
       holds phi n Fphi s' /\ holds psi n (fun j => 0 <= j <= n - 1) s').
Proof.
  intros Hfa Hd Hn1 Hn2 Hphi Hpsi HFphi.
  destruct (small_dim (dim fa) ltac:(lia)) as [Htop Hint].
  unfold dmrg_sweep_rl.
  apply wp_bind, wp_get_train. rewrite Hfa.
  eapply sweep_enters; [done..|].
  intros s2 Hfa2 Hp2 Hap Hphi2 Hpsi2.
  cbv zeta. rewrite Htop, Hint.
  replace (dim fa - 2) with (n - 1) by lia.
  apply wp_bind. eapply (wp_slot_get_acc psi); [exact Hpsi2|lia|].
  intros p0 Hpsi3. apply wp_bind.
  assert (Hloop : forall (s3 : state) F,
            is_Some (train_of s3 (length (trains s))) ->
            holds phi n Fphi s3 -> holds psi n F s3 -> F (n - 1) ->
            wp acc_safe
              (sweep_rl_loop K (Z.to_nat (n - 1 + 1)) (Some a) b
                 phi psi eps (Some (length (trains s))) (n - 1) 1 ;;;
               ret (Some (length (trains s)))) s3
              (fun _ s' =>
                 holds phi n Fphi s' /\
                 holds psi n (fun j => 0 <= j <= n - 1) s')).
  { intros s3 F Hp3 Hphi' Hpsi' HF0. apply wp_bind.
    eapply wp_weaken;
      [eapply (sweep_rl_loop_acc (Some a) _ b eps Fphi); try done| |done].
    - lia.
    - intros j Hj _. by replace j with (n - 1) by lia.
    - simpl. intros _ s4 Hs4. by apply wp_ret. }
  destruct p0 as [buf|].
  - apply wp_ret. eapply Hloop; [done..|]. right. eauto.
  - eapply (wp_slot_set_acc psi); [exact Hpsi3|lia|].
    intros s3 Hpsi4 Hoth Htr.
    eapply Hloop; [|by apply Hoth|exact Hpsi4|right; eauto].
    unfold train_of in *. by rewrite Htr.
Qed.

Lemma wp_dead_guess_safe {B : Type} (a : ptr)
    (k : FunctionTrain GF -> M B) (s : state) (Q : B -> state -> Prop) :
  (forall m, a = Some m -> train_of s m = None) ->
  wp acc_safe (bind (get_train a) k) s Q.
Proof.
  intros Ha. unfold wp, bind, get_train. destruct a as [m|]; [|done].
  specialize (Ha m eq_refl). unfold train_of in Ha.
  by destruct (trains s !! m) as [[?|]|].
Qed.

Lemma dmrg_sweep_lrl_acc (s : state) (a : ptr) b eps (Fphi Fpsi : Z -> Prop) :
  dim_at s a (n + 1) -> 1 <= n -> n + 1 <= 2 ^ 31 ->
  holds phi n Fphi s -> holds psi n Fpsi s ->
  (forall j, 0 <= j <= n - 1 -> Fpsi j) ->
  wp acc_safe (dmrg_sweep_lrl K a b phi psi eps) s
    (fun na s' =>
       dim_at s' na (n + 1) /\
       holds phi n (fun j => 0 <= j <= n - 1) s' /\
       holds psi n (fun j => 0 <= j <= n - 1) s').
Proof.
  intros Ha Hn1 Hn2 Hphi Hpsi HFpsi.
  destruct (dim_at_dead s a) as [Hdead|(m & fa & -> & Hfa)].
  { unfold dmrg_sweep_lrl, dmrg_sweep_lr. apply wp_bind.
    by apply wp_dead_guess_safe. }
  pose proof (Ha _ _ eq_refl Hfa) as Hd.
  unfold dmrg_sweep_lrl.
  eapply wp_seq.
  { apply wp_and_any.
    - apply (dmrg_sweep_lr_shape K s m b phi psi eps fa Hfa). lia.
    - by apply (dmrg_sweep_lr_acc s m b eps fa Fphi Fpsi). }
  simpl. intros temp s1 [(-> & ft1 & Hs1 & Hsh1) [Hphi1 Hpsi1]].
  assert (Hft1 : train_of s1 (length (trains s)) = Some ft1).
  { unfold train_of. rewrite Hs1.
    by rewrite lookup_app_r, Nat.sub_diag by done. }
  assert (Hd1 : dim ft1 = dim fa) by apply Hsh1.
  eapply wp_seq.
  { apply wp_and_any.
    - apply (dmrg_sweep_rl_shape K s1 _ b phi psi eps ft1 Hft1). lia.
    - apply (dmrg_sweep_rl_acc s1 _ b eps ft1
               (fun j => 0 <= j <= n - 1) Fpsi); try done; lia. }
  simpl. intros na s2 [(-> & ft2 & Hs2 & Hsh2) [Hphi2 Hpsi2]].
  apply wp_bind, wp_function_train_free.
  assert (Hlive : train_of s2 (length (trains s)) = Some ft1).
  { unfold train_of. rewrite Hs2, Hs1.
    rewrite lookup_app_l by (rewrite length_app; simpl; lia).
    by rewrite lookup_app_r, Nat.sub_diag by done. }
  rewrite Hlive. apply wp_ret. split_and!.
  - intros p ft [= <-]. unfold train_of. cbn [trains].
    rewrite list_lookup_insert_ne
      by (rewrite Hs1, length_app; simpl; lia).
    rewrite Hs2, lookup_app_r, Nat.sub_diag by done.
    intros [= <-]. destruct Hsh2 as [-> _]. lia.
  - by eapply holds_arrays; [|exact Hphi2].
  - by eapply holds_arrays; [|exact Hpsi2].
Qed.

(** ** The initialisation of [psi] *)

Lemma update_right_at_acc a b ii (s : state) (Fphi Fpsi : Z -> Prop) :
  holds phi n Fphi s -> holds psi n Fpsi s ->
  0 <= ii -> ii + 1 <= n - 1 -> Fpsi (ii + 1) ->
  wp acc_safe (update_right_at K a b psi ii) s
    (fun _ s' =>
       holds phi n Fphi s' /\ holds psi n (fun j => Fpsi j \/ j = ii) s').
Proof.
  intros Hphi Hpsi Hii Hlast Hnext.
  assert (Hsucc : size_add ii 1 = ii + 1)
    by (unfold size_add; rewrite wrap_small; lia).
  unfold update_right_at. rewrite Hsucc.
  apply wp_bind. eapply (wp_buf_at_acc psi); [exact Hpsi|exact Hnext|].
  intros psikp.
  do 5 step_free Hphi Hpsi.
  eapply (wp_slot_set_acc psi); [exact Hpsi|lia|].
  intros s1 Hpsi1 Hoth _. split; [by apply Hoth|].
  eapply holds_mono; [|exact Hpsi1]. simpl.
  intros j [Hj| ->]; [|right; eauto].
  destruct (decide (j = ii)) as [->|?]; [right; eauto|by left].
Qed.

Lemma all_right_loop_acc a b (Fphi : Z -> Prop) :
  forall fuel ii (s : state) (Fpsi : Z -> Prop),
  Z.of_nat fuel <= ii -> ii + 1 <= n - 1 ->
  holds phi n Fphi s -> holds psi n Fpsi s ->
  (forall j, ii < j <= n - 1 -> Fpsi j) ->
  wp acc_safe (all_right_loop K fuel a b psi ii) s
    (fun _ s' =>
       holds phi n Fphi s' /\
       holds psi n (fun j => ii - Z.of_nat fuel < j <= n - 1) s').
Proof.
  induction fuel as [|fuel IH]; intros ii s Fpsi Hfuel Hii Hphi Hpsi HF.
  - apply wp_ret. split; [done|].
    eapply holds_mono; [|exact Hpsi]. simpl. intros j Hj. apply HF. lia.
  - cbn [all_right_loop].
    assert (Hprev : size_sub ii 1 = ii - 1)
      by (unfold size_sub; rewrite wrap_small; lia).
    rewrite Hprev.
    apply wp_bind. eapply (wp_slot_free_acc psi); [exact Hpsi|lia|].
    intros s1 Hpsi1 Hoth1 _.
    pose proof (Hoth1 phi _ _ Hne Hphi) as Hphi1.
    eapply wp_seq.
    { eapply (update_right_at_acc a b ii s1); [done..|lia|lia|].
      split; [apply HF|]; lia. }
    simpl. intros _ s2 [Hphi2 Hpsi2].
    eapply wp_weaken; [eapply IH; [| |done..|]| |done].
    + lia.
    + lia.
    + simpl. intros j Hj.
      destruct (decide (j = ii)) as [->|?]; [by right|].
      left. split; [apply HF|]; lia.
    + simpl. intros _ s3 [Hphi3 Hpsi3]. split; [done|].
      eapply holds_mono; [|exact Hpsi3]. simpl. intros j Hj. lia.
Qed.

Lemma dmrg_update_all_right_acc (s : state) (a : nat) b
    (fa : FunctionTrain GF) (Fphi Fpsi : Z -> Prop) :
  train_of s a = Some fa -> dim fa = n + 1 -> 2 <= n ->
  holds phi n Fphi s -> holds psi n Fpsi s ->
  wp acc_safe (dmrg_update_all_right K (Some a) b psi) s
    (fun _ s' =>
       holds phi n Fphi s' /\ holds psi n (fun j => 0 <= j <= n - 1) s').
Proof.
  intros Hfa Hd Hn2 Hphi Hpsi.
  assert (Htop : size_sub (dim fa) 2 = n - 1)
    by (unfold size_sub; rewrite wrap_small; lia).
  assert (Hstart : size_sub (dim fa) 3 = n - 2)
    by (unfold size_sub; rewrite wrap_small; lia).
  unfold dmrg_update_all_right.
  apply wp_bind, wp_get_train. rewrite Hfa. cbv zeta. rewrite Htop, Hstart.
  apply wp_bind. eapply (wp_slot_get_acc psi); [exact Hpsi|lia|].
  intros m _.
  assert (Hrest : forall (s1 : state) F,
            holds phi n Fphi s1 -> holds psi n F s1 ->
            wp acc_safe
              (slot_set psi (n - 1) (Some [done_]) ;;;
               all_right_loop K (Z.to_nat (n - 2)) (Some a) b psi (n - 2) ;;;
               slot_free psi 0 ;;;
               update_right_at K (Some a) b psi 0) s1
              (fun _ s' =>
                 holds phi n Fphi s' /\
                 holds psi n (fun j => 0 <= j <= n - 1) s')).
  { intros s1 F Hphi1 Hpsi1.
    apply wp_bind. eapply (wp_slot_set_acc psi); [exact Hpsi1|lia|].
    intros s2 Hpsi2 Hoth2 _.
    pose proof (Hoth2 phi _ _ Hne Hphi1) as Hphi2.
    eapply wp_seq.
    { eapply (all_right_loop_acc (Some a) b Fphi (Z.to_nat (n - 2)) (n - 2));
        [lia|lia|done..|].
      simpl. intros j Hj. right. split; [lia|eauto]. }
    simpl. intros _ s3 [Hphi3 Hpsi3].
    apply wp_bind. eapply (wp_slot_free_acc psi); [exact Hpsi3|lia|].
    intros s4 Hpsi4 Hoth4 _.
    pose proof (Hoth4 phi _ _ Hne Hphi3) as Hphi4.
    eapply wp_weaken;
      [eapply (update_right_at_acc (Some a) b 0 s4); [done..|lia|lia|]| |done].
    - simpl. lia.
    - simpl. intros _ s5 [Hphi5 Hpsi5]. split; [done|].
      eapply holds_mono; [|exact Hpsi5]. simpl. intros j Hj.
      destruct (decide (j = 0)) as [->|?]; [by right|].
      left. lia. }
  apply wp_bind. destruct m as [buf|].
  - eapply (wp_slot_free_acc psi); [exact Hpsi|lia|].
    intros s1 Hpsi1 Hoth1 _. eapply Hrest; [by apply Hoth1|exact Hpsi1].
  - apply wp_ret. by eapply Hrest.
Qed.

(** ** The loops of [dmrg_approx] *)

Lemma null_loop_acc :
  forall fuel ii (s : state) (Fphi Fpsi : Z -> Prop),
  0 <= ii -> ii + Z.of_nat fuel <= n ->
  holds phi n Fphi s -> holds psi n Fpsi s ->
  wp acc_safe (null_loop fuel phi psi ii) s
    (fun _ s' =>
       holds phi n (fun _ => False) s' /\ holds psi n (fun _ => False) s').
Proof.
  induction fuel as [|fuel IH]; intros ii s Fphi Fpsi Hii Hfuel Hphi Hpsi.
  - apply wp_ret. split; (eapply holds_mono; [|done]); done.
  - cbn [null_loop].
    assert (Hnext : size_add ii 1 = ii + 1)
      by (unfold size_add; rewrite wrap_small; lia).
    rewrite Hnext.
    apply wp_bind. eapply (wp_slot_set_acc phi); [exact Hphi|lia|].
    intros s1 Hphi1 Hoth1 _.
    pose proof (Hoth1 psi _ _ ltac:(done) Hpsi) as Hpsi1.
    apply wp_bind. eapply (wp_slot_set_acc psi); [exact Hpsi1|lia|].
    intros s2 Hpsi2 Hoth2 _.
    pose proof (Hoth2 phi _ _ Hne Hphi1) as Hphi2.
    eapply IH; [lia|lia|done..].
Qed.

Lemma free_loop_acc :
  forall fuel ii (s : state) (Fphi Fpsi : Z -> Prop),
  0 <= ii -> ii + Z.of_nat fuel <= n ->
  holds phi n Fphi s -> holds psi n Fpsi s ->
  wp acc_safe (free_loop fuel phi psi ii) s
    (fun _ s' =>
       holds phi n (fun _ => False) s' /\ holds psi n (fun _ => False) s').
Proof.
  induction fuel as [|fuel IH]; intros ii s Fphi Fpsi Hii Hfuel Hphi Hpsi.
  - apply wp_ret. split; (eapply holds_mono; [|done]); done.
  - cbn [free_loop].
    assert (Hnext : size_add ii 1 = ii + 1)
      by (unfold size_add; rewrite wrap_small; lia).
    rewrite Hnext.
    apply wp_bind. eapply (wp_slot_free_acc phi); [exact Hphi|lia|].
    intros s1 Hphi1 Hoth1 _.
    pose proof (Hoth1 psi _ _ ltac:(done) Hpsi) as Hpsi1.
    apply wp_bind. eapply (wp_slot_free_acc psi); [exact Hpsi1|lia|].
    intros s2 Hpsi2 Hoth2 _.
    pose proof (Hoth2 phi _ _ Hne Hphi1) as Hphi2.
    eapply IH; [lia|lia|done..].
Qed.

Lemma approx_loop_acc b delta max_sweeps verbose eps :
  1 <= n -> n + 1 <= 2 ^ 31 ->
  forall fuel ii ao na (s : state) (Fphi : Z -> Prop),
  dim_at s ao (n + 1) ->
  holds phi n Fphi s -> holds psi n (fun j => 0 <= j <= n - 1) s ->
  wp acc_safe
    (approx_loop K fuel b phi psi delta max_sweeps verbose eps ii ao na) s
    (fun _ s' =>
       holds phi n (fun _ => False) s' /\ holds psi n (fun _ => False) s').
Proof.
  intros Hn1 Hn2.
  induction fuel as [|fuel IH]; intros ii ao na s Fphi Hao Hphi Hpsi.
  - apply wp_ret. split; (eapply holds_mono; [|done]); done.
  - cbn [approx_loop].
    eapply (wp_seq _ _ _ _ (fun _ s' => s' = s));
      [by case_bool_decide|]. intros _ ? ->.
    eapply wp_seq.
    { apply wp_and_any; [apply function_train_free_frame|].
      apply array_free_function_train_free. }
    simpl. intros _ s1 [[_ Hkeep1] Harr1].
    apply (holds_arrays _ _ _ _ _ Harr1) in Hphi, Hpsi.
    eapply wp_seq.
    { apply (dmrg_sweep_lrl_acc s1 ao b eps Fphi (fun j => 0 <= j <= n - 1));
        [by apply Hkeep1|done..]. }
    simpl. intros na' s2 (Hna' & Hphi2 & Hpsi2).
    eapply wp_seq.
    { apply wp_and_any; [apply function_train_free_frame|].
      apply array_free_function_train_free. }
    simpl. intros _ s3 [[_ Hkeep3] Harr3].
    apply (holds_arrays _ _ _ _ _ Harr3) in Hphi2, Hpsi2.
    eapply (wp_seq _ _ _ _ (fun _ s' => s' = s3));
      [by destruct (dltb dten delta)|]. intros _ ? ->.
    eapply wp_seq.
    { apply wp_and_any; [apply function_train_copy_frame|].
      apply array_free_function_train_copy. }
    simpl. intros ao' s4 [[_ Hkeep4] Harr4].
    apply (holds_arrays _ _ _ _ _ Harr4) in Hphi2, Hpsi2.
    eapply IH; [|done..]. apply Hkeep4. by apply Hkeep3.
Qed.

End Steps.

(** X12. On a guess and a target of the same dimension
    [3 <= dim <= 2^31], the guess keeping its dimension when
    orthogonalised, [dmrg_approx] uses its accumulator arrays safely from
    the allocation to the release: no index of [phi] or [psi] is outside
    [0 .. dim-2], no slot handed to a kernel is [NULL], and neither array
    is used once freed.  Whatever stops the call is another fault: of a
    kernel reading beyond a buffer, or of a train. *)
Theorem dmrg_approx_accumulators_are_safe (s : state) (a b : nat)
    (delta : D) (max_sweeps verbose : Z) (epsilon : D)
    (fa fb : FunctionTrain GF) (f : fault) :
  train_of s a = Some fa -> train_of s b = Some fb ->
  dim fb = dim fa ->
  dim (function_train_orthor K fa) = dim fa ->
  3 <= dim fa <= 2 ^ 31 ->
  dmrg_approx K (Some a) (Some b) delta max_sweeps verbose epsilon s
  = Fault f ->
  acc_safe f.
Proof.
  intros Hfa Hfb Hdb Horth Hd Hrun.
  cut (wp acc_safe
         (dmrg_approx K (Some a) (Some b) delta max_sweeps verbose epsilon)
         s (fun _ _ => True)).
  { unfold wp. by rewrite Hrun. }
  clear Hrun.
  set (n := dim fa - 1).
  set (phi := length (arrays s)). set (psi := S (length (arrays s))).
  assert (Hne : phi <> psi) by (unfold phi, psi; lia).
  assert (Hn : n + 1 <= SIZE_MAX) by (unfold n, SIZE_MAX; lia).
  assert (Hfuel : Z.to_nat (size_sub (dim fa) 1) = Z.to_nat n).
  { unfold size_sub. rewrite wrap_small by (unfold SIZE_MAX; lia). done. }
  pose proof (train_of_lt _ _ _ Hfb) as Hblt.
  unfold dmrg_approx.
  apply wp_bind, wp_get_train. rewrite Hfa. cbv zeta.
  apply wp_bind, wp_new_train, wp_bind, wp_malloc_slots.
  apply wp_bind, wp_malloc_slots.
  cbn [trains arrays with_train].
  replace (length (arrays s ++ [Some (replicate
             (Z.to_nat (size_sub (dim fa) 1)) None)]))
    with psi by (rewrite length_app; simpl; unfold psi; lia).
  fold phi. rewrite Hfuel.
  set (orth := function_train_orthor K fa) in *.
  match goal with |- wp _ _ ?s0 _ => set (s3 := s0) end.
  assert (Hphi : holds phi n (fun _ => False) s3).
  { exists (replicate (Z.to_nat n) None). split_and!; [|rewrite length_replicate; lia|done].
    unfold array_of, s3. cbn [arrays].
    rewrite lookup_app_l by (rewrite length_app; simpl; unfold phi; lia).
    by rewrite lookup_app_r, Nat.sub_diag by done. }
  assert (Hpsi : holds psi n (fun _ => False) s3).
  { exists (replicate (Z.to_nat n) None). split_and!; [|rewrite length_replicate; lia|done].
    unfold array_of, s3. cbn [arrays].
    rewrite lookup_app_r by (rewrite length_app; simpl; unfold psi; lia).
    rewrite length_app. cbn [length].
    by replace (psi - (length (arrays s) + 1))%nat with 0%nat
      by (unfold psi; lia). }
  assert (Hb3 : forall s' : state, trains s' = trains s3 ->
                  train_of s' b = Some fb).
  { intros s' Hs'. unfold train_of in *. rewrite Hs'. unfold s3.
    cbn [trains]. by rewrite lookup_app_l. }
  assert (Hao3 : forall s' : state, trains s' = trains s3 ->
                   dim_at s' (Some (length (trains s))) (n + 1)).
  { intros s' Hs' m ft [= <-]. unfold train_of. rewrite Hs'. unfold s3.
    cbn [trains]. rewrite lookup_app_r, Nat.sub_diag by done.
    intros [= <-]. unfold n. lia. }
  eapply wp_seq.
  { apply wp_and_any; [apply keeps_null_loop|].
    eapply (null_loop_acc phi psi n Hne Hn); [done|lia|done..]. }
  simpl. intros _ s4 [Htr4 [Hphi4 Hpsi4]].
  eapply wp_seq.
  { apply wp_and_any; [apply keeps_dmrg_update_all_right|].
    eapply (dmrg_update_all_right_acc phi psi n Hne Hn s4 b _ fb);
      [by apply Hb3|unfold n; lia|unfold n; lia|done..]. }
  simpl. intros _ s5 [Htr5 [Hphi5 Hpsi5]].
  rewrite Htr4 in Htr5.
  eapply wp_seq.
  { apply wp_and_any.
    - assert (Hk : keeps_trains (D := D) (GF := GF)
                     (if bool_decide (verbose = 2)
                      then printf PrintVerboseWorks ;;;
                           printf (PrintNumberOfSweeps max_sweeps) ;;;
                           fao <- get_train (Some (length (trains s))) ;;
                           printf (PrintStartingRanks
                                     (take (Z.to_nat (size_add (dim fa) 1))
                                        (ranks fao)))
                      else ret tt)).
      { case_bool_decide; [|apply keeps_ret].
        repeat first [ apply keeps_printf | apply keeps_get_train
                     | apply keeps_bind; [|intros ?] ]. }
      apply Hk.
    - assert (Hk : array_free
                     (if bool_decide (verbose = 2)
                      then printf PrintVerboseWorks ;;;
                           printf (PrintNumberOfSweeps max_sweeps) ;;;
                           fao <- get_train (Some (length (trains s))) ;;
                           printf (PrintStartingRanks
                                     (take (Z.to_nat (size_add (dim fa) 1))
                                        (ranks fao)))
                      else ret tt)) by array_frees.
      apply Hk. }
  simpl. intros _ s6 [Htr6 Harr6].
  rewrite Htr5 in Htr6.
  apply (holds_arrays _ _ _ _ _ Harr6) in Hphi5, Hpsi5.
  eapply wp_seq.
  { eapply (approx_loop_acc phi psi n Hne Hn);
      [unfold n; lia|unfold n; lia|by apply Hao3|done..]. }
  simpl. intros [ao' na] s7 [Hphi7 Hpsi7].
  eapply wp_array_free; [apply array_free_function_train_free|].
  intros _ s8 Harr8.
  apply (holds_arrays _ _ _ _ _ Harr8) in Hphi7, Hpsi7.
  eapply wp_seq.
  { eapply (free_loop_acc phi psi n Hne Hn); [done|lia|done..]. }
  simpl. intros _ s9 [Hphi9 Hpsi9].
  apply wp_bind. eapply wp_free_slots_acc; [exact Hphi9|].
  intros s10 Hoth10.
  pose proof (Hoth10 psi _ _ ltac:(done) Hpsi9) as Hpsi10.
  apply wp_bind. eapply wp_free_slots_acc; [exact Hpsi10|].
  intros s11 _. by apply wp_ret.
Qed.

End Safety.

Lemma dmrg_approx_accumulators_are_safe_run :
  exists f,
    dmrg_approx Plain.plain (Some 0%nat) (Some 1%nat) 0%float 2 0 0%float
      XRun.heap_holed = Fault f /\
    acc_safe f.
Proof.
  exists (NullCore 1). split; [vm_compute; reflexivity|].
  apply (dmrg_approx_accumulators_are_safe Plain.plain XRun.heap_holed 0 1
           0%float 2 0 0%float XRun.holed_guess Run.unit_target).
  - reflexivity.
  - reflexivity.
  - reflexivity.
  - reflexivity.
  - simpl; lia.
  - vm_compute. reflexivity.
Defined.

(** * A sweep as a chain of two-core updates *)

Section ChainOfUpdates.

Context {D GF : Type} `{Arith D}.
Variable K : Collab D GF.

#[local] Abbreviation state := (state D GF).
#[local] Abbreviation M := (M D GF).
#[local] Abbreviation anyf := (fun _ : fault => True).

Lemma two_core_update_eq (Phi_k Psi_k : list D) (cb cb1 : Qmarray GF)
    lsize rsize eps templ L tempr R rank u sv vt :
  0 <= ncols cb < 2 ^ 31 ->
  qmarray_householder_simple K "LQ" (qmam K cb1 Psi_k rsize)
    (calloc_double (size_mul (ncols cb) (ncols cb))) = (templ, L) ->
  qmarray_householder_simple K "QR" (mqma K Phi_k cb lsize)
    (calloc_double (size_mul (ncols cb) (ncols cb))) = (tempr, R) ->
  truncated_svd K (ncols cb) (ncols cb) (ncols cb)
    (cblas_dgemm K (ncols cb) (ncols cb) (ncols cb) done_ R (ncols cb) L
       (ncols cb) dzero (calloc_double (size_mul (ncols cb) (ncols cb)))
       (ncols cb)) eps = (rank, u, sv, vt) ->
  two_core_update K Phi_k Psi_k cb cb1 lsize rsize eps
  = {| block_Qr := tempr; factor_R := R; block_Ql := templ; factor_L := L;
       new_rank := rank; svd_U := u; svd_S := sv; svd_Vt := vt |}.
Proof.
  intros Hdt Hlq Hqr Hsvd.
  assert (Hzeros : calloc_double (size_mul (ncols cb) (ncols cb))
                   = replicate (Z.to_nat (ncols cb * ncols cb)) dzero).
  { unfold calloc_double, size_mul. rewrite wrap_small; [done|].
    unfold SIZE_MAX. nia. }
  rewrite Hzeros in Hlq, Hqr, Hsvd.
  unfold two_core_update. cbv zeta. rewrite Hlq, Hqr. cbn [fst snd].
  by rewrite Hsvd.
Qed.

(** What a step of the left-to-right sweep stores, when it returns. *)
Lemma sweep_lr_step_exact (s : state) (a b p : nat) phi psi eps ii lsize
    (fa fb ft : FunctionTrain GF) :
  train_of s a = Some fa -> train_of s b = Some fb ->
  train_of s p = Some ft ->
  2 <= dim fa <= 2 ^ 31 -> 0 <= ii <= dim fa - 2 ->
  (forall k c, ld (cores fb) k = Some (Some c) -> 0 <= ncols c < 2 ^ 31) ->
  wp anyf (sweep_lr_step K (Some a) (Some b) phi psi eps (Some p) ii lsize) s
    (fun r s' =>
       r = cols_at fa ii /\
       exists cb cb1 Phi_k Psi_k,
         ld (cores fb) ii = Some (Some cb) /\
         ld (cores fb) (ii + 1) = Some (Some cb1) /\
         slot_of s phi ii = Some (Some Phi_k) /\
         slot_of s psi ii = Some (Some Psi_k) /\
         let last := bool_decide (ii = dim fa - 2) in
         let rsize := if last then 1 else cols_at fa (ii + 1) in
         let t := two_core_update K Phi_k Psi_k cb cb1 lsize rsize eps in
         exists rs cs0 cs,
           st (ranks ft) (ii + 1) (new_rank t) = Some rs /\
           st (cores ft) ii (Some (new_core_k K t)) = Some cs0 /\
           train_of s' p = Some {| dim := dim ft; ranks := rs; cores := cs |} /\
           if last
           then exists vt',
                  scale_vt (ncols cb) (new_rank t) (svd_S t) (svd_Vt t)
                  = Some vt' /\
                  st cs0 (ii + 1)
                    (Some (mqma K vt' (block_Ql t) (new_rank t))) = Some cs
           else cs = cs0 /\
                exists val,
                  dmrg_update_left K Phi_k (new_core_k K t) cb = Some val /\
                  slot_of s' phi (ii + 1) = Some (Some val)).
Proof.
  intros Hfa Hfb Hft Hd Hii Hcols.
  assert (Hs2 : size_sub (dim fa) 2 = dim fa - 2)
    by (unfold size_sub; apply wrap_small; unfold SIZE_MAX; lia).
  assert (Hs1 : size_sub (dim fa) 1 = dim fa - 1)
    by (unfold size_sub; apply wrap_small; unfold SIZE_MAX; lia).
  assert (Hi1 : size_add ii 1 = ii + 1)
    by (unfold size_add; apply wrap_small; unfold SIZE_MAX; lia).
  assert (Hlt : (p < length (trains s))%nat) by by eapply train_of_lt.
  unfold sweep_lr_step.
  wp_head. wp_head. rewrite Hfa.
  wp_head. wp_head. rewrite Hfb.
  wp_head. wp_head.
  destruct (ld (cores fb) ii) as [[cb|]|] eqn:Hcb; [|done..]. cbv zeta.
  pose proof (Hcols _ _ Hcb) as Hdt.
  rewrite Hs2, Hs1, Hi1.
  set (last := bool_decide (ii = dim fa - 2)).
  set (rsize := if last then 1 else cols_at fa (ii + 1)).
  eapply (wp_seq _ _ _ _ (fun r s' => r = rsize /\ s' = s)).
  { unfold rsize, last, cols_at. case_bool_decide; [done|].
    wp_head. wp_head.
    by destruct (ld (cores fa) (ii + 1)) as [[ca1|]|]. }
  intros ? ? [-> ->].
  wp_head. wp_head.
  destruct (ld (cores fb) (ii + 1)) as [[cb1|]|] eqn:Hcb1; [|done..].
  wp_head. wp_head. unfold slot_of.
  destruct (array_of s psi) as [apsi|] eqn:Hapsi; [|done].
  destruct (ld apsi ii) as [[Psi_k|]|] eqn:Hpsi; [|done..].
  destruct (qmarray_householder_simple K "LQ" _ _) as [templ L] eqn:Hlq.
  wp_head. wp_head.
  destruct (array_of s phi) as [aphi|] eqn:Haphi; [|done].
  destruct (ld aphi ii) as [[Phi_k|]|] eqn:Hphi; [|done..].
  destruct (qmarray_householder_simple K "QR" _ _) as [tempr R] eqn:Hqr.
  destruct (truncated_svd K _ _ _ _ _) as [[[rank u] sv] vt] eqn:Hsplit.
  pose proof (two_core_update_eq _ _ _ _ _ _ _ _ _ _ _ _ _ _ _
                Hdt Hlq Hqr Hsplit) as Ht.
  unfold array_of in Hapsi, Haphi.
  destruct (arrays s !! psi) as [[?|]|] eqn:Hapsi'; simplify_eq.
  destruct (arrays s !! phi) as [[?|]|] eqn:Haphi'; simplify_eq.
  wp_head. wp_head. rewrite Hft.
  destruct (st (ranks ft) (ii + 1) rank) as [rs|] eqn:Hrs; [|done].
  wp_head. wp_head. rewrite train_of_insert by done.
  cbn [cores ranks dim].
  destruct (st (cores ft) ii _) as [cs0|] eqn:Hcs0; [|done].
  cbn [trains arrays]. rewrite list_insert_insert_eq.
  assert (Hcase : last = bool_decide (ii + 1 = dim fa - 1)).
  { unfold last. apply bool_decide_ext. lia. }
  assert (Hcase' : negb last = bool_decide (ii < dim fa - 2)).
  { unfold last. rewrite <- bool_decide_not. apply bool_decide_ext. lia. }
  rewrite <- Hcase, <- Hcase'. clear Hcase Hcase'.
  assert (Hret : forall (s1 : state) (Q : Z -> state -> Prop),
            Q (cols_at fa ii) s1 ->
            wp anyf (ca <- core_at fa ii ;; ret (ncols ca)) s1 Q).
  { intros s1 Q HQ. wp_head. wp_head. unfold cols_at in HQ.
    by destruct (ld (cores fa) ii) as [[ca|]|]. }
  destruct last eqn:Hlast; cbn [negb].
  - wp_head. wp_head. wp_head.
    destruct (scale_vt (ncols cb) rank sv vt) as [vt'|] eqn:Hvt; [|done].
    wp_head. rewrite train_of_insert by done. cbn [cores ranks dim].
    destruct (st cs0 (ii + 1) _) as [cs|] eqn:Hcs; [|done].
    cbn [trains arrays]. rewrite list_insert_insert_eq.
    wp_head. wp_head. apply Hret. split; [done|].
    exists cb, cb1, Phi_k, Psi_k.
    split_and!; [done..|]. cbv zeta. rewrite Ht.
    cbn [new_rank svd_S svd_Vt block_Ql]. unfold new_core_k.
    cbn [new_rank svd_U block_Qr].
    exists rs, cs0, cs. split_and!; [done..|by rewrite train_of_insert|].
    eauto.
  - wp_head. wp_head. wp_head. wp_head. wp_head.
    unfold array_of. cbn [arrays]. rewrite Haphi'.
    destruct (st _ (ii + 1) None) as [aphi1|] eqn:Hfree; [|done].
    wp_head. wp_head. unfold array_of. cbn [arrays].
    rewrite list_lookup_insert_eq by by eapply lookup_lt_Some.
    erewrite ld_st_ne; [|exact Hfree|lia]. rewrite Hphi.
    wp_head. wp_head. cbn [trains arrays].
    rewrite train_of_insert by done.
    wp_head. wp_head. cbn [cores].
    erewrite ld_st; [|exact Hcs0|lia].
    rewrite bool_decide_eq_true_2 by done.
    wp_head. wp_head.
    destruct (dmrg_update_left K Phi_k _ cb) as [val|] eqn:Hval; [|done].
    wp_head. unfold array_of. cbn [arrays].
    rewrite list_lookup_insert_eq by by eapply lookup_lt_Some.
    destruct (st aphi1 (ii + 1) (Some val)) as [aphi2|] eqn:Hset; [|done].
    apply Hret. split; [done|].
    exists cb, cb1, Phi_k, Psi_k.
    split_and!; [done..|]. cbv zeta. rewrite Ht.
    cbn [new_rank svd_S svd_Vt block_Ql]. unfold new_core_k.
    cbn [new_rank svd_U block_Qr].
    exists rs, cs0, cs0. split; [done|]. split; [done|].
    split; [cbn [trains]; by rewrite train_of_insert|].
    split; [done|]. exists val. split; [done|].
    cbn [arrays]. rewrite list_insert_insert_eq.
    rewrite list_lookup_insert_eq by by eapply lookup_lt_Some.
    erewrite ld_st; [|exact Hset|lia].
    by rewrite bool_decide_eq_true_2.
Qed.

(** What a step of the left-to-right sweep leaves alone. *)
Lemma sweep_lr_step_frame (s : state) (a p : nat) b phi psi eps ii lsize
    (fa ft : FunctionTrain GF) :
  train_of s a = Some fa -> train_of s p = Some ft -> phi <> psi ->
  0 <= ii -> ii + 1 <= SIZE_MAX ->
  wp anyf (sweep_lr_step K (Some a) b phi psi eps (Some p) ii lsize) s
    (fun _ s' =>
       (forall q, q <> p -> train_of s' q = train_of s q) /\
       (forall k, slot_of s' psi k = slot_of s psi k) /\
       (forall k, k <> ii + 1 -> slot_of s' phi k = slot_of s phi k)).
Proof.
  intros Hfa Hft Hne Hii Hmax.
  pose proof (train_of_lt _ _ _ Hft) as Hlt.
  assert (Hi1 : size_add ii 1 = ii + 1)
    by (unfold size_add; apply wrap_small; lia).
  apply wp_and.
  - eapply wp_weaken; [by apply (sweep_lr_step_effect K s a)| |done].
    simpl. intros _ s' (? & ? & ? & ? & ? & _ & _ & _ & Hs') q Hq.
    unfold train_of. rewrite Hs'. by rewrite list_lookup_insert_ne.
  - eapply wp_weaken;
      [apply (sweep_lr_step_touches K 0
                (fun arr i => arr = phi /\ i = ii + 1) s);
       [lia| |apply touches_refl]| |done].
    + intros ? _ _. by rewrite Hi1.
    + simpl. intros _ s' (_ & _ & _ & Hs). split.
      * intros k. apply Hs. naive_solver.
      * intros k Hk. apply Hs. naive_solver.
Qed.

Lemma sweep_lr_loop_chain (s0 : state) (a b p : nat) phi psi eps
    (fa fb : FunctionTrain GF) :
  p <> a -> p <> b -> phi <> psi ->
  2 <= dim fa <= 2 ^ 31 ->
  (forall k c, ld (cores fb) k = Some (Some c) -> 0 <= ncols c < 2 ^ 31) ->
  forall fuel ii lsize (s : state) (ft : FunctionTrain GF),
  0 <= ii -> ii + Z.of_nat fuel = dim fa - 1 ->
  train_of s a = Some fa -> train_of s b = Some fb ->
  train_of s p = Some ft ->
  lsize = (if bool_decide (ii = 0) then 1 else cols_at fa (ii - 1)) ->
  (forall k, slot_of s psi k = slot_of s0 psi k) ->
  (forall k, 0 <= k < ii -> lr_updated K s0 s phi psi eps fa fb ft k) ->
  wp anyf
    (sweep_lr_loop K fuel (Some a) (Some b) phi psi eps (Some p) ii lsize) s
    (fun _ s' =>
       exists ft', train_of s' p = Some ft' /\
         forall k, 0 <= k <= dim fa - 2 ->
           lr_updated K s0 s' phi psi eps fa fb ft' k).
Proof.
  intros Hpa Hpb Hne Hd Hcols fuel.
  induction fuel as [|fuel IH];
    intros ii lsize s ft Hii Hfuel Hfa Hfb Hft Hlsize Hpsi Hdone.
  - apply wp_ret. exists ft. split; [done|]. intros k Hk. apply Hdone. lia.
  - cbn [sweep_lr_loop].
    assert (Hi1 : size_add ii 1 = ii + 1)
      by (unfold size_add; apply wrap_small; unfold SIZE_MAX; lia).
    rewrite Hi1.
    eapply wp_seq.
    { apply wp_and.
      - apply (sweep_lr_step_frame s a p (Some b) phi psi eps ii lsize fa ft);
          [done..|lia|unfold SIZE_MAX; lia].
      - apply (sweep_lr_step_exact s a b p phi psi eps ii lsize fa fb ft);
          [done..|lia|done]. }
    simpl.
    intros r s1 [(Htr & Hpsi1 & Hphi1)
                 (-> & cb & cb1 & Phi_k & Psi_k & Hcb & Hcb1 & HPhi & HPsi
                  & rs & cs0 & cs & Hrs & Hcs0 & Hft1 & Hlast)].
    cbv zeta in *.
    set (t := two_core_update K Phi_k Psi_k cb cb1 lsize
                (if bool_decide (ii = dim fa - 2) then 1
                 else cols_at fa (ii + 1)) eps) in *.
    assert (Hcs : forall k, k < ii ->
              ld cs k = ld (cores ft) k).
    { intros k Hk. case_bool_decide.
      - destruct Hlast as (vt' & _ & Hcs).
        rewrite (ld_st_ne _ _ _ _ _ Hcs) by lia.
        by rewrite (ld_st_ne _ _ _ _ _ Hcs0) by lia.
      - destruct Hlast as [-> _].
        by rewrite (ld_st_ne _ _ _ _ _ Hcs0) by lia. }
    assert (Hcsi : ld cs ii = Some (Some (new_core_k K t))).
    { assert (ld cs0 ii = Some (Some (new_core_k K t))) as Hcs0i.
      { rewrite (ld_st _ _ _ _ _ Hcs0) by lia.
        by rewrite bool_decide_eq_true_2. }
      case_bool_decide.
      - destruct Hlast as (vt' & _ & Hcs').
        by rewrite (ld_st_ne _ _ _ _ _ Hcs') by lia.
      - by destruct Hlast as [-> _]. }
    eapply IH; [lia|lia| | |exact Hft1| | |].
    + by rewrite Htr.
    + by rewrite Htr.
    + rewrite bool_decide_eq_false_2 by lia. f_equal. lia.
    + intros k. by rewrite Hpsi1.
    + intros k Hk. destruct (decide (k = ii)) as [->|Hki].
      * exists cb, cb1, Phi_k, Psi_k.
        split_and!; [done|done|by rewrite Hphi1 by lia
                    |by rewrite <- Hpsi|].
        cbv zeta. rewrite <- Hlsize. fold t. cbn [ranks cores].
        split; [|split; [done|]].
        { rewrite (ld_st _ _ _ _ _ Hrs) by lia.
          by rewrite bool_decide_eq_true_2. }
        case_bool_decide.
        -- destruct Hlast as (vt' & Hvt' & Hcs').
           exists vt'. split; [done|].
           rewrite (ld_st _ _ _ _ _ Hcs') by lia.
           by rewrite bool_decide_eq_true_2.
        -- by destruct Hlast as [_ Hval].
      * destruct (Hdone k ltac:(lia))
          as (cb' & cb1' & Phi' & Psi' & Hcb' & Hcb1' & HPhi' & HPsi'
              & Hrank' & Hcore' & Hlast').
        exists cb', cb1', Phi', Psi'.
        split_and!; [done|done|by rewrite Hphi1 by lia|done|].
        cbv zeta in *. cbn [ranks cores].
        split; [|split].
        { by rewrite (ld_st_ne _ _ _ _ _ Hrs) by lia. }
        { by rewrite Hcs by lia. }
        rewrite bool_decide_eq_false_2 in Hlast' |- * by lia.
        destruct Hlast' as (val & Hval & Hslot).
        exists val. split; [done|]. by rewrite Hphi1 by lia.
Qed.

(** The state of a sweep once its output train is allocated and the
    boundary ranks are stored: a new train, and nothing else changed. *)
Lemma sweep_enters_any (s : state) (a : nat) (fa : FunctionTrain GF)
    (rest : M ptr) (Q : ptr -> state -> Prop) :
  train_of s a = Some fa -> 2 <= dim fa <= 2 ^ 31 ->
  (forall (s2 : state) ft0,
     arrays s2 = arrays s ->
     (forall q, (q < length (trains s))%nat ->
        train_of s2 q = train_of s q) ->
     train_of s2 (length (trains s)) = Some ft0 ->
     wp anyf rest s2 Q) ->
  wp anyf
    (na <- function_train_alloc (dim fa) ;;
     set_rank na 0 1 ;;;
     fna <- get_train na ;;
     set_rank na (dim fna) 1 ;;;
     rest) s Q.
Proof.
  intros Hfa Hd Hrest.
  destruct (blank_shaped (GF := GF) (dim fa) Hd)
    as (rs0 & rs & Hrs0 & Hrs & _).
  set (s0 := with_train s (blank_train (dim fa))).
  assert (Hp : (length (trains s) < length (trains s0))%nat)
    by (unfold s0, with_train; cbn [trains]; rewrite length_app; simpl; lia).
  unfold function_train_alloc.
  apply wp_bind, wp_new_train. fold s0.
  apply wp_bind, wp_set_rank. unfold s0 at 1. rewrite train_of_with_train.
  rewrite Hrs0. fold s0.
  apply wp_bind, wp_get_train. rewrite train_of_insert by done.
  cbn [dim ranks cores].
  apply wp_bind, wp_set_rank. rewrite train_of_insert by done.
  cbn [dim ranks cores].
  change (dim (blank_train (GF := GF) (dim fa))) with (dim fa).
  rewrite Hrs.
  cbn [trains arrays]. rewrite list_insert_insert_eq.
  eapply Hrest.
  - done.
  - intros q Hq. unfold train_of. cbn [trains].
    rewrite list_lookup_insert_ne by lia.
    unfold s0, with_train. cbn [trains]. by rewrite lookup_app_l.
  - unfold train_of. cbn [trains].
    by rewrite list_lookup_insert_eq.
Qed.

Lemma dmrg_sweep_lr_chain (s : state) (a b : nat) phi psi eps
    (fa fb : FunctionTrain GF) :
  train_of s a = Some fa -> train_of s b = Some fb ->
  2 <= dim fa <= 2 ^ 31 -> phi <> psi ->
  (forall k c, ld (cores fb) k = Some (Some c) -> 0 <= ncols c < 2 ^ 31) ->
  wp anyf (dmrg_sweep_lr K (Some a) (Some b) phi psi eps) s (fun na s' =>
    exists ft, na ≫= train_of s' = Some ft /\
      forall k, 0 <= k <= dim fa - 2 ->
        lr_updated K s s' phi psi eps fa fb ft k).
Proof.
  intros Hfa Hfb Hd Hne Hcols.
  pose proof (train_of_lt _ _ _ Hfa) as Hlta.
  pose proof (train_of_lt _ _ _ Hfb) as Hltb.
  assert (Hfuel : Z.of_nat (Z.to_nat (size_sub (dim fa) 1)) = dim fa - 1).
  { unfold size_sub. rewrite wrap_small by (unfold SIZE_MAX; lia). lia. }
  unfold dmrg_sweep_lr.
  apply wp_bind, wp_get_train. rewrite Hfa.
  eapply sweep_enters_any; [done..|].
  intros s2 ft0 Harr Hold Hnew.
  assert (Hloop : forall s3 : state,
            trains s3 = trains s2 ->
            (forall k, slot_of s3 psi k = slot_of s psi k) ->
            wp anyf
              (sweep_lr_loop K (Z.to_nat (size_sub (dim fa) 1)) (Some a)
                 (Some b) phi psi eps (Some (length (trains s))) 0 1 ;;;
               ret (Some (length (trains s)))) s3
              (fun na s' =>
                 exists ft, na ≫= train_of s' = Some ft /\
                   forall k, 0 <= k <= dim fa - 2 ->
                     lr_updated K s s' phi psi eps fa fb ft k)).
  { intros s3 Htr Hpsi.
    assert (Htrain : forall q, train_of s3 q = train_of s2 q)
      by (intros q; unfold train_of; by rewrite Htr).
    apply wp_bind.
    eapply wp_weaken;
      [eapply (sweep_lr_loop_chain s a b (length (trains s)) phi psi eps
                 fa fb); try done| |done].
    - lia.
    - lia.
    - by rewrite Htrain, Hold.
    - by rewrite Htrain, Hold.
    - by rewrite Htrain.
    - intros k Hk. lia.
    - simpl. intros _ s4 (ft & Hft & Hall). apply wp_ret.
      exists ft. split; [done|]. apply Hall. }
  wp_head. wp_head.
  destruct (array_of s2 phi) as [aphi|] eqn:Haphi; [|done].
  destruct (ld aphi 0) as [p0|] eqn:Hp0; [|done].
  apply wp_bind. destruct p0 as [buf|].
  - apply wp_ret. apply Hloop; [done|].
    intros k. unfold slot_of. by rewrite Harr.
  - apply wp_slot_set. rewrite Haphi.
    destruct (st aphi 0 (Some [done_])) as [aphi'|] eqn:Hset; [|done].
    apply Hloop; [done|].
    intros k. unfold slot_of. cbn [arrays].
    rewrite list_lookup_insert_ne by done. by rewrite Harr.
Qed.


(** ** Right to left *)

(** What a step of the right-to-left sweep stores, when it returns. *)
Lemma sweep_rl_step_exact (s : state) (a b p : nat) phi psi eps ii rsize
    (fa fb ft : FunctionTrain GF) :
  train_of s a = Some fa -> train_of s b = Some fb ->
  train_of s p = Some ft ->
  0 <= ii ->
  (forall k c, ld (cores fb) k = Some (Some c) -> 0 <= ncols c < 2 ^ 31) ->
  wp anyf (sweep_rl_step K (Some a) (Some b) phi psi eps (Some p) ii rsize) s
    (fun r s' =>
       r = rows_at fa (ii + 1) /\
       exists cb cb1 Phi_k Psi_k,
         ld (cores fb) ii = Some (Some cb) /\
         ld (cores fb) (ii + 1) = Some (Some cb1) /\
         slot_of s phi ii = Some (Some Phi_k) /\
         slot_of s psi ii = Some (Some Psi_k) /\
         let first := bool_decide (ii = 0) in
         let lsize := if first then 1 else cols_at fa (ii - 1) in
         let t := two_core_update K Phi_k Psi_k cb cb1 lsize rsize eps in
         exists rs cs0 cs,
           st (ranks ft) (ii + 1) (new_rank t) = Some rs /\
           st (cores ft) (ii + 1) (Some (rl_core_k1 K t)) = Some cs0 /\
           train_of s' p = Some {| dim := dim ft; ranks := rs; cores := cs |} /\
           if first
           then exists u',
                  scale_u (ncols cb) (new_rank t) (svd_S t) (svd_U t)
                  = Some u' /\
                  st cs0 ii (Some (qmam K (block_Qr t) u' (new_rank t)))
                  = Some cs
           else cs = cs0 /\
                exists val,
                  dmrg_update_right K Psi_k cb1 (rl_core_k1 K t) = Some val /\
                  slot_of s' psi (ii - 1) = Some (Some val)).
Proof.
  intros Hfa Hfb Hft Hii Hcols.
  assert (Hlt : (p < length (trains s))%nat) by by eapply train_of_lt.
  unfold sweep_rl_step.
  wp_head. wp_head. rewrite Hfa.
  wp_head. wp_head. rewrite Hfb.
  wp_head. wp_head.
  destruct (ld (cores fb) ii) as [[cb|]|] eqn:Hcb; [|done..]. cbv zeta.
  pose proof (Hcols _ _ Hcb) as Hdt.
  set (first := bool_decide (ii = 0)).
  set (lsize := if first then 1 else cols_at fa (ii - 1)).
  eapply (wp_seq _ _ _ _ (fun r s' => r = lsize /\ s' = s)).
  { unfold lsize, cols_at. destruct first; [done|].
    wp_head. wp_head.
    by destruct (ld (cores fa) (ii - 1)) as [[ca0|]|]. }
  intros ? ? [-> ->].
  wp_head. wp_head.
  destruct (ld (cores fb) (ii + 1)) as [[cb1|]|] eqn:Hcb1; [|done..].
  wp_head. wp_head. unfold slot_of.
  destruct (array_of s psi) as [apsi|] eqn:Hapsi; [|done].
  destruct (ld apsi ii) as [[Psi_k|]|] eqn:Hpsi; [|done..].
  destruct (qmarray_householder_simple K "LQ" _ _) as [templ L] eqn:Hlq.
  wp_head. wp_head.
  destruct (array_of s phi) as [aphi|] eqn:Haphi; [|done].
  destruct (ld aphi ii) as [[Phi_k|]|] eqn:Hphi; [|done..].
  destruct (qmarray_householder_simple K "QR" _ _) as [tempr R] eqn:Hqr.
  destruct (truncated_svd K _ _ _ _ _) as [[[rank u] sv] vt] eqn:Hsplit.
  pose proof (two_core_update_eq _ _ _ _ _ _ _ _ _ _ _ _ _ _ _
                Hdt Hlq Hqr Hsplit) as Ht.
  unfold array_of in Hapsi, Haphi.
  destruct (arrays s !! psi) as [[?|]|] eqn:Hapsi'; simplify_eq.
  destruct (arrays s !! phi) as [[?|]|] eqn:Haphi'; simplify_eq.
  wp_head. wp_head. rewrite Hft.
  destruct (st (ranks ft) (ii + 1) rank) as [rs|] eqn:Hrs; [|done].
  wp_head. wp_head. rewrite train_of_insert by done.
  cbn [cores ranks dim].
  destruct (st (cores ft) (ii + 1) _) as [cs0|] eqn:Hcs0; [|done].
  cbn [trains arrays]. rewrite list_insert_insert_eq.
  assert (Hcase : negb first = bool_decide (ii > 0)).
  { unfold first. rewrite <- bool_decide_not. apply bool_decide_ext. lia. }
  rewrite <- Hcase. clear Hcase.
  assert (Hret : forall (s1 : state) (Q : Z -> state -> Prop),
            Q (rows_at fa (ii + 1)) s1 ->
            wp anyf (ca1 <- core_at fa (ii + 1) ;; ret (nrows ca1)) s1 Q).
  { intros s1 Q HQ. wp_head. wp_head. unfold rows_at in HQ.
    by destruct (ld (cores fa) (ii + 1)) as [[ca|]|]. }
  destruct first eqn:Hfirst; cbn [negb].
  - wp_head. wp_head. wp_head.
    destruct (scale_u (ncols cb) rank sv u) as [u'|] eqn:Hu; [|done].
    wp_head. rewrite train_of_insert by done. cbn [cores ranks dim].
    destruct (st cs0 ii _) as [cs|] eqn:Hcs; [|done].
    cbn [trains arrays]. rewrite list_insert_insert_eq.
    wp_head. wp_head. apply Hret. split; [done|].
    exists cb, cb1, Phi_k, Psi_k.
    split_and!; [done..|]. cbv zeta. rewrite Ht.
    cbn [new_rank svd_S svd_U block_Qr]. unfold rl_core_k1.
    cbn [new_rank svd_Vt block_Ql].
    exists rs, cs0, cs. split; [done|]. split; [done|].
    split; [by rewrite train_of_insert|]. eauto.
  - wp_head. wp_head. wp_head. wp_head. wp_head.
    unfold array_of. cbn [arrays]. rewrite Hapsi'.
    destruct (st _ (ii - 1) None) as [apsi1|] eqn:Hfree; [|done].
    wp_head. wp_head. unfold array_of. cbn [arrays].
    rewrite list_lookup_insert_eq by by eapply lookup_lt_Some.
    erewrite ld_st_ne; [|exact Hfree|lia]. rewrite Hpsi.
    wp_head. wp_head. cbn [trains arrays].
    rewrite train_of_insert by done.
    wp_head. wp_head. cbn [cores].
    erewrite ld_st; [|exact Hcs0|lia].
    rewrite bool_decide_eq_true_2 by done.
    wp_head. wp_head.
    destruct (dmrg_update_right K Psi_k cb1 _) as [val|] eqn:Hval; [|done].
    wp_head. unfold array_of. cbn [arrays].
    rewrite list_lookup_insert_eq by by eapply lookup_lt_Some.
    destruct (st apsi1 (ii - 1) (Some val)) as [apsi2|] eqn:Hset; [|done].
    apply Hret. split; [done|].
    exists cb, cb1, Phi_k, Psi_k.
    split_and!; [done..|]. cbv zeta. rewrite Ht.
    cbn [new_rank svd_S svd_U block_Qr]. unfold rl_core_k1.
    cbn [new_rank svd_Vt block_Ql].
    exists rs, cs0, cs0. split; [done|]. split; [done|].
    split; [cbn [trains]; by rewrite train_of_insert|].
    split; [done|]. exists val. split; [done|].
    cbn [arrays]. rewrite list_insert_insert_eq.
    rewrite list_lookup_insert_eq by by eapply lookup_lt_Some.
    pose proof (st_Some _ _ _ _ Hfree) as [Hrange _].
    erewrite ld_st; [|exact Hset|lia].
    by rewrite bool_decide_eq_true_2.
Qed.

(** What a step of the right-to-left sweep leaves alone. *)
Lemma sweep_rl_step_frame (s : state) a (p : nat) b phi psi eps ii rsize
    (ft : FunctionTrain GF) :
  train_of s p = Some ft -> phi <> psi ->
  wp anyf (sweep_rl_step K a b phi psi eps (Some p) ii rsize) s
    (fun _ s' =>
       (forall q, q <> p -> train_of s' q = train_of s q) /\
       (forall k, slot_of s' phi k = slot_of s phi k) /\
       (forall k, k <> ii - 1 -> slot_of s' psi k = slot_of s psi k)).
Proof.
  intros Hft Hne.
  pose proof (train_of_lt _ _ _ Hft) as Hlt.
  apply wp_and.
  - eapply wp_weaken; [by apply (sweep_rl_step_effect K s a)| |done].
    simpl. intros _ s' (? & ? & ? & ? & ? & _ & _ & _ & Hs') q Hq.
    unfold train_of. rewrite Hs'. by rewrite list_lookup_insert_ne.
  - eapply wp_weaken;
      [apply (sweep_rl_step_touches K 0
                (fun arr i => arr = psi /\ i = ii - 1) s);
       [lia|done|apply touches_refl]| |done].
    simpl. intros _ s' (_ & _ & _ & Hs). split.
    + intros k. apply Hs. naive_solver.
    + intros k Hk. apply Hs. naive_solver.
Qed.

Lemma sweep_rl_loop_chain (s0 : state) (a b p : nat) phi psi eps
    (fa fb : FunctionTrain GF) :
  p <> a -> p <> b -> phi <> psi ->
  (forall k c, ld (cores fb) k = Some (Some c) -> 0 <= ncols c < 2 ^ 31) ->
  forall fuel ii rsize (s : state) (ft : FunctionTrain GF),
  Z.of_nat fuel = ii + 1 -> ii <= dim fa - 2 ->
  train_of s a = Some fa -> train_of s b = Some fb ->
  train_of s p = Some ft ->
  rsize = (if bool_decide (ii = dim fa - 2) then 1 else rows_at fa (ii + 2)) ->
  (forall k, slot_of s phi k = slot_of s0 phi k) ->
  (forall k, ii < k <= dim fa - 2 ->
     rl_updated K s0 s phi psi eps fa fb ft k) ->
  wp anyf
    (sweep_rl_loop K fuel (Some a) (Some b) phi psi eps (Some p) ii rsize) s
    (fun _ s' =>
       exists ft', train_of s' p = Some ft' /\
         forall k, 0 <= k <= dim fa - 2 ->
           rl_updated K s0 s' phi psi eps fa fb ft' k).
Proof.
  intros Hpa Hpb Hne Hcols fuel.
  induction fuel as [|fuel IH];
    intros ii rsize s ft Hfuel Hii Hfa Hfb Hft Hrsize Hphi Hdone.
  - apply wp_ret. exists ft. split; [done|]. intros k Hk. apply Hdone. lia.
  - cbn [sweep_rl_loop].
    eapply wp_seq.
    { apply wp_and.
      - by apply (sweep_rl_step_frame s (Some a) p (Some b) phi psi eps ii
                    rsize ft).
      - apply (sweep_rl_step_exact s a b p phi psi eps ii rsize fa fb ft);
          [done..|lia|done]. }
    simpl.
    intros r s1 [(Htr & Hphi1 & Hpsi1)
                 (-> & cb & cb1 & Phi_k & Psi_k & Hcb & Hcb1 & HPhi & HPsi
                  & rs & cs0 & cs & Hrs & Hcs0 & Hft1 & Hfirst)].
    cbv zeta in *.
    set (t := two_core_update K Phi_k Psi_k cb cb1
                (if bool_decide (ii = 0) then 1 else cols_at fa (ii - 1))
                rsize eps) in *.
    assert (Hcs : forall k, ii + 1 < k -> ld cs k = ld (cores ft) k).
    { intros k Hk. case_bool_decide.
      - destruct Hfirst as (u' & _ & Hcs).
        rewrite (ld_st_ne _ _ _ _ _ Hcs) by lia.
        by rewrite (ld_st_ne _ _ _ _ _ Hcs0) by lia.
      - destruct Hfirst as [-> _].
        by rewrite (ld_st_ne _ _ _ _ _ Hcs0) by lia. }
    assert (Hcsi : ld cs (ii + 1) = Some (Some (rl_core_k1 K t))).
    { assert (ld cs0 (ii + 1) = Some (Some (rl_core_k1 K t))) as Hcs0i.
      { rewrite (ld_st _ _ _ _ _ Hcs0) by lia.
        by rewrite bool_decide_eq_true_2. }
      case_bool_decide.
      - destruct Hfirst as (u' & _ & Hcs').
        by rewrite (ld_st_ne _ _ _ _ _ Hcs') by lia.
      - by destruct Hfirst as [-> _]. }
    eapply IH; [lia|lia| | |exact Hft1| | |].
    + by rewrite Htr.
    + by rewrite Htr.
    + rewrite bool_decide_eq_false_2 by lia. f_equal. lia.
    + intros k. by rewrite Hphi1.
    + intros k Hk. destruct (decide (k = ii)) as [->|Hki].
      * exists cb, cb1, Phi_k, Psi_k.
        split_and!; [done|done|by rewrite <- Hphi
                    |by rewrite Hpsi1 by lia|].
        cbv zeta. rewrite <- Hrsize. fold t. cbn [ranks cores].
        split; [|split; [done|]].
        { rewrite (ld_st _ _ _ _ _ Hrs) by lia.
          by rewrite bool_decide_eq_true_2. }
        case_bool_decide as Hz.
        -- destruct Hfirst as (u' & Hu' & Hcs').
           exists u'. split; [done|].
           rewrite <- Hz at 1.
           rewrite (ld_st _ _ _ _ _ Hcs') by lia.
           by rewrite bool_decide_eq_true_2.
        -- by destruct Hfirst as [_ Hval].
      * destruct (Hdone k ltac:(lia))
          as (cb' & cb1' & Phi' & Psi' & Hcb' & Hcb1' & HPhi' & HPsi'
              & Hrank' & Hcore' & Hfirst').
        exists cb', cb1', Phi', Psi'.
        split_and!; [done|done|done|by rewrite Hpsi1 by lia|].
        cbv zeta in *. cbn [ranks cores].
        split; [|split].
        { by rewrite (ld_st_ne _ _ _ _ _ Hrs) by lia. }
        { by rewrite Hcs by lia. }
        rewrite bool_decide_eq_false_2 in Hfirst' |- * by lia.
        destruct Hfirst' as (val & Hval & Hslot).
        exists val. split; [done|]. by rewrite Hpsi1 by lia.
Qed.

Lemma dmrg_sweep_rl_chain (s : state) (a b : nat) phi psi eps
    (fa fb : FunctionTrain GF) :
  train_of s a = Some fa -> train_of s b = Some fb ->
  2 <= dim fa <= 2 ^ 31 -> phi <> psi ->
  (forall k c, ld (cores fb) k = Some (Some c) -> 0 <= ncols c < 2 ^ 31) ->
  wp anyf (dmrg_sweep_rl K (Some a) (Some b) phi psi eps) s (fun na s' =>
    exists ft, na ≫= train_of s' = Some ft /\
      forall k, 0 <= k <= dim fa - 2 ->
        rl_updated K s s' phi psi eps fa fb ft k).
Proof.
  intros Hfa Hfb Hd Hne Hcols.
  pose proof (train_of_lt _ _ _ Hfa) as Hlta.
  pose proof (train_of_lt _ _ _ Hfb) as Hltb.
  destruct (small_dim _ Hd) as [Htop Hint].
  unfold dmrg_sweep_rl.
  apply wp_bind, wp_get_train. rewrite Hfa.
  eapply sweep_enters_any; [done..|].
  intros s2 ft0 Harr Hold Hnew.
  cbv zeta. rewrite Htop, Hint.
  assert (Hloop : forall s3 : state,
            trains s3 = trains s2 ->
            (forall k, slot_of s3 phi k = slot_of s phi k) ->
            wp anyf
              (sweep_rl_loop K (Z.to_nat (dim fa - 2 + 1)) (Some a)
                 (Some b) phi psi eps (Some (length (trains s)))
                 (dim fa - 2) 1 ;;;
               ret (Some (length (trains s)))) s3
              (fun na s' =>
                 exists ft, na ≫= train_of s' = Some ft /\
                   forall k, 0 <= k <= dim fa - 2 ->
                     rl_updated K s s' phi psi eps fa fb ft k)).
  { intros s3 Htr Hphi.
    assert (Htrain : forall q, train_of s3 q = train_of s2 q)
      by (intros q; unfold train_of; by rewrite Htr).
    apply wp_bind.
    eapply wp_weaken;
      [eapply (sweep_rl_loop_chain s a b (length (trains s)) phi psi eps
                 fa fb); try done| |done].
    - lia.
    - lia.
    - lia.
    - by rewrite Htrain, Hold.
    - by rewrite Htrain, Hold.
    - by rewrite Htrain.
    - by rewrite bool_decide_eq_true_2.
    - intros k Hk. lia.
    - simpl. intros _ s4 (ft & Hft & Hall). apply wp_ret.
      exists ft. split; [done|]. apply Hall. }
  wp_head. wp_head.
  destruct (array_of s2 psi) as [apsi|] eqn:Hapsi; [|done].
  destruct (ld apsi (dim fa - 2)) as [p0|] eqn:Hp0; [|done].
  apply wp_bind. destruct p0 as [buf|].
  - apply wp_ret. apply Hloop; [done|].
    intros k. unfold slot_of. by rewrite Harr.
  - apply wp_slot_set. rewrite Hapsi.
    destruct (st apsi (dim fa - 2) (Some [done_])) as [apsi'|] eqn:Hset;
      [|done].
    apply Hloop; [done|].
    intros k. unfold slot_of. cbn [arrays].
    rewrite list_lookup_insert_ne by done. by rewrite Harr.
Qed.


End ChainOfUpdates.

(** The cores of the target of the runs have one or two columns. *)
Lemma unit_target_columns k c :
  ld (cores Run.unit_target) k = Some (Some c) -> 0 <= ncols c < 2 ^ 31.
Proof.
  intros [Hk Hc]%ld_Some.
  destruct (Z.to_nat k) as [|[|[|n]]]; simplify_eq/=; lia.
Qed.



(** * The shapes of the cores of a sweep output *)

Section OutputRanks.

Context {D GF : Type} `{Arith D}.
Variable K : Collab D GF.
Hypothesis Hshapes : keeps_shapes K.

#[local] Abbreviation state := (state D GF).

Lemma new_core_k_shape (Phi_k Psi_k : list D) (cb cb1 : Qmarray GF)
    lsize rsize eps :
  let t := two_core_update K Phi_k Psi_k cb cb1 lsize rsize eps in
  nrows (new_core_k K t) = lsize /\ ncols (new_core_k K t) = new_rank t.
Proof.
  destruct Hshapes as (Hqmam & Hmqma & Hhouse). cbv zeta.
  unfold new_core_k. split; [|apply Hqmam].
  destruct (Hqmam (block_Qr (two_core_update K Phi_k Psi_k cb cb1 lsize
                               rsize eps))
              (svd_U (two_core_update K Phi_k Psi_k cb cb1 lsize rsize eps))
              (new_rank (two_core_update K Phi_k Psi_k cb cb1 lsize rsize
                           eps))) as [-> _].
  unfold two_core_update. cbn [block_Qr].
  destruct (Hhouse "QR"%string (mqma K Phi_k cb lsize)
              (replicate (Z.to_nat (ncols cb * ncols cb)) dzero)) as [-> _].
  apply Hmqma.
Qed.

Lemma rl_core_k1_shape (Phi_k Psi_k : list D) (cb cb1 : Qmarray GF)
    lsize rsize eps :
  let t := two_core_update K Phi_k Psi_k cb cb1 lsize rsize eps in
  nrows (rl_core_k1 K t) = new_rank t /\ ncols (rl_core_k1 K t) = rsize.
Proof.
  destruct Hshapes as (Hqmam & Hmqma & Hhouse). cbv zeta.
  unfold rl_core_k1. split; [apply Hmqma|].
  destruct (Hmqma (svd_Vt (two_core_update K Phi_k Psi_k cb cb1 lsize rsize
                             eps))
              (block_Ql (two_core_update K Phi_k Psi_k cb cb1 lsize rsize
                           eps))
              (new_rank (two_core_update K Phi_k Psi_k cb cb1 lsize rsize
                           eps))) as [_ ->].
  unfold two_core_update. cbn [block_Ql].
  destruct (Hhouse "LQ"%string (qmam K cb1 Psi_k rsize)
              (replicate (Z.to_nat (ncols cb * ncols cb)) dzero)) as [_ ->].
  apply Hqmam.
Qed.

(** X15. With collaborators that return blocks of the shapes they are
    asked for, the output of a left-to-right sweep that returns links its
    cores to its ranks on the right only: core [k], for [k <= dim - 2],
    has [ranks[k + 1]] columns, the new rank, but as many rows as core
    [k - 1] of the guess has columns (one row for [k = 0]): the rank of
    the guess at that cut, not [ranks[k]]; the last core has
    [ranks[dim - 1]] rows and one column.  The output is a chain only
    where every new rank equals the rank of the guess. *)
Theorem lr_output_rows_keep_the_guess_ranks (s : state) (a b : nat)
    (phi psi : nat) (epsilon : D) (fa fb : FunctionTrain GF)
    (na : ptr) (s' : state) (out : list event) :
  train_of s a = Some fa -> train_of s b = Some fb ->
  2 <= dim fa <= 2 ^ 31 -> phi <> psi ->
  (forall k c, ld (cores fb) k = Some (Some c) -> 0 <= ncols c < 2 ^ 31) ->
  dmrg_sweep_lr K (Some a) (Some b) phi psi epsilon s = Ok na s' out ->
  exists ft, na ≫= train_of s' = Some ft /\
    (forall k, 0 <= k <= dim fa - 2 ->
       exists c, ld (cores ft) k = Some (Some c) /\
         ld (ranks ft) (k + 1) = Some (ncols c) /\
         nrows c = if bool_decide (k = 0) then 1 else cols_at fa (k - 1)) /\
    (exists c, ld (cores ft) (dim fa - 1) = Some (Some c) /\
       ld (ranks ft) (dim fa - 1) = Some (nrows c) /\ ncols c = 1).
Proof.
  intros Hfa Hfb Hd Hne Hcols Hrun.
  destruct (wp_ok _ _ _ _ _ _ _
              (dmrg_sweep_lr_chain K s a b phi psi epsilon fa fb
                 Hfa Hfb Hd Hne Hcols) Hrun) as (ft & Hft & Hall).
  exists ft. split; [done|]. split.
  - intros k Hk.
    destruct (Hall k Hk) as (cb & cb1 & Phi_k & Psi_k & _ & _ & _ & _ & Hup).
    cbv zeta in Hup. destruct Hup as (Hrank & Hcore & _).
    eexists. split; [exact Hcore|].
    destruct (new_core_k_shape Phi_k Psi_k cb cb1
                (if bool_decide (k = 0) then 1 else cols_at fa (k - 1))
                (if bool_decide (k = dim fa - 2) then 1
                 else cols_at fa (k + 1)) epsilon) as [Hrows Hcolumns].
    by rewrite Hcolumns.
  - destruct (Hall (dim fa - 2) ltac:(lia))
      as (cb & cb1 & Phi_k & Psi_k & _ & _ & _ & _ & Hup).
    cbv zeta in Hup.
    rewrite (bool_decide_eq_true_2 (dim fa - 2 = dim fa - 2)) in Hup by done.
    set (t := two_core_update K Phi_k Psi_k cb cb1 _ 1 epsilon) in Hup.
    destruct Hup as (Hrank & _ & (vt' & _ & Hcore)).
    replace (dim fa - 2 + 1) with (dim fa - 1) in Hcore, Hrank by lia.
    eexists. split; [exact Hcore|].
    destruct Hshapes as (Hqmam & Hmqma & Hhouse).
    destruct (Hmqma vt' (block_Ql t) (new_rank t)) as [-> ->].
    split; [done|].
    unfold t, two_core_update. cbn [block_Ql].
    destruct (Hhouse "LQ"%string (qmam K cb1 Psi_k 1)
                (replicate (Z.to_nat (ncols cb * ncols cb)) dzero))
      as [_ ->].
    apply Hqmam.
Qed.

(** X16. The same for a right-to-left sweep that returns, on the other
    side: core [k + 1], for [k <= dim - 2], has [ranks[k + 1]] rows, the
    new rank, but as many columns as core [k + 2] of the guess has rows
    (one column for [k = dim - 2]); the first core has one row and
    [ranks[1]] columns. *)
Theorem rl_output_columns_keep_the_guess_ranks (s : state) (a b : nat)
    (phi psi : nat) (epsilon : D) (fa fb : FunctionTrain GF)
    (na : ptr) (s' : state) (out : list event) :
  train_of s a = Some fa -> train_of s b = Some fb ->
  2 <= dim fa <= 2 ^ 31 -> phi <> psi ->
  (forall k c, ld (cores fb) k = Some (Some c) -> 0 <= ncols c < 2 ^ 31) ->
  dmrg_sweep_rl K (Some a) (Some b) phi psi epsilon s = Ok na s' out ->
  exists ft, na ≫= train_of s' = Some ft /\
    (forall k, 0 <= k <= dim fa - 2 ->
       exists c, ld (cores ft) (k + 1) = Some (Some c) /\
         ld (ranks ft) (k + 1) = Some (nrows c) /\
         ncols c = if bool_decide (k = dim fa - 2) then 1
                   else rows_at fa (k + 2)) /\
    (exists c, ld (cores ft) 0 = Some (Some c) /\
       ld (ranks ft) 1 = Some (ncols c) /\ nrows c = 1).
Proof.
  intros Hfa Hfb Hd Hne Hcols Hrun.
  destruct (wp_ok _ _ _ _ _ _ _
              (dmrg_sweep_rl_chain K s a b phi psi epsilon fa fb
                 Hfa Hfb Hd Hne Hcols) Hrun) as (ft & Hft & Hall).
  exists ft. split; [done|]. split.
  - intros k Hk.
    destruct (Hall k Hk) as (cb & cb1 & Phi_k & Psi_k & _ & _ & _ & _ & Hup).
    cbv zeta in Hup. destruct Hup as (Hrank & Hcore & _).
    eexists. split; [exact Hcore|].
    destruct (rl_core_k1_shape Phi_k Psi_k cb cb1
                (if bool_decide (k = 0) then 1 else cols_at fa (k - 1))
                (if bool_decide (k = dim fa - 2) then 1
                 else rows_at fa (k + 2)) epsilon) as [Hrows Hcolumns].
    by rewrite Hrows.
  - destruct (Hall 0 ltac:(lia))
      as (cb & cb1 & Phi_k & Psi_k & _ & _ & _ & _ & Hup).
    cbv zeta in Hup.
    rewrite (bool_decide_eq_true_2 (0 = 0)) in Hup by done.
    set (t := two_core_update K Phi_k Psi_k cb cb1 1 _ epsilon) in Hup.
    destruct Hup as (Hrank & _ & (u' & _ & Hcore)).
    change (0 + 1) with 1 in Hrank.
    eexists. split; [exact Hcore|].
    destruct Hshapes as (Hqmam & Hmqma & Hhouse).
    destruct (Hqmam (block_Qr t) u' (new_rank t)) as [-> ->].
    split; [done|].
    unfold t, two_core_update. cbn [block_Qr].
    destruct (Hhouse "QR"%string (mqma K Phi_k cb 1)
                (replicate (Z.to_nat (ncols cb * ncols cb)) dzero))
      as [-> _].
    apply Hmqma.
Qed.

End OutputRanks.

(** The plain collaborators return the shapes they are asked for. *)
Lemma plain_keeps_shapes : keeps_shapes (Plain.plain (D := float)).
Proof. split_and!; intros; split; reflexivity. Qed.

Lemma lr_output_rows_keep_the_guess_ranks_run :
  match dmrg_sweep_lr Plain.plain (Some 0%nat) (Some 1%nat) 0 1 0%float
          Run.heap4 with
  | Ok na s' _ =>
      exists ft, na ≫= train_of s' = Some ft /\
        (exists c, ld (cores ft) 1 = Some (Some c) /\
           ld (ranks ft) 2 = Some (ncols c) /\ nrows c = 1) /\
        ld (ranks ft) 1 = Some 2
  | Fault _ => False
  end.
Proof.
  destruct (dmrg_sweep_lr Plain.plain (Some 0%nat) (Some 1%nat) 0 1 0%float
              Run.heap4) as [na s' out|f] eqn:Hrun.
  - destruct (lr_output_rows_keep_the_guess_ranks Plain.plain
                plain_keeps_shapes Run.heap4 0 1 0 1 0%float
                Run.unit_guess Run.unit_target na s' out)
      as (ft & Hft & Hall & _).
    + reflexivity.
    + reflexivity.
    + simpl; lia.
    + lia.
    + exact unit_target_columns.
    + exact Hrun.
    + exists ft. split; [exact Hft|]. split.
      * apply (Hall 1). simpl; lia.
      * vm_compute in Hrun. injection Hrun as <- <- _.
        injection Hft as <-. reflexivity.
  - vm_compute in Hrun. discriminate Hrun.
Defined.

Lemma rl_output_columns_keep_the_guess_ranks_run :
  match dmrg_sweep_rl Plain.plain (Some 2%nat) (Some 1%nat) 0 1 0%float
          XRun.heap6 with
  | Ok na s' _ =>
      exists ft, na ≫= train_of s' = Some ft /\
        (exists c, ld (cores ft) 1 = Some (Some c) /\
           ld (ranks ft) 1 = Some (nrows c) /\ ncols c = 2) /\
        (exists c, ld (cores ft) 0 = Some (Some c) /\
           ld (ranks ft) 1 = Some (ncols c) /\ nrows c = 1)
  | Fault _ => False
  end.
Proof.
  destruct (dmrg_sweep_rl Plain.plain (Some 2%nat) (Some 1%nat) 0 1 0%float
              XRun.heap6) as [na s' out|f] eqn:Hrun.
  - destruct (rl_output_columns_keep_the_guess_ranks Plain.plain
                plain_keeps_shapes XRun.heap6 2 1 0 1 0%float
                XRun.lr_output Run.unit_target na s' out)
      as (ft & Hft & Hall & Hfirst).
    + reflexivity.
    + reflexivity.
    + simpl; lia.
    + lia.
    + exact unit_target_columns.
    + exact Hrun.
    + exists ft. split; [exact Hft|]. split.
      * apply (Hall 0). simpl; lia.
      * exact Hfirst.
  - vm_compute in Hrun. discriminate Hrun.
Defined.
